(* ===== verification/_CoqProject ===== *)
-Q . S2P
Prelude.v
Sorting.v
F64.v
Itc.v
SmtBits.v
Smt.v
SmtSpec.v
SmtInv.v
SmtOps.v
SmtBuf.v
SmtProps.v
SmtProofs.v
Types.v
Dormancy.v
Acquisition.v
Velocity.v
CircuitBreaker.v
Custodial.v
IdleDecay.v
CrossZone.v
CrossZoneInv.v
CrossZoneProps.v
Merkle.v
MerkleProps.v
Records.v
Wire.v
WireCodec.v
RecordCodec.v
RecordProps.v
ZoneCommittee.v
EpochCommittee.v
Awc.v
AwcOps.v
AwcSettle.v
AwcCluster.v
AwcProps.v
AwcFinality.v
SeenSet.v
XZoneRelay.v
XZoneRelayProps.v
Dht.v
DhtProps.v
Autoscaler.v
ZoneTransition.v
ZoneRegistry.v
ZoneRegistryProps.v
TransitionStore.v
TransitionNode.v
TransitionProps.v
TransitionBoot.v
LedgerOps.v
OpMetadata.v
Ledger.v
LedgerSeal.v
LedgerInv.v
LedgerSpec.v
LedgerSpecPool.v
LedgerSpecX.v
LedgerProps.v
Validation.v
ValidationProps.v
StakeProps.v
SealProps.v
RecordSigning.v
LedgerPreimage.v
Governance.v
GovernanceLedger.v
Conviction.v
GovernanceTally.v
GovernanceStake.v
GovernanceInv.v
GovernanceProps.v
