(* ===== verification/Prelude.v ===== *)
(** * Elara mesh: a verification library for the runtime's deterministic core

    The program is a Rust node of a record mesh.  Records are signed, gossiped,
    sealed into epochs per zone, and applied to a token ledger that every node
    must compute identically.  This library models the deterministic core that
    agreement rests on, and proves what makes it correct.  Paths below are
    those of the repository, which lives under [src/].

    ** The parts and how they interact

    - The token ledger, [src/accounting/ledger.rs].  [LedgerState::apply_op]
      consumes one parsed operation of one record.  It calls the cross-zone
      state machine ([cross_zone.rs]), the trackers ([velocity.rs],
      [acquisition.rs], [custodial.rs], [circuit_breaker.rs],
      [idle_decay.rs]) and the dormancy registry ([dormancy.rs]), and marks the
      accounts it touched as dirty.  Operations are read from record metadata and
      bound to the record by its content hash ([types.rs]).  [validate_op] of
      [validate.rs] admits an operation before.  [derive_ledger_tolerant] replays a record
      set through it; the epoch seal runs the transitions of [LedgerSeal].
    - The sparse Merkle tree, [crates/elara-smt].  Dirty accounts are rehashed
      into it; its root is what a light client checks balances against.
    - Interval tree clocks, [crates/elara-itc].  Causal stamps of records and
      their binary codec.
    - Records on the wire, [crates/elara-record]: the codec every record crosses
      the network in, the bytes its signatures cover, its zone and its slot;
      [src/identity.rs] signs them.
    - Seals and committees, [src/network/merkle.rs], [zone_committee.rs] and the
      builders of [cross_zone.rs]: the roots and proofs of an epoch, who signs
      them, and the witnesses the cross-zone quorum checks count.
    - Zones, [crates/elara-zone-autoscaler] and [src/network]: the autoscaler
      advises a split or merge, [auto_scale.rs] turns the advice into a
      transition seal ([zone_transition_seal.rs]), the handlers of
      [routes/transitions] collect signatures and vetoes for it in
      [transition_store.rs], the tick of [health.rs] finalizes it, writes it to
      disk and applies it to the registry ([zone_registry.rs]) that routes
      records to zones.
    - The consensus engine, [src/network/consensus.rs]: each epoch draws juries
      and committees; witnesses attest records and seals; the engine weighs
      their stake and diversity and moves records from pending to anchored,
      which is what lets the ledger's effects become final.
    - The cross-zone relay, in [consensus.rs], [pq_transport/router.rs] and
      [epoch.rs]: collects by gossip the signatures a transfer needs, attaches
      proofs to the locks of a seal, and submits the bundles that abort stuck
      transfers; what it hands over is checked by the transfer machine.
    - Governance, [src/accounting/governance.rs]: proposals are voted on with
      locked stake, directly or through delegates; [apply_governance_op] of
      [ledger.rs] applies a record to it and settles what is overdue; a passed
      proposal sets parameters within [limits.rs] or records an upgrade
      ([src/network/protocol_upgrade.rs]); [validate.rs] admits the records.
    - Peers, [crates/elara-dht]: the Kademlia table replicas are chosen from.

    ** Files

    - [Prelude]: outcomes (a Rust function returns, fails or panics; the
      release profile keeps overflow checks, so an overflow is [Panic]),
      machine integers, saturating and checked arithmetic, byte and string
      slices, [HashMap] lemmas, sums over maps, the development's tactics and
      hint databases.
    - [Sorting]: stable sorting by a key, as [sort_by_key] does it, and its
      uniqueness lemmas.
    - [F64]: the IEEE double operations the sources use, on Rocq's [SpecFloat].
    - [Itc]: [Id], [Event], [Stamp], [fill], [grow], the codec.
    - [SmtBits], [Smt]: paths, stores, layered rows, both store formats,
      [update], [delete], proofs, [verify], [commit].  [SmtSpec] gives the
      reference: the hash of the complete depth-256 tree of a finite map.
      [SmtInv], [SmtOps], [SmtBuf] carry the representation invariant through
      every operation; [SmtProps], [SmtProofs] state the results.
    - [Types]: constants, operation tags, claims, purposes.
    - [Dormancy], [Acquisition], [Velocity], [CircuitBreaker], [Custodial],
      [IdleDecay]: one module of [src/accounting] each.
    - [CrossZone]: the two-phase transfer machine, inclusion folds, quorums.
      [CrossZoneInv] its invariant and trace lemmas, [CrossZoneProps] results.
    - [Merkle], [MerkleProps]: layered roots and proofs of seals, the committee
      root and proof builders, witness signing; their results.
    - [Wire], [WireCodec], [RecordCodec], [RecordProps]: the reader and writer of
      fields and metadata with their codec lemmas, the record codec, its signing
      preimage, second signature, zones and slots; their results.
    - [ZoneCommittee]: both committee draws of zones.  [EpochCommittee]: the
      juries and committees of an epoch.  [Dht], [DhtProps]: routing table.
    - [Awc], [AwcOps]: state, verdicts and operations of [AWCConsensus].
      [AwcSettle], [AwcCluster], [AwcProps], [AwcFinality]: results on
      settlement, clustering, tallies, levels and the cascade.
    - [SeenSet]: the dedup set of [ingest.rs] and the queue it implements.
    - [XZoneRelay], [XZoneRelayProps]: collections, gossip handlers, emitter,
      aggregator and proof attachment; their results.
    - [Autoscaler], [ZoneTransition], [ZoneRegistry], [ZoneRegistryProps]: advice,
      transition seals and proposals, the registry and its rebuild.
    - [TransitionStore], [TransitionNode], [TransitionProps], [TransitionBoot]: the
      pending store, the handlers, tick and boot of a node ([handle] runs one
      event), the lifecycle and liveness results, and what a restart restores.
    - [Records], [LedgerOps], [Ledger]: the record fields the ledger reads, the
      operation type, and [apply_op] with its 22 arms.  [LedgerSeal]: the
      transitions of an epoch seal.
    - [OpMetadata]: operations in metadata, read and written.  [RecordSigning]:
      both signatures of a record.  [LedgerPreimage]: the content hash of ledger
      records and their construction.
    - [LedgerInv]: the ledger invariant.  [LedgerSpec], [LedgerSpecPool],
      [LedgerSpecX]: what each arm does, one lemma per arm.  [LedgerProps],
      [StakeProps], [SealProps]: the results.
    - [Validation]: [validate_op] of [validate.rs], the checks before an operation
      is stored or gossiped.  [ValidationProps] compares it with [apply_op]:
      [late_refusal] lists the rules left to the transition, [admission_only]
      those it does not repeat, and beyond them the two agree.
    - [Governance], [GovernanceLedger]: the state with every method, the tally,
      parameters, upgrades and operations; records and their admission.
      [Conviction]: the fixed-point time weighting is the exponential curve over
      the Standard Library's real numbers, up to a proved error.
      [GovernanceTally], [GovernanceStake]: what a settlement decides and which
      stake votes.  [GovernanceInv], [GovernanceProps]: the invariant through
      every method, histories, and the reasons of a change of status.

    ** Parameters

    Code outside the repository is a parameter.  The class [Externals] of this
    file holds SHA3, signature verification and the Unicode string functions;
    no theorem on the ledger assumes anything of them.  The tree's results name
    what they need of SHA3 as section hypotheses: that no hash of a node's 65
    bytes is the empty sentinel, that 32-byte accounts hash to distinct paths,
    that the sentinel is the hash of the empty string; the modules of examples
    instantiate the class with concrete functions for which they hold.  Binding
    needs no injectivity: [smt_binding] exhibits the collision that two
    contradicting proofs contain.  [Serializer] is [serde_json]'s text of
    metadata and of numbers, [SecondLeg] the second signature scheme, [Ipv6] the
    address parser of the standard library; [SealJson], [VetoJson] and the fields
    of [NodeEnv] are [serde_json] for seals, vetoes and pending entries, the
    identity table, the node's key and which writes to disk succeed;
    [ZoneStore] is what a snapshot reads from storage; [HashOrder] and
    [StringOrder] are the order a hash map is walked in, any permutation of its
    entries.  [RelayEnv] is what the relay looks up: the members of a committee,
    their keys and the seals in store.  [OpJson] and
    [ValueText] are [serde] for the compound fields of operations and for values,
    [Signers] the two signature schemes.  [FloatText] is the standard library's
    text of doubles, which parameters are parsed from and shown in.  The consensus engine takes the number of
    zones, a process-wide setting, as [zone_count].

    ** What is proved

    - Ledger: every unit of supply is accounted for after every successful
      operation; an error changes nothing but default entries and the profile of
      the creator; no panic outside the listed hazards; records apply at most once; supply enters by an
      authorised mint only; only the owner or the authority takes from an
      account; the dirty set misses no account; replay terminates in a
      conserved ledger; seal-time settlement, idle decay and expiry conserve;
      the staker index agrees with the stakes.
    - Cross-zone: a locked amount is released at most once over any trace; the
      quorum checks accept exactly what they document.
    - Tree: refinement of a finite map under any history, completeness of
      proofs, binding.
    - Clocks: forks partition, events move forward, joins lose nothing, the
      codec round trips and rejects what it cannot carry.
    - Records: every record within the limits round trips; decoding is total and
      yields only records that can be encoded again; equal signed bytes mean
      equal records up to the three lengths the preimage leaves out; a signed
      record carries what it was signed over and a refused one no signature.
    - Operations: each survives its metadata; equal content hashes mean equal
      operations (for names that are not numerals and compound fields that are
      arrays or objects); honest records pass the check
      of their hash before and after the wire.
    - Seals and committees: every sealed record has a proof both verifiers
      accept; an honest two thirds always pass the quorum check; the builders
      agree; the draws are canonical.
    - Zones: the hysteresis and the quorum are exact; the registry partitions the
      keys among its active leaves, a transition moves exactly the keys of the
      zones it closes, disjoint transitions commute and the rebuild does not
      depend on row order.  A node keeps the lifecycle of pending proposals
      through any events, applies exactly the vetted ones, carries an undisputed
      one into effect, and finds the open ones again after a restart.
    - Consensus: two disjoint sides never both settle while the denominator covers
      their stakes (a small committee's does not); verdicts do not depend on the order of attestations and
      weighing diversity only strengthens them; clusters are the connected
      components of the link relation; a witness counts once and never for its
      own record, in every reachable state; a record becomes final only for one
      of the listed reasons; the cascade over cross-zone parents ends; the
      indexed draw of a committee is the plain one.
    - Relay: an honest two thirds of a committee gets a stuck transfer aborted when
      the collection has room and the aggregator gets the ledger's lock,
      a sealed lock can be claimed, gossip cannot grow the collections past
      their bounds, the dedup set is a bounded queue.
    - Governance: the verdict is a function of the set of votes, with weights on the
      documented curve of conviction and without any saturation; no stake votes twice through delegation;
      counters, votes, delegations and parameters stay consistent through any
      history; every change of a status has its reason.
    - Peers: the table keeps its shape and the replica set is the nearest.
    - Trackers: exact acceptance conditions of each gate, lifecycle invariants.

    ** Bounds and fuel

    The clock codec decodes to [MAX_ITC_DEPTH] levels and ten varint groups as
    the code does; [join] and [leq] recurse on the sizes of both trees, which
    their fuel is.  The walks of the tree take at most [MAX_DEPTH] = 256 steps,
    their fuel, and the lemmas of [SmtOps] show that they stop before it runs
    out.  The layers of a Merkle tree halve, so a tree of n leaves is folded with
    fuel n, and the lemmas of [MerkleProps] show it is enough.  The metadata
    codec has the code's own depth limit.  [resolve] has the code's limit of 64
    hops; [registry_partition] states what holds within it.  The union-find of
    the clusters walks with the length of its array as fuel, which
    [clusters_total] shows to be enough; the recursion of
    [recompute_confirmation] has a depth, and [cascade_terminates] shows that a
    record's rank among its descendants suffices.  Everything else is
    structural.

    ** Findings

    [leq_incomplete] and [fork_overlap] of [Itc] prove two places where the
    clock crate does not do what it documents; the hazards of [apply_op] are
    the hypotheses of [apply_op_no_panic].  [parents_not_delimited] and
    [reemission_changes_zone] concern records, [eviction_race] and
    [subnet_limit_bypassed] the routing table, [recommendation_order_sensitive]
    the autoscaler, [fast_cadence_never_proposes] proposals,
    [resolve_depth_exceeded] and [rebuild_loses_nested_split] the registry,
    [tagged_signatures_refused], [lost_write_never_retried] and [same_tick_fork]
    the handlers and the tick, [bootstrap_draws_differ], [decay_double_settlement],
    [committee_double_settlement], [second_creator_keeps_vote] and
    [finality_withdrawn] the consensus engine, [forged_abort_starves] and
    [busy_ledger_loses_bundle] the relay, [whale_outvotes_three],
    [executor_chooses_the_parameter], [challenge_expires_at_once],
    [limits_admit_nan] and [nan_installed] governance, [numeric_names_collide],
    [legacy_jury_collides] and [nested_integers_change] content hashes, and
    [admitted_batch_panics] admission.  Three places where the documents of the code
    differ from it are stated with the theorems they concern: the quorum of vetoes
    ([pending_lifecycle]), the status of a proposal without quorum and the
    threshold of upgrades ([settlement_exact]).

    ** Not modelled, and why

    Node loops, transport, routes and SDKs are I/O around this core, and storage
    appears only as the tables the modelled code reads and writes.  The
    cryptographic primitives are third-party code and appear as parameters.
    The tree's legacy-to-compact migration and its sharded parallel flush are
    one-off or threaded drivers of the modelled operations.  Of the consensus
    engine, metrics, histograms and the trust score, which no verdict reads, and
    the wiring of persistence are left out; counters and log lines of the relay
    likewise.  Of [epoch.rs], the creation and parsing of seals and the loop
    around the modelled steps are left out: they read storage and the network at
    every step.  Of governance, the
    floating-point display variants of the weights and the life cycle of
    signature algorithms, which nothing calls, are left out.  Device delegation
    and the overlay of unsealed records are not modelled: they stand before
    [apply_op].
*)

From stdpp Require Export base gmap strings list fin_maps numbers sorting.
From Stdlib Require Export ZArith NArith Lia ZifyBool.
From Stdlib Require Export Strings.Byte.

(** ** Outcomes

    A Rust function of this code base ends in one of three ways: it returns a
    value, it returns an error of the crate's error type, or it panics (the
    release profile is compiled with [overflow-checks = true] and
    [panic = "unwind"], so an arithmetic overflow is a panic, not a wrap). *)

Inductive ElaraError :=
  | ELedger (msg : string)
  | EWire (msg : string)
  | ECrypto (msg : string)
  | EGovernance (msg : string).

Inductive outcome (A : Type) :=
  | Ok (a : A)
  | Err (e : ElaraError)
  | Panic.
Arguments Ok {A} a.
Arguments Err {A} e.
Arguments Panic {A}.

#[global] Instance outcome_ret : MRet outcome := fun A a => Ok a.
#[global] Instance outcome_bind : MBind outcome := fun A B f o =>
  match o with Ok a => f a | Err e => Err e | Panic => Panic end.
#[global] Instance outcome_fmap : FMap outcome := fun A B f o =>
  match o with Ok a => Ok (f a) | Err e => Err e | Panic => Panic end.

Lemma outcome_bind_Ok {A B} (o : outcome A) (f : A → outcome B) b :
  (o ≫= f) = Ok b ↔ ∃ a, o = Ok a ∧ f a = Ok b.
Proof. destruct o; naive_solver. Qed.

(** ** Bytes *)

#[global] Instance byte_EqDecision : EqDecision byte := Byte.byte_eq_dec.

(** [n as u8]: the low eight bits. *)
Definition byte_of_N (n : N) : byte :=
  match Byte.of_N (n mod 256) with Some b => b | None => Byte.x00 end.

Lemma to_N_byte_of_N n : Byte.to_N (byte_of_N n) = (n mod 256)%N.
Proof.
  unfold byte_of_N. destruct (Byte.of_N (n mod 256)) as [b|] eqn:E.
  - by apply Byte.to_of_N in E.
  - apply Byte.of_N_None_iff in E. pose proof (N.mod_lt n 256). lia.
Qed.

Lemma byte_of_to_N b : byte_of_N (Byte.to_N b) = b.
Proof.
  unfold byte_of_N. rewrite N.mod_small, Byte.of_to_N; [done|].
  pose proof (Byte.to_N_bounded b). lia.
Qed.

(** ** Bit operations on [N] used by the codecs *)

Lemma N_land_low_shiftl r b s : (r < 2 ^ s)%N → N.land r (N.shiftl b s) = 0%N.
Proof.
  intros Hr. apply N.bits_inj. intros i. rewrite N.land_spec, N.bits_0.
  destruct (N.lt_ge_cases i s) as [Hi|Hi].
  - rewrite N.shiftl_spec_low by lia. apply andb_false_r.
  - destruct (decide (r = 0%N)) as [->|Hr0]; [by rewrite N.bits_0|].
    rewrite N.bits_above_log2; [done|].
    assert (N.log2 r < s)%N; [|lia]. apply N.log2_lt_pow2; lia.
Qed.

Lemma N_lor_low_shiftl r b s :
  (r < 2 ^ s)%N → N.lor r (N.shiftl b s) = (r + b * 2 ^ s)%N.
Proof.
  intros Hr. pose proof (N_land_low_shiftl r b s Hr) as H0.
  rewrite <- N.lxor_lor by done. rewrite <- N.add_nocarry_lxor by done.
  by rewrite N.shiftl_mul_pow2.
Qed.

(** ** Machine integers

    Amounts, counters and epochs are [u64] values, modelled as [Z] in
    [0 .. U64_MAX].  [saturating_*] and [wrapping_*] are total; the plain
    operators of the source panic on overflow and are computations of the monad
    below. *)

Declare Scope elara_scope.
Delimit Scope elara_scope with elara.

Module U64.
Open Scope Z_scope.
Definition MAX : Z := 2 ^ 64 - 1.
Definition U128_MAX : Z := 2 ^ 128 - 1.
Definition sat_add (a b : Z) : Z := Z.min MAX (a + b).
Definition sat_sub (a b : Z) : Z := Z.max 0 (a - b).
Definition wrapping_add (a b : Z) : Z := (a + b) mod 2 ^ 64.
(** [x as u64] of a non-negative wider integer. *)
Definition as_u64 (a : Z) : Z := a mod 2 ^ 64.
(** [u128::saturating_mul]. *)
Definition sat_mul128 (a b : Z) : Z := Z.min U128_MAX (a * b).
Definition is_u64 (a : Z) : Prop := 0 <= a <= MAX.

(** Sum of a list with the saturating fold of the source. *)
Definition sat_sum (l : list Z) : Z := fold_left sat_add l 0.

Lemma as_u64_small a : 0 <= a <= MAX → as_u64 a = a.
Proof. intros H. apply Z.mod_small. unfold MAX in H. lia. Qed.

Lemma as_u64_bounds a : 0 <= as_u64 a <= MAX.
Proof. unfold as_u64, MAX. pose proof (Z.mod_pos_bound a (2 ^ 64)). lia. Qed.

Lemma fold_sat_add_bounds l acc :
  0 <= acc <= MAX → Forall is_u64 l → 0 <= fold_left sat_add l acc <= MAX.
Proof.
  intros Hacc Hl. revert acc Hacc. induction Hl as [|x l Hx _ IH]; intros acc Hacc; [done|].
  simpl. apply IH. unfold sat_add, is_u64, MAX in *. lia.
Qed.

Lemma sat_sum_bounds l : Forall is_u64 l → 0 <= sat_sum l <= MAX.
Proof. apply fold_sat_add_bounds. unfold MAX. lia. Qed.
End U64.

(** ** State and failure

    A method [&mut self -> Result<A>] is a function from the state to an outcome
    and a state: an error keeps the mutations made before it. *)

Definition M (S A : Type) : Type := S → outcome A * S.

#[global] Instance M_ret S : MRet (M S) := fun A a s => (Ok a, s).
#[global] Instance M_bind S : MBind (M S) := fun A B f m s =>
  match m s with
  | (Ok a, s') => f a s'
  | (Err e, s') => (Err e, s')
  | (Panic, s') => (Panic, s')
  end.

Section operations.
Context {S : Type}.
Definition get : M S S := fun s => (Ok s, s).
Definition gets {A} (f : S → A) : M S A := fun s => (Ok (f s), s).
Definition modify (f : S → S) : M S unit := fun s => (Ok tt, f s).
Definition throw {A} (e : ElaraError) : M S A := fun s => (Err e, s).
Definition panic {A} : M S A := fun s => (Panic, s).
(** A pure computation that can fail. *)
Definition lift {A} (o : outcome A) : M S A := fun s => (o, s).
(** [x.ok_or(e)?] *)
Definition ok_or {A} (x : option A) (e : ElaraError) : M S A :=
  match x with Some a => mret a | None => throw e end.
(** [return Err(e)] under a condition, then the rest of the body. *)
Definition require (b : bool) (e : ElaraError) : M S unit :=
  if b then mret tt else throw e.
(** [a + b] and [a - b] on [u64]: a panic outside the range. *)
Definition add_u64 (a b : Z) : M S Z :=
  if (a + b <=? U64.MAX)%Z then mret (a + b)%Z else panic.
Definition sub_u64 (a b : Z) : M S Z :=
  if (b <=? a)%Z then mret (a - b)%Z else panic.
Definition mul_u64 (a b : Z) : M S Z :=
  if (a * b <=? U64.MAX)%Z then mret (a * b)%Z else panic.
(** [iter().sum::<u64>()]. *)
Fixpoint sum_u64 (l : list Z) (acc : Z) : M S Z :=
  match l with
  | [] => mret acc
  | x :: l => acc ← add_u64 acc x; sum_u64 l acc
  end.
Fixpoint for_each {A} (f : A → M S unit) (l : list A) : M S unit :=
  match l with
  | [] => mret tt
  | x :: l => f x ;; for_each f l
  end.
Definition when (b : bool) (m : M S unit) : M S unit := if b then m else mret tt.
End operations.

(** *** Record fields as lenses *)

Class Setter {R T : Type} (proj : R → T) := set : (T → T) → R → R.
Arguments set {R T} proj {Setter} f r /.

(** Rebuilds a record with one projection changed, from its eta expansion. *)
Ltac derive_setter eta :=
  lazymatch goal with
  | |- @Setter ?R ?T ?proj =>
      let f := constr:(fun (g : T → T) (r : R) =>
        ltac:(let e := eval cbv beta delta [eta] in (eta r) in
              let e := eval pattern (proj r) in e in
              lazymatch e with ?h _ =>
                let t := eval cbv beta in (h (g (proj r))) in exact t end)) in
      exact f
  end.

Notation "s <| p := v |>" := (set p (fun _ => v) s)
  (at level 12, left associativity, format "s  <| p  :=  v |>") : elara_scope.
Notation "s <| p ::= f |>" := (set p f s)
  (at level 12, left associativity, format "s  <| p  ::=  f |>") : elara_scope.
Open Scope elara_scope.

(** The lemmas the components register for [eauto with elara]. *)
Create HintDb elara.

(** A method of a field, run on the enclosing state. *)
Definition zoom {S T A} (proj : S → T) `{!Setter proj} (m : M T A) : M S A := fun s =>
  let '(o, t) := m (proj s) in (o, s <| proj := t |>).

(** *** Weakest preconditions *)

Definition wp {S A} (m : M S A) (Q : outcome A → S → Prop) (s : S) : Prop :=
  Q (m s).1 (m s).2.

Section wp_rules.
Context {S : Type}.

Lemma wp_bind {A B} (m : M S A) (f : A → M S B) Q s :
  wp m (fun o s' => match o with
                    | Ok a => wp (f a) Q s'
                    | Err e => Q (Err e) s'
                    | Panic => Q Panic s'
                    end) s →
  wp (m ≫= f) Q s.
Proof. unfold wp, mbind, M_bind. by destruct (m s) as [[]]. Qed.

Lemma wp_mono {A} (m : M S A) (Q Q' : outcome A → S → Prop) s :
  wp m Q s → (∀ o s', Q o s' → Q' o s') → wp m Q' s.
Proof. unfold wp. auto. Qed.

Lemma wp_ret {A} (a : A) (Q : outcome A → S → Prop) s : Q (Ok a) s → wp (mret a) Q s.
Proof. done. Qed.
Lemma wp_get (Q : outcome S → S → Prop) s : Q (Ok s) s → wp get Q s.
Proof. done. Qed.
Lemma wp_gets {A} (f : S → A) Q s : Q (Ok (f s)) s → wp (gets f) Q s.
Proof. done. Qed.
Lemma wp_modify f Q (s : S) : Q (Ok tt) (f s) → wp (modify f) Q s.
Proof. done. Qed.
Lemma wp_throw {A} e (Q : outcome A → S → Prop) s : Q (Err e) s → wp (throw e) Q s.
Proof. done. Qed.

Lemma wp_ok_or {A} (x : option A) e (Q : outcome A → S → Prop) s :
  (∀ a, x = Some a → Q (Ok a) s) → (x = None → Q (Err e) s) → wp (ok_or x e) Q s.
Proof. intros H1 H2. destruct x; [by apply H1 | by apply H2]. Qed.

Lemma wp_require b e Q (s : S) :
  (b = true → Q (Ok tt) s) → (b = false → Q (Err e) s) → wp (require b e) Q s.
Proof. intros H1 H2. destruct b; [by apply H1 | by apply H2]. Qed.

Lemma wp_add_u64 a b Q (s : S) :
  ((a + b <= U64.MAX)%Z → Q (Ok (a + b)%Z) s) →
  ((U64.MAX < a + b)%Z → Q Panic s) → wp (add_u64 a b) Q s.
Proof.
  intros H1 H2. unfold add_u64. destruct (Z.leb_spec (a + b) U64.MAX); [by apply H1 | by apply H2].
Qed.

Lemma wp_sub_u64 a b Q (s : S) :
  ((b <= a)%Z → Q (Ok (a - b)%Z) s) → ((a < b)%Z → Q Panic s) → wp (sub_u64 a b) Q s.
Proof.
  intros H1 H2. unfold sub_u64. destruct (Z.leb_spec b a); [by apply H1 | by apply H2].
Qed.

Lemma wp_mul_u64 a b Q (s : S) :
  ((a * b <= U64.MAX)%Z → Q (Ok (a * b)%Z) s) →
  ((U64.MAX < a * b)%Z → Q Panic s) → wp (mul_u64 a b) Q s.
Proof.
  intros H1 H2. unfold mul_u64. destruct (Z.leb_spec (a * b) U64.MAX); [by apply H1 | by apply H2].
Qed.

Lemma wp_when b (m : M S unit) Q s :
  (b = true → wp m Q s) → (b = false → Q (Ok tt) s) → wp (when b m) Q s.
Proof. intros H1 H2. destruct b; [by apply H1 | by apply H2]. Qed.

Lemma wp_lift {A} (o : outcome A) (Q : outcome A → S → Prop) s : Q o s → wp (lift o) Q s.
Proof. done. Qed.
Lemma wp_if {A} (b : bool) (m1 m2 : M S A) Q s :
  (b = true → wp m1 Q s) → (b = false → wp m2 Q s) → wp (if b then m1 else m2) Q s.
Proof. destruct b; auto. Qed.

Lemma wp_zoom {T A} (proj : S → T) `{!Setter proj} (m : M T A) Q s :
  wp m (fun o t => Q o (s <| proj := t |>)) (proj s) → wp (zoom proj m) Q s.
Proof. unfold wp, zoom. by destruct (m (proj s)). Qed.

(** A loop whose body keeps [I] on success and leads to [Q] otherwise. *)
Lemma wp_for_each {A} (f : A → M S unit) (l : list A) (I : list A → S → Prop) Q s :
  I l s → (∀ s', I [] s' → Q (Ok tt) s') →
  (∀ x l' s', I (x :: l') s' →
     wp (f x) (fun o s'' => match o with Ok _ => I l' s'' | Err e => Q (Err e) s''
                                       | Panic => Q Panic s'' end) s') →
  wp (for_each f l) Q s.
Proof.
  intros H0 HQ Hf. revert s H0. induction l as [|x l IH]; intros s H0; simpl.
  - by apply wp_ret, HQ.
  - apply wp_bind. eapply wp_mono; [by apply Hf|]. intros [[]| |] s' H; auto.
Qed.
End wp_rules.

(** One symbolic step of a computation. *)
Ltac wp_step :=
  match goal with
  | |- wp (_ ≫= _) _ _ => apply wp_bind
  | |- wp (mret _) _ _ => apply wp_ret
  | |- wp get _ _ => apply wp_get
  | |- wp (gets _) _ _ => apply wp_gets
  | |- wp (modify _) _ _ => apply wp_modify
  | |- wp (throw _) _ _ => apply wp_throw
  | |- wp (ok_or _ _) _ _ => apply wp_ok_or; intros
  | |- wp (require _ _) _ _ => apply wp_require; intros
  | |- wp (add_u64 _ _) _ _ => apply wp_add_u64; intros
  | |- wp (sub_u64 _ _) _ _ => apply wp_sub_u64; intros
  | |- wp (mul_u64 _ _) _ _ => apply wp_mul_u64; intros
  | |- wp (when _ _) _ _ => apply wp_when; intros
  | |- wp (if _ then _ else _) _ _ => apply wp_if; intros
  | |- wp (let _ := _ in _) _ _ => intro
  end; cbv beta match.

(** Boolean guards of the code, as propositions. *)
Ltac bools :=
  repeat match goal with
  | H : negb _ = true |- _ => apply negb_true_iff in H
  | H : negb _ = false |- _ => apply negb_false_iff in H
  | H : _ && _ = true |- _ => apply andb_true_iff in H as [? ?]
  | H : _ || _ = false |- _ => apply orb_false_iff in H as [? ?]
  | H : bool_decide (¬ _) = false |- _ => apply bool_decide_eq_false, dec_stable in H
  | H : bool_decide _ = true |- _ => apply bool_decide_eq_true in H
  | H : bool_decide _ = false |- _ => apply bool_decide_eq_false in H
  | H : (_ =? _)%Z = true |- _ => apply Z.eqb_eq in H
  | H : (_ =? _)%Z = false |- _ => apply Z.eqb_neq in H
  | H : (_ <? _)%Z = true |- _ => apply Z.ltb_lt in H
  | H : (_ <? _)%Z = false |- _ => apply Z.ltb_ge in H
  | H : (_ <=? _)%Z = true |- _ => apply Z.leb_le in H
  | H : (_ <=? _)%Z = false |- _ => apply Z.leb_gt in H
  end.

(** ** Sums over a map *)

Section msum.
Context {V : Type} (f : V → Z).

Definition msum (m : gmap string V) : Z := map_fold (fun _ v acc => (f v + acc)%Z) 0%Z m.

Lemma msum_empty : msum ∅ = 0%Z.
Proof. done. Qed.

Lemma msum_insert_new k v m : m !! k = None → msum (<[k:=v]> m) = (f v + msum m)%Z.
Proof. intros H. unfold msum. rewrite map_fold_insert_L; [done|lia|done]. Qed.

Lemma msum_delete k v m : m !! k = Some v → msum m = (f v + msum (delete k m))%Z.
Proof.
  intros H. rewrite <- (insert_delete_id m k v H) at 1.
  by rewrite msum_insert_new by apply lookup_delete_eq.
Qed.

Lemma msum_insert k v m :
  msum (<[k:=v]> m) = (msum m + f v - from_option f 0 (m !! k))%Z.
Proof.
  destruct (m !! k) as [w|] eqn:E; simpl.
  - rewrite (msum_delete k w m E), <- insert_delete_eq.
    rewrite msum_insert_new by apply lookup_delete_eq. lia.
  - rewrite msum_insert_new by done. lia.
Qed.

Lemma msum_nonneg m : map_Forall (fun _ v => (0 <= f v)%Z) m → (0 <= msum m)%Z.
Proof.
  induction m as [|k v m Hk IH] using map_ind; intros H; [done|].
  rewrite msum_insert_new by done. apply map_Forall_insert in H as [? ?]; [|done].
  apply IH in H0. lia.
Qed.

Lemma msum_lookup_le k v m :
  map_Forall (fun _ v => (0 <= f v)%Z) m → m !! k = Some v → (f v <= msum m)%Z.
Proof.
  intros H E. rewrite (msum_delete k v m E).
  pose proof (msum_nonneg (delete k m) (map_Forall_delete _ _ k H)). lia.
Qed.

Lemma msum_filter (P : V → Prop) `{!∀ v, Decision (P v)} (m : gmap string V) :
  msum (filter (fun kv => P kv.2) m) =
  map_fold (fun _ v acc => ((if decide (P v) then f v else 0) + acc)%Z) 0%Z m.
Proof.
  induction m as [|k v m Hk IH] using map_ind; [done|].
  rewrite (map_fold_insert_L _ _ k v m) by (done || (intros; lia)). rewrite <- IH.
  case_decide as Hd.
  - rewrite map_filter_insert_True by done. apply msum_insert_new.
    by apply map_lookup_filter_None_2; left.
  - rewrite map_filter_insert_False by done. by rewrite delete_id.
Qed.
End msum.

Definition zsum (l : list Z) : Z := foldr Z.add 0%Z l.

Lemma zsum_app l k : zsum (l ++ k) = (zsum l + zsum k)%Z.
Proof. induction l as [|x l IH]; simpl; lia. Qed.

Lemma zsum_perm (l l' : list Z) : l ≡ₚ l' → zsum l = zsum l'.
Proof. induction 1; simpl; lia. Qed.
Lemma filter_all {A} (P : A → Prop) `{!∀ x, Decision (P x)} (l : list A) :
  Forall P l → filter P l = l.
Proof. induction 1 as [|x l Hx _ IH]; [done|]. rewrite filter_cons_True by done. by rewrite IH. Qed.

Lemma zsum_nonneg l : Forall (fun x => (0 <= x)%Z) l → (0 <= zsum l)%Z.
Proof. induction 1; simpl; lia. Qed.

Lemma zsum_filter {A} (P : A → Prop) `{!∀ x, Decision (P x)} (f : A → Z) (l : list A) :
  zsum (f <$> filter P l) = zsum ((fun x => if decide (P x) then f x else 0%Z) <$> l).
Proof.
  induction l as [|x l IH]; [done|]. rewrite filter_cons. csimpl.
  case_decide; csimpl; lia.
Qed.

Section msum_lists.
Context {V : Type}.
Implicit Types (f g : V → Z) (m : gmap string V).

Lemma msum_map_to_list f m : msum f m = zsum (f <$> (map_to_list m).*2).
Proof.
  induction m as [|k v m Hk IH] using map_ind; [by rewrite map_to_list_empty|].
  rewrite msum_insert_new by done. rewrite IH.
  assert (Hp : zsum (f <$> (map_to_list (<[k:=v]> m)).*2)
    = zsum (f <$> ((k, v) :: map_to_list m).*2)); [|by rewrite Hp].
  assert (G : ∀ l l' : list (string * V), l ≡ₚ l' → zsum (f <$> l.*2) = zsum (f <$> l'.*2)).
  { intros l l' H. induction H; csimpl; lia. }
  apply G, map_to_list_insert, Hk.
Qed.

Lemma msum_ext f g m : (∀ v, f v = g v) → msum f m = msum g m.
Proof.
  intros H. induction m as [|k v m Hk IH] using map_ind; [done|].
  rewrite !msum_insert_new by done. by rewrite IH, H.
Qed.

Lemma msum_plus f g m : msum (fun v => f v + g v)%Z m = (msum f m + msum g m)%Z.
Proof.
  induction m as [|k v m Hk IH] using map_ind; [done|].
  rewrite !msum_insert_new by done. lia.
Qed.

Lemma msum_fmap f (g : V → V) m : msum f (g <$> m) = msum (fun v => f (g v)) m.
Proof.
  induction m as [|k v m Hk IH] using map_ind; [by rewrite fmap_empty|].
  rewrite fmap_insert, !msum_insert_new; [by rewrite IH|done|].
  by rewrite lookup_fmap, Hk.
Qed.

Lemma msum_alter f (g : V → V) k m : (∀ v, f (g v) = f v) → msum f (alter g k m) = msum f m.
Proof.
  intros H. destruct (m !! k) as [v|] eqn:E.
  - rewrite <- (insert_id m k v E), alter_insert_eq, !msum_insert, E. simpl. by rewrite H.
  - rewrite alter_id; [done|]. intros x Ex. congruence.
Qed.

Lemma msum_filter_if f (P : V → Prop) `{!∀ v, Decision (P v)} m :
  msum f (filter (fun kv => P kv.2) m) = msum (fun v => if decide (P v) then f v else 0%Z) m.
Proof. by rewrite msum_filter. Qed.
End msum_lists.

(** ** Bytes as map keys, strings as bytes *)

#[global] Instance byte_Countable : Countable byte.
Proof.
  refine (inj_countable' Byte.to_N byte_of_N _). exact byte_of_to_N.
Defined.

Definition bytes_of (s : string) : list byte := String.list_byte_of_string s.

(** [x.to_be_bytes()] of a [w]-byte unsigned integer. *)
Fixpoint be_bytes (w : nat) (x : Z) : list byte :=
  match w with
  | O => []
  | S w => be_bytes w (x / 256) ++ [byte_of_N (Z.to_N (x mod 256))]
  end.

(** The order in which a [HashMap] with string keys is walked. *)
Class StringOrder := {
  walk {A} : gmap string A → list (string * A);
  walk_perm {A} (m : gmap string A) : walk m ≡ₚ map_to_list m;
}.

(** ** Services the code calls

    [sha3_256] is the hash of the [sha3] crate; [sig_verify] is
    [Identity::verify(..).unwrap_or(false)], the post-quantum signature check of
    the [pqcrypto] crates; [trim] and [to_lowercase] are the Unicode functions of
    [str]. *)
Class Externals := {
  sha3_256 : list byte → list byte;
  sha3_256_length d : length (sha3_256 d) = 32%nat;
  sig_verify : list byte → list byte → list byte → bool;
  trim : string → string;
  to_lowercase : string → string;
}.

(** An instance for evaluating examples: a toy checksum of the right length, a
    signature that is the message itself, and no Unicode normalisation. *)
Definition toy_sum (d : list byte) : Z :=
  fold_left (fun acc b => (acc * 257 + Z.of_N (Byte.to_N b) + 1) mod 2 ^ 61)%Z d 7%Z.
Program Definition toy_externals : Externals := {|
  sha3_256 d := be_bytes 32 (toy_sum d);
  sig_verify m s pk := bool_decide (s = m ++ pk);
  trim s := s;
  to_lowercase s := s;
|}.
Next Obligation. intros d. generalize (toy_sum d). intros z. by vm_compute. Qed.
