(* ===== verification/Sorting.v ===== *)
(** * Stable sorting and byte order

    Rust's [sort_by] is stable; the standard comparison of byte arrays is
    lexicographic.  Both are shared by the committee and routing components. *)

From Stdlib Require Import Structures.OrdersEx.
From S2P Require Import Prelude.
Open Scope Z_scope.

Section stable_sort.
Context {A : Type} (leb : A → A → bool).

Fixpoint sort_insert (x : A) (l : list A) : list A :=
  match l with
  | [] => [x]
  | y :: l' => if leb x y then x :: l else y :: sort_insert x l'
  end.
(** [v.sort_by(cmp)], with [leb x y] for [cmp(x, y) != Greater]. *)
Definition stable_sort (l : list A) : list A := foldr sort_insert [] l.

Lemma sort_insert_perm x l : sort_insert x l ≡ₚ x :: l.
Proof.
  induction l as [|y l IH]; simpl; [done|]. destruct (leb x y); [done|].
  by rewrite IH, Permutation_swap.
Qed.
Lemma stable_sort_perm l : stable_sort l ≡ₚ l.
Proof. induction l as [|x l IH]; simpl; [done|]. by rewrite sort_insert_perm, IH. Qed.
Lemma stable_sort_length l : length (stable_sort l) = length l.
Proof. by rewrite stable_sort_perm. Qed.

Definition sle (x y : A) : Prop := leb x y = true.
Context `{!Transitive sle} (total : ∀ x y, leb x y = true ∨ leb y x = true).

Lemma sort_insert_sorted x l : StronglySorted sle l → StronglySorted sle (sort_insert x l).
Proof.
  induction 1 as [|y l Hs IH Hy]; simpl; [by repeat constructor|].
  destruct (leb x y) eqn:E.
  - constructor; [by constructor|]. constructor; [done|].
    eapply Forall_impl; [apply Hy|]. intros z Hz. by transitivity y.
  - constructor; [done|]. rewrite sort_insert_perm. constructor; [|done].
    destruct (total x y) as [H|H]; [congruence|done].
Qed.
Lemma stable_sort_sorted l : StronglySorted sle (stable_sort l).
Proof. induction l as [|x l IH]; simpl; [constructor|by apply sort_insert_sorted]. Qed.
End stable_sort.

(** Sorting by a key whose order is antisymmetric: the sequence of keys depends
    on the multiset of keys only. *)
Section by_key.
Context {A K : Type} (key : A → K) (leb : K → K → bool).
Context `{!Transitive (sle leb), !AntiSymm (=) (sle leb)}.
Context (total : ∀ x y, leb x y = true ∨ leb y x = true).

Definition by_key_leb (x y : A) : bool := leb (key x) (key y).

#[global] Instance by_key_trans : Transitive (sle by_key_leb).
Proof. intros x y z. unfold sle, by_key_leb. apply (transitivity (R := sle leb)). Qed.

Lemma by_key_sorted l : StronglySorted (sle leb) (key <$> stable_sort by_key_leb l).
Proof.
  pose proof (stable_sort_sorted by_key_leb (fun x y => total (key x) (key y)) l) as H.
  induction H as [|x l' _ IH Hx]; csimpl; constructor; [done|]. by rewrite Forall_fmap.
Qed.

Lemma by_key_sort_perm l l' :
  key <$> l ≡ₚ key <$> l' → key <$> stable_sort by_key_leb l = key <$> stable_sort by_key_leb l'.
Proof.
  intros Hp. eapply (StronglySorted_unique (sle leb)); [apply by_key_sorted|apply by_key_sorted|].
  by rewrite !(stable_sort_perm by_key_leb).
Qed.

(** When the key tells the elements apart, so does the whole sequence. *)
Lemma by_key_sort_inj l l' :
  (∀ x y, x ∈ l → y ∈ l → key x = key y → x = y) → l ≡ₚ l' →
  stable_sort by_key_leb l = stable_sort by_key_leb l'.
Proof.
  intros Hinj Hp. apply (StronglySorted_unique_strong (sle by_key_leb)).
  - intros x y. rewrite !stable_sort_perm, <- Hp. intros Hx Hy H1 H2.
    apply Hinj; [done|done|]. by apply (anti_symm (sle leb)).
  - apply (stable_sort_sorted by_key_leb (fun x y => total (key x) (key y))).
  - apply (stable_sort_sorted by_key_leb (fun x y => total (key x) (key y))).
  - by rewrite !stable_sort_perm.
Qed.

Lemma by_key_sort_keys l : key <$> stable_sort by_key_leb l = stable_sort leb (key <$> l).
Proof.
  eapply (StronglySorted_unique (sle leb)); [apply by_key_sorted|by apply stable_sort_sorted|].
  by rewrite (stable_sort_perm by_key_leb), (stable_sort_perm leb).
Qed.
End by_key.

(** ** Lexicographic order of byte strings *)

Fixpoint bytes_leb (a b : list byte) : bool :=
  match a, b with
  | [], _ => true
  | _ :: _, [] => false
  | x :: a, y :: b =>
      if (Byte.to_N x <? Byte.to_N y)%N then true
      else if (Byte.to_N y <? Byte.to_N x)%N then false
      else bytes_leb a b
  end.

Lemma to_N_inj x y : Byte.to_N x = Byte.to_N y → x = y.
Proof. intros E. by rewrite <- (byte_of_to_N x), <- (byte_of_to_N y), E. Qed.

Lemma bytes_leb_total a b : bytes_leb a b = true ∨ bytes_leb b a = true.
Proof.
  revert b. induction a as [|x a IH]; intros [|y b]; simpl; auto.
  destruct (N.ltb_spec (Byte.to_N x) (Byte.to_N y)), (N.ltb_spec (Byte.to_N y) (Byte.to_N x)); auto.
Qed.
#[global] Instance bytes_leb_trans : Transitive (sle bytes_leb).
Proof.
  unfold sle. intros a. induction a as [|x a IH]; intros [|y b] [|z c]; simpl; try done.
  destruct (N.ltb_spec (Byte.to_N x) (Byte.to_N y)), (N.ltb_spec (Byte.to_N y) (Byte.to_N z)),
    (N.ltb_spec (Byte.to_N y) (Byte.to_N x)), (N.ltb_spec (Byte.to_N z) (Byte.to_N y)),
    (N.ltb_spec (Byte.to_N x) (Byte.to_N z)), (N.ltb_spec (Byte.to_N z) (Byte.to_N x));
    try done; try lia. apply IH.
Qed.
#[global] Instance bytes_leb_antisymm : AntiSymm (=) (sle bytes_leb).
Proof.
  unfold sle. intros a. induction a as [|x a IH]; intros [|y b]; simpl; try done.
  destruct (N.ltb_spec (Byte.to_N x) (Byte.to_N y)), (N.ltb_spec (Byte.to_N y) (Byte.to_N x));
    try done; try lia. intros H1 H2. f_equal; [apply to_N_inj; lia|by apply IH].
Qed.

(** ** Order of strings *)

Lemma string_leb_total a b : String.leb a b = true ∨ String.leb b a = true.
Proof.
  unfold String.leb. rewrite (String.compare_antisym b a). destruct (String.compare a b); auto.
Qed.
Lemma string_compare_refl a : String.compare a a = Eq.
Proof.
  pose proof (String.compare_antisym a a) as H. by destruct (String.compare a a).
Qed.
Lemma string_lt_trans a b c :
  String.compare a b = Lt → String.compare b c = Lt → String.compare a c = Lt.
Proof. exact (StrictOrder_Transitive (StrictOrder := String_as_OT.lt_strorder) a b c). Qed.
Lemma string_leb_lt_eq a b : String.leb a b = true ↔ String.compare a b = Lt ∨ a = b.
Proof.
  unfold String.leb. destruct (String.compare a b) eqn:E; split; intros Hc; try done.
  - right. by apply String.compare_eq_iff.
  - by left.
  - destruct Hc as [?| ->]; [done|]. by rewrite string_compare_refl in E.
Qed.
#[global] Instance string_leb_trans : Transitive (sle String.leb).
Proof.
  unfold sle. intros a b c. rewrite !string_leb_lt_eq.
  intros [?| ->] [?| ->]; eauto using string_lt_trans.
Qed.
#[global] Instance string_leb_antisymm : AntiSymm (=) (sle String.leb).
Proof.
  unfold sle. intros a b. rewrite !string_leb_lt_eq. intros [H1|?] [H2|?]; try done.
  pose proof (string_lt_trans a b a H1 H2) as H3. by rewrite string_compare_refl in H3.
Qed.

(** Pairs of an integer and something ordered, lexicographically. *)
Section lex.
Context {A : Type} (leb : A → A → bool).

Definition lex_leb (x y : Z * A) : bool :=
  if x.1 <? y.1 then true else if y.1 <? x.1 then false else leb x.2 y.2.

Lemma lex_leb_total x y :
  (∀ a b, leb a b = true ∨ leb b a = true) → lex_leb x y = true ∨ lex_leb y x = true.
Proof.
  intros total. unfold lex_leb. destruct (Z.ltb_spec x.1 y.1), (Z.ltb_spec y.1 x.1); auto.
Qed.
#[global] Instance lex_leb_trans `{!Transitive (sle leb)} : Transitive (sle lex_leb).
Proof.
  unfold sle, lex_leb. intros x y z.
  destruct (Z.ltb_spec x.1 y.1), (Z.ltb_spec y.1 z.1), (Z.ltb_spec y.1 x.1), (Z.ltb_spec z.1 y.1),
    (Z.ltb_spec x.1 z.1), (Z.ltb_spec z.1 x.1); try done; try lia. apply (transitivity (R := sle leb)).
Qed.
#[global] Instance lex_leb_antisymm `{!AntiSymm (=) (sle leb)} : AntiSymm (=) (sle lex_leb).
Proof.
  unfold sle, lex_leb. intros [r1 s1] [r2 s2]; simpl.
  destruct (Z.ltb_spec r1 r2), (Z.ltb_spec r2 r1); try done; try lia. intros H1 H2.
  f_equal; [lia|]. by apply (anti_symm (sle leb)).
Qed.
End lex.

(** Ranks of named candidates. *)
Definition rank_leb : Z * string → Z * string → bool := lex_leb String.leb.
#[global] Instance rank_leb_trans : Transitive (sle rank_leb) := lex_leb_trans String.leb.
#[global] Instance rank_leb_antisymm : AntiSymm (=) (sle rank_leb) := lex_leb_antisymm String.leb.
Lemma rank_leb_total x y : rank_leb x y = true ∨ rank_leb y x = true.
Proof. apply lex_leb_total, string_leb_total. Qed.
