(* ===== verification/F64.v ===== *)
(** * Double-precision numbers

    Timestamps and durations of the source are [f64].  They are modelled by the
    Standard Library's reference semantics of IEEE 754 binary64 ([SpecFloat]
    with 53 bits of precision and maximal exponent 1024), so the comparisons and
    the rounding of the code are computed, not abstracted. *)

From Stdlib Require Import Floats.SpecFloat.
From S2P Require Import Prelude.
Open Scope Z_scope.

Definition f64 : Type := spec_float.

#[global] Instance f64_eq_dec : EqDecision f64.
Proof. intros x y. unfold f64 in *. unfold Decision. repeat decide equality. Defined.

Definition f64_add (x y : f64) : f64 := SFadd 53 1024 x y.
Definition f64_sub (x y : f64) : f64 := SFsub 53 1024 x y.
Definition f64_mul (x y : f64) : f64 := SFmul 53 1024 x y.
Definition f64_div (x y : f64) : f64 := SFdiv 53 1024 x y.
Definition f64_abs (x : f64) : f64 := SFabs x.

(** The comparisons are false when a side is not a number. *)
Definition f64_ltb (x y : f64) : bool := SFltb x y.
Definition f64_leb (x y : f64) : bool := SFleb x y.
Definition f64_eqb (x y : f64) : bool := SFeqb x y.
Definition f64_gtb (x y : f64) : bool := SFltb y x.
Definition f64_geb (x y : f64) : bool := SFleb y x.

(** An integer, correctly rounded: [n as f64], and integer literals. *)
Definition f64_of_Z (n : Z) : f64 := binary_normalize 53 1024 n 0 false.
(** The literal [n/d]: the nearest double of the rational, which is what the
    compiler makes of the decimal literals of the source, since both integers
    are exact. *)
Definition f64_lit (n d : Z) : f64 := f64_div (f64_of_Z n) (f64_of_Z d).

Definition f64_0 : f64 := S754_zero false.

Definition f64_is_nan (x : f64) : bool :=
  match x with S754_nan => true | _ => false end.
Definition f64_is_finite (x : f64) : bool :=
  match x with S754_nan | S754_infinity _ => false | _ => true end.

(** The integer part of a finite value, rounded towards zero. *)
Definition f64_trunc (x : f64) : Z :=
  match x with
  | S754_finite s m e =>
      let n := if 0 <=? e then Z.pos m * 2 ^ e else Z.pos m / 2 ^ (- e) in
      if s then - n else n
  | _ => 0
  end.
(** The greatest integer below a finite value. *)
Definition f64_floor_Z (x : f64) : Z :=
  match x with
  | S754_finite s m e =>
      let v := if s then Z.neg m else Z.pos m in
      if 0 <=? e then v * 2 ^ e else v / 2 ^ (- e)
  | _ => 0
  end.
(** [x.floor()] *)
Definition f64_floor (x : f64) : f64 :=
  match x with
  | S754_finite _ _ _ => f64_of_Z (f64_floor_Z x)
  | _ => x
  end.
(** [x.max(y)]: the other operand when one is not a number. *)
Definition f64_max (x y : f64) : f64 :=
  if f64_is_nan x then y
  else if f64_is_nan y then x
  else if f64_ltb x y then y else x.

(** Saturating casts to unsigned integers of [w] bits: [x as u64], [x as u128]. *)
Definition f64_as_uint (w : Z) (x : f64) : Z :=
  match x with
  | S754_nan => 0
  | S754_infinity s => if s then 0 else 2 ^ w - 1
  | _ => Z.max 0 (Z.min (2 ^ w - 1) (f64_trunc x))
  end.

Lemma f64_as_uint_bounds w x : 0 <= w → 0 <= f64_as_uint w x <= 2 ^ w - 1.
Proof.
  intros Hw. pose proof (Z.pow_pos_nonneg 2 w ltac:(lia) Hw).
  destruct x as [|[]| |]; cbn [f64_as_uint]; lia.
Qed.

(** The order is total on numbers. *)
Lemma SFcompare_swap x y :
  f64_is_nan x = false → f64_is_nan y = false → ∃ c, SFcompare x y = Some c ∧ SFcompare y x = Some (CompOpp c).
Proof.
  destruct x as [[]|[]| |[] m e], y as [[]|[]| |[] m' e']; try done; intros _ _; cbn; try (eexists; split; reflexivity).
  all: rewrite (Z.compare_antisym e e'); destruct (e ?= e'); cbn; try (eexists; split; reflexivity).
  all: eexists; split; [reflexivity|]; fold (Pos.compare m m') (Pos.compare m' m).
  all: by rewrite (Pos.compare_antisym m m'), ?CompOpp_involutive.
Qed.
Lemma f64_ltb_false x y :
  f64_is_nan x = false → f64_is_nan y = false → f64_ltb x y = false → f64_leb y x = true.
Proof.
  intros Hx Hy. destruct (SFcompare_swap x y Hx Hy) as (c & H1 & H2). unfold f64_ltb, f64_leb, SFltb, SFleb.
  rewrite H1, H2. by destruct c.
Qed.
Lemma f64_leb_false x y :
  f64_is_nan x = false → f64_is_nan y = false → f64_leb x y = false → f64_ltb y x = true.
Proof.
  intros Hx Hy. destruct (SFcompare_swap x y Hx Hy) as (c & H1 & H2). unfold f64_ltb, f64_leb, SFltb, SFleb.
  rewrite H1, H2. by destruct c.
Qed.

(** Concrete values used by the tests of the other files. *)
Example f64_day : f64_of_Z 86400 = f64_mul (f64_of_Z 24) (f64_of_Z 3600).
Proof. reflexivity. Qed.
Example f64_tenth_third : f64_ltb (f64_lit 1 10) (f64_lit 1 3) = true.
Proof. reflexivity. Qed.

(** Proofs never need to run a floating-point operation; closed terms are
    evaluated with [vm_compute], which these declarations do not affect. *)
#[global] Opaque f64_add f64_sub f64_mul f64_div f64_abs f64_ltb f64_leb f64_eqb f64_gtb
  f64_geb f64_of_Z f64_lit f64_floor f64_max f64_as_uint.
