(* ===== verification/Itc.v ===== *)
(** * Interval tree clocks

    The crate [crates/elara-itc] (src/crates/elara-itc/src/lib.rs): identity
    trees, event trees, stamps and their binary codec.  Counters are [u64]: an
    [N] below [2^64] with the saturating operations the source uses. *)

From S2P Require Import Prelude.
Open Scope N_scope.

Definition U64_MAX : N := 2 ^ 64 - 1.

Definition saturating_add (a b : N) : N := N.min U64_MAX (a + b).
(** [N] subtraction is already truncated at zero. *)
Definition saturating_sub (a b : N) : N := a - b.

(** ** Identity trees *)

Inductive Id :=
  | IdLeaf (b : bool)
  | IdNode (l r : Id).

#[global] Instance Id_eq_dec : EqDecision Id.
Proof. solve_decision. Defined.

Module Id.
Definition seed : Id := IdLeaf true.
Definition zero : Id := IdLeaf false.

Definition is_zero (i : Id) : bool :=
  match i with IdLeaf false => true | _ => false end.
Definition is_one (i : Id) : bool :=
  match i with IdLeaf true => true | _ => false end.

Fixpoint normalize (i : Id) : Id :=
  match i with
  | IdNode l r =>
      let l := normalize l in
      let r := normalize r in
      match l, r with
      | IdLeaf a, IdLeaf b => if Bool.eqb a b then IdLeaf a else IdNode l r
      | _, _ => IdNode l r
      end
  | leaf => leaf
  end.

Fixpoint fork (i : Id) : Id * Id :=
  match i with
  | IdLeaf false => (IdLeaf false, IdLeaf false)
  | IdLeaf true =>
      (IdNode (IdLeaf true) (IdLeaf false), IdNode (IdLeaf false) (IdLeaf true))
  | IdNode l r =>
      if is_zero r then
        let '(l1, l2) := fork l in
        (IdNode l1 (IdLeaf false), IdNode l2 (IdLeaf false))
      else if is_zero l then
        let '(r1, r2) := fork r in
        (IdNode (IdLeaf false) r1, IdNode (IdLeaf false) r2)
      else (l, r)
  end.

Fixpoint join (a b : Id) : Id :=
  match a, b with
  | IdLeaf false, other => other
  | this, IdLeaf false => this
  | IdNode l1 r1, IdNode l2 r2 => normalize (IdNode (join l1 l2) (join r1 r2))
  | _, _ => IdLeaf true
  end.
End Id.

(** ** Event trees *)

Inductive Event :=
  | EvLeaf (n : N)
  | EvNode (n : N) (l r : Event).

#[global] Instance Event_eq_dec : EqDecision Event.
Proof. solve_decision. Defined.

Module Event.
Definition zero : Event := EvLeaf 0.

Fixpoint normalize (e : Event) : Event :=
  match e with
  | EvNode n l r =>
      let l := normalize l in
      let r := normalize r in
      match l, r with
      | EvLeaf a, EvLeaf b =>
          if a =? b then EvLeaf (saturating_add n a) else EvNode n l r
      | _, _ => EvNode n l r
      end
  | leaf => leaf
  end.

Definition lift (e : Event) (m : N) : Event :=
  if m =? 0 then e else
  match e with
  | EvLeaf n => EvLeaf (saturating_add n m)
  | EvNode n l r => EvNode (saturating_add n m) l r
  end.

Definition sink (e : Event) (m : N) : Event :=
  if m =? 0 then e else
  match e with
  | EvLeaf n => EvLeaf (saturating_sub n m)
  | EvNode n l r => EvNode (saturating_sub n m) l r
  end.

Definition base (e : Event) : N :=
  match e with EvLeaf n => n | EvNode n _ _ => n end.

Fixpoint max_val (e : Event) : N :=
  match e with
  | EvLeaf n => n
  | EvNode n l r => saturating_add n (N.max (max_val l) (max_val r))
  end.

Fixpoint size (e : Event) : nat :=
  match e with EvLeaf _ => 1 | EvNode _ l r => S (size l + size r) end.

(** The source recurses on a child of one argument and on a re-based child of
    the other, so the recursion is on the joint size; [join_fuel] runs it with
    that much fuel and [join] supplies it. *)
Fixpoint join_fuel (k : nat) (a b : Event) : Event :=
  match k with
  | O => a
  | S k =>
    match a, b with
    | EvLeaf n1, EvLeaf n2 => EvLeaf (N.max n1 n2)
    | EvLeaf n1, EvNode n2 l2 r2 =>
        if saturating_add n2 (N.max (max_val l2) (max_val r2)) <=? n1 then EvLeaf n1
        else normalize (EvNode n2 (join_fuel k (EvLeaf (saturating_sub n1 n2)) l2)
                                  (join_fuel k (EvLeaf (saturating_sub n1 n2)) r2))
    | EvNode n1 l1 r1, EvLeaf n2 =>
        if saturating_add n1 (N.max (max_val l1) (max_val r1)) <=? n2 then EvLeaf n2
        else normalize (EvNode n1 (join_fuel k l1 (EvLeaf (saturating_sub n2 n1)))
                                  (join_fuel k r1 (EvLeaf (saturating_sub n2 n1))))
    | EvNode n1 l1 r1, EvNode n2 l2 r2 =>
        if n2 <? n1 then
          normalize (EvNode n1 (join_fuel k l1 (sink (lift l2 n2) n1))
                               (join_fuel k r1 (sink (lift r2 n2) n1)))
        else if n1 <? n2 then
          normalize (EvNode n2 (join_fuel k (sink (lift l1 n1) n2) l2)
                               (join_fuel k (sink (lift r1 n1) n2) r2))
        else normalize (EvNode n1 (join_fuel k l1 l2) (join_fuel k r1 r2))
    end
  end.

Definition join (a b : Event) : Event := join_fuel (size a + size b) a b.

(** Same shape: the left argument of the recursive call is re-based. *)
Fixpoint leq_fuel (k : nat) (a b : Event) : bool :=
  match k with
  | O => false
  | S k =>
    match a, b with
    | EvLeaf n1, EvLeaf n2 => n1 <=? n2
    | EvLeaf n1, EvNode n2 _ _ => n1 <=? n2
    | EvNode n1 l1 r1, EvLeaf n2 =>
        saturating_add n1 (N.max (max_val l1) (max_val r1)) <=? n2
    | EvNode n1 l1 r1, EvNode n2 l2 r2 =>
        if n2 <? n1 then false
        else leq_fuel k (sink (lift l1 n1) n2) l2 && leq_fuel k (sink (lift r1 n1) n2) r2
    end
  end.

Definition leq (a b : Event) : bool := leq_fuel (size a) a b.
End Event.

(** ** Stamps *)

Fixpoint fill (id : Id) (event : Event) {struct id} : Event :=
  match id, event with
  | IdLeaf false, e => e
  | IdLeaf true, EvLeaf n => EvLeaf (saturating_add n 1)
  | IdLeaf true, EvNode n l r =>
      EvLeaf (saturating_add (saturating_add n (N.max (Event.max_val l) (Event.max_val r))) 1)
  | IdNode l_id r_id, EvLeaf n =>
      let le := fill l_id (EvLeaf 0) in
      let re := fill r_id (EvLeaf 0) in
      Event.normalize (EvNode n le re)
  | IdNode l_id r_id, EvNode n l_e r_e =>
      if Id.is_zero l_id then Event.normalize (EvNode n l_e (fill r_id r_e))
      else if Id.is_zero r_id then Event.normalize (EvNode n (fill l_id l_e) r_e)
      else Event.normalize (EvNode n (fill l_id l_e) (fill r_id r_e))
  end.

Record Stamp := mkStamp { id : Id; event : Event }.

#[global] Instance Stamp_eq_dec : EqDecision Stamp.
Proof. solve_decision. Defined.

Module Stamp.
Definition seed : Stamp := mkStamp Id.seed Event.zero.
Definition zero : Stamp := mkStamp Id.zero Event.zero.

Definition fork (s : Stamp) : Stamp * Stamp :=
  let '(id1, id2) := Id.fork (id s) in
  (mkStamp id1 (event s), mkStamp id2 (event s)).

Definition join (s other : Stamp) : Stamp :=
  mkStamp (Id.join (id s) (id other)) (Event.join (event s) (event other)).

Definition event_ (s : Stamp) : Stamp :=
  let e := fill (id s) (event s) in
  mkStamp (id s) (Event.normalize e).

Definition leq (s other : Stamp) : bool := Event.leq (event s) (event other).
Definition concurrent (s other : Stamp) : bool :=
  negb (leq s other) && negb (leq other s).
Definition before (s other : Stamp) : bool :=
  leq s other && negb (leq other s).
End Stamp.

(** ** Binary codec

    The decoders read a byte slice through a cursor [pos]; they return the
    decoded value with the advanced cursor.  The [depth] argument of the source
    counts up to [MAX_ITC_DEPTH]; here the argument [k] is what is left of it,
    [MAX_ITC_DEPTH - depth], so the depth check is the [O] branch. *)

Definition MAX_ITC_DEPTH : nat := 1024.

(** At most ten groups of seven bits are left in a [u64]. *)
Fixpoint encode_varint_loop (k : nat) (v : N) : list byte :=
  match k with
  | O => []
  | S k =>
      let byte := N.land v 127 in
      let v := N.shiftr v 7 in
      if v =? 0 then [byte_of_N byte]
      else byte_of_N (N.lor byte 128) :: encode_varint_loop k v
  end.
Definition encode_varint (val : N) : list byte := encode_varint_loop 10 val.

(** [shift] takes the values 0, 7, ..., 63, so ten rounds are all there are; the
    left shift of a [u64] drops the bits above 63. *)
Fixpoint decode_varint_loop (k : nat) (data : list byte) (pos : nat)
    (result shift : N) : outcome (N * nat) :=
  match k with
  | O => Err (EWire "ITC varint: overflow")
  | S k =>
      match data !! pos with
      | None => Err (EWire "ITC varint: unexpected EOF")
      | Some byte =>
          let b := Byte.to_N byte in
          let pos := S pos in
          let result :=
            N.lor result (N.shiftl (N.land b 127) shift mod 2 ^ 64) in
          if N.land b 128 =? 0 then Ok (result, pos)
          else
            let shift := shift + 7 in
            if 64 <=? shift then Err (EWire "ITC varint: overflow")
            else decode_varint_loop k data pos result shift
      end
  end.
#[global] Arguments encode_varint : simpl never.

Definition decode_varint (data : list byte) (pos : nat) : outcome (N * nat) :=
  decode_varint_loop 10 data pos 0 0.

Fixpoint encode_id (i : Id) : list byte :=
  match i with
  | IdLeaf false => [byte_of_N 0]
  | IdLeaf true => [byte_of_N 1]
  | IdNode l r => byte_of_N 2 :: encode_id l ++ encode_id r
  end.

Fixpoint decode_id (data : list byte) (k : nat) (pos : nat) : outcome (Id * nat) :=
  match k with
  | O => Err (EWire "ITC id: nesting depth exceeds limit")
  | S k =>
      match data !! pos with
      | None => Err (EWire "ITC id: unexpected EOF")
      | Some tag =>
          let pos := S pos in
          match Byte.to_N tag with
          | 0 => Ok (IdLeaf false, pos)
          | 1 => Ok (IdLeaf true, pos)
          | 2 =>
              '(l, pos) ← decode_id data k pos;
              '(r, pos) ← decode_id data k pos;
              Ok (IdNode l r, pos)
          | _ => Err (EWire "ITC id: invalid tag")
          end
      end
  end.

Fixpoint encode_event (e : Event) : list byte :=
  match e with
  | EvLeaf n => byte_of_N 0 :: encode_varint n
  | EvNode n l r => byte_of_N 1 :: encode_varint n ++ encode_event l ++ encode_event r
  end.

Fixpoint decode_event (data : list byte) (k : nat) (pos : nat) : outcome (Event * nat) :=
  match k with
  | O => Err (EWire "ITC event: nesting depth exceeds limit")
  | S k =>
      match data !! pos with
      | None => Err (EWire "ITC event: unexpected EOF")
      | Some tag =>
          let pos := S pos in
          match Byte.to_N tag with
          | 0 =>
              '(n, pos) ← decode_varint data pos;
              Ok (EvLeaf n, pos)
          | 1 =>
              '(n, pos) ← decode_varint data pos;
              '(l, pos) ← decode_event data k pos;
              '(r, pos) ← decode_event data k pos;
              Ok (EvNode n l r, pos)
          | _ => Err (EWire "ITC event: invalid tag")
          end
      end
  end.

Definition to_bytes (s : Stamp) : list byte :=
  encode_id (id s) ++ encode_event (event s).

Definition from_bytes (data : list byte) : outcome Stamp :=
  '(i, pos) ← decode_id data MAX_ITC_DEPTH 0;
  '(e, pos) ← decode_event data MAX_ITC_DEPTH pos;
  if bool_decide (pos ≠ length data)
  then Err (EWire "ITC stamp: trailing byte(s) after valid stamp")
  else Ok (mkStamp i e).

(** ** Meaning of the trees

    A position of the unit interval is an infinite sequence of left/right
    turns.  [owns i p] says that the identity owns the position, [at_ e p] is
    the number of events counted there, without the width of [u64]. *)

Definition path := nat → bool.
Definition ptail (p : path) : path := fun n => p (S n).
Definition pcons (b : bool) (p : path) : path :=
  fun n => match n with O => b | S n => p n end.

Fixpoint owns (i : Id) (p : path) : bool :=
  match i with
  | IdLeaf b => b
  | IdNode l r => if p 0%nat then owns r (ptail p) else owns l (ptail p)
  end.

Fixpoint at_ (e : Event) (p : path) : N :=
  match e with
  | EvLeaf n => n
  | EvNode n l r => n + (if p 0%nat then at_ r (ptail p) else at_ l (ptail p))
  end.

(** The largest count of the tree; [fits e] says no count exceeds [u64::MAX]. *)
Fixpoint top (e : Event) : N :=
  match e with
  | EvLeaf n => n
  | EvNode n l r => n + N.max (top l) (top r)
  end.
Definition fits (e : Event) : Prop := top e <= U64_MAX.

(** An identity without a node that has two non-zero children: the shape of
    every identity obtained from the seed by forks alone. *)
Fixpoint spine (i : Id) : bool :=
  match i with
  | IdLeaf _ => true
  | IdNode l r => (Id.is_zero r && spine l) || (Id.is_zero l && spine r)
  end.

Fixpoint id_depth (i : Id) : nat :=
  match i with IdLeaf _ => 1 | IdNode l r => S (id_depth l `max` id_depth r) end.
Fixpoint ev_depth (e : Event) : nat :=
  match e with EvLeaf _ => 1 | EvNode _ l r => S (ev_depth l `max` ev_depth r) end.
Fixpoint ev_u64 (e : Event) : Prop :=
  match e with
  | EvLeaf n => n < 2 ^ 64
  | EvNode n l r => n < 2 ^ 64 ∧ ev_u64 l ∧ ev_u64 r
  end.
(** What the codec can carry: both trees within the depth limit, counters of
    64 bits. *)
Definition stamp_wf (s : Stamp) : Prop :=
  (id_depth (id s) <= MAX_ITC_DEPTH)%nat ∧ (ev_depth (event s) <= MAX_ITC_DEPTH)%nat ∧
  ev_u64 (event s).

(** ** Lemmas on identities *)

Lemma id_normalize_owns i p : owns (Id.normalize i) p = owns i p.
Proof.
  revert p. induction i as [b|l IHl r IHr]; intros p; [done|]. simpl.
  rewrite <- IHl, <- IHr.
  destruct (Id.normalize l) as [a|], (Id.normalize r) as [b|]; try done.
  destruct (Bool.eqb a b) eqn:E; [|done].
  apply Bool.eqb_prop in E as ->. simpl. by destruct (p 0%nat).
Qed.

Lemma is_zero_spec i : Id.is_zero i = true ↔ i = IdLeaf false.
Proof. destruct i as [[]|]; naive_solver. Qed.

Lemma spine_fork i : spine i = true → spine (Id.fork i).1 = true ∧ spine (Id.fork i).2 = true.
Proof.
  induction i as [[]|l IHl r IHr]; try done. simpl.
  destruct (Id.is_zero r) eqn:Zr.
  - apply is_zero_spec in Zr as ->. simpl. intros H.
    assert (Hl : spine l = true).
    { apply orb_true_iff in H as [H|H]; [done|].
      apply andb_true_iff in H as [H _]. by apply is_zero_spec in H as ->. }
    destruct (IHl Hl), (Id.fork l); simpl in *. by rewrite H0, H1.
  - destruct (Id.is_zero l) eqn:Zl; [|done]. simpl.
    apply is_zero_spec in Zl as ->. intros H.
    destruct (IHr H), (Id.fork r); simpl in *. rewrite H0, H1. by rewrite !orb_true_r.
Qed.

(** ** Lemmas on event trees *)

Lemma top_at e p : at_ e p <= top e.
Proof.
  revert p. induction e as [n|n l IHl r IHr]; intros p; simpl; [lia|].
  specialize (IHl (ptail p)); specialize (IHr (ptail p)). destruct (p 0%nat); lia.
Qed.

Lemma at_EvNode n l r b p : at_ (EvNode n l r) (pcons b p) = n + at_ (if b then r else l) p.
Proof. by destruct b. Qed.

Lemma top_attained e : ∃ p, at_ e p = top e.
Proof.
  induction e as [n|n l [pl Hl] r [pr Hr]]; [by exists (λ _, false)|].
  destruct (N.max_spec (top l) (top r)) as [[_ H]|[_ H]].
  - exists (pcons true pr). rewrite at_EvNode. simpl. lia.
  - exists (pcons false pl). rewrite at_EvNode. simpl. lia.
Qed.

Lemma max_val_top e : Event.max_val e = N.min U64_MAX (top e) ∨ Event.max_val e = top e.
Proof.
  induction e as [n|n l IHl r IHr]; simpl; [by right|].
  unfold saturating_add. lia.
Qed.

Lemma max_val_fits e : fits e → Event.max_val e = top e.
Proof. unfold fits. destruct (max_val_top e); lia. Qed.

Lemma fits_node n l r : fits (EvNode n l r) → fits l ∧ fits r ∧ n + top l <= U64_MAX ∧ n + top r <= U64_MAX.
Proof. unfold fits; simpl. lia. Qed.

Lemma sat_max_val n l r :
  fits (EvNode n l r) →
  saturating_add n (N.max (Event.max_val l) (Event.max_val r)) = top (EvNode n l r).
Proof.
  intros H. destruct (fits_node _ _ _ H) as (?&?&?&?).
  rewrite !max_val_fits by done. unfold saturating_add, fits in *; simpl in *. lia.
Qed.

(** Normalisation keeps every count that a [u64] can hold. *)
Lemma normalize_at_ge e p : N.min U64_MAX (at_ e p) <= at_ (Event.normalize e) p.
Proof.
  revert p. induction e as [n|n l IHl r IHr]; intros p; simpl; [lia|].
  specialize (IHl (ptail p)); specialize (IHr (ptail p)).
  assert (Hg : N.min U64_MAX (n + (if p 0%nat then at_ r (ptail p) else at_ l (ptail p)))
    <= at_ (EvNode n (Event.normalize l) (Event.normalize r)) p)
    by (simpl; destruct (p 0%nat); lia).
  destruct (Event.normalize l) as [a|], (Event.normalize r) as [b|]; try exact Hg.
  destruct (N.eqb_spec a b) as [->|]; [|exact Hg].
  simpl in *. unfold saturating_add. destruct (p 0%nat); lia.
Qed.

Lemma normalize_at_le e p : at_ (Event.normalize e) p <= at_ e p.
Proof.
  revert p. induction e as [n|n l IHl r IHr]; intros p; simpl; [lia|].
  specialize (IHl (ptail p)); specialize (IHr (ptail p)).
  assert (Hg : at_ (EvNode n (Event.normalize l) (Event.normalize r)) p <=
    n + (if p 0%nat then at_ r (ptail p) else at_ l (ptail p)))
    by (simpl; destruct (p 0%nat); lia).
  destruct (Event.normalize l) as [a|], (Event.normalize r) as [b|]; try exact Hg.
  destruct (N.eqb_spec a b) as [->|]; [|exact Hg].
  simpl in *. unfold saturating_add. destruct (p 0%nat); lia.
Qed.

Lemma normalize_at e p : fits e → at_ (Event.normalize e) p = at_ e p.
Proof.
  intros H. pose proof (normalize_at_ge e p). pose proof (normalize_at_le e p).
  pose proof (top_at e p). unfold fits in *. lia.
Qed.

Lemma normalize_top e : top (Event.normalize e) <= top e.
Proof.
  destruct (top_attained (Event.normalize e)) as [p Hp]. rewrite <- Hp.
  pose proof (normalize_at_le e p). pose proof (top_at e p). lia.
Qed.

Lemma normalize_idem e : Event.normalize (Event.normalize e) = Event.normalize e.
Proof.
  induction e as [n|n l IHl r IHr]; [done|].
  cbn [Event.normalize].
  destruct (Event.normalize l) as [a|na la ra] eqn:El, (Event.normalize r) as [b|nb lb rb] eqn:Er;
    try (cbn [Event.normalize]; fold Event.normalize; cbn [Event.normalize] in IHl, IHr;
         rewrite ?IHl, ?IHr; done).
  destruct (a =? b) eqn:E; cbn [Event.normalize]; [done|by rewrite E].
Qed.

(** *** Re-basing a subtree: [x.lift(n).sink(m)] *)

Definition rebase (x : Event) (n m : N) : Event := Event.sink (Event.lift x n) m.

Ltac fold_rebase :=
  repeat change (Event.sink (Event.lift ?x ?n) ?m) with (rebase x n m).

Lemma rebase_size x n m : Event.size (rebase x n m) = Event.size x.
Proof.
  unfold rebase, Event.sink, Event.lift.
  destruct x; destruct (n =? 0), (m =? 0); done.
Qed.

Lemma rebase_at x n m p :
  n + top x <= U64_MAX → at_ x p + n <= at_ (rebase x n m) p + m.
Proof.
  intros H. unfold rebase, Event.sink, Event.lift.
  destruct (N.eqb_spec n 0) as [->|], (N.eqb_spec m 0) as [->|], x as [b|b l r]; simpl in *;
    unfold saturating_add, saturating_sub; destruct (p 0%nat); lia.
Qed.

Lemma rebase_top x n m :
  n + top x <= U64_MAX → n <= m → top (rebase x n m) <= top x.
Proof.
  intros H Hm. unfold rebase, Event.sink, Event.lift.
  destruct (N.eqb_spec n 0) as [->|], (N.eqb_spec m 0) as [->|], x as [b|b l r]; simpl in *;
    unfold saturating_add, saturating_sub; lia.
Qed.

Lemma rebase_same x n : n + top x <= U64_MAX → rebase x n n = x.
Proof.
  intros H. unfold rebase, Event.sink, Event.lift.
  destruct (N.eqb_spec n 0) as [->|], x as [b|b l r]; simpl in *; try done;
    unfold saturating_add, saturating_sub; f_equal; lia.
Qed.

(** *** The fuel of [join] and [leq] is enough *)

Lemma size_pos e : (0 < Event.size e)%nat.
Proof. destruct e; simpl; lia. Qed.

Lemma join_fuel_enough k k' a b :
  (Event.size a + Event.size b <= k)%nat → (Event.size a + Event.size b <= k')%nat →
  Event.join_fuel k a b = Event.join_fuel k' a b.
Proof.
  revert k' a b. induction k as [|k IH]; intros k' a b Hk Hk'.
  { pose proof (size_pos a). lia. }
  destruct k' as [|k']; [pose proof (size_pos a); lia|].
  destruct a as [n1|n1 l1 r1], b as [n2|n2 l2 r2]; cbn [Event.join_fuel Event.size] in *;
    [done|..]; repeat case_match; try done; do 2 f_equal; apply IH;
    fold_rebase; rewrite ?rebase_size; cbn [Event.size]; lia.
Qed.

Lemma leq_fuel_enough k k' a b :
  (Event.size a <= k)%nat → (Event.size a <= k')%nat →
  Event.leq_fuel k a b = Event.leq_fuel k' a b.
Proof.
  revert k' a b. induction k as [|k IH]; intros k' a b Hk Hk'.
  { pose proof (size_pos a). lia. }
  destruct k' as [|k']; [pose proof (size_pos a); lia|].
  destruct a as [n1|n1 l1 r1], b as [n2|n2 l2 r2]; simpl in *; try done.
  case_match; [done|]. f_equal; apply IH; fold_rebase;
    rewrite ?rebase_size; lia.
Qed.

(** The equation of [leq] on two nodes, without fuel. *)
Lemma leq_node n1 l1 r1 n2 l2 r2 :
  Event.leq (EvNode n1 l1 r1) (EvNode n2 l2 r2) =
  if n2 <? n1 then false
  else Event.leq (rebase l1 n1 n2) l2 && Event.leq (rebase r1 n1 n2) r2.
Proof.
  unfold Event.leq at 1. cbn [Event.leq_fuel Event.size]. case_match; [done|].
  fold_rebase.
  f_equal; apply leq_fuel_enough; rewrite ?rebase_size; lia.
Qed.

(** Induction on a bound of the size of a tree. *)
Lemma event_size_ind (P : Event → Prop) :
  (∀ a, (∀ a', (Event.size a' < Event.size a)%nat → P a') → P a) → ∀ a, P a.
Proof.
  intros H a. remember (Event.size a) as k eqn:Hk. revert a Hk.
  induction (lt_wf k) as [k _ IH]. intros a ->. apply H. intros a' Ha'. by eapply IH.
Qed.

Lemma leq_at a : ∀ b p, fits a → Event.leq a b = true → at_ a p <= at_ b p.
Proof.
  induction a as [a IH] using event_size_ind. intros b p Ha H.
  destruct a as [n1|n1 l1 r1], b as [n2|n2 l2 r2].
  - apply N.leb_le in H. cbn [at_]. lia.
  - apply N.leb_le in H. cbn [at_]. lia.
  - unfold Event.leq in H. cbn [Event.leq_fuel Event.size] in H. apply N.leb_le in H.
    rewrite sat_max_val in H by done.
    pose proof (top_at (EvNode n1 l1 r1) p). cbn [at_] in *. lia.
  - rewrite leq_node in H. destruct (N.ltb_spec n2 n1) as [|Hn]; [done|].
    apply andb_true_iff in H as [Hl Hr].
    destruct (fits_node _ _ _ Ha) as (Fl&Fr&Bl&Br). unfold fits in *.
    pose proof (rebase_top l1 n1 n2 Bl Hn). pose proof (rebase_top r1 n1 n2 Br Hn).
    pose proof (rebase_at l1 n1 n2 (ptail p) Bl). pose proof (rebase_at r1 n1 n2 (ptail p) Br).
    apply (IH _) with (p := ptail p) in Hl; [|rewrite rebase_size; simpl; lia|lia].
    apply (IH _) with (p := ptail p) in Hr; [|rewrite rebase_size; simpl; lia|lia].
    simpl. destruct (p 0%nat); lia.
Qed.

(** [leq] is kept when the right-hand side is normalised. *)
Lemma leq_normalize b : ∀ a, fits a → fits b → Event.leq a b = true →
  Event.leq a (Event.normalize b) = true.
Proof.
  induction b as [n2|n2 l2 IHl r2 IHr]; intros a Ha Hb H; [done|].
  destruct (fits_node _ _ _ Hb) as (F2l&F2r&_&_).
  assert (Hcol : ∀ m, Event.normalize (EvNode n2 l2 r2) = EvLeaf m →
    Event.leq a (EvLeaf m) = true).
  { intros m Hm. assert (Ht : top a <= m).
    { destruct (top_attained a) as [p <-].
      apply leq_at with (p := p) in H; [|done].
      rewrite <- (normalize_at (EvNode n2 l2 r2)), Hm in H by done. done. }
    destruct a as [n1|n1 l1 r1]; [by apply N.leb_le|].
    unfold Event.leq. cbn [Event.leq_fuel Event.size]. rewrite sat_max_val by done. by apply N.leb_le. }
  assert (Hnode : Event.leq a (EvNode n2 (Event.normalize l2) (Event.normalize r2)) = true).
  { destruct a as [n1|n1 l1 r1]; [done|]. rewrite leq_node in *.
    destruct (N.ltb_spec n2 n1) as [|Hn]; [done|].
    destruct (fits_node _ _ _ Ha) as (Fl&Fr&Bl&Br).
    pose proof (rebase_top l1 n1 n2 Bl Hn). pose proof (rebase_top r1 n1 n2 Br Hn).
    apply andb_true_iff in H as [Hl Hr]. unfold fits in *.
    rewrite IHl, IHr; auto; unfold fits; lia. }
  cbn [Event.normalize] in *.
  destruct (Event.normalize l2) as [x|], (Event.normalize r2) as [y|]; try done.
  destruct (x =? y); [by apply Hcol|done].
Qed.


(** *** Filling *)

Lemma top_le_forall e m : (∀ p, at_ e p <= m) → top e <= m.
Proof. destruct (top_attained e) as [p <-]. auto. Qed.

(** A node with both children filled, then normalised. *)
Lemma fill_node_at i : ∀ e p, top e < U64_MAX →
  at_ (fill i e) p <= top e + 1 ∧
  (if owns i p then at_ e p < at_ (fill i e) p else at_ (fill i e) p = at_ e p).
Proof.
  assert (Hnode : ∀ n l r l' r' p, top (EvNode n l r) < U64_MAX →
    (∀ p, at_ l' p <= top l + 1) → (∀ p, at_ r' p <= top r + 1) →
    at_ (Event.normalize (EvNode n l' r')) p =
      n + (if p 0%nat then at_ r' (ptail p) else at_ l' (ptail p))).
  { intros n l r l' r' p Ht Hl Hr. apply top_le_forall in Hl, Hr.
    rewrite normalize_at; [done|]. unfold fits; simpl in *. lia. }
  induction i as [[]|li IHl ri IHr]; intros e p Ht; cbn [owns].
  - destruct e as [n|n l r]; cbn [fill].
    + simpl. unfold saturating_add. simpl in Ht. lia.
    + rewrite sat_max_val by (unfold fits; lia).
      pose proof (top_at (EvNode n l r) p). unfold saturating_add. cbn [at_] in *. lia.
  - simpl. pose proof (top_at e p). lia.
  - destruct e as [n|n l r]; cbn [fill].
    + assert (0 < U64_MAX) as H0 by done.
      rewrite (Hnode n (EvLeaf 0) (EvLeaf 0)); [|simpl in *; lia|intros q|intros q].
      * destruct (IHl (EvLeaf 0) (ptail p) H0), (IHr (EvLeaf 0) (ptail p) H0).
        simpl in *. destruct (p 0%nat); repeat case_match; lia.
      * by apply IHl.
      * by apply IHr.
    + assert (top l < U64_MAX ∧ top r < U64_MAX) as [Hl Hr] by (simpl in Ht; lia).
      assert (∀ q, at_ l q <= top l + 1) by (intros q; pose proof (top_at l q); lia).
      assert (∀ q, at_ r q <= top r + 1) by (intros q; pose proof (top_at r q); lia).
      assert (∀ q, at_ (fill li l) q <= top l + 1) by (intros q; by apply IHl).
      assert (∀ q, at_ (fill ri r) q <= top r + 1) by (intros q; by apply IHr).
      destruct (IHl l (ptail p) Hl) as [Bl Gl], (IHr r (ptail p) Hr) as [Br Gr].
      pose proof (top_at l (ptail p)). pose proof (top_at r (ptail p)).
      destruct (Id.is_zero li) eqn:Zl; [|destruct (Id.is_zero ri) eqn:Zr];
        rewrite (Hnode n l r) by done;
        rewrite ?is_zero_spec in *; subst; cbn [owns at_ top fill] in *;
        destruct (p 0%nat); repeat case_match; lia.
Qed.

Lemma fill_top i e : top e < U64_MAX → fits (fill i e).
Proof.
  intros H. unfold fits. transitivity (top e + 1); [|lia].
  apply top_le_forall. intros p. by apply fill_node_at.
Qed.

Lemma leq_refl e : fits e → Event.leq e e = true.
Proof.
  induction e as [n|n l IHl r IHr]; intros H; [by apply N.leb_le|].
  destruct (fits_node _ _ _ H) as (?&?&?&?). rewrite leq_node, N.ltb_irrefl.
  rewrite !rebase_same by done. rewrite IHl, IHr by done. done.
Qed.

(** A node over the old base whose children grew. *)
Lemma leq_grow n l r l' r' :
  fits (EvNode n l r) → fits (EvNode n l' r') →
  Event.leq l l' = true → Event.leq r r' = true →
  Event.leq (EvNode n l r) (Event.normalize (EvNode n l' r')) = true.
Proof.
  intros H H' Hl Hr. apply leq_normalize; [done..|].
  destruct (fits_node _ _ _ H) as (?&?&?&?).
  rewrite leq_node, N.ltb_irrefl, !rebase_same by done. by rewrite Hl, Hr.
Qed.

Lemma fill_leq i : ∀ e, top e < U64_MAX → Event.leq e (fill i e) = true.
Proof.
  induction i as [[]|li IHl ri IHr]; intros e Ht.
  - destruct e as [n|n l r]; cbn [fill].
    + apply N.leb_le. unfold saturating_add. simpl in Ht. lia.
    + unfold Event.leq. cbn [Event.leq_fuel Event.size].
      rewrite sat_max_val by (unfold fits; lia). unfold saturating_add.
      apply N.leb_le. lia.
  - change (fill (IdLeaf false) e) with e. apply leq_refl. unfold fits. lia.
  - destruct e as [n|n l r]; cbn [fill].
    + apply leq_normalize; [unfold fits; lia| |by apply N.leb_le].
      assert (0 < U64_MAX) as H0 by done.
      assert (top (fill li (EvLeaf 0)) <= 1 ∧ top (fill ri (EvLeaf 0)) <= 1) as [??]
        by (split; apply top_le_forall; intros p; by apply (fill_node_at _ (EvLeaf 0))).
      unfold fits; simpl in *. lia.
    + assert (top l < U64_MAX ∧ top r < U64_MAX) as [Hl Hr] by (simpl in Ht; lia).
      assert (top (fill li l) <= top l + 1 ∧ top (fill ri r) <= top r + 1) as [??]
        by (split; apply top_le_forall; intros p; by apply fill_node_at).
      assert (fits (EvNode n l r)) by (unfold fits; lia).
      assert (fits l ∧ fits r) as [??] by (unfold fits; lia).
      destruct (Id.is_zero li) eqn:Zl; [|destruct (Id.is_zero ri) eqn:Zr];
        (apply leq_grow; [done| |auto using leq_refl..]; unfold fits; simpl in *; lia).
Qed.

(** *** Joining *)

Lemma normalize_node_ge n l r (p : path) :
  N.min U64_MAX (n + (if p 0%nat then at_ r (ptail p) else at_ l (ptail p)))
    <= at_ (Event.normalize (EvNode n l r)) p.
Proof. exact (normalize_at_ge (EvNode n l r) p). Qed.

Lemma join_fuel_ub k : ∀ a b p,
  (Event.size a + Event.size b <= k)%nat → fits a → fits b →
  at_ a p <= at_ (Event.join_fuel k a b) p ∧ at_ b p <= at_ (Event.join_fuel k a b) p.
Proof.
  induction k as [|k IH]; intros a b p Hk Ha Hb; [pose proof (size_pos a); lia|].
  assert (at_ a p <= U64_MAX ∧ at_ b p <= U64_MAX) as [Ua Ub]
    by (pose proof (top_at a p); pose proof (top_at b p); unfold fits in *; lia).
  destruct a as [n1|n1 l1 r1], b as [n2|n2 l2 r2]; cbn [Event.join_fuel Event.size] in *;
    try (destruct (fits_node _ _ _ Ha) as (Fl1&Fr1&Bl1&Br1));
    try (destruct (fits_node _ _ _ Hb) as (Fl2&Fr2&Bl2&Br2));
    rewrite ?sat_max_val by done; fold_rebase.
  - cbn [at_]. lia.
  - pose proof (top_at (EvNode n2 l2 r2) p). cbn [at_] in *.
    destruct (N.leb_spec (top (EvNode n2 l2 r2)) n1); [cbn [at_]; lia|].
    pose proof (normalize_node_ge n2 (Event.join_fuel k (EvLeaf (saturating_sub n1 n2)) l2)
      (Event.join_fuel k (EvLeaf (saturating_sub n1 n2)) r2) p) as Hn.
    assert (fits (EvLeaf (saturating_sub n1 n2)))
      by (unfold fits, saturating_sub in *; simpl in *; lia).
    destruct (IH (EvLeaf (saturating_sub n1 n2)) l2 (ptail p)); [simpl; lia|done..|].
    destruct (IH (EvLeaf (saturating_sub n1 n2)) r2 (ptail p)); [simpl; lia|done..|].
    cbn [at_] in *. unfold saturating_sub in *. destruct (p 0%nat); lia.
  - pose proof (top_at (EvNode n1 l1 r1) p). cbn [at_] in *.
    destruct (N.leb_spec (top (EvNode n1 l1 r1)) n2); [cbn [at_]; lia|].
    pose proof (normalize_node_ge n1 (Event.join_fuel k l1 (EvLeaf (saturating_sub n2 n1)))
      (Event.join_fuel k r1 (EvLeaf (saturating_sub n2 n1))) p) as Hn.
    assert (fits (EvLeaf (saturating_sub n2 n1)))
      by (unfold fits, saturating_sub in *; simpl in *; lia).
    destruct (IH l1 (EvLeaf (saturating_sub n2 n1)) (ptail p)); [simpl; lia|done..|].
    destruct (IH r1 (EvLeaf (saturating_sub n2 n1)) (ptail p)); [simpl; lia|done..|].
    cbn [at_] in *. unfold saturating_sub in *. destruct (p 0%nat); lia.
  - destruct (N.ltb_spec n2 n1); [|destruct (N.ltb_spec n1 n2)].
    + pose proof (normalize_node_ge n1 (Event.join_fuel k l1 (rebase l2 n2 n1))
        (Event.join_fuel k r1 (rebase r2 n2 n1)) p) as Hn.
      pose proof (rebase_at l2 n2 n1 (ptail p)). pose proof (rebase_at r2 n2 n1 (ptail p)).
      pose proof (rebase_top l2 n2 n1). pose proof (rebase_top r2 n2 n1).
      destruct (IH l1 (rebase l2 n2 n1) (ptail p)) as [? ?];
        [rewrite rebase_size; lia|done|unfold fits in *; lia|].
      destruct (IH r1 (rebase r2 n2 n1) (ptail p)) as [? ?];
        [rewrite rebase_size; lia|done|unfold fits in *; lia|].
      cbn [at_] in *. destruct (p 0%nat); lia.
    + pose proof (normalize_node_ge n2 (Event.join_fuel k (rebase l1 n1 n2) l2)
        (Event.join_fuel k (rebase r1 n1 n2) r2) p) as Hn.
      pose proof (rebase_at l1 n1 n2 (ptail p)). pose proof (rebase_at r1 n1 n2 (ptail p)).
      pose proof (rebase_top l1 n1 n2). pose proof (rebase_top r1 n1 n2).
      destruct (IH (rebase l1 n1 n2) l2 (ptail p)) as [? ?];
        [rewrite rebase_size; lia|unfold fits in *; lia|done|].
      destruct (IH (rebase r1 n1 n2) r2 (ptail p)) as [? ?];
        [rewrite rebase_size; lia|unfold fits in *; lia|done|].
      cbn [at_] in *. destruct (p 0%nat); lia.
    + assert (n1 = n2) as -> by lia.
      pose proof (normalize_node_ge n2 (Event.join_fuel k l1 l2) (Event.join_fuel k r1 r2) p).
      destruct (IH l1 l2 (ptail p)); [lia|done..|].
      destruct (IH r1 r2 (ptail p)); [lia|done..|].
      cbn [at_] in *. destruct (p 0%nat); lia.
Qed.

Lemma join_fuel_comm k a b : (Event.size a + Event.size b <= k)%nat →
  Event.join_fuel k a b = Event.join_fuel k b a.
Proof.
  revert a b. induction k as [|k IH]; intros a b Hk; [pose proof (size_pos a); lia|].
  destruct a as [n1|n1 l1 r1], b as [n2|n2 l2 r2]; cbn [Event.join_fuel Event.size] in *.
  - by rewrite N.max_comm.
  - case_match; [done|]. do 2 f_equal; apply IH; simpl; lia.
  - case_match; [done|]. do 2 f_equal; apply IH; simpl; lia.
  - fold_rebase.
    destruct (N.ltb_spec n2 n1), (N.ltb_spec n1 n2); try lia;
      [| |assert (n1 = n2) as -> by lia];
      do 2 f_equal; apply IH; rewrite ?rebase_size; lia.
Qed.

Lemma join_fuel_idem k a : (2 * Event.size a <= k)%nat →
  Event.join_fuel k a a = Event.normalize a.
Proof.
  revert a. induction k as [|k IH]; intros a Hk; [pose proof (size_pos a); lia|].
  destruct a as [n|n l r]; cbn [Event.join_fuel Event.size] in *.
  - by rewrite N.max_id.
  - rewrite N.ltb_irrefl, !IH by lia. cbn [Event.normalize]. by rewrite !normalize_idem.
Qed.

(** ** Lemmas on the codec *)

Lemma low7_checked :
  forallb (fun b => (N.land b 128 =? 0) && (N.land b 127 =? b) &&
     (N.land (N.lor b 128) 127 =? b) && negb (N.land (N.lor b 128) 128 =? 0) &&
     (N.lor b 128 <? 256)) (N.of_nat <$> seq 0 128) = true.
Proof. by vm_compute. Qed.

Lemma low7 b : b < 128 →
  N.land b 128 = 0 ∧ N.land b 127 = b ∧ N.land (N.lor b 128) 127 = b ∧
  (N.land (N.lor b 128) 128 =? 0) = false ∧ N.lor b 128 < 256.
Proof.
  intros H. pose proof (proj1 (forallb_forall _ _) low7_checked b) as Hc.
  rewrite !andb_true_iff, !N.eqb_eq, N.ltb_lt, negb_true_iff in Hc.
  destruct Hc as [[[[? ?] ?] ?] ?]; [|done].
  apply list_elem_of_In, list_elem_of_fmap. exists (N.to_nat b).
  rewrite N2Nat.id, elem_of_seq. lia.
Qed.

Lemma land_127 v : N.land v 127 = v mod 128.
Proof. exact (N.land_ones v 7). Qed.

Lemma lookup_mid {A} (pre suf : list A) x : (pre ++ x :: suf) !! length pre = Some x.
Proof. by rewrite list_lookup_middle. Qed.

Lemma app_snoc_shift {A} (pre suf : list A) x : pre ++ x :: suf = (pre ++ [x]) ++ suf.
Proof. by rewrite <- app_assoc. Qed.

(** After [j] groups the decoder holds the low [7 j] bits and the encoder the
    rest of the value. *)
Lemma varint_loop_roundtrip k : ∀ j v r pre suf,
  (j + k = 10)%nat → (j <= 9)%nat →
  v < 2 ^ (64 - 7 * N.of_nat j) → r < 2 ^ (7 * N.of_nat j) →
  decode_varint_loop k (pre ++ encode_varint_loop k v ++ suf) (length pre) r
    (7 * N.of_nat j) =
  Ok (r + v * 2 ^ (7 * N.of_nat j), (length pre + length (encode_varint_loop k v))%nat).
Proof.
  induction k as [|k IH]; intros j v r pre suf Hj Hj9 Hv Hr; [lia|].
  assert (Hs : 7 * N.of_nat j <= 63) by lia.
  remember (7 * N.of_nat j) as s eqn:Es.
  assert (Hm : v mod 128 < 128) by (apply N.mod_lt; lia).
  pose proof (N.div_mod v 128 ltac:(lia)) as Hdm.
  assert (H64 : 2 ^ 64 = 2 ^ (64 - s) * 2 ^ s)
    by (rewrite <- N.pow_add_r; f_equal; lia).
  assert (Hpos : 0 < 2 ^ s) by (apply N.neq_0_lt_0, N.pow_nonzero; lia).
  assert (Hsh : N.shiftl (v mod 128) s mod 2 ^ 64 = N.shiftl (v mod 128) s).
  { apply N.mod_small. rewrite N.shiftl_mul_pow2, H64.
    apply N.mul_lt_mono_pos_r; [done|]. lia. }
  destruct (low7 _ Hm) as (L1&L2&L3&L4&L5).
  cbn [encode_varint_loop]. rewrite land_127, N.shiftr_div_pow2.
  change (2 ^ 7) with 128. destruct (N.eqb_spec (v / 128) 0) as [E0|E0].
  + simpl app. cbn [decode_varint_loop]. rewrite lookup_mid, to_N_byte_of_N.
    rewrite (N.mod_small (v mod 128) 256) by lia. rewrite L1, L2, Hsh.
    rewrite N_lor_low_shiftl by done. simpl.
    f_equal. f_equal; [|lia]. replace (v mod 128) with v by lia. lia.
  + cbn [app decode_varint_loop]. rewrite lookup_mid, to_N_byte_of_N.
    rewrite (N.mod_small (N.lor (v mod 128) 128) 256) by lia. rewrite L3, L4, Hsh.
    rewrite N_lor_low_shiftl by done.
    assert (H7 : s + 7 = 7 * N.of_nat (S j)) by lia. rewrite H7.
    assert (Hbig : 128 <= v) by lia.
    assert (Hlt : s + 7 < 64).
    { apply N.nle_gt. intros Hge.
      assert (2 ^ (64 - s) <= 2 ^ 7) by (apply N.pow_le_mono_r; lia).
      change (2 ^ 7) with 128 in *. lia. }
    destruct (N.leb_spec 64 (7 * N.of_nat (S j))); [lia|].
    rewrite app_snoc_shift.
    replace (S (length pre)) with (length (pre ++ [byte_of_N (N.lor (v mod 128) 128)]))
      by (rewrite length_app; simpl; lia).
    rewrite IH.
    * rewrite length_app. f_equal. f_equal; [|simpl; lia].
      rewrite <- H7, N.pow_add_r. change (2 ^ 7) with 128. nia.
    * lia.
    * lia.
    * rewrite <- H7. apply N.Div0.div_lt_upper_bound.
      assert (2 ^ (64 - s) = 128 * 2 ^ (64 - (s + 7))); [|lia].
      change 128 with (2 ^ 7). rewrite <- N.pow_add_r. f_equal. lia.
    * rewrite <- H7, N.pow_add_r. change (2 ^ 7) with 128. nia.
Qed.

Lemma varint_roundtrip v pre suf : v < 2 ^ 64 →
  decode_varint (pre ++ encode_varint v ++ suf) (length pre) =
  Ok (v, (length pre + length (encode_varint v))%nat).
Proof.
  intros H. unfold decode_varint, encode_varint.
  pose proof (varint_loop_roundtrip 10 0 v 0 pre suf) as G.
  change (7 * N.of_nat 0) with 0 in G.
  rewrite G by (done || lia). f_equal. f_equal. lia.
Qed.

Lemma id_roundtrip i : ∀ k pre suf, (id_depth i <= k)%nat →
  decode_id (pre ++ encode_id i ++ suf) k (length pre) =
  Ok (i, (length pre + length (encode_id i))%nat).
Proof.
  induction i as [[]|l IHl r IHr]; intros [|k] pre suf Hk; simpl in Hk; try lia;
    cbn [encode_id app decode_id]; rewrite lookup_mid; simpl Byte.to_N; cbn iota;
    try (f_equal; f_equal; simpl; lia).
  rewrite app_snoc_shift, <- (app_assoc (encode_id l)).
  replace (S (length pre)) with (length (pre ++ [byte_of_N 2])) by (rewrite length_app; simpl; lia).
  rewrite IHl by lia. cbn [mbind outcome_bind]. rewrite (app_assoc _ (encode_id l)).
  rewrite <- length_app, IHr by lia. cbn [mbind outcome_bind].
  f_equal. f_equal. rewrite !length_app. simpl. rewrite length_app. lia.
Qed.

Lemma event_roundtrip e : ∀ k pre suf, (ev_depth e <= k)%nat → ev_u64 e →
  decode_event (pre ++ encode_event e ++ suf) k (length pre) =
  Ok (e, (length pre + length (encode_event e))%nat).
Proof.
  induction e as [n|n l IHl r IHr]; intros [|k] pre suf Hk Hu; simpl in Hk; try lia;
    cbn [encode_event app decode_event]; rewrite lookup_mid; simpl Byte.to_N; cbn iota;
    rewrite app_snoc_shift.
  - replace (S (length pre)) with (length (pre ++ [byte_of_N 0])) by (rewrite length_app; simpl; lia).
    rewrite varint_roundtrip by done. cbn [mbind outcome_bind]. f_equal. f_equal. rewrite length_app. simpl. lia.
  - destruct Hu as (Hn&Hl&Hr).
    rewrite <- (app_assoc (encode_varint n)), <- (app_assoc (encode_event l)).
    replace (S (length pre)) with (length (pre ++ [byte_of_N 1])) by (rewrite length_app; simpl; lia).
    rewrite varint_roundtrip by done. cbn [mbind outcome_bind].
    rewrite (app_assoc _ (encode_varint n)), <- length_app, IHl by (done || lia).
    cbn [mbind outcome_bind].
    rewrite (app_assoc _ (encode_event l)), <- length_app, IHr by (done || lia).
    cbn [mbind outcome_bind]. f_equal. f_equal. rewrite !length_app. simpl. rewrite !length_app. lia.
Qed.

Lemma lor_u64 a b : a < 2 ^ 64 → b < 2 ^ 64 → N.lor a b < 2 ^ 64.
Proof.
  intros Ha Hb. destruct (decide (N.lor a b = 0)) as [->|Hn]; [done|].
  apply N.log2_lt_pow2; [lia|]. rewrite N.log2_lor.
  destruct (decide (a = 0)) as [->|], (decide (b = 0)) as [->|];
    rewrite ?N.log2_lt_pow2 by lia; [done| | |];
    repeat match goal with
    | H : ?x < 2 ^ 64, H0 : ?x ≠ 0 |- _ =>
        apply N.log2_lt_pow2 in H; [|lia]
    end; change (N.log2 0) with 0; lia.
Qed.

Lemma decode_varint_u64 k data pos r s v pos' :
  r < 2 ^ 64 → decode_varint_loop k data pos r s = Ok (v, pos') → v < 2 ^ 64.
Proof.
  revert pos r s. induction k as [|k IH]; intros pos r s Hr H; [done|].
  cbn [decode_varint_loop] in H. destruct (data !! pos) as [b|]; [|done].
  assert (N.lor r (N.shiftl (N.land (Byte.to_N b) 127) s mod 2 ^ 64) < 2 ^ 64)
    by (apply lor_u64; [done|by apply N.mod_lt]).
  case_match; [by simplify_eq|]. case_match; [done|]. eauto.
Qed.

Lemma decode_id_depth k data : ∀ pos i pos',
  decode_id data k pos = Ok (i, pos') → (id_depth i <= k)%nat.
Proof.
  induction k as [|k IH]; intros pos i pos' H; [done|].
  cbn [decode_id] in H. destruct (data !! pos) as [b|]; [|done].
  destruct (Byte.to_N b) as [|[|[]|]]; simplify_eq; try (simpl; lia).
  apply outcome_bind_Ok in H as ([l p1]&Hl&H).
  apply outcome_bind_Ok in H as ([r p2]&Hr&H). simplify_eq.
  apply IH in Hl, Hr. simpl. lia.
Qed.

Lemma decode_event_wf k data : ∀ pos e pos',
  decode_event data k pos = Ok (e, pos') → (ev_depth e <= k)%nat ∧ ev_u64 e.
Proof.
  induction k as [|k IH]; intros pos e pos' H; [done|].
  cbn [decode_event] in H. destruct (data !! pos) as [b|]; [|done].
  destruct (Byte.to_N b) as [|[]]; try done;
    apply outcome_bind_Ok in H as ([n p0]&Hn&H);
    apply decode_varint_u64 in Hn; try done.
  - simplify_eq. simpl. split; [lia|done].
  - apply outcome_bind_Ok in H as ([l p1]&Hl&H).
    apply outcome_bind_Ok in H as ([r p2]&Hr&H). simplify_eq.
    apply IH in Hl as [??], Hr as [??]. simpl. split; [lia|done].
Qed.

(** The body of [from_bytes] at any depth limit. *)
Lemma to_from_bytes_depth k s :
  (id_depth (id s) <= k)%nat → (ev_depth (event s) <= k)%nat → ev_u64 (event s) →
  ('(i, pos) ← decode_id (to_bytes s) k 0;
   '(e, pos) ← decode_event (to_bytes s) k pos;
   if bool_decide (pos ≠ length (to_bytes s))
   then Err (EWire "ITC stamp: trailing byte(s) after valid stamp")
   else Ok (mkStamp i e)) = Ok s.
Proof.
  intros Hi He Hu. unfold to_bytes.
  pose proof (id_roundtrip (id s) k [] (encode_event (event s)) Hi) as G0.
  cbn [app length Nat.add] in G0. rewrite G0. cbn [mbind outcome_bind].
  pose proof (event_roundtrip (event s) k (encode_id (id s)) [] He Hu) as G.
  rewrite app_nil_r in G. rewrite G. cbn [mbind outcome_bind].
  rewrite bool_decide_eq_false_2; [by destruct s|].
  rewrite length_app. lia.
Qed.

#[global] Opaque MAX_ITC_DEPTH.

Lemma to_from_bytes s : stamp_wf s → from_bytes (to_bytes s) = Ok s.
Proof. intros (Hi&He&Hu). exact (to_from_bytes_depth MAX_ITC_DEPTH s Hi He Hu). Qed.

Lemma from_bytes_depth k data s :
  ('(i, pos) ← decode_id data k 0;
   '(e, pos) ← decode_event data k pos;
   if bool_decide (pos ≠ length data)
   then Err (EWire "ITC stamp: trailing byte(s) after valid stamp")
   else Ok (mkStamp i e)) = Ok s →
  (id_depth (id s) <= k)%nat ∧ (ev_depth (event s) <= k)%nat ∧ ev_u64 (event s).
Proof.
  intros H. apply outcome_bind_Ok in H as ([i p1]&Hi&H).
  apply outcome_bind_Ok in H as ([e p2]&He&H).
  case_bool_decide; [done|]. simplify_eq.
  apply decode_id_depth in Hi. apply decode_event_wf in He as [He Hu]. done.
Qed.

Lemma stamp_join_ge_left a b p : fits (event a) → fits (event b) →
  at_ (event a) p <= at_ (event (Stamp.join a b)) p.
Proof. intros Ha Hb. by apply join_fuel_ub. Qed.

(** ** Properties of the clock *)

(** Recording an event moves a stamp strictly forward: a stamp whose identity
    owns some position, with no counter at the top of its range, is [before]
    the stamp [event_] makes of it; the counts of the owned positions grow and
    those of every other position stay as they are. *)
Theorem stamp_event_before s :
  (∃ p, owns (id s) p = true) → top (event s) < U64_MAX →
  Stamp.before s (Stamp.event_ s) = true ∧
  ∀ p, if owns (id s) p then at_ (event s) p < at_ (event (Stamp.event_ s)) p
       else at_ (event (Stamp.event_ s)) p = at_ (event s) p.
Proof.
  intros [p Hp] Ht.
  assert (Hfit : fits (event s)) by (unfold fits; lia).
  pose proof (fill_top (id s) _ Ht) as Hff.
  assert (Hat : ∀ q, at_ (event (Stamp.event_ s)) q = at_ (fill (id s) (event s)) q)
    by (intros q; simpl; by apply normalize_at).
  split.
  - unfold Stamp.before, Stamp.leq. simpl.
    rewrite leq_normalize; [|done..|by apply fill_leq]. simpl.
    apply negb_true_iff, not_true_iff_false. intros Hle.
    apply leq_at with (p := p) in Hle;
      [|unfold fits; etrans; [apply normalize_top|done]].
    pose proof (fill_node_at (id s) (event s) p Ht) as [_ H]. rewrite Hp in H.
    rewrite normalize_at in Hle by done. lia.
  - intros q. rewrite Hat. by apply fill_node_at.
Qed.

Lemma stamp_event_before_witness :
  Stamp.before (Stamp.fork Stamp.seed).1 (Stamp.event_ (Stamp.fork Stamp.seed).1) = true.
Proof.
  apply (stamp_event_before (Stamp.fork Stamp.seed).1);
    [by exists (λ _, false) | reflexivity].
Defined.

(** Forking partitions an identity: for every identity that comes from the
    seed by forks (the [spine] shape, which both halves keep), each position it
    owns belongs to exactly one of the two halves, and neither half owns
    anything else. *)
Theorem id_fork_partition i :
  spine i = true →
  (spine (Id.fork i).1 = true ∧ spine (Id.fork i).2 = true) ∧
  ∀ p, owns i p = xorb (owns (Id.fork i).1 p) (owns (Id.fork i).2 p) ∧
       owns (Id.fork i).1 p && owns (Id.fork i).2 p = false.
Proof.
  intros Hs. split; [by apply spine_fork|]. revert Hs.
  induction i as [[]|l IHl r IHr]; intros Hs p; cbn [Id.fork fst snd owns] in *;
    [by destruct (p 0%nat)|done|].
  cbn [spine] in Hs. destruct (Id.is_zero r) eqn:Zr.
  - apply is_zero_spec in Zr as ->.
    assert (Hl : spine l = true).
    { apply orb_true_iff in Hs as [Hs|Hs]; [done|].
      apply andb_true_iff in Hs as [Hs _]. by apply is_zero_spec in Hs as ->. }
    specialize (IHl Hl (ptail p)). destruct (Id.fork l) as [l1 l2]; simpl in *.
    by destruct (p 0%nat).
  - destruct (Id.is_zero l) eqn:Zl; [|done]. apply is_zero_spec in Zl as ->.
    specialize (IHr Hs (ptail p)). destruct (Id.fork r) as [r1 r2]; simpl in *.
    by destruct (p 0%nat).
Qed.

Lemma id_fork_partition_witness :
  spine (IdNode (IdLeaf false) (IdLeaf true)) = true ∧
  spine (Id.fork (IdNode (IdLeaf false) (IdLeaf true))).1 = true.
Proof.
  split; [reflexivity|].
  apply (id_fork_partition (IdNode (IdLeaf false) (IdLeaf true)) eq_refl).
Defined.

(** Joining identities is the union of what they own, whatever the
    shapes of the two trees: a position belongs to the result exactly when it
    belongs to one of the two. *)
Theorem id_join_union a b p : owns (Id.join a b) p = owns a p || owns b p.
Proof.
  revert b p. induction a as [[]|l1 IHl r1 IHr]; intros b p; [by destruct b as [[]|]|done|].
  destruct b as [[]|l2 r2]; cbn [Id.join];
    [by rewrite orb_true_r|by rewrite orb_false_r|].
  rewrite id_normalize_owns. cbn [owns]. rewrite IHl, IHr. by destruct (p 0%nat).
Qed.

(** The causal order is sound: when [leq] answers true, every position has
    counted at most as many events on the left as on the right, so two stamps
    reported [before] one another are really ordered. *)
Theorem stamp_leq_sound a b :
  fits (event a) → Stamp.leq a b = true → ∀ p, at_ (event a) p <= at_ (event b) p.
Proof. intros Ha H p. by apply leq_at. Qed.

Lemma stamp_leq_sound_witness :
  at_ (event Stamp.seed) (fun _ => true) <= at_ (event (Stamp.event_ Stamp.seed)) (fun _ => true).
Proof.
  apply (stamp_leq_sound Stamp.seed (Stamp.event_ Stamp.seed)); [|reflexivity].
  vm_compute. discriminate.
Defined.

(** Merging loses no event: the joined event tree counts at every position at
    least what either side counts. *)
Theorem stamp_join_upper_bound a b p :
  fits (event a) → fits (event b) →
  at_ (event a) p <= at_ (event (Stamp.join a b)) p ∧
  at_ (event b) p <= at_ (event (Stamp.join a b)) p.
Proof. intros Ha Hb. by apply join_fuel_ub. Qed.

Lemma stamp_join_upper_bound_witness :
  3 <= at_ (Event.join (EvLeaf 3) (EvNode 0 (EvLeaf 5) (EvLeaf 1))) (λ _, true).
Proof.
  apply (stamp_join_upper_bound (mkStamp Id.seed (EvLeaf 3))
    (mkStamp Id.seed (EvNode 0 (EvLeaf 5) (EvLeaf 1))) (λ _, true)); vm_compute; discriminate.
Defined.

(** Merging event histories is commutative, and merging a history with itself
    gives that history in normal form. *)
Theorem event_join_comm_idem a b :
  Event.join a b = Event.join b a ∧ Event.join a a = Event.normalize a.
Proof.
  unfold Event.join. split; [|apply join_fuel_idem; lia].
  rewrite (Nat.add_comm (Event.size b)). by apply join_fuel_comm.
Qed.

(** The binary codec round trips: every stamp with 64-bit counters and trees
    within the nesting limit decodes from its own bytes, with nothing left
    over. *)
Theorem stamp_codec_roundtrip s : stamp_wf s → from_bytes (to_bytes s) = Ok s.
Proof. apply to_from_bytes. Qed.

Lemma stamp_codec_roundtrip_witness :
  from_bytes (to_bytes (Stamp.event_ (Stamp.fork Stamp.seed).2)) =
  Ok (Stamp.event_ (Stamp.fork Stamp.seed).2).
Proof.
  apply (stamp_codec_roundtrip (Stamp.event_ (Stamp.fork Stamp.seed).2)).
  split; [apply Nat.leb_le; by vm_compute|].
  split; [apply Nat.leb_le; by vm_compute|]. by vm_compute.
Defined.

(** Whatever bytes [from_bytes] accepts, the result is a stamp the codec can
    carry: trees of at most [MAX_ITC_DEPTH] levels and 64-bit counters, which
    encodes and decodes to itself again. *)
Theorem from_bytes_wf data s :
  from_bytes data = Ok s → stamp_wf s ∧ from_bytes (to_bytes s) = Ok s.
Proof.
  intros H. pose proof (from_bytes_depth MAX_ITC_DEPTH data s H : stamp_wf s) as Hw.
  split; [done|by apply to_from_bytes].
Qed.

Lemma from_bytes_wf_witness :
  stamp_wf (mkStamp (IdLeaf true) (EvLeaf 5)).
Proof.
  apply (from_bytes_wf [x01; x00; x05] (mkStamp (IdLeaf true) (EvLeaf 5))). by vm_compute.
Defined.

(** ** Where the order and the fork fall short *)

(** The event part of a stamp as it travels in a message: no identity. *)
Definition message (s : Stamp) : Stamp := mkStamp Id.zero (event s).

(** The order is not complete.  Two nodes forked from the seed: the second
    records three events and receives the first node's three, the first records
    five and receives one; then the second's stamp and its own join with the
    first's are reported [concurrent], although the join counts at least as much
    at every position. *)
Theorem leq_incomplete :
  let a0 := (Stamp.fork Stamp.seed).1 in
  let b0 := (Stamp.fork Stamp.seed).2 in
  let b1 := Stamp.event_ b0 in
  let a3 := Stamp.event_ (Stamp.event_ (Stamp.event_ a0)) in
  let b3 := Stamp.join (Stamp.event_ (Stamp.event_ b1)) (message a3) in
  let a5 := Stamp.join (Stamp.event_ (Stamp.event_ a3)) (message b1) in
  let j := Stamp.join b3 (message a5) in
  Stamp.concurrent b3 j = true ∧ ∀ p, at_ (event b3) p <= at_ (event j) p.
Proof.
  cbv zeta. split; [by vm_compute|]. intros p.
  apply stamp_join_ge_left; vm_compute; discriminate.
Qed.

(** An identity that owns both sides of a node does not fork into disjoint
    identities: the seed's left half joined with a quarter of its right half
    forks into the whole interval and a half that overlaps it. *)
Theorem fork_overlap :
  let i := Id.join (IdNode (IdLeaf true) (IdLeaf false))
                   (IdNode (IdLeaf false) (IdNode (IdLeaf true) (IdLeaf false))) in
  ∃ p, owns (Id.fork i).1 p = true ∧ owns (Id.fork i).2 p = true ∧
  ∃ q, owns i q = false ∧ owns (Id.fork i).1 q = true.
Proof.
  exists (λ _, false). repeat split. exists (λ _, true). repeat split.
Qed.
