(* ===== verification/SmtBits.v ===== *)
(** * Paths of the sparse Merkle tree, bit by bit

    src/crates/elara-smt/src/lib.rs: the helpers on 256-bit paths, stored as
    32 bytes and read most significant bit first.  A path is a [list byte];
    the functions are the code's byte arithmetic, and one lemma per function
    says what it does to [bit_get].  Indices are below 256 at every call (the
    code would panic on the array access otherwise). *)

From S2P Require Import Prelude.

Definition path := list byte.
Definition MAX_DEPTH : nat := 256.

Definition bit_get (bytes : path) (index : nat) : bool :=
  let shift := N.of_nat (7 - index mod 8) in
  (N.land (N.shiftr (Byte.to_N (nth (index / 8) bytes x00)) shift) 1 =? 1)%N.

Definition bit_set (bytes : path) (index : nat) : path :=
  let mask := N.shiftr 128 (N.of_nat (index mod 8)) in
  alter (fun b => byte_of_N (N.lor (Byte.to_N b) mask)) (index / 8) bytes.

Definition bit_toggle (bytes : path) (index : nat) : path :=
  let mask := N.shiftr 128 (N.of_nat (index mod 8)) in
  alter (fun b => byte_of_N (N.lxor (Byte.to_N b) mask)) (index / 8) bytes.

(** [u8::leading_zeros] *)
Definition leading_zeros8 (x : N) : nat := 8 - N.size_nat x.

Fixpoint first_diff_loop (i : nat) (a b : path) : nat :=
  match a, b with
  | x :: a, y :: b =>
      let z := N.lxor (Byte.to_N x) (Byte.to_N y) in
      if (z =? 0)%N then first_diff_loop (S i) a b else i * 8 + leading_zeros8 z
  | _, _ => MAX_DEPTH
  end.
Definition first_diff_bit (a b : path) : nat := first_diff_loop 0 a b.

Definition path_mask (p : path) (depth : nat) : path :=
  let full_bytes := depth / 8 in
  if 32 <=? full_bytes then p
  else
    let out := take full_bytes p ++ replicate (32 - full_bytes) x00 in
    let rem_bits := depth mod 8 in
    if 0 <? rem_bits then
      let mask := N.land (N.shiftl 255 (N.of_nat (8 - rem_bits))) 255 in
      <[full_bytes := byte_of_N (N.land (Byte.to_N (nth full_bytes p x00)) mask)]> out
    else out.

(** ** Bytes *)

Lemma testbit_byte_of_N n j : N.testbit (Byte.to_N (byte_of_N n)) j = (j <? 8)%N && N.testbit n j.
Proof.
  rewrite to_N_byte_of_N. change 256%N with (2 ^ 8)%N.
  destruct (N.ltb_spec j 8).
  - by rewrite N.mod_pow2_bits_low.
  - by rewrite N.mod_pow2_bits_high.
Qed.

Lemma byte_testbit_high b j : (8 <= j)%N → N.testbit (Byte.to_N b) j = false.
Proof.
  intros Hj. pose proof (Byte.to_N_bounded b) as Hb.
  destruct (decide (Byte.to_N b = 0%N)) as [->|Hz]; [apply N.bits_0|].
  apply N.bits_above_log2. apply N.log2_lt_pow2; [lia|].
  apply N.le_lt_trans with 255%N; [done|]. apply N.lt_le_trans with (2 ^ 8)%N; [done|].
  apply N.pow_le_mono_r; lia.
Qed.

Lemma byte_ext a b :
  (∀ j, (j < 8)%N → N.testbit (Byte.to_N a) j = N.testbit (Byte.to_N b) j) → a = b.
Proof.
  intros H. rewrite <- (byte_of_to_N a), <- (byte_of_to_N b). f_equal.
  apply N.bits_inj. intros j. destruct (decide (j < 8)%N); [by apply H|].
  by rewrite !byte_testbit_high by lia.
Qed.

(** ** [bit_get] *)

Lemma bit_get_testbit l i :
  bit_get l i = N.testbit (Byte.to_N (nth (i / 8) l x00)) (N.of_nat (7 - i mod 8)).
Proof.
  unfold bit_get. rewrite <- (N.add_0_l (N.of_nat (7 - i mod 8))) at 2.
  rewrite <- N.shiftr_spec'. rewrite N.land_comm.
  destruct (N.testbit (N.shiftr _ _) 0) eqn:E; rewrite N.bit0_odd in E.
  - destruct (N.shiftr _ _) as [|[]]; done.
  - destruct (N.shiftr _ _) as [|[]]; done.
Qed.

Lemma nth_alter f (l : list byte) k j : k < length l →
  nth j (alter f k l) x00 = if decide (j = k) then f (nth k l x00) else nth j l x00.
Proof.
  intros Hk. destruct (decide (j = k)) as [->|Hj].
  - destruct (lookup_lt_is_Some_2 l k Hk) as [x Hx].
    rewrite (nth_lookup_Some _ _ _ x Hx). apply nth_lookup_Some.
    by rewrite list_lookup_alter_eq, Hx.
  - rewrite !nth_lookup. by rewrite list_lookup_alter_ne by done.
Qed.

Lemma bit_get_alter f l k i : k < 8 * length l → i < 8 * length l →
  (∀ b j, (j < 8)%N → N.testbit (Byte.to_N (f b)) j
     = if decide (j = N.of_nat (7 - k mod 8)) then negb (N.testbit (Byte.to_N b) j) else N.testbit (Byte.to_N b) j) →
  bit_get (alter f (k / 8) l) i = if decide (i = k) then negb (bit_get l i) else bit_get l i.
Proof.
  intros Hk Hi Hf. rewrite !bit_get_testbit, nth_alter; [|apply Nat.Div0.div_lt_upper_bound; lia].
  pose proof (Nat.div_mod_eq i 8). pose proof (Nat.div_mod_eq k 8).
  pose proof (Nat.mod_upper_bound i 8 ltac:(lia)). pose proof (Nat.mod_upper_bound k 8 ltac:(lia)).
  destruct (decide (i / 8 = k / 8)) as [E|E].
  - rewrite Hf by lia. rewrite <- E.
    destruct (decide (N.of_nat (7 - i mod 8) = N.of_nat (7 - k mod 8))), (decide (i = k)); try done; lia.
  - rewrite decide_False; [done|]. intros ->. lia.
Qed.

Lemma shiftr128_testbit m j : m < 8 → (j < 8)%N →
  N.testbit (N.shiftr 128 (N.of_nat m)) j = bool_decide (j = N.of_nat (7 - m)).
Proof.
  intros Hm Hj. rewrite N.shiftr_spec'. change 128%N with (2 ^ 7)%N.
  rewrite N.pow2_bits_eqb. case_bool_decide; lia.
Qed.

Lemma bit_toggle_get l k i : k < 8 * length l → i < 8 * length l →
  bit_get (bit_toggle l k) i = if decide (i = k) then negb (bit_get l i) else bit_get l i.
Proof.
  intros Hk Hi. apply bit_get_alter; [done..|]. intros b j Hj.
  rewrite testbit_byte_of_N, N.lxor_spec, shiftr128_testbit by (done || (pose proof (Nat.mod_upper_bound k 8 ltac:(lia)); lia)).
  replace (j <? 8)%N with true by lia.
  rewrite andb_true_l. case_bool_decide; case_decide; try done; by destruct (N.testbit _ _).
Qed.

Lemma bit_set_get l k i : k < 8 * length l → i < 8 * length l →
  bit_get (bit_set l k) i = bool_decide (i = k) || bit_get l i.
Proof.
  intros Hk Hi. unfold bit_set. rewrite !bit_get_testbit, nth_alter;
    [|apply Nat.Div0.div_lt_upper_bound; lia].
  pose proof (Nat.div_mod_eq i 8). pose proof (Nat.div_mod_eq k 8).
  pose proof (Nat.mod_upper_bound i 8 ltac:(lia)). pose proof (Nat.mod_upper_bound k 8 ltac:(lia)).
  destruct (decide (i / 8 = k / 8)) as [E|E].
  - rewrite testbit_byte_of_N, N.lor_spec, shiftr128_testbit by lia. rewrite <- E.
    replace (N.of_nat (7 - i mod 8) <? 8)%N with true by lia. rewrite andb_true_l, orb_comm.
    do 2 case_bool_decide; try done; lia.
  - rewrite bool_decide_eq_false_2; [done|]. intros ->. lia.
Qed.

Lemma bit_set_length l k : length (bit_set l k) = length l.
Proof. apply length_alter. Qed.
Lemma bit_toggle_length l k : length (bit_toggle l k) = length l.
Proof. apply length_alter. Qed.

Lemma bits_ext a b : length a = length b →
  (∀ i, i < 8 * length a → bit_get a i = bit_get b i) → a = b.
Proof.
  intros Hl H. apply (nth_ext _ _ x00 x00); [done|]. intros n Hn.
  apply byte_ext. intros j Hj. specialize (H (8 * n + (7 - N.to_nat j)) ltac:(lia)).
  rewrite !bit_get_testbit in H.
  replace ((8 * n + (7 - N.to_nat j)) / 8) with n in H
    by (rewrite Nat.mul_comm, Nat.div_add_l, Nat.div_small by lia; lia).
  replace ((8 * n + (7 - N.to_nat j)) mod 8) with (7 - N.to_nat j) in H
    by (rewrite Nat.add_comm, Nat.mul_comm, Nat.Div0.mod_add, Nat.mod_small by lia; lia).
  by replace (N.of_nat (7 - (7 - N.to_nat j))) with j in H by lia.
Qed.

(** ** [path_mask] *)

Lemma path_mask_length p d : length p = 32 → length (path_mask p d) = 32.
Proof.
  intros Hp. unfold path_mask. destruct (Nat.leb_spec 32 (d / 8)); [done|].
  assert (length (take (d / 8) p ++ replicate (32 - d / 8) x00) = 32).
  { rewrite length_app, length_take, length_replicate. lia. }
  destruct (0 <? d mod 8); [by rewrite length_insert|done].
Qed.

Lemma high_mask_testbit r j : 0 < r < 8 → (j < 8)%N →
  N.testbit (N.land (N.shiftl 255 (N.of_nat (8 - r))) 255) j = (N.of_nat (8 - r) <=? j)%N.
Proof.
  intros Hr Hj. rewrite N.land_spec. change 255%N with (N.ones 8).
  rewrite (N.ones_spec_low 8 j) by lia. rewrite andb_true_r.
  destruct (N.leb_spec (N.of_nat (8 - r)) j).
  - rewrite N.shiftl_spec_high' by done. by rewrite N.ones_spec_low by lia.
  - by rewrite N.shiftl_spec_low by done.
Qed.

Lemma path_mask_get p d i : length p = 32 → d <= 256 → i < 256 →
  bit_get (path_mask p d) i = (i <? d) && bit_get p i.
Proof.
  intros Hp Hd Hi. pose proof (Nat.div_mod_eq d 8). pose proof (Nat.div_mod_eq i 8).
  pose proof (Nat.mod_upper_bound d 8 ltac:(lia)). pose proof (Nat.mod_upper_bound i 8 ltac:(lia)).
  unfold path_mask. destruct (Nat.leb_spec 32 (d / 8)).
  { by replace (i <? d) with true by lia. }
  set (out := take (d / 8) p ++ replicate (32 - d / 8) x00).
  assert (Hout : ∀ j, nth j out x00 = if decide (j < d / 8) then nth j p x00 else x00).
  { intros j. unfold out. rewrite !nth_lookup. destruct (decide (j < d / 8)).
    - rewrite lookup_app_l by (rewrite length_take; lia). by rewrite lookup_take_lt.
    - rewrite lookup_app_r by (rewrite length_take; lia).
      destruct (replicate _ _ !! _) eqn:E; [|done]. by apply lookup_replicate in E as [-> _]. }
  assert (Hlen : length out = 32) by (unfold out; rewrite length_app, length_take, length_replicate; lia).
  destruct (Nat.ltb_spec 0 (d mod 8)) as [Hr|Hr]; rewrite !bit_get_testbit.
  - destruct (decide (i / 8 = d / 8)) as [E|E].
    + rewrite E, nth_lookup, list_lookup_insert_eq by lia. change (default ?x (Some ?y)) with y.
      rewrite testbit_byte_of_N, N.land_spec, high_mask_testbit by lia.
      replace (N.of_nat (7 - i mod 8) <? 8)%N with true by lia. rewrite andb_true_l, andb_comm.
      f_equal. destruct (i <? d) eqn:?; lia.
    + rewrite nth_lookup, list_lookup_insert_ne, <- nth_lookup by done. rewrite Hout.
      destruct (decide (i / 8 < d / 8)).
      * by replace (i <? d) with true by lia.
      * replace (i <? d) with false by lia. by rewrite N.bits_0.
  - rewrite Hout. destruct (decide (i / 8 < d / 8)).
    + by replace (i <? d) with true by lia.
    + replace (i <? d) with false by lia. by rewrite N.bits_0.
Qed.

(** ** Paths that agree on a prefix *)

Definition agree (d : nat) (p q : path) : Prop := ∀ i, i < d → bit_get p i = bit_get q i.

Lemma path_mask_eq d p q : length p = 32 → length q = 32 → d <= 256 →
  path_mask p d = path_mask q d ↔ agree d p q.
Proof.
  intros Hp Hq Hd. split.
  - intros H i Hi. assert (E : bit_get (path_mask p d) i = bit_get (path_mask q d) i) by (by rewrite H).
    rewrite !path_mask_get in E by (done || lia). by replace (i <? d) with true in E by lia.
  - intros H. apply bits_ext; [by rewrite !path_mask_length|].
    rewrite path_mask_length by done. intros i Hi. rewrite !path_mask_get by (done || lia).
    destruct (Nat.ltb_spec i d); [by rewrite H|done].
Qed.

Lemma agree_full p q : length p = 32 → length q = 32 → agree 256 p q → p = q.
Proof. intros Hp Hq H. apply bits_ext; [congruence|]. intros i Hi. apply H. lia. Qed.

(** ** [first_diff_bit] *)

Lemma size_nat_log2 z : z ≠ 0%N → N.size_nat z = S (N.to_nat (N.log2 z)).
Proof.
  destruct z as [|q]; [done|]. intros _. cbn [N.size_nat].
  assert (H : N.of_nat (Pos.size_nat q) = N.succ (N.log2 (N.pos q))).
  { rewrite <- N.size_log2 by done. simpl. induction q; simpl in *; lia. }
  lia.
Qed.

Lemma lxor_top x y (z := N.lxor (Byte.to_N x) (Byte.to_N y)) : z ≠ 0%N →
  leading_zeros8 z < 8 ∧
  N.testbit (Byte.to_N x) (N.of_nat (7 - leading_zeros8 z))
    ≠ N.testbit (Byte.to_N y) (N.of_nat (7 - leading_zeros8 z)) ∧
  ∀ i, i < leading_zeros8 z →
    N.testbit (Byte.to_N x) (N.of_nat (7 - i)) = N.testbit (Byte.to_N y) (N.of_nat (7 - i)).
Proof.
  intros Hz. assert (Hlt : (N.log2 z < 8)%N).
  { destruct (decide (N.log2 z < 8)%N) as [|Hn]; [done|]. pose proof (N.bit_log2 z Hz) as Hb.
    unfold z in Hb at 1. rewrite N.lxor_spec, !byte_testbit_high in Hb by lia. done. }
  assert (Hs : N.size_nat z = S (N.to_nat (N.log2 z))).
  { by apply size_nat_log2. }
  assert (Hlz : leading_zeros8 z = 7 - N.to_nat (N.log2 z)) by (unfold leading_zeros8; lia).
  rewrite Hlz. split_and!; [lia| |].
  - replace (N.of_nat (7 - (7 - N.to_nat (N.log2 z)))) with (N.log2 z) by lia.
    pose proof (N.bit_log2 z Hz) as Hb. unfold z in Hb at 1. rewrite N.lxor_spec in Hb.
    by intros E; rewrite E, xorb_nilpotent in Hb.
  - intros i Hi. pose proof (N.bits_above_log2 z (N.of_nat (7 - i)) ltac:(lia)) as Hb.
    unfold z in Hb. rewrite N.lxor_spec in Hb. by destruct (N.testbit (Byte.to_N x) _), (N.testbit (Byte.to_N y) _).
Qed.

Lemma bit_get_cons_lo x l i : i < 8 → bit_get (x :: l) i = N.testbit (Byte.to_N x) (N.of_nat (7 - i)).
Proof.
  intros Hi. rewrite bit_get_testbit. by rewrite Nat.div_small, Nat.mod_small by done.
Qed.
Lemma bit_get_cons_hi x l i : bit_get (x :: l) (8 + i) = bit_get l i.
Proof.
  rewrite !bit_get_testbit. replace ((8 + i) / 8) with (S (i / 8)).
  - replace ((8 + i) mod 8) with (i mod 8); [done|].
    rewrite Nat.add_comm. change (i + 8) with (i + 1 * 8). by rewrite Nat.Div0.mod_add.
  - rewrite Nat.add_comm. change (i + 8) with (i + 1 * 8). rewrite Nat.div_add by lia. lia.
Qed.

Lemma first_diff_loop_spec a b : ∀ k, length a = length b → a ≠ b →
  ∃ s, first_diff_loop k a b = k * 8 + s ∧ s < 8 * length a ∧ bit_get a s ≠ bit_get b s ∧ agree s a b.
Proof.
  revert b. induction a as [|x a IH]; intros [|y b] k Hl Hne; try done.
  cbn [first_diff_loop]. destruct (N.eqb_spec (N.lxor (Byte.to_N x) (Byte.to_N y)) 0) as [E|E].
  - apply N.lxor_eq in E. assert (x = y) as <- by (by rewrite <- (byte_of_to_N x), E, byte_of_to_N).
    destruct (IH b (S k)) as (s & -> & Hs & Hd & Ha); [by injection Hl|congruence|].
    exists (8 + s). rewrite !bit_get_cons_hi. split_and!; [lia|simpl; lia|done|].
    intros i Hi. destruct (decide (i < 8)); [by rewrite !bit_get_cons_lo|].
    replace i with (8 + (i - 8)) by lia. rewrite !bit_get_cons_hi. apply Ha. lia.
  - apply lxor_top in E as (Hlt & Hd & Ha). eexists. split; [done|].
    rewrite !bit_get_cons_lo by done. split_and!; [simpl; lia|done|].
    intros i Hi. rewrite !bit_get_cons_lo by lia. by apply Ha.
Qed.

Lemma first_diff_bit_spec a b : length a = 32 → length b = 32 → a ≠ b →
  first_diff_bit a b < 256 ∧ bit_get a (first_diff_bit a b) ≠ bit_get b (first_diff_bit a b) ∧
  agree (first_diff_bit a b) a b.
Proof.
  intros Ha Hb Hne. destruct (first_diff_loop_spec a b 0) as (s & E & Hs & H1 & H2); [congruence|done|].
  unfold first_diff_bit. rewrite E. simpl. rewrite Ha in Hs. split_and!; [lia|done|done].
Qed.

(** ** Children of a node *)

(** The prefix of depth [d + 1] of a path is its prefix of depth [d] with the
    bit [d] cleared or set. *)
Lemma agree_S d p q : agree (S d) p q ↔ agree d p q ∧ bit_get p d = bit_get q d.
Proof.
  split.
  - intros H. split; [intros i Hi|]; apply H; lia.
  - intros [H1 H2] i Hi. destruct (decide (i = d)) as [->|]; [done|]. apply H1. lia.
Qed.
Lemma agree_sym d p q : agree d p q → agree d q p.
Proof. intros H i Hi. by rewrite H. Qed.
Lemma agree_trans d p q r : agree d p q → agree d q r → agree d p r.
Proof. intros H1 H2 i Hi. by rewrite H1, H2. Qed.
Lemma agree_le d e p q : d <= e → agree e p q → agree d p q.
Proof. intros Hde H i Hi. apply H. lia. Qed.
Lemma agree_refl d p : agree d p p.
Proof. by intros i Hi. Qed.
