(* ===== verification/Smt.v ===== *)
(** * Sparse Merkle tree

    src/crates/elara-smt/src/lib.rs: the 256-level key-addressed tree over the
    in-memory store [MemorySmtStore], with its write buffers, the two store
    formats (the full-tail legacy one and the compact v2 one), the inclusion and
    exclusion proofs and their stateless verification.

    A tree is a record of maps and every operation is a function on it.  The
    store never fails, so the [Result] of the operations is always [Ok] and left
    out; depths are at most 256, so the [u16] arithmetic never wraps.  SHA3 is a
    parameter ([Externals]). *)

From S2P Require Import Prelude SmtBits.

Definition digest := list byte.

Definition EMPTY_HASH : digest := Eval vm_compute in map byte_of_N
  [0xa7; 0xff; 0xc6; 0xf8; 0xbf; 0x1e; 0xd7; 0x66;
   0x51; 0xc1; 0x47; 0x56; 0xa0; 0x61; 0xd6; 0x62;
   0xf5; 0x80; 0xff; 0x4d; 0xe4; 0x3b; 0x49; 0xfa;
   0x82; 0xd8; 0x0a; 0x4b; 0x80; 0xf8; 0x43; 0x4a]%N.

Definition FORMAT_V2_TAG : digest := Eval vm_compute in map byte_of_N
  [0x8e; 0x0b; 0x03; 0x65; 0x22; 0x8a; 0xba; 0xcd;
   0x1a; 0x3c; 0x38; 0xcb; 0xf3; 0xdc; 0x83; 0x65;
   0xd9; 0x56; 0xec; 0x19; 0x78; 0xe2; 0xcc; 0x10;
   0xd3; 0x7d; 0xc7; 0x79; 0xd2; 0x50; 0xfa; 0x01]%N.

(** ** Store keys *)

Definition node_key (depth : nat) (path_prefix : path) : list byte :=
  bytes_of "n:" ++ be_bytes 2 (Z.of_nat depth) ++ path_prefix.
Definition p_key (depth : nat) (path_prefix : path) : list byte :=
  bytes_of "p:" ++ be_bytes 2 (Z.of_nat depth) ++ path_prefix.
Definition value_key (account_id : list byte) : list byte := bytes_of "v:" ++ account_id.
Definition FORMAT_KEY : list byte := bytes_of "f:format".
(** [[0u8; 32]] *)
Definition zero_path : path := replicate 32 x00.

(** ** The store *)

Notation MemorySmtStore := (gmap (list byte) digest).

Definition write_batch (puts : list (list byte * digest)) (deletes : list (list byte))
    (map : MemorySmtStore) : MemorySmtStore :=
  foldl (fun m k => delete k m) (foldl (fun m kv => <[kv.1 := kv.2]> m) map puts) deletes.

Inductive Format := FMT_UNRESOLVED | FMT_LEGACY | FMT_V2 | FMT_V2_FLAG_PENDING.
#[global] Instance Format_eq_dec : EqDecision Format.
Proof. solve_decision. Defined.

Record SparseMerkleTree := mkTree {
  store : MemorySmtStore;
  cache : gmap (nat * path) digest;
  deletes : gset (nat * path);
  pending_values : gmap (list byte) digest;
  pending_value_deletes : gset (list byte);
  p_cache : gmap (nat * path) path;
  p_deletes : gset (nat * path);
  format_state : Format;
}.
Definition eta_tree (t : SparseMerkleTree) : SparseMerkleTree :=
  mkTree (store t) (cache t) (deletes t) (pending_values t) (pending_value_deletes t)
    (p_cache t) (p_deletes t) (format_state t).
#[export] Hint Extern 0 (@Setter SparseMerkleTree _ _) => derive_setter eta_tree : typeclass_instances.

(** [new]: a tree over a store, no buffered writes. *)
Definition tree_new (s : MemorySmtStore) : SparseMerkleTree :=
  mkTree s ∅ ∅ ∅ ∅ ∅ ∅ FMT_UNRESOLVED.
Definition tree_new_legacy_unchecked (s : MemorySmtStore) : SparseMerkleTree :=
  tree_new s <| format_state := FMT_LEGACY |>.

(** ** Layered rows *)

Definition get_node (t : SparseMerkleTree) (depth : nat) (path_prefix : path) : digest :=
  let masked := path_mask path_prefix depth in
  match cache t !! (depth, masked) with
  | Some h => h
  | None =>
      if bool_decide ((depth, masked) ∈ deletes t) then EMPTY_HASH
      else default EMPTY_HASH (store t !! node_key depth masked)
  end.
Definition set_node (depth : nat) (path_prefix : path) (h : digest) (t : SparseMerkleTree) :
    SparseMerkleTree :=
  let masked := path_mask path_prefix depth in
  t <| deletes ::= fun s => s ∖ {[ (depth, masked) ]} |>
    <| cache ::= insert (depth, masked) h |>.
Definition tombstone_node (depth : nat) (path_prefix : path) (t : SparseMerkleTree) :
    SparseMerkleTree :=
  let masked := path_mask path_prefix depth in
  t <| cache ::= delete (depth, masked) |>
    <| deletes ::= union {[ (depth, masked) ]} |>.

Definition get_p (t : SparseMerkleTree) (depth : nat) (path_prefix : path) : option path :=
  let masked := path_mask path_prefix depth in
  match p_cache t !! (depth, masked) with
  | Some p => Some p
  | None =>
      if bool_decide ((depth, masked) ∈ p_deletes t) then None
      else store t !! p_key depth masked
  end.
Definition set_p (depth : nat) (path_prefix resident_path : path) (t : SparseMerkleTree) :
    SparseMerkleTree :=
  let masked := path_mask path_prefix depth in
  t <| p_deletes ::= fun s => s ∖ {[ (depth, masked) ]} |>
    <| p_cache ::= insert (depth, masked) resident_path |>.
Definition del_p (depth : nat) (path_prefix : path) (t : SparseMerkleTree) : SparseMerkleTree :=
  let masked := path_mask path_prefix depth in
  t <| p_cache ::= delete (depth, masked) |>
    <| p_deletes ::= union {[ (depth, masked) ]} |>.

Definition root (t : SparseMerkleTree) : digest := get_node t 0 zero_path.

(** [get]: the value of a key; a buffered removal wins over a committed value. *)
Definition tree_get (t : SparseMerkleTree) (account_id : list byte) : option digest :=
  if bool_decide (account_id ∈ pending_value_deletes t) then None
  else match pending_values t !! account_id with
       | Some h => Some h
       | None => store t !! value_key account_id
       end.

(** ** Store format *)

(** [format]: resolved from the store once, then memoised. *)
Definition resolve_format (t : SparseMerkleTree) : Format :=
  match format_state t with
  | FMT_UNRESOLVED =>
      match store t !! FORMAT_KEY with
      | Some tag => if bool_decide (tag = FORMAT_V2_TAG) then FMT_V2 else FMT_LEGACY
      | None =>
          if bool_decide (is_Some (store t !! node_key 0 zero_path)) then FMT_LEGACY
          else FMT_V2_FLAG_PENDING
      end
  | f => f
  end.
Definition memo_format (t : SparseMerkleTree) : SparseMerkleTree :=
  t <| format_state := resolve_format t |>.
Definition is_v2 (t : SparseMerkleTree) : bool :=
  match resolve_format t with FMT_V2 | FMT_V2_FLAG_PENDING => true | _ => false end.

(** ** The structure oracle of the compact format *)

Inductive V2Site :=
  | EmptyTree
  | Resident (top_depth : nat)
  | DivesIntoUnary (top_depth : nat) (neighbor_path : path)
  | BranchAdjacent (boundary_depth : nat).

(** The binary search over depths 0..=255; each round at least halves the gap,
    so [MAX_DEPTH] rounds are more than enough. *)
Fixpoint deepest_loop (fuel : nat) (t : SparseMerkleTree) (p : path) (lo hi : nat) : nat :=
  match fuel with
  | O => lo
  | S fuel =>
      if lo <? hi then
        let mid := lo + (hi - lo + 1) / 2 in
        if bool_decide (get_node t mid p ≠ EMPTY_HASH) then deepest_loop fuel t p mid hi
        else deepest_loop fuel t p lo (mid - 1)
      else lo
  end.

Definition v2_resolve (t : SparseMerkleTree) (p : path) : V2Site :=
  if bool_decide (get_node t 0 zero_path = EMPTY_HASH) then EmptyTree
  else
    let b := deepest_loop MAX_DEPTH t p 0 (MAX_DEPTH - 1) in
    let leaf_present := bool_decide (get_node t MAX_DEPTH p ≠ EMPTY_HASH) in
    if leaf_present then
      match get_p t b p with
      | Some q => if bool_decide (q = p) then Resident b else Resident MAX_DEPTH
      | None => Resident MAX_DEPTH
      end
    else
      match get_p t b p with
      | Some q => if bool_decide (q ≠ p) then DivesIntoUnary b q else BranchAdjacent b
      | None => BranchAdjacent b
      end.

(** ** Proofs *)

Record SmtProof := mkSmtProof {
  pr_account_id : list byte;
  pr_state_hash : digest;
  pr_root : digest;
  pr_present : path;
  pr_siblings : list digest;
}.
Record SmtExclusionProof := mkSmtExclusionProof {
  ex_account_id : list byte;
  ex_root : digest;
  ex_present : path;
  ex_siblings : list digest;
}.

Section hashing.
Context `{Externals}.

Definition leaf_hash (key value : list byte) : digest := sha3_256 ([x00] ++ key ++ value).
Definition interior_hash (l r : digest) : digest := sha3_256 ([x01] ++ l ++ r).
Definition account_path (account_id : list byte) : path := sha3_256 account_id.

(** The hash of a node from its children; an empty subtree stays empty. *)
Definition node_hash (l r : digest) : digest :=
  if bool_decide (l = EMPTY_HASH) && bool_decide (r = EMPTY_HASH) then EMPTY_HASH
  else interior_hash l r.

(** One step up through an empty sibling. *)
Definition up_empty (p : path) (parent : nat) (h : digest) : digest :=
  if bit_get p parent then interior_hash EMPTY_HASH h else interior_hash h EMPTY_HASH.
Fixpoint fold_tail_loop (n : nat) (h : digest) (p : path) (to_depth : nat) : digest :=
  match n with
  | O => h
  | S n => fold_tail_loop n (up_empty p (to_depth + n) h) p to_depth
  end.
Definition fold_tail (h : digest) (p : path) (from_depth to_depth : nat) : digest :=
  fold_tail_loop (from_depth - to_depth) h p to_depth.

(** The sibling at a parent depth and the siblings left after it. *)
Definition take_sibling (present : path) (parent_depth : nat) (siblings : list digest) :
    option (digest * list digest) :=
  if bit_get present parent_depth then
    match siblings with s :: rest => Some (s, rest) | [] => None end
  else Some (EMPTY_HASH, siblings).
(** [fold]: parent depths 255 down to 0; the siblings not yet consumed are the
    list that is left. *)
Fixpoint fold_loop (parent_depth : nat) (p : path) (current : digest) (present : path)
    (siblings : list digest) : option digest :=
  match parent_depth with
  | O => match siblings with [] => Some current | _ => None end
  | S parent_depth =>
      '(sibling, siblings) ← take_sibling present parent_depth siblings;
      let '(l, r) :=
        if bit_get p parent_depth then (sibling, current) else (current, sibling) in
      fold_loop parent_depth p (node_hash l r) present siblings
  end.
Definition fold (p : path) (leaf : digest) (present : path) (siblings : list digest) : option digest :=
  fold_loop MAX_DEPTH p leaf present siblings.

Definition verify_proof (proof : SmtProof) : bool :=
  let p := account_path (pr_account_id proof) in
  let leaf := leaf_hash (pr_account_id proof) (pr_state_hash proof) in
  match fold p leaf (pr_present proof) (pr_siblings proof) with
  | Some root => bool_decide (root = pr_root proof)
  | None => false
  end.
Definition verify_exclusion_proof (proof : SmtExclusionProof) : bool :=
  let p := account_path (ex_account_id proof) in
  match fold p EMPTY_HASH (ex_present proof) (ex_siblings proof) with
  | Some root => bool_decide (root = ex_root proof)
  | None => false
  end.

(** ** Writing *)

(** Bottom-up recompute of the nodes on a path above [depth]. *)
Fixpoint recompute_path_from (p : path) (depth : nat) (t : SparseMerkleTree) : SparseMerkleTree :=
  match depth with
  | O => t
  | S parent_depth =>
      let parent_path := path_mask p parent_depth in
      let left_path := parent_path in
      let right_path := bit_set parent_path parent_depth in
      let left_hash := get_node t depth left_path in
      let right_hash := get_node t depth right_path in
      let parent_hash := node_hash left_hash right_hash in
      let t :=
        if bool_decide (parent_hash = EMPTY_HASH) then tombstone_node parent_depth parent_path t
        else set_node parent_depth parent_path parent_hash t in
      recompute_path_from p parent_depth t
  end.

(** Chain rows from just above a branch at depth [top_depth + n] to the old top. *)
Fixpoint chain_rows (n : nat) (h : digest) (p : path) (top_depth : nat) (t : SparseMerkleTree) :
    SparseMerkleTree :=
  match n with
  | O => t
  | S n =>
      let d := top_depth + n in
      let h := up_empty p d h in
      chain_rows n h p top_depth (set_node d p h t)
  end.

Definition v2_place_leaf (p : path) (leaf : digest) (t : SparseMerkleTree) :
    SparseMerkleTree * nat :=
  let site := v2_resolve t p in
  let t := set_node MAX_DEPTH p leaf t in
  match site with
  | EmptyTree =>
      let top := fold_tail leaf p MAX_DEPTH 0 in
      (set_p 0 p p (set_node 0 p top t), 0)
  | Resident top_depth =>
      let t :=
        if top_depth <? MAX_DEPTH
        then set_node top_depth p (fold_tail leaf p MAX_DEPTH top_depth) t else t in
      (t, top_depth)
  | DivesIntoUnary top_depth neighbor_path =>
      let s := first_diff_bit p neighbor_path in
      let q_leaf := get_node t MAX_DEPTH neighbor_path in
      let k_top := fold_tail leaf p MAX_DEPTH (s + 1) in
      let q_top := fold_tail q_leaf neighbor_path MAX_DEPTH (s + 1) in
      let t := set_p (s + 1) p p (set_node (s + 1) p k_top t) in
      let t := set_p (s + 1) neighbor_path neighbor_path (set_node (s + 1) neighbor_path q_top t) in
      let branch := if bit_get p s then interior_hash q_top k_top else interior_hash k_top q_top in
      let t := set_node s p branch t in
      let t := chain_rows (s - top_depth) branch p top_depth t in
      (del_p top_depth p t, top_depth)
  | BranchAdjacent boundary_depth =>
      let top := fold_tail leaf p MAX_DEPTH (boundary_depth + 1) in
      (set_p (boundary_depth + 1) p p (set_node (boundary_depth + 1) p top t), boundary_depth + 1)
  end.

Definition update_at (p : path) (account_id : list byte) (state_hash : digest)
    (t : SparseMerkleTree) : SparseMerkleTree :=
  let leaf := leaf_hash account_id state_hash in
  if bool_decide (get_node t MAX_DEPTH p = leaf)
     && bool_decide (tree_get t account_id = Some state_hash) then t
  else
    let '(t, resume) :=
      if is_v2 t then v2_place_leaf p leaf (memo_format t)
      else (set_node MAX_DEPTH p leaf (memo_format t), MAX_DEPTH) in
    let t := t <| pending_value_deletes ::= fun s => s ∖ {[ account_id ]} |>
               <| pending_values ::= insert account_id state_hash |> in
    recompute_path_from p resume t.
Definition update (account_id : list byte) (state_hash : digest) (t : SparseMerkleTree) :
    SparseMerkleTree := update_at (account_path account_id) account_id state_hash t.

(** The deepest branch above depth [n] on a path: the first non-empty sibling
    going up. *)
Fixpoint next_branch (n : nat) (t : SparseMerkleTree) (p : path) : option nat :=
  match n with
  | O => None
  | S d =>
      let m := bit_toggle (path_mask p (d + 1)) d in
      if bool_decide (get_node t (d + 1) m ≠ EMPTY_HASH) then Some d else next_branch d t p
  end.

Definition v2_remove_leaf (p : path) (t : SparseMerkleTree) : SparseMerkleTree * option nat :=
  match v2_resolve t p with
  | Resident top_depth =>
      let t := tombstone_node MAX_DEPTH p t in
      let t := if top_depth <? MAX_DEPTH then tombstone_node top_depth p t else t in
      let t := del_p top_depth p t in
      if bool_decide (top_depth = 0) then (t, None)
      else
        let branch_depth := top_depth - 1 in
        let sib := bit_toggle (path_mask p top_depth) branch_depth in
        match get_p t top_depth sib with
        | Some q =>
            let new_top_depth :=
              match next_branch branch_depth t p with Some d => d + 1 | None => 0 end in
            let old_top_hash := get_node t top_depth sib in
            let t := foldl (fun t d => tombstone_node d p t) t
                       (seq (new_top_depth + 1) (branch_depth - new_top_depth)) in
            let t := if top_depth <? MAX_DEPTH then tombstone_node top_depth sib t else t in
            let t := del_p top_depth sib t in
            let new_top := fold_tail old_top_hash q top_depth new_top_depth in
            let t := set_p new_top_depth q q (set_node new_top_depth q new_top t) in
            if bool_decide (new_top_depth = 0) then (t, None) else (t, Some new_top_depth)
        | None => (t, Some top_depth)
        end
  | _ => (t, None)
  end.

Definition drop_value (account_id : list byte) (t : SparseMerkleTree) : SparseMerkleTree :=
  t <| pending_values ::= delete account_id |>
    <| pending_value_deletes ::= union {[ account_id ]} |>.

Definition delete_at (p : path) (account_id : list byte) (t : SparseMerkleTree) : SparseMerkleTree :=
  if bool_decide (get_node t MAX_DEPTH p = EMPTY_HASH) && bool_decide (tree_get t account_id = None)
  then t
  else
    let '(t, resume) :=
      if is_v2 t then v2_remove_leaf p (memo_format t)
      else (tombstone_node MAX_DEPTH p (memo_format t), Some MAX_DEPTH) in
    match resume with
    | None => drop_value account_id t
    | Some depth => recompute_path_from p depth (drop_value account_id t)
    end.
Definition tree_delete (account_id : list byte) (t : SparseMerkleTree) : SparseMerkleTree :=
  delete_at (account_path account_id) account_id t.

(** ** Generating proofs *)

(** Probes the siblings at parent depths below [below_depth], deepest first. *)
Fixpoint probe_siblings_below (t : SparseMerkleTree) (p : path) (below_depth : nat)
    (present : path) (siblings : list digest) : path * list digest :=
  match below_depth with
  | O => (present, siblings)
  | S parent_depth =>
      let child_depth := parent_depth + 1 in
      let parent_path := path_mask p parent_depth in
      let sib_path :=
        if bit_get p parent_depth then parent_path else bit_set parent_path parent_depth in
      let sib := get_node t child_depth sib_path in
      if bool_decide (sib ≠ EMPTY_HASH)
      then probe_siblings_below t p parent_depth (bit_set present parent_depth) (siblings ++ [sib])
      else probe_siblings_below t p parent_depth present siblings
  end.

Definition collect_siblings (t : SparseMerkleTree) (p : path) : path * list digest :=
  if negb (is_v2 t) then probe_siblings_below t p MAX_DEPTH zero_path []
  else
    match v2_resolve t p with
    | EmptyTree => (zero_path, [])
    | Resident top_depth => probe_siblings_below t p top_depth zero_path []
    | DivesIntoUnary top_depth neighbor_path =>
        let s := first_diff_bit p neighbor_path in
        let q_leaf := get_node t MAX_DEPTH neighbor_path in
        let q_tail := fold_tail q_leaf neighbor_path MAX_DEPTH (s + 1) in
        probe_siblings_below t p top_depth (bit_set zero_path s) [q_tail]
    | BranchAdjacent boundary_depth =>
        probe_siblings_below t p (boundary_depth + 1) zero_path []
    end.

(** The readers memoise the store format too; they return the tree with it. *)
Definition tree_proof (account_id : list byte) (t : SparseMerkleTree) :
    SparseMerkleTree * option SmtProof :=
  match tree_get t account_id with
  | None => (t, None)
  | Some state_hash =>
      let p := account_path account_id in
      let '(present, siblings) := collect_siblings t p in
      (memo_format t, Some (mkSmtProof account_id state_hash (root t) present siblings))
  end.
Definition tree_exclusion_proof (account_id : list byte) (t : SparseMerkleTree) :
    SparseMerkleTree * option SmtExclusionProof :=
  match tree_get t account_id with
  | Some _ => (t, None)
  | None =>
      let p := account_path account_id in
      let '(present, siblings) := collect_siblings t p in
      (memo_format t, Some (mkSmtExclusionProof account_id (root t) present siblings))
  end.

(** ** Committing *)

Definition commit_puts (t : SparseMerkleTree) : list (list byte * digest) :=
  ((fun '(d, p, h) => (node_key d p, h)) <$> map_to_list (cache t))
  ++ ((fun '(d, p, r) => (p_key d p, r)) <$> map_to_list (p_cache t))
  ++ ((fun '(acc, h) => (value_key acc, h)) <$> map_to_list (pending_values t))
  ++ (if bool_decide (resolve_format t = FMT_V2_FLAG_PENDING) then [(FORMAT_KEY, FORMAT_V2_TAG)] else []).
Definition commit_deletes (t : SparseMerkleTree) : list (list byte) :=
  ((fun '(d, p) => node_key d p) <$> elements (deletes t))
  ++ ((fun '(d, p) => p_key d p) <$> elements (p_deletes t))
  ++ (value_key <$> elements (pending_value_deletes t)).

Definition commit (t : SparseMerkleTree) : SparseMerkleTree :=
  let format := resolve_format t in
  mkTree (write_batch (commit_puts t) (commit_deletes t) (store t)) ∅ ∅ ∅ ∅ ∅ ∅
    (if bool_decide (format = FMT_V2_FLAG_PENDING) then FMT_V2 else format).
End hashing.
