(* ===== verification/SmtSpec.v ===== *)
(** * Reference semantics of the sparse Merkle tree

    What the tree of Smt.v is meant to compute, without stores, buffers or the
    compact format: the content is a finite map from paths to leaf hashes, and
    the hash of a subtree is defined by splitting the map on the next bit.  The
    lemmas here are about this definition only: one step down, subtrees with one
    resident, subtrees a change of content does not reach. *)

From S2P Require Import Prelude SmtBits Smt.
Open Scope nat_scope.

Notation content := (gmap path digest).

Section reference.
Context `{Externals}.

(** The hash of the subtree of height [k] whose leaves are [C], split on the
    bits [d], [d + 1], ... *)
Fixpoint subtree (k d : nat) (C : content) : digest :=
  if bool_decide (C = ∅) then EMPTY_HASH
  else match k with
       | O => match map_to_list C with (_, h) :: _ => h | [] => EMPTY_HASH end
       | S k => node_hash (subtree k (S d) (filter (fun kv => bit_get kv.1 d = false) C))
                          (subtree k (S d) (filter (fun kv => bit_get kv.1 d = true) C))
       end.
Definition reference_root (C : content) : digest := subtree MAX_DEPTH 0 C.

(** The residents under a node, and its hash. *)
Definition below (C : content) (d : nat) (p : path) : content :=
  filter (fun kv => path_mask kv.1 d = path_mask p d) C.
Definition ref (C : content) (d : nat) (p : path) : digest := subtree (256 - d) d (below C d p).

Definition under (C : content) (d : nat) (p q : path) : Prop := is_Some (C !! q) ∧ agree d p q.
Definition vacant (C : content) (d : nat) (p : path) : Prop := ∀ q, ¬ under C d p q.
Definition lone (C : content) (d : nat) (p q : path) : Prop :=
  under C d p q ∧ ∀ r, under C d p r → r = q.
Definition crowded (C : content) (d : nat) (p : path) : Prop :=
  ∃ q r, q ≠ r ∧ under C d p q ∧ under C d p r.

(** Paths and leaf hashes are 32 bytes and no leaf hash is the sentinel. *)
Definition wf_content (C : content) : Prop :=
  map_Forall (fun q h => length q = 32 ∧ length h = 32 ∧ h ≠ EMPTY_HASH) C.

Implicit Types (C : content) (p q r x : path) (d e : nat).

Lemma below_lookup C d p q h : wf_content C → length p = 32 → d <= 256 →
  below C d p !! q = Some h ↔ C !! q = Some h ∧ agree d p q.
Proof.
  intros HC Hp Hd. unfold below. rewrite map_lookup_filter_Some. cbn [fst].
  split; intros [Hq Ha]; (split; [done|]);
    destruct (HC _ _ Hq) as [Hl _]; [apply agree_sym|]; eapply path_mask_eq; eauto using agree_sym.
Qed.

Lemma below_empty C d p : wf_content C → length p = 32 → d <= 256 →
  below C d p = ∅ ↔ vacant C d p.
Proof.
  intros HC Hp Hd. split.
  - intros E q [[h Hq] Ha]. assert (F : below C d p !! q = Some h) by (by apply below_lookup). by rewrite E in F.
  - intros Hv. apply map_empty. intros q. apply eq_None_not_Some. intros [h Hq].
    apply below_lookup in Hq as [Hq Ha]; [|done..]. by apply (Hv q); split.
Qed.

Lemma occupancy C d p : wf_content C → length p = 32 → d <= 256 →
  vacant C d p ∨ (∃ q, lone C d p q) ∨ crowded C d p.
Proof.
  intros HC Hp Hd. destruct (decide (below C d p = ∅)) as [E|E].
  { left. by apply below_empty. }
  apply map_choose in E as (q & h & Hq). right.
  destruct (decide (delete q (below C d p) = ∅)) as [E|E].
  - left. exists q. apply below_lookup in Hq as [Hq Ha]; [|done..]. split; [by split|].
    intros r [[h' Hr] Ha']. destruct (decide (r = q)) as [->|Hne]; [done|].
    assert (delete q (below C d p) !! r = Some h') as F
      by (rewrite lookup_delete_ne by done; by apply below_lookup). by rewrite E in F.
  - right. apply map_choose in E as (r & h' & Hr). apply lookup_delete_Some in Hr as [Hne Hr].
    apply below_lookup in Hq as [? ?]; [|done..]. apply below_lookup in Hr as [? ?]; [|done..].
    exists q, r. split; [done|]. split; split; eauto.
Qed.

Lemma crowded_dec C d p : wf_content C → length p = 32 → d <= 256 →
  crowded C d p ∨ ¬ crowded C d p.
Proof.
  intros HC Hp Hd. destruct (occupancy C d p) as [Hv|[[q [_ Hl]]|?]]; [done..|right|right|by left].
  - intros (q & r & _ & Hq & _). by apply (Hv q).
  - intros (a & b & Hne & Ha & Hb). apply Hne. by rewrite (Hl a), (Hl b).
Qed.

Lemma lone_not_crowded C d p q : lone C d p q → ¬ crowded C d p.
Proof. intros [_ Hl] (a & b & Hne & Ha & Hb). apply Hne. by rewrite (Hl a), (Hl b). Qed.
Lemma lone_not_vacant C d p q : lone C d p q → ¬ vacant C d p.
Proof. intros [Hq _] Hv. by apply (Hv q). Qed.
Lemma crowded_not_vacant C d p : crowded C d p → ¬ vacant C d p.
Proof. intros (q & _ & _ & Hq & _) Hv. by apply (Hv q). Qed.

(** ** Monotonicity and prefixes *)

Lemma under_le C d e p q : d <= e → under C e p q → under C d p q.
Proof. intros Hde [Hq Ha]. split; [done|]. by eapply agree_le. Qed.
Lemma crowded_le C d e p : d <= e → crowded C e p → crowded C d p.
Proof. intros Hde (q & r & ? & ? & ?). exists q, r. eauto using under_le. Qed.
Lemma vacant_le C d e p : d <= e → vacant C d p → vacant C e p.
Proof. intros Hde Hv q Hq. eapply Hv, under_le; eauto. Qed.
Lemma lone_le C d e p q : d <= e → under C e p q → lone C d p q → lone C e p q.
Proof. intros Hde Hq [_ Hl]. split; [done|]. intros r Hr. eapply Hl, under_le; eauto. Qed.

Lemma under_agree C d p x q : agree d p x → under C d p q ↔ under C d x q.
Proof. intros Ha. unfold under. split; intros [? ?]; split; eauto using agree_trans, agree_sym. Qed.
Lemma crowded_agree C d p x : agree d p x → crowded C d p ↔ crowded C d x.
Proof. intros Ha. unfold crowded. by setoid_rewrite (under_agree C d p x _ Ha). Qed.
Lemma vacant_agree C d p x : agree d p x → vacant C d p ↔ vacant C d x.
Proof. intros Ha. unfold vacant. by setoid_rewrite (under_agree C d p x _ Ha). Qed.
Lemma lone_agree C d p x q : agree d p x → lone C d p q ↔ lone C d x q.
Proof. intros Ha. unfold lone. by setoid_rewrite (under_agree C d p x _ Ha). Qed.

Lemma below_agree C d p x : length p = 32 → length x = 32 → d <= 256 → agree d p x →
  below C d p = below C d x.
Proof. intros ??? Ha. unfold below. by rewrite (proj2 (path_mask_eq d p x ltac:(done) ltac:(done) ltac:(done)) Ha). Qed.
Lemma ref_agree C d p x : length p = 32 → length x = 32 → d <= 256 → agree d p x →
  ref C d p = ref C d x.
Proof. intros. unfold ref. by erewrite below_agree. Qed.

(** ** The other child *)

Definition sibling (p : path) (d : nat) : path := bit_toggle (path_mask p (S d)) d.

Lemma sibling_length p d : length p = 32 → length (sibling p d) = 32.
Proof. intros. unfold sibling. rewrite bit_toggle_length. by apply path_mask_length. Qed.
Lemma sibling_get p d i : length p = 32 → d < 256 → i <= d →
  bit_get (sibling p d) i = if decide (i = d) then negb (bit_get p i) else bit_get p i.
Proof.
  intros Hp Hd Hi. unfold sibling.
  rewrite bit_toggle_get by (rewrite path_mask_length by done; lia).
  rewrite path_mask_get by (done || lia). by replace (i <? S d) with true by lia.
Qed.
Lemma sibling_agree p d : length p = 32 → d < 256 → agree d p (sibling p d).
Proof. intros Hp Hd i Hi. rewrite sibling_get by (done || lia). by rewrite decide_False by lia. Qed.
Lemma agree_sibling p d x : length p = 32 → d < 256 →
  agree (S d) (sibling p d) x ↔ agree d p x ∧ ¬ agree (S d) p x.
Proof.
  intros Hp Hd. rewrite !agree_S, sibling_get by (done || lia). rewrite decide_True by done.
  pose proof (sibling_agree p d Hp Hd) as Hs. split.
  - intros [Ha Hb]. split; [eauto using agree_trans|]. intros [_ E]. rewrite E in Hb. by destruct (bit_get x d).
  - intros [Ha Hn]. split; [eauto using agree_trans, agree_sym|].
    destruct (bit_get p d) eqn:E, (bit_get x d) eqn:F; try done; by destruct Hn.
Qed.

(** The children the code computes are the path itself and its sibling. *)
Lemma left_child p d : length p = 32 → d < 256 →
  agree (S d) (path_mask p d) (if bit_get p d then sibling p d else p).
Proof.
  intros Hp Hd i Hi. rewrite path_mask_get by (done || lia).
  destruct (decide (i = d)) as [->|].
  - replace (d <? d) with false by lia. destruct (bit_get p d) eqn:E; [|done].
    rewrite sibling_get by (done || lia). rewrite decide_True by done. by rewrite E.
  - replace (i <? d) with true by lia. destruct (bit_get p d); [|done].
    rewrite sibling_get by (done || lia). by rewrite decide_False.
Qed.
Lemma right_child p d : length p = 32 → d < 256 →
  agree (S d) (bit_set (path_mask p d) d) (if bit_get p d then p else sibling p d).
Proof.
  intros Hp Hd i Hi. rewrite bit_set_get by (rewrite path_mask_length by done; lia).
  rewrite path_mask_get by (done || lia).
  destruct (decide (i = d)) as [->|].
  - rewrite bool_decide_eq_true_2 by done. destruct (bit_get p d) eqn:E; [done|].
    rewrite sibling_get by (done || lia). rewrite decide_True by done. by rewrite E.
  - rewrite bool_decide_eq_false_2 by done. replace (i <? d) with true by lia. simpl.
    destruct (bit_get p d); [done|].
    rewrite sibling_get by (done || lia). by rewrite decide_False.
Qed.

(** ** The reference hash, one step down *)

Lemma below_step C d p b : wf_content C → length p = 32 → d < 256 →
  filter (fun kv => bit_get kv.1 d = b) (below C d p)
  = below C (S d) (if bool_decide (bit_get p d = b) then p else sibling p d).
Proof.
  intros HC Hp Hd. set (c := if bool_decide _ then _ else _).
  assert (Hc : length c = 32) by (subst c; destruct (bool_decide _); auto using sibling_length).
  apply map_eq. intros q. apply option_eq. intros h.
  rewrite map_lookup_filter_Some, !below_lookup by (done || lia). cbn [fst]. subst c.
  case_bool_decide as E.
  - rewrite agree_S. split; [intros [[? ?] ?]|intros [? [? ?]]]; split_and!; first [done | congruence].
  - rewrite agree_sibling by done. rewrite agree_S. split.
    + intros [[? ?] F]. split_and!; [done..|]. intros [_ G]. congruence.
    + intros [? [? Hn]]. split_and!; [done..|].
      destruct (bit_get p d) eqn:?, (bit_get q d) eqn:?, b; try done; by destruct Hn.
Qed.

Lemma subtree_empty k d : subtree k d ∅ = EMPTY_HASH.
Proof. destruct k; cbn [subtree]; by rewrite bool_decide_eq_true_2. Qed.

Lemma ref_vacant C d p : wf_content C → length p = 32 → d <= 256 → vacant C d p →
  ref C d p = EMPTY_HASH.
Proof. intros ??? Hv. unfold ref. apply below_empty in Hv; [|done..]. by rewrite Hv, subtree_empty. Qed.

Lemma node_hash_empty : node_hash EMPTY_HASH EMPTY_HASH = EMPTY_HASH.
Proof. done. Qed.

Lemma ref_step C d p : wf_content C → length p = 32 → d < 256 →
  ref C d p = if bit_get p d then node_hash (ref C (S d) (sibling p d)) (ref C (S d) p)
              else node_hash (ref C (S d) p) (ref C (S d) (sibling p d)).
Proof.
  intros HC Hp Hd. unfold ref. replace (256 - d) with (S (256 - S d)) by lia. cbn [subtree].
  rewrite !below_step by done.
  case_bool_decide as E.
  - apply below_empty in E; [|done|done|lia].
    assert (E1 : below C (S d) p = ∅).
    { apply below_empty; [done|done|lia|]. eapply vacant_le, E; lia. }
    assert (E2 : below C (S d) (sibling p d) = ∅).
    { apply below_empty; [done|by apply sibling_length|lia|]. apply (vacant_le _ d); [lia|].
      by apply (vacant_agree _ _ _ _ (sibling_agree p d Hp Hd)). }
    rewrite E1, E2, !subtree_empty, node_hash_empty. by destruct (bit_get p d).
  - by destruct (bit_get p d).
Qed.

Lemma ref_leaf C p : wf_content C → length p = 32 → ref C 256 p = default EMPTY_HASH (C !! p).
Proof.
  intros HC Hp. destruct (C !! p) as [h|] eqn:Ep; simpl.
  - assert (E : below C 256 p = {[ p := h ]}).
    { apply map_eq. intros q. apply option_eq. intros h'. rewrite below_lookup by (done || lia).
      rewrite lookup_singleton_Some. split.
      - intros [Hq Ha]. destruct (HC _ _ Hq) as [Hlq _]. apply agree_full in Ha as <-; [|done..].
        split; congruence.
      - intros [<- <-]. split; [done|apply agree_refl]. }
    unfold ref. rewrite E. cbn [Nat.sub subtree].
    rewrite bool_decide_eq_false_2 by apply map_non_empty_singleton. by rewrite map_to_list_singleton.
  - apply ref_vacant; [done|done|lia|]. intros q [[h Hq] Ha].
    destruct (HC _ _ Hq) as [Hlq _]. apply agree_full in Ha as <-; [|done..]. congruence.
Qed.

(** ** Hashes that are not the sentinel *)

Hypothesis no_empty : ∀ m, length m = 65 → sha3_256 m ≠ EMPTY_HASH.

Lemma sha3_length32 l r : length (interior_hash l r) = 32.
Proof. apply sha3_256_length. Qed.
Lemma interior_nonempty l r : length l = 32 → length r = 32 → interior_hash l r ≠ EMPTY_HASH.
Proof. intros Hl Hr. apply no_empty. rewrite !length_app. simpl. lia. Qed.
Lemma node_hash_length l r : length (node_hash l r) = 32.
Proof. unfold node_hash. destruct (_ && _); [done|]. apply sha3_256_length. Qed.
Lemma node_hash_nonempty l r : length l = 32 → length r = 32 →
  l ≠ EMPTY_HASH ∨ r ≠ EMPTY_HASH → node_hash l r ≠ EMPTY_HASH ∧ node_hash l r = interior_hash l r.
Proof.
  intros Hl Hr Hor. unfold node_hash. destruct (_ && _) eqn:E.
  - apply andb_true_iff in E as [E1%bool_decide_eq_true E2%bool_decide_eq_true]. naive_solver.
  - split; [by apply interior_nonempty|done].
Qed.

Lemma ref_length C d p : wf_content C → length p = 32 → d <= 256 → length (ref C d p) = 32.
Proof.
  intros HC Hp Hd. destruct (decide (d = 256)) as [->|].
  - rewrite ref_leaf by done. destruct (C !! p) as [h|] eqn:E; [|done]. by destruct (HC _ _ E) as (_ & ? & _).
  - rewrite ref_step by (done || lia). destruct (bit_get p d); apply node_hash_length.
Qed.

Lemma under_child C d p q : length p = 32 → d < 256 → under C d p q →
  under C (S d) p q ∨ under C (S d) (sibling p d) q.
Proof.
  intros Hp Hd [Hq Ha]. destruct (decide (bit_get p d = bit_get q d)) as [E|E].
  - left. split; [done|]. by apply agree_S.
  - right. split; [done|]. apply agree_sibling; [done..|]. split; [done|]. by intros [_ ?]%agree_S.
Qed.
Lemma under_sibling C d p q : length p = 32 → d < 256 → under C (S d) (sibling p d) q → under C d p q.
Proof. intros Hp Hd [Hq [Ha _]%agree_sibling]; [by split|done..]. Qed.
Lemma under_not_both C d p q : length p = 32 → d < 256 →
  under C (S d) (sibling p d) q → ¬ under C (S d) p q.
Proof. intros Hp Hd [_ [_ Hn]%agree_sibling] [_ Ha]; done. Qed.

Lemma ref_nonempty C d p : wf_content C → length p = 32 → d <= 256 → ¬ vacant C d p →
  ref C d p ≠ EMPTY_HASH.
Proof.
  intros HC. remember (256 - d) as k eqn:Ek. revert d p Ek.
  induction k as [|k IH]; intros d p Ek Hp Hd Hv.
  - replace d with 256 in * by lia. rewrite ref_leaf by done.
    destruct (C !! p) as [h|] eqn:E; [by destruct (HC _ _ E) as (_ & _ & ?)|].
    destruct Hv. intros q [[h Hq] Ha]. destruct (HC _ _ Hq) as [Hlq _].
    apply agree_full in Ha as <-; [|done..]. congruence.
  - assert (Hs := sibling_length p d Hp).
    rewrite ref_step by (done || lia).
    assert (Hor : ref C (S d) p ≠ EMPTY_HASH ∨ ref C (S d) (sibling p d) ≠ EMPTY_HASH).
    { destruct (occupancy C d p HC Hp ltac:(lia)) as [?|Hne]; [done|].
      assert (∃ q, under C d p q) as [q Hq] by (destruct Hne as [[q [? _]]|(q & _ & _ & ? & _)]; by exists q).
      destruct (under_child C d p q Hp ltac:(lia) Hq) as [Hu|Hu]; [left|right];
        (apply IH; [lia|done|lia|]); intros Hv'; by apply (Hv' q). }
    destruct (bit_get p d);
      (eapply node_hash_nonempty; [apply ref_length; done || lia..|tauto]).
Qed.

(** Above a vacant sibling the hash is one step of the tail. *)
Lemma ref_up C d p : wf_content C → length p = 32 → d < 256 → ¬ vacant C (S d) p →
  vacant C (S d) (sibling p d) → ref C d p = up_empty p d (ref C (S d) p).
Proof.
  intros HC Hp Hd Hn Hv. assert (Hs := sibling_length p d Hp).
  rewrite ref_step by done. rewrite (ref_vacant _ _ (sibling p d)) by (done || lia).
  pose proof (ref_nonempty C (S d) p HC Hp Hd Hn). pose proof (ref_length C (S d) p HC Hp Hd).
  unfold up_empty. destruct (bit_get p d); eapply node_hash_nonempty; auto.
Qed.

Lemma fold_tail_refl h p d : fold_tail h p d d = h.
Proof. unfold fold_tail. by rewrite Nat.sub_diag. Qed.
Lemma fold_tail_loop_S n h p d :
  fold_tail_loop (S n) h p d = up_empty p d (fold_tail_loop n h p (S d)).
Proof.
  revert h d. induction n as [|n IH]; intros h d.
  - simpl. by rewrite Nat.add_0_r.
  - change (fold_tail_loop (S (S n)) h p d) with (fold_tail_loop (S n) (up_empty p (d + S n) h) p d).
    rewrite IH. cbn [fold_tail_loop]. by replace (d + S n) with (S d + n) by lia.
Qed.
Lemma fold_tail_S h p e d : d < e → fold_tail h p e d = up_empty p d (fold_tail h p e (S d)).
Proof.
  intros. unfold fold_tail. replace (e - d) with (S (e - S d)) by lia. apply fold_tail_loop_S.
Qed.
Lemma up_empty_agree p q d h : agree (S d) p q → up_empty p d h = up_empty q d h.
Proof. intros [_ E]%agree_S. unfold up_empty. by rewrite E. Qed.

Lemma lone_sibling C d p q : length p = 32 → d < 256 → lone C d p q → agree (S d) p q →
  lone C (S d) p q ∧ vacant C (S d) (sibling p d).
Proof.
  intros Hp Hd [[Hq Ha] Hl] Ha'. split.
  - apply (lone_le _ d); [lia|by split|by split].
  - intros r Hr. assert (r = q) as -> by (by apply Hl, under_sibling).
    by apply (under_not_both _ _ _ _ Hp Hd Hr).
Qed.

(** The hash over a subtree with one resident is the tail from any depth below. *)
Lemma ref_lone C d e q : wf_content C → length q = 32 → d <= e → e <= 256 →
  lone C d q q → ref C d q = fold_tail (ref C e q) q e d.
Proof.
  intros HC Hq Hde He. remember (e - d) as k eqn:Ek. revert d Ek Hde.
  induction k as [|k IH]; intros d Ek Hde Hl.
  { replace d with e by lia. by rewrite fold_tail_refl. }
  destruct (lone_sibling C d q q Hq ltac:(lia) Hl (agree_refl _ _)) as [Hl' Hv].
  rewrite ref_up by (done || lia || eauto using lone_not_vacant).
  rewrite fold_tail_S by lia. by rewrite <- IH by (done || lia).
Qed.

(** ** Changing the content at one path *)

Definition same_off (p0 : path) (C C' : content) : Prop := ∀ q, q ≠ p0 → C' !! q = C !! q.

Lemma under_off p0 C C' d p q : length p0 = 32 → same_off p0 C C' → ¬ agree d p p0 →
  under C' d p q ↔ under C d p q.
Proof.
  intros Hp0 Hs Hn. unfold under. destruct (decide (q = p0)) as [->|Hne]; [tauto|].
  by rewrite (Hs q Hne).
Qed.
Lemma below_off p0 C C' d p : wf_content C → wf_content C' → length p = 32 → d <= 256 →
  length p0 = 32 → same_off p0 C C' → ¬ agree d p p0 → below C' d p = below C d p.
Proof.
  intros HC HC' Hp Hd Hp0 Hs Hn. apply map_eq. intros q. apply option_eq. intros h.
  rewrite !below_lookup by done. destruct (decide (q = p0)) as [->|Hne]; [tauto|].
  by rewrite (Hs q Hne).
Qed.
Lemma ref_off p0 C C' d p : wf_content C → wf_content C' → length p = 32 → d <= 256 →
  length p0 = 32 → same_off p0 C C' → ¬ agree d p p0 → ref C' d p = ref C d p.
Proof. intros. unfold ref. by erewrite below_off. Qed.
Lemma crowded_off p0 C C' d p : length p0 = 32 → same_off p0 C C' → ¬ agree d p p0 →
  crowded C' d p ↔ crowded C d p.
Proof. intros. unfold crowded. by setoid_rewrite (under_off p0 C C' d p). Qed.
Lemma vacant_off p0 C C' d p : length p0 = 32 → same_off p0 C C' → ¬ agree d p p0 →
  vacant C' d p ↔ vacant C d p.
Proof. intros. unfold vacant. by setoid_rewrite (under_off p0 C C' d p). Qed.
Lemma lone_off p0 C C' d p q : length p0 = 32 → same_off p0 C C' → ¬ agree d p p0 →
  lone C' d p q ↔ lone C d p q.
Proof. intros. unfold lone. by setoid_rewrite (under_off p0 C C' d p). Qed.
End reference.
