(* ===== verification/SmtInv.v ===== *)
(** * The compact store represents the content

    The representation invariant of the v2 format and its preservation by the
    structural walks of Smt.v.  A node is [stored] when it is a leaf, the root,
    or a child of a node with at least two residents; the rows of stored nodes
    hold the reference hash of SmtSpec.v, all other rows are absent, and a [p:]
    row names the only resident exactly at the topmost node it has for itself. *)

From S2P Require Import Prelude SmtBits Smt SmtSpec.
Open Scope nat_scope.

#[global] Instance agree_dec d p q : Decision (agree d p q).
Proof.
  refine (cast_if (decide (Forall (fun i => bit_get p i = bit_get q i) (seq 0 d)))).
  - intros i Hi. rewrite Forall_forall in f. apply f, elem_of_seq. lia.
  - intros Ha. apply n. apply Forall_forall. intros i Hi%elem_of_seq. apply Ha. lia.
Defined.

(** ** Layered rows as functions of depth and prefix *)

Section rows.
Implicit Types (t : SparseMerkleTree) (p q : path) (d : nat).

Lemma key_eq d e p q : length p = 32 → length q = 32 → d <= 256 →
  (e, path_mask q e) = (d, path_mask p d) ↔ e = d ∧ agree d q p.
Proof.
  intros Hp Hq Hd. split.
  - intros [= -> Hm]. split; [done|]. by apply path_mask_eq.
  - intros [-> Ha]. f_equal. by apply path_mask_eq.
Qed.

Lemma in_minus (k k' : nat * path) (A : gset (nat * path)) : k ≠ k' →
  bool_decide (k ∈ A ∖ {[ k' ]}) = bool_decide (k ∈ A).
Proof. intros. apply bool_decide_ext. set_solver. Qed.
Lemma in_plus (k k' : nat * path) (A : gset (nat * path)) : k ≠ k' →
  bool_decide (k ∈ {[ k' ]} ∪ A) = bool_decide (k ∈ A).
Proof. intros. apply bool_decide_ext. set_solver. Qed.

Lemma get_node_set t d p h e q : length p = 32 → length q = 32 → d <= 256 →
  get_node (set_node d p h t) e q = if decide (e = d ∧ agree d q p) then h else get_node t e q.
Proof.
  intros Hp Hq Hd. unfold get_node, set_node. cbn -[path_mask node_key p_key].
  destruct (decide (e = d ∧ agree d q p)) as [Hk|Hk]; rewrite <- (key_eq d e p q) in Hk by done.
  - by rewrite Hk, lookup_insert_eq.
  - by rewrite lookup_insert_ne, in_minus by done.
Qed.

Lemma get_node_tombstone t d p e q : length p = 32 → length q = 32 → d <= 256 →
  get_node (tombstone_node d p t) e q
  = if decide (e = d ∧ agree d q p) then EMPTY_HASH else get_node t e q.
Proof.
  intros Hp Hq Hd. unfold get_node, tombstone_node. cbn -[path_mask node_key p_key].
  destruct (decide (e = d ∧ agree d q p)) as [Hk|Hk]; rewrite <- (key_eq d e p q) in Hk by done.
  - rewrite Hk, lookup_delete_eq, bool_decide_eq_true_2; [done|set_solver].
  - by rewrite lookup_delete_ne, in_plus by done.
Qed.

Lemma get_p_set t d p r e q : length p = 32 → length q = 32 → d <= 256 →
  get_p (set_p d p r t) e q = if decide (e = d ∧ agree d q p) then Some r else get_p t e q.
Proof.
  intros Hp Hq Hd. unfold get_p, set_p. cbn -[path_mask node_key p_key].
  destruct (decide (e = d ∧ agree d q p)) as [Hk|Hk]; rewrite <- (key_eq d e p q) in Hk by done.
  - by rewrite Hk, lookup_insert_eq.
  - by rewrite lookup_insert_ne, in_minus by done.
Qed.

Lemma get_p_del t d p e q : length p = 32 → length q = 32 → d <= 256 →
  get_p (del_p d p t) e q = if decide (e = d ∧ agree d q p) then None else get_p t e q.
Proof.
  intros Hp Hq Hd. unfold get_p, del_p. cbn -[path_mask node_key p_key].
  destruct (decide (e = d ∧ agree d q p)) as [Hk|Hk]; rewrite <- (key_eq d e p q) in Hk by done.
  - rewrite Hk, lookup_delete_eq, bool_decide_eq_true_2; [done|set_solver].
  - by rewrite lookup_delete_ne, in_plus by done.
Qed.

Lemma get_node_set_p t d p r e q : get_node (set_p d p r t) e q = get_node t e q.
Proof. done. Qed.
Lemma get_node_del_p t d p e q : get_node (del_p d p t) e q = get_node t e q.
Proof. done. Qed.
Lemma get_p_set_node t d p h e q : get_p (set_node d p h t) e q = get_p t e q.
Proof. done. Qed.
Lemma get_p_tombstone t d p e q : get_p (tombstone_node d p t) e q = get_p t e q.
Proof. done. Qed.

Lemma get_node_agree t d p q : length p = 32 → length q = 32 → d <= 256 → agree d p q →
  get_node t d p = get_node t d q.
Proof. intros. unfold get_node. by rewrite (proj2 (path_mask_eq d p q ltac:(done) ltac:(done) ltac:(done))). Qed.
Lemma get_p_agree t d p q : length p = 32 → length q = 32 → d <= 256 → agree d p q →
  get_p t d p = get_p t d q.
Proof. intros. unfold get_p. by rewrite (proj2 (path_mask_eq d p q ltac:(done) ltac:(done) ltac:(done))). Qed.
End rows.

#[export] Hint Rewrite get_node_set_p get_node_del_p get_p_set_node get_p_tombstone : smt.
#[export] Hint Rewrite get_node_set get_node_tombstone get_p_set get_p_del using (done || lia) : smt.

(** ** The invariant *)

Section invariant.
Context `{Externals}.
Hypothesis no_empty : ∀ m, length m = 65 → sha3_256 m ≠ EMPTY_HASH.
Implicit Types (t : SparseMerkleTree) (C : content) (p q x : path) (d : nat).

Definition crown (C : content) (d : nat) (p : path) : Prop := d = 0 ∨ crowded C (d - 1) p.
Definition stored (C : content) (d : nat) (p : path) : Prop := d = 256 ∨ crown C d p.
Definition top_at (C : content) (d : nat) (p q : path) : Prop := crown C d p ∧ lone C d p q.

Definition node_ok (t : SparseMerkleTree) (C : content) (d : nat) (p : path) : Prop :=
  (stored C d p → get_node t d p = ref C d p) ∧ (¬ stored C d p → get_node t d p = EMPTY_HASH).
Definition p_ok (t : SparseMerkleTree) (C : content) (d : nat) (p : path) : Prop :=
  ∀ q, get_p t d p = Some q ↔ top_at C d p q.

Record Rep (t : SparseMerkleTree) (C : content) : Prop := mkRep {
  rep_wf : wf_content C;
  rep_node d p : length p = 32 → d <= 256 → node_ok t C d p;
  rep_p d p : length p = 32 → d <= 256 → p_ok t C d p;
}.

(** The rows are right but for the nodes on the path [p0] above depth [k], where
    at least two residents meet: what a structural walk leaves for the shared
    recompute. *)
Record RepFrom (k : nat) (p0 : path) (t : SparseMerkleTree) (C : content) : Prop := mkRepFrom {
  from_wf : wf_content C;
  from_crowded d : d < k → crowded C d p0;
  from_node d p : length p = 32 → d <= 256 → k <= d ∨ ¬ agree d p p0 → node_ok t C d p;
  from_p d p : length p = 32 → d <= 256 → p_ok t C d p;
}.

Lemma crown_dec C d p : wf_content C → length p = 32 → d <= 256 → crown C d p ∨ ¬ crown C d p.
Proof.
  intros HC Hp Hd. unfold crown. destruct d as [|d]; [by left; left|].
  destruct (crowded_dec C (S d - 1) p HC Hp ltac:(lia)); [tauto|]. right. intros [?|?]; [lia|done].
Qed.
Lemma stored_dec C d p : wf_content C → length p = 32 → d <= 256 → stored C d p ∨ ¬ stored C d p.
Proof.
  intros. unfold stored. destruct (decide (d = 256)); [tauto|].
  destruct (crown_dec C d p); [done..|tauto|tauto].
Qed.
Lemma crown_S C d p : crown C (S d) p ↔ crowded C d p.
Proof. unfold crown. rewrite Nat.sub_succ, Nat.sub_0_r. split; [intros [?|?]; [lia|done]|tauto]. Qed.
Lemma crown_agree C d p x : agree d p x → crown C d p ↔ crown C d x.
Proof.
  intros Ha. unfold crown. rewrite (crowded_agree C (d - 1) p x); [done|].
  eapply agree_le, Ha. lia.
Qed.
Lemma stored_crown C d p : d < 256 → stored C d p ↔ crown C d p.
Proof. unfold stored. intros. split; [intros [?|?]; [lia|done]|tauto]. Qed.

(** A row of the invariant, by how many residents the node has. *)
Lemma node_ok_vacant t C d p : wf_content C → length p = 32 → d <= 256 → vacant C d p →
  node_ok t C d p ↔ get_node t d p = EMPTY_HASH.
Proof.
  intros HC Hp Hd Hv. unfold node_ok. rewrite ref_vacant by done. split; [|tauto].
  destruct (stored_dec C d p); tauto.
Qed.

Lemma rep_leaf t C p : Rep t C → length p = 32 → get_node t 256 p = default EMPTY_HASH (C !! p).
Proof.
  intros HR Hp. rewrite <- ref_leaf by (done || apply HR).
  apply (rep_node t C HR); [done|lia|]. by left.
Qed.

(** ** The shared recompute *)

Lemma node_ok_ext t t' C d p : get_node t' d p = get_node t d p → node_ok t C d p → node_ok t' C d p.
Proof. intros E [H1 H2]. unfold node_ok. by rewrite E. Qed.
Lemma p_ok_ext t t' C d p : get_p t' d p = get_p t d p → p_ok t C d p → p_ok t' C d p.
Proof. intros E Hp q. by rewrite E. Qed.

Lemma from_child k p0 t C x : RepFrom (S k) p0 t C → length p0 = 32 → length x = 32 → S k <= 256 →
  agree k p0 x → get_node t (S k) x = ref C (S k) x.
Proof.
  intros HF Hp0 Hx Hk Ha. apply (from_node _ _ _ _ HF); [done|done|by left|].
  right. apply crown_S. apply (crowded_agree _ _ _ _ Ha). apply (from_crowded _ _ _ _ HF). lia.
Qed.

Lemma recompute_path_from_rep p0 k : ∀ t C, length p0 = 32 → k <= 256 →
  RepFrom k p0 t C → Rep (recompute_path_from p0 k t) C.
Proof.
  induction k as [|k IH]; intros t C Hp0 Hk HF.
  { destruct HF as [HC _ Hn Hp]. split; [done| |done]. intros d p ??. apply Hn; [done..|left; lia]. }
  assert (HC := from_wf _ _ _ _ HF). assert (Hs := sibling_length p0 k Hp0).
  cbn [recompute_path_from].
  set (l := path_mask p0 k). set (r := bit_set l k).
  assert (Hl : length l = 32) by (by apply path_mask_length).
  assert (Hr : length r = 32) by (unfold r; by rewrite bit_set_length).
  assert (Hal : agree k p0 l).
  { intros i Hi. unfold l. rewrite path_mask_get by (done || lia). by replace (i <? k) with true by lia. }
  assert (Har : agree k p0 r).
  { intros i Hi. unfold r. rewrite bit_set_get by (rewrite Hl; lia).
    rewrite bool_decide_eq_false_2 by lia. by apply Hal. }
  rewrite (from_child _ _ _ _ l HF Hp0 Hl Hk Hal), (from_child _ _ _ _ r HF Hp0 Hr Hk Har).
  assert (E : node_hash (ref C (S k) l) (ref C (S k) r) = ref C k p0).
  { rewrite (ref_step C k p0) by (done || lia).
    pose proof (left_child p0 k Hp0 ltac:(lia)) as H1. pose proof (right_child p0 k Hp0 ltac:(lia)) as H2.
    fold l in H1. fold r in H2.
    destruct (bit_get p0 k).
    - by rewrite (ref_agree C (S k) l _ Hl Hs ltac:(lia) H1), (ref_agree C (S k) r _ Hr Hp0 ltac:(lia) H2).
    - by rewrite (ref_agree C (S k) l _ Hl Hp0 ltac:(lia) H1), (ref_agree C (S k) r _ Hr Hs ltac:(lia) H2). }
  rewrite E.
  assert (Hcr : crowded C k p0) by (apply (from_crowded _ _ _ _ HF); lia).
  assert (Hne : ref C k p0 ≠ EMPTY_HASH)
    by (apply (ref_nonempty no_empty); [done|done|lia|by apply crowded_not_vacant]).
  rewrite bool_decide_eq_false_2 by done. apply IH; [done|lia|].
  destruct HF as [_ Hc Hn Hp]. split; [done|intros; apply Hc; lia| |].
  - intros d p Hlp Hd Hor. destruct (decide (d = k ∧ agree k p l)) as [[-> Ha]|Hk'].
    + split; [|intros []]; intros.
      * rewrite get_node_set by (done || lia). rewrite decide_True by done.
        apply ref_agree; [done|done|lia|]. eauto using agree_trans, agree_sym.
      * right. destruct k as [|k]; [by left|right]. rewrite Nat.sub_succ, Nat.sub_0_r.
        apply (crowded_agree _ _ p0); [apply (agree_le _ (S k)); [lia|]; eauto using agree_trans, agree_sym|].
        apply Hc. lia.
    + eapply node_ok_ext; [by rewrite get_node_set, decide_False by (done || lia)|].
      apply Hn; [done..|]. destruct Hor as [?|?]; [|by right].
      destruct (decide (d = k)) as [->|]; [|left; lia]. right. intros Ha. apply Hk'. split; [done|].
      eauto using agree_trans, agree_sym.
  - intros d p Hlp Hd. eapply p_ok_ext; [by rewrite get_p_set_node|]. by apply Hp.
Qed.

(** ** The structure oracle *)

Lemma deepest_loop_spec t p fuel : ∀ lo hi, hi - lo <= fuel → lo <= hi → hi <= 255 →
  (∀ d, d < 255 → get_node t (S d) p ≠ EMPTY_HASH → get_node t d p ≠ EMPTY_HASH) →
  get_node t lo p ≠ EMPTY_HASH → (∀ d, hi < d <= 255 → get_node t d p = EMPTY_HASH) →
  let b := deepest_loop fuel t p lo hi in
  b <= 255 ∧ get_node t b p ≠ EMPTY_HASH ∧ ∀ d, b < d <= 255 → get_node t d p = EMPTY_HASH.
Proof.
  induction fuel as [|fuel IH]; intros lo hi Hf Hle H255 Hmono Hlo Hhi; cbn [deepest_loop].
  { split_and!; [lia|done|]. intros d Hd. apply Hhi. lia. }
  destruct (Nat.ltb_spec lo hi); [|split_and!; [lia|done|intros d Hd; apply Hhi; lia]].
  set (mid := lo + (hi - lo + 1) / 2).
  assert (Hmid : lo < mid <= hi).
  { unfold mid. pose proof (Nat.div_le_lower_bound (hi - lo + 1) 2 1).
    pose proof (Nat.Div0.div_le_upper_bound (hi - lo + 1) 2 (hi - lo)). lia. }
  case_bool_decide as E.
  - apply IH; [lia|lia|done|done|done|done].
  - apply IH; [lia|lia|lia|done|done|]. intros d Hd.
    assert (Hdown : ∀ k, mid + k <= 255 → get_node t (mid + k) p = EMPTY_HASH).
    { induction k as [|k IHk]; intros Hk.
      - rewrite Nat.add_0_r. destruct (decide (get_node t mid p = EMPTY_HASH)); [done|by destruct E].
      - destruct (decide (get_node t (mid + S k) p = EMPTY_HASH)) as [|Hn]; [done|].
        rewrite Nat.add_succ_r in Hn. apply Hmono in Hn; [|lia]. by rewrite IHk in Hn by lia. }
    replace d with (mid + (d - mid)) by lia. apply Hdown. lia.
Qed.

Lemma rep_nonempty t C d p : Rep t C → length p = 32 → d < 256 →
  get_node t d p ≠ EMPTY_HASH ↔ crown C d p ∧ ¬ vacant C d p.
Proof.
  intros HR Hp Hd. assert (HC := rep_wf _ _ HR).
  destruct (rep_node _ _ HR d p Hp ltac:(lia)) as [H1 H2]. rewrite stored_crown in H1, H2 by done.
  split.
  - intros Hne. destruct (crown_dec C d p HC Hp ltac:(lia)) as [Hc|Hc]; [|by rewrite H2 in Hne].
    split; [done|]. intros Hv. by rewrite H1, ref_vacant in Hne by (done || lia).
  - intros [Hc Hv]. rewrite H1 by done. apply (ref_nonempty no_empty); done || lia.
Qed.

Lemma rep_mono t C d p : Rep t C → length p = 32 → d < 255 →
  get_node t (S d) p ≠ EMPTY_HASH → get_node t d p ≠ EMPTY_HASH.
Proof.
  intros HR Hp Hd. rewrite !(rep_nonempty _ C) by (done || lia). rewrite crown_S. intros [Hc _].
  split; [|by apply crowded_not_vacant]. destruct d as [|d]; [by left|].
  apply crown_S. eapply crowded_le, Hc. lia.
Qed.

Lemma agree_0 p q : agree 0 p q.
Proof. intros i Hi. lia. Qed.

Definition site_ok (C : content) (p : path) (site : V2Site) : Prop :=
  match site with
  | EmptyTree => C = ∅
  | Resident td => is_Some (C !! p) ∧ td <= 256 ∧ top_at C td p p
  | DivesIntoUnary td q => C !! p = None ∧ td < 256 ∧ top_at C td p q ∧ length q = 32 ∧ q ≠ p
  | BranchAdjacent b => C !! p = None ∧ b < 256 ∧ crowded C b p ∧ vacant C (S b) p
  end.

Lemma lone_256 C p : length p = 32 → wf_content C → is_Some (C !! p) → lone C 256 p p.
Proof.
  intros Hp HC Hs. split; [split; [done|apply agree_refl]|].
  intros r [[h Hr] Ha]. destruct (HC _ _ Hr) as [Hl _]. symmetry. by apply agree_full.
Qed.
Lemma vacant_256 C p : length p = 32 → wf_content C → C !! p = None → vacant C 256 p.
Proof.
  intros Hp HC Hn r [[h Hr] Ha]. destruct (HC _ _ Hr) as [Hl _].
  apply agree_full in Ha as <-; [congruence|done..].
Qed.

Lemma v2_resolve_ok t C p : Rep t C → length p = 32 → site_ok C p (v2_resolve t p).
Proof.
  intros HR Hp. assert (HC := rep_wf _ _ HR). unfold v2_resolve.
  assert (Hz : length zero_path = 32) by done.
  rewrite (get_node_agree t 0 zero_path p) by (done || lia || apply agree_0).
  case_bool_decide as E0.
  { destruct (rep_node _ _ HR 0 p Hp ltac:(lia)) as [H1 _].
    rewrite H1 in E0 by (by right; left).
    apply map_empty. intros q. apply eq_None_not_Some. intros Hq.
    apply (ref_nonempty no_empty C 0 p) in E0; [done|done|done|lia|].
    intros Hv. apply (Hv q). split; [done|apply agree_0]. }
  destruct (deepest_loop_spec t p MAX_DEPTH 0 (MAX_DEPTH - 1)) as (Hb & Hbn & Hbd);
    [unfold MAX_DEPTH; lia..|by intros; eapply rep_mono|done|unfold MAX_DEPTH; lia|].
  set (b := deepest_loop MAX_DEPTH t p 0 (MAX_DEPTH - 1)) in *.
  apply (rep_nonempty _ C) in Hbn as [Hcr Hv]; [|done|done|lia].
  assert (Hstop : crowded C b p → b < 255 → vacant C (S b) p).
  { intros Hc Hlt. specialize (Hbd (S b) ltac:(lia)).
    destruct (occupancy C (S b) p HC Hp ltac:(lia)) as [|Ho]; [done|].
    exfalso. revert Hbd. change (get_node t (S b) p ≠ EMPTY_HASH).
    apply (rep_nonempty _ C); [done|done|lia|]. split; [by apply crown_S|].
    destruct Ho as [[q Hq]|Hq]; [by eapply lone_not_vacant|by apply crowded_not_vacant]. }
  assert (HPb := rep_p _ _ HR b p Hp ltac:(lia)).
  assert (Hnotop : get_p t b p = None → crowded C b p).
  { intros Hn. destruct (occupancy C b p HC Hp ltac:(lia)) as [?|[[q Hq]|?]]; [done| |done].
    assert (get_p t b p = Some q) by (by apply HPb). congruence. }
  change MAX_DEPTH with 256. rewrite (rep_leaf t C p) by done.
  case_bool_decide as El.
  - assert (Hin : is_Some (C !! p)) by (destruct (C !! p); [eauto|done]).
    assert (Hup : under C b p p) by (split; [done|apply agree_refl]).
    assert (Hmax : get_p t b p = None → site_ok C p (Resident 256)).
    { intros Hn. apply Hnotop in Hn. split_and!; [done|lia|]. split; [|by apply lone_256].
      destruct (decide (b = 255)) as [Eb|]; [by apply crown_S; rewrite <- Eb|].
      exfalso. apply (Hstop Hn ltac:(lia) p). split; [done|apply agree_refl]. }
    destruct (get_p t b p) as [q|] eqn:Eq; [|by apply Hmax].
    apply HPb in Eq as Ht. assert (q = p) as -> by (destruct Ht as [_ [_ Hl]]; symmetry; by apply Hl).
    rewrite bool_decide_eq_true_2 by done. split_and!; [done|lia|done].
  - assert (Hnone : C !! p = None).
    { destruct (C !! p) as [h|] eqn:E; [|done]. destruct (HC _ _ E) as (_ & _ & Hh). by destruct (Hh El). }
    assert (Hadj : get_p t b p = None → site_ok C p (BranchAdjacent b)).
    { intros Hn%Hnotop. split_and!; [done|lia|done|].
      destruct (decide (b = 255)) as [Eb|]; [rewrite Eb; by apply vacant_256|]. apply Hstop; [done|lia]. }
    destruct (get_p t b p) as [q|] eqn:Eq; [|by apply Hadj].
    apply HPb in Eq as Ht. assert (Hqp : q ≠ p).
    { intros ->. destruct Ht as [_ [[[h Hq] _] _]]. congruence. }
    rewrite bool_decide_eq_true_2 by done. split_and!; [done|lia|done| |done].
    destruct Ht as [_ [[[h Hq] _] _]]. by destruct (HC _ _ Hq).
Qed.
End invariant.
