(* ===== verification/SmtOps.v ===== *)
(** * The structural walks keep the invariant

    [v2_place_leaf] and [v2_remove_leaf] of Smt.v leave every row right but for
    the crown rows above the depth they return ([RepFrom]), which the shared
    recompute then fixes: together they take a tree that represents a content to
    one that represents the changed content. *)

From S2P Require Import Prelude SmtBits Smt SmtSpec SmtInv.
Open Scope nat_scope.

Section walks.
Context `{Externals}.
Hypothesis no_empty : ∀ m, length m = 65 → sha3_256 m ≠ EMPTY_HASH.
Implicit Types (t : SparseMerkleTree) (C : content) (p q x r : path) (d e : nat).

(** ** Rows off and on the changed path *)

Lemma node_ok_agree t C d p x : length p = 32 → length x = 32 → d <= 256 → agree d p x →
  node_ok t C d p → node_ok t C d x.
Proof.
  intros Hp Hx Hd Ha [H1 H2]. unfold node_ok, stored in *.
  rewrite <- (crown_agree C d p x Ha), <- (get_node_agree t d p x), <- (ref_agree C d p x) by done. done.
Qed.
Lemma p_ok_agree t C d p x : length p = 32 → length x = 32 → d <= 256 → agree d p x →
  p_ok t C d p → p_ok t C d x.
Proof.
  intros Hp Hx Hd Ha H1 q. unfold top_at.
  rewrite <- (crown_agree C d p x Ha), <- (get_p_agree t d p x), <- (lone_agree C d p x q Ha) by done.
  apply H1.
Qed.

Lemma rep_from_intro k p t C : length p = 32 → wf_content C → (∀ d, d < k → crowded C d p) →
  (∀ d, k <= d <= 256 → node_ok t C d p) → (∀ d, d <= 256 → p_ok t C d p) →
  (∀ d x, length x = 32 → d <= 256 → ¬ agree d x p → node_ok t C d x ∧ p_ok t C d x) →
  RepFrom k p t C.
Proof.
  intros Hp HC Hcr Hn Hpk Hoff. split; [done|done| |].
  - intros d x Hx Hd Hor. destruct (decide (agree d x p)) as [Ha|Ha].
    + apply (node_ok_agree t C d p); [done..|by apply agree_sym|]. apply Hn. destruct Hor; [lia|done].
    + by apply Hoff.
  - intros d x Hx Hd. destruct (decide (agree d x p)) as [Ha|Ha].
    + apply (p_ok_agree t C d p); [done..|by apply agree_sym|]. by apply Hpk.
    + by apply Hoff.
Qed.

(** Off the path nothing changes, unless the parent's residents become or cease
    to be several. *)
Lemma crown_off p C C' d x : length p = 32 → same_off p C C' → ¬ agree d x p →
  (∀ e, d = S e → agree e x p → crowded C' e p ↔ crowded C e p) → crown C' d x ↔ crown C d x.
Proof.
  intros Hp Hs Hn He. destruct d as [|e]; [destruct Hn; apply agree_0|]. rewrite !crown_S.
  destruct (decide (agree e x p)) as [Ha|Ha].
  - rewrite !(crowded_agree _ e x p) by done. by apply He.
  - by apply (crowded_off p).
Qed.

Lemma off_ok t t' C C' p d x : Rep t C → wf_content C' → length p = 32 → length x = 32 → d <= 256 →
  same_off p C C' → ¬ agree d x p →
  get_node t' d x = get_node t d x → get_p t' d x = get_p t d x →
  vacant C d x ∨ (crown C' d x ↔ crown C d x) → node_ok t' C' d x ∧ p_ok t' C' d x.
Proof.
  intros HR HC' Hp Hx Hd Hs Hn En Ep Hor. assert (HC := rep_wf _ _ HR).
  pose proof (rep_node _ _ HR d x Hx Hd) as Hno. pose proof (rep_p _ _ HR d x Hx Hd) as Hpo.
  destruct Hor as [Hv|Hc].
  - assert (Hv' : vacant C' d x) by (by apply (vacant_off p C C' d x)). split.
    + apply node_ok_vacant; [done..|]. rewrite En. by apply (proj1 (node_ok_vacant t C d x HC Hx Hd Hv)).
    + intros q. rewrite Ep, (Hpo q). split; intros [_ Hl]; by apply lone_not_vacant in Hl.
  - unfold node_ok, p_ok, stored, top_at in *. rewrite En, Ep, Hc, (ref_off p C C' d x) by done.
    split; [done|]. intros q. rewrite (Hpo q). rewrite (lone_off p C C' d x q) by done. tauto.
Qed.

Lemma node_ok_256 t C p : wf_content C → length p = 32 →
  get_node t 256 p = default EMPTY_HASH (C !! p) → node_ok t C 256 p.
Proof. intros HC Hp E. split; [by rewrite ref_leaf|]. intros Hn. destruct Hn. by left. Qed.
Lemma node_ok_crown t C d p : crown C d p → get_node t d p = ref C d p → node_ok t C d p.
Proof. intros Hc E. split; [done|]. intros Hn. destruct Hn. by right. Qed.
Lemma node_ok_absent t C d p : d < 256 → ¬ crown C d p → get_node t d p = EMPTY_HASH → node_ok t C d p.
Proof. intros Hd Hc E. split; [|done]. by intros ?%stored_crown. Qed.
Lemma p_ok_lone t C d p r : lone C d p r → crown C d p → get_p t d p = Some r → p_ok t C d p.
Proof.
  intros Hl Hc E q. rewrite E. split; [by intros [= <-]|]. intros [_ [Hq _]]. f_equal. symmetry. by apply Hl.
Qed.
Lemma p_ok_none t C d p : (∀ q, ¬ top_at C d p q) → get_p t d p = None → p_ok t C d p.
Proof. intros Hn E q. rewrite E. split; [done|]. by intros ?%Hn. Qed.
Lemma p_ok_crowded t C d p : crowded C d p → get_p t d p = None → p_ok t C d p.
Proof. intros Hc. apply p_ok_none. by intros q [_ Hl%lone_not_crowded]. Qed.
Lemma p_ok_inner t C d p : ¬ crown C d p → get_p t d p = None → p_ok t C d p.
Proof. intros Hc. apply p_ok_none. by intros q [? _]. Qed.
Lemma p_ok_vacant t C d p : vacant C d p → get_p t d p = None → p_ok t C d p.
Proof. intros Hc. apply p_ok_none. by intros q [_ Hl%lone_not_vacant]. Qed.

Lemma rep_p_none t C d p : Rep t C → length p = 32 → d <= 256 → (∀ q, ¬ top_at C d p q) →
  get_p t d p = None.
Proof.
  intros HR Hp Hd Hn. destruct (get_p t d p) as [q|] eqn:E; [|done].
  apply (rep_p _ _ HR d p Hp Hd) in E. by apply Hn in E.
Qed.
Lemma rep_absent t C d p : Rep t C → length p = 32 → d < 256 → ¬ crown C d p → get_node t d p = EMPTY_HASH.
Proof. intros HR Hp Hd Hn. apply (rep_node _ _ HR d p Hp ltac:(lia)). by rewrite stored_crown. Qed.

(** Above a run of vacant siblings the hash is a tail. *)
Lemma ref_chain C d s p : wf_content C → length p = 32 → d <= s → s <= 256 → ¬ vacant C s p →
  (∀ e, d <= e < s → vacant C (S e) (sibling p e)) → ref C d p = fold_tail (ref C s p) p s d.
Proof.
  intros HC Hp Hds Hs Hv Hsib. remember (s - d) as k eqn:Ek. revert d Ek Hds Hsib.
  induction k as [|k IH]; intros d Ek Hds Hsib.
  { replace d with s by lia. by rewrite fold_tail_refl. }
  rewrite (ref_up no_empty); [|done|done|lia| |apply Hsib; lia].
  - rewrite fold_tail_S by lia. rewrite <- IH; [done|lia|lia|]. intros e He. apply Hsib. lia.
  - intros Hv'. apply Hv. eapply vacant_le, Hv'. lia.
Qed.
Lemma ref_lone_leaf C d p h : wf_content C → length p = 32 → d <= 256 → C !! p = Some h →
  lone C d p p → ref C d p = fold_tail h p 256 d.
Proof.
  intros HC Hp Hd E Hl. rewrite (ref_lone no_empty C d 256 p) by (done || lia).
  by rewrite ref_leaf, E by done.
Qed.

(** ** Chain rows *)

Lemma chain_rows_node n : ∀ h p top t e x, length p = 32 → length x = 32 → top + n <= 256 →
  get_node (chain_rows n h p top t) e x
  = if decide (top <= e < top + n ∧ agree e x p) then fold_tail h p (top + n) e else get_node t e x.
Proof.
  induction n as [|n IH]; intros h p top t e x Hp Hx Hn; cbn [chain_rows].
  { rewrite decide_False by lia. done. }
  rewrite IH by (done || lia). rewrite get_node_set by (done || lia).
  destruct (decide (top <= e < top + n ∧ agree e x p)) as [[He Ha]|Hne].
  - rewrite decide_True by (split; [lia|done]). unfold fold_tail.
    replace (top + S n - e) with (S (top + n - e)) by lia. cbn [fold_tail_loop].
    by replace (e + (top + n - e)) with (top + n) by lia.
  - destruct (decide (e = top + n ∧ agree (top + n) x p)) as [[-> Ha]|Hne'].
    + rewrite decide_True by (split; [lia|done]). unfold fold_tail.
      replace (top + S n - (top + n)) with 1 by lia. cbn [fold_tail_loop]. by rewrite Nat.add_0_r.
    + rewrite decide_False; [done|]. intros [He Ha]. destruct (decide (e = top + n)) as [->|]; naive_solver lia.
Qed.
Lemma chain_rows_p n : ∀ h p top t e x, get_p (chain_rows n h p top t) e x = get_p t e x.
Proof. induction n as [|n IH]; intros; cbn [chain_rows]; [done|]. by rewrite IH. Qed.

(** ** Inserting a leaf *)

Section place.
Context (t : SparseMerkleTree) (C : content) (p : path) (leaf : digest).
Context (HR : Rep t C) (Hp : length p = 32) (Hleaf : length leaf = 32 ∧ leaf ≠ EMPTY_HASH).
Let C' : content := <[p := leaf]> C.

Lemma place_wf : wf_content C'.
Proof. apply map_Forall_insert_2; [naive_solver|apply HR]. Qed.
Lemma place_off : same_off p C C'.
Proof. intros q Hq. unfold C'. by rewrite lookup_insert_ne. Qed.
Lemma place_self : C' !! p = Some leaf.
Proof. apply lookup_insert_eq. Qed.
Lemma under_place d x q : under C' d x q ↔ (q = p ∧ agree d x p) ∨ under C d x q.
Proof.
  unfold under, C'. destruct (decide (q = p)) as [->|Hq].
  - rewrite lookup_insert_eq. split; [intros [_ ?]; by left|]. intros [[_ ?]|[_ ?]]; by split.
  - rewrite lookup_insert_ne by done. naive_solver.
Qed.
Lemma crowded_place d x : crowded C d x → crowded C' d x.
Proof. intros (a & b & ? & ? & ?). exists a, b. rewrite !under_place. naive_solver. Qed.
Lemma lone_place d : (∀ q, under C d p q → q = p) → lone C' d p p.
Proof.
  intros Hl. split; [apply under_place; left; split; [done|apply agree_refl]|].
  intros r [[? _]|?]%under_place; auto.
Qed.
Hint Resolve place_wf place_off place_self : core.

(** The leaf row, and the rows no branch below writes. *)
Lemma place_node_256 t' : get_node t' 256 p = leaf → node_ok t' C' 256 p.
Proof. intros E. apply node_ok_256; [auto|done|]. by rewrite E, place_self. Qed.

Lemma place_empty : C = ∅ →
  RepFrom 0 p (set_p 0 p p (set_node 0 p (fold_tail leaf p 256 0) (set_node 256 p leaf t))) C'.
Proof.
  intros HE. assert (Hu : ∀ d x q, ¬ under C d x q) by (intros d x q [[h Hq] _]; by rewrite HE in Hq).
  assert (Hl : ∀ d, lone C' d p p) by (intros d; apply lone_place; intros q Hq; by apply Hu in Hq).
  assert (Hnc : ∀ d x, ¬ crowded C d x) by (intros d x (q & _ & _ & Hq & _); by apply Hu in Hq).
  assert (Hnc' : ∀ d, ¬ crowded C' d p) by (intros d; eapply lone_not_crowded, Hl).
  assert (Hcr : ∀ d, 0 < d → ¬ crown C' d p) by (intros d Hd [?|?%Hnc']; [lia|done]).
  apply rep_from_intro; [done|auto|lia| | |].
  - intros d [_ Hd]. destruct (decide (d = 256)) as [->|]; [apply place_node_256|].
    { autorewrite with smt. rewrite decide_False by lia. by rewrite decide_True by (split; [done|apply agree_refl]). }
    destruct (decide (d = 0)) as [->|].
    + apply node_ok_crown; [by left|]. autorewrite with smt.
      rewrite decide_True by (split; [done|apply agree_refl]). symmetry.
      apply ref_lone_leaf; auto; lia.
    + apply node_ok_absent; [lia|apply Hcr; lia|]. autorewrite with smt. rewrite !decide_False by lia.
      apply (rep_absent t C); [done|done|lia|]. intros [?|?%Hnc]; [lia|done].
  - intros d Hd. destruct (decide (d = 0)) as [->|].
    + apply (p_ok_lone _ _ _ _ p); [apply Hl|by left|]. autorewrite with smt.
      by rewrite decide_True by (split; [done|apply agree_refl]).
    + apply p_ok_inner; [apply Hcr; lia|]. autorewrite with smt. rewrite decide_False by lia.
      apply (rep_p_none t C); [done|done|done|]. intros q [_ [Hq _]]. by apply Hu in Hq.
  - intros d x Hx Hd Ha. apply (off_ok t _ C C' p); auto.
    + autorewrite with smt. rewrite !decide_False; [done|by intros [-> ?]|intros [-> ?]; by destruct Ha; apply agree_0].
    + autorewrite with smt. rewrite decide_False; [done|intros [-> ?]; by destruct Ha; apply agree_0].
    + left. intros q Hq. by apply Hu in Hq.
Qed.

Lemma place_resident td : is_Some (C !! p) → td <= 256 → top_at C td p p →
  RepFrom td p (if td <? 256 then set_node td p (fold_tail leaf p 256 td) (set_node 256 p leaf t)
                else set_node 256 p leaf t) C'.
Proof.
  intros Hin Htd [Hc Hl].
  assert (Hu : ∀ d x q, under C' d x q ↔ under C d x q).
  { intros d x q. rewrite under_place. split; [|tauto]. intros [[-> ?]|?]; [by split|done]. }
  assert (Hcw : ∀ d x, crowded C' d x ↔ crowded C d x) by (intros; unfold crowded; by setoid_rewrite Hu).
  assert (Hlo : ∀ d x q, lone C' d x q ↔ lone C d x q) by (intros; unfold lone; by setoid_rewrite Hu).
  assert (Hco : ∀ d x, crown C' d x ↔ crown C d x) by (intros; unfold crown; by rewrite Hcw).
  assert (Hbelow : ∀ d, td <= d → lone C d p p).
  { intros d Hd. eapply lone_le, Hl; [done|]. split; [done|apply agree_refl]. }
  set (t' := if td <? 256 then _ else _).
  assert (En : ∀ e x, length x = 32 → get_node t' e x =
    if decide (td < 256 ∧ e = td ∧ agree td x p) then fold_tail leaf p 256 td
    else if decide (e = 256 ∧ agree 256 x p) then leaf else get_node t e x).
  { intros e x Hx. unfold t'. destruct (Nat.ltb_spec td 256); autorewrite with smt.
    - by repeat case_decide; try tauto.
    - by rewrite (decide_False (P := _ ∧ _ ∧ _)) by lia. }
  assert (Ep : ∀ e x, get_p t' e x = get_p t e x) by (intros; unfold t'; by destruct (td <? 256)).
  apply rep_from_intro; [done|auto| | | |].
  - intros d Hd. apply Hcw. destruct Hc as [?|Hc]; [lia|]. eapply crowded_le, Hc. lia.
  - intros d [Hd1 Hd2]. destruct (decide (d = 256)) as [->|].
    { apply place_node_256. rewrite En by done.
      rewrite decide_False by lia. by rewrite decide_True by (split; [done|apply agree_refl]). }
    destruct (decide (d = td)) as [->|].
    + apply node_ok_crown; [by apply Hco|]. rewrite En by done.
      rewrite decide_True by (split_and!; [lia|done|apply agree_refl]). symmetry.
      apply ref_lone_leaf; [auto|done|lia|auto|]. by apply Hlo.
    + assert (¬ crown C d p).
      { intros [?|Hcc]; [lia|]. eapply lone_not_crowded, Hcc. apply Hbelow. lia. }
      apply node_ok_absent; [lia|by rewrite Hco|]. rewrite En by done. rewrite !decide_False by lia.
      apply (rep_absent t C); done || lia.
  - intros d Hd. intros q. rewrite Ep. unfold top_at. rewrite Hco, Hlo. by apply (rep_p _ _ HR).
  - intros d x Hx Hd Ha. apply (off_ok t _ C C' p); auto.
    rewrite En by done. rewrite !decide_False; [done|by intros [-> ?]|by intros (_ & -> & ?)].
Qed.

Lemma place_adjacent b : C !! p = None → b < 256 → crowded C b p → vacant C (S b) p →
  RepFrom (b + 1) p (set_p (b + 1) p p (set_node (b + 1) p (fold_tail leaf p 256 (b + 1))
    (set_node 256 p leaf t))) C'.
Proof.
  intros Hnone Hb Hcr Hv. rewrite Nat.add_1_r.
  assert (Hl : ∀ d, S b <= d → lone C' d p p).
  { intros d Hd. apply lone_place. intros q Hq. exfalso. eapply Hv, under_le, Hq. done. }
  assert (Hup : ∀ d, d <= b → crowded C d p) by (intros d Hd; by eapply crowded_le, Hcr).
  assert (Hnc : ∀ d, S b <= d → ¬ crowded C' d p) by (intros d Hd; by eapply lone_not_crowded, Hl).
  assert (Hin : ∀ d, S b < d → ¬ crown C' d p).
  { intros d Hd [?|Hcc]; [lia|]. eapply Hnc, Hcc. lia. }
  assert (Hv' : ∀ d, S b <= d → ¬ crowded C d p).
  { intros d Hd (q & _ & _ & Hq & _). eapply Hv, under_le, Hq. done. }
  apply rep_from_intro; [done|auto| | | |].
  - intros d Hd. apply crowded_place, Hup. lia.
  - intros d [Hd1 Hd2]. destruct (decide (d = S b)) as [->|].
    { apply node_ok_crown; [by apply crown_S, crowded_place|]. autorewrite with smt.
      rewrite decide_True by (split; [done|apply agree_refl]). symmetry.
      apply ref_lone_leaf; [auto|done|lia|auto|]. by apply Hl. }
    destruct (decide (d = 256)) as [->|]; [apply place_node_256|].
    { autorewrite with smt. rewrite decide_False by lia.
      by rewrite decide_True by (split; [done|apply agree_refl]). }
    apply node_ok_absent; [lia|apply Hin; lia|]. autorewrite with smt. rewrite !decide_False by lia.
    apply (rep_absent t C); [done|done|lia|]. intros [?|Hcc]; [lia|]. eapply Hv', Hcc. lia.
  - intros d Hd. destruct (decide (d = S b)) as [->|].
    { apply (p_ok_lone _ _ _ _ p); [by apply Hl|by apply crown_S, crowded_place|]. autorewrite with smt.
      by rewrite decide_True by (split; [done|apply agree_refl]). }
    assert (Hold : (∀ q, ¬ top_at C d p q) → get_p (set_p (S b) p p (set_node (S b) p
      (fold_tail leaf p 256 (S b)) (set_node 256 p leaf t))) d p = None).
    { intros Hq. autorewrite with smt. rewrite decide_False by lia. by apply (rep_p_none t C). }
    destruct (decide (d <= b)).
    + apply p_ok_crowded; [by apply crowded_place, Hup|]. apply Hold.
      intros q [_ Hq%lone_not_crowded]. by apply Hq, Hup.
    + apply p_ok_inner; [apply Hin; lia|]. apply Hold. intros q [_ [Hq _]].
      eapply Hv, under_le, Hq. lia.
  - intros d x Hx Hd Ha. apply (off_ok t _ C C' p); auto.
    + autorewrite with smt. rewrite !decide_False; [done|by intros [-> ?]..].
    + autorewrite with smt. rewrite decide_False; [done|by intros [-> ?]].
    + right. apply (crown_off p); auto. intros e -> _. split; [|apply crowded_place].
      intros Hcc. destruct (decide (e <= b)); [by apply Hup|]. exfalso. eapply Hnc, Hcc. lia.
Qed.

(** A second resident in what was a lone resident's region: they part at bit [s]. *)
Section dive.
Context (td : nat) (q : path) (q_leaf : digest).
Context (Hnone : C !! p = None) (Htop : top_at C td p q) (Hq : length q = 32) (Hqp : q ≠ p).
Context (Hql : C !! q = Some q_leaf).
Let s : nat := first_diff_bit p q.

Lemma dive_diff : s < 256 ∧ bit_get p s ≠ bit_get q s ∧ agree s p q.
Proof. by apply first_diff_bit_spec. Qed.
Lemma dive_agree e : e <= s → agree e p q.
Proof. intros He. eapply agree_le, dive_diff. done. Qed.
Lemma dive_part e : s < e → ¬ agree e p q.
Proof. intros He Ha. destruct dive_diff as (_ & Hd & _). by apply Hd, Ha. Qed.
Lemma dive_td : td <= s.
Proof.
  destruct (decide (td <= s)) as [|Hn]; [done|]. destruct Htop as [_ [[_ Ha] _]].
  exfalso. eapply dive_part, Ha. lia.
Qed.
Lemma dive_under e r : td <= e → under C e p r → r = q.
Proof. intros He Hr. destruct Htop as [_ [_ Hl]]. eapply Hl, under_le, Hr. done. Qed.
Lemma dive_crowded e : e <= s → crowded C' e p.
Proof.
  intros He. exists p, q. split; [done|]. rewrite !under_place. split.
  - left. split; [done|apply agree_refl].
  - right. split; [eauto|]. by apply dive_agree.
Qed.
Lemma dive_lone e : s < e → lone C' e p p.
Proof.
  intros He. apply lone_place. intros r Hr. pose proof dive_td.
  assert (r = q) as -> by (eapply dive_under, Hr; lia). destruct Hr as [_ Ha].
  by destruct (dive_part e He).
Qed.
Lemma dive_lone_q e : s < e → lone C' e q q.
Proof.
  intros He. pose proof dive_td. split; [apply under_place; right; split; [eauto|apply agree_refl]|].
  intros r [[-> Ha]|[Hr Ha]]%under_place; [by destruct (dive_part e He); apply agree_sym|].
  apply (dive_under s r); [lia|]. split; [done|]. eapply agree_trans, agree_le, Ha; [by apply dive_agree|lia].
Qed.
Lemma dive_old e : td <= e → ¬ crowded C e p.
Proof. intros He (a & b & Hne & Ha & Hb). apply Hne. by rewrite (dive_under e a), (dive_under e b). Qed.
Lemma dive_old_up e : e < td → crowded C e p.
Proof. intros He. destruct Htop as [[?|Hc] _]; [lia|]. eapply crowded_le, Hc. lia. Qed.
Lemma dive_sibling e : td <= e < s → vacant C' (S e) (sibling p e).
Proof.
  intros He r Hr. pose proof dive_diff. apply under_not_both in Hr as Hn; [|done|lia].
  apply under_sibling in Hr as Hu; [|done|lia]. apply under_place in Hu as [[-> _]|Hu].
  - apply Hn, under_place. left. split; [done|apply agree_refl].
  - assert (r = q) as -> by (eapply dive_under, Hu; lia). apply Hn, under_place. right.
    split; [eauto|]. apply dive_agree. lia.
Qed.

Lemma dive_q_side x : length x = 32 → agree s x p → ¬ agree (S s) x p → agree (S s) x q.
Proof.
  intros Hx Ha Hn. destruct dive_diff as (? & Hd & Hs). apply agree_S.
  split; [by eapply agree_trans|].
  destruct (decide (bit_get x s = bit_get p s)) as [E|E]; [by destruct Hn; apply agree_S|].
  by destruct (bit_get x s), (bit_get p s), (bit_get q s).
Qed.

Let k_top : digest := fold_tail leaf p 256 (s + 1).
Let q_top : digest := fold_tail q_leaf q 256 (s + 1).
Let branch : digest := if bit_get p s then interior_hash q_top k_top else interior_hash k_top q_top.
Let t' : SparseMerkleTree :=
  del_p td p (chain_rows (s - td) branch p td (set_node s p branch
    (set_p (s + 1) q q (set_node (s + 1) q q_top
       (set_p (s + 1) p p (set_node (s + 1) p k_top (set_node 256 p leaf t))))))).

Lemma dive_node e x : length x = 32 → get_node t' e x =
  if decide (td <= e < s ∧ agree e x p) then fold_tail branch p s e
  else if decide (e = s ∧ agree s x p) then branch
  else if decide (e = S s ∧ agree (S s) x q) then q_top
  else if decide (e = S s ∧ agree (S s) x p) then k_top
  else if decide (e = 256 ∧ agree 256 x p) then leaf else get_node t e x.
Proof.
  intros Hx. pose proof dive_td. pose proof dive_diff. unfold t'. rewrite get_node_del_p.
  rewrite chain_rows_node by (done || lia). replace (td + (s - td)) with s by lia.
  autorewrite with smt. by rewrite Nat.add_1_r.
Qed.
Lemma dive_p e x : length x = 32 → get_p t' e x =
  if decide (e = td ∧ agree td x p) then None
  else if decide (e = S s ∧ agree (S s) x q) then Some q
  else if decide (e = S s ∧ agree (S s) x p) then Some p else get_p t e x.
Proof.
  intros Hx. pose proof dive_td. pose proof dive_diff. unfold t'.
  rewrite get_p_del by (done || lia). rewrite chain_rows_p. autorewrite with smt. by rewrite Nat.add_1_r.
Qed.

Lemma dive_k_top : k_top = ref C' (S s) p.
Proof.
  pose proof dive_diff. unfold k_top. rewrite Nat.add_1_r. symmetry.
  apply ref_lone_leaf; [auto|done|lia|auto|apply dive_lone; lia].
Qed.
Lemma dive_q_top : q_top = ref C' (S s) q.
Proof.
  pose proof dive_diff. unfold q_top. rewrite Nat.add_1_r. symmetry.
  apply ref_lone_leaf; [auto|done|lia| |apply dive_lone_q; lia]. unfold C'. by rewrite lookup_insert_ne.
Qed.
Lemma dive_branch : branch = ref C' s p.
Proof.
  destruct dive_diff as (Hs & Hd & Ha). rewrite ref_step by (auto || lia). unfold branch.
  rewrite dive_k_top, dive_q_top.
  assert (Hsib : agree (S s) (sibling p s) q).
  { apply agree_sibling; [done..|]. split; [done|]. by intros [_ ?]%agree_S. }
  rewrite (ref_agree C' (S s) (sibling p s) q) by (auto using sibling_length || lia).
  assert (Hk : ref C' (S s) p ≠ EMPTY_HASH).
  { apply (ref_nonempty no_empty); [auto|done|lia|]. eapply lone_not_vacant, dive_lone. lia. }
  assert (length (ref C' (S s) p) = 32) by (apply ref_length; auto || lia).
  assert (length (ref C' (S s) q) = 32) by (apply ref_length; auto || lia).
  destruct (bit_get p s); symmetry; eapply node_hash_nonempty; auto.
Qed.

Lemma place_dive : RepFrom td p t' C'.
Proof.
  destruct dive_diff as (Hs & _ & Ha). pose proof dive_td as Htd.
  apply rep_from_intro; [done|auto|intros; apply dive_crowded; lia| | |].
  - intros d [Hd1 Hd2]. destruct (decide (d < s)) as [Hlt|].
    { apply node_ok_crown; [destruct (decide (d = 0)); [by left|right; apply dive_crowded; lia]|].
      rewrite dive_node by done. rewrite decide_True by (split; [lia|apply agree_refl]).
      rewrite dive_branch. symmetry. apply ref_chain; [auto|done|lia|lia| |].
      - apply crowded_not_vacant, dive_crowded. lia.
      - intros e He. apply dive_sibling. lia. }
    destruct (decide (d = s)) as [->|].
    { apply node_ok_crown; [destruct (decide (s = 0)) as [->|]; [by left|right; apply dive_crowded; lia]|].
      rewrite dive_node by done. rewrite decide_False by lia.
      rewrite decide_True by (split; [done|apply agree_refl]). apply dive_branch. }
    destruct (decide (d = S s)) as [->|].
    { apply node_ok_crown; [apply crown_S, dive_crowded; lia|]. rewrite dive_node by done.
      rewrite decide_False by lia. rewrite decide_False by lia.
      rewrite decide_False by (intros [_ ?]; by eapply (dive_part (S s)); [lia|]).
      rewrite decide_True by (split; [done|apply agree_refl]). apply dive_k_top. }
    destruct (decide (d = 256)) as [->|]; [apply place_node_256|].
    { rewrite dive_node by done. rewrite !decide_False by lia.
      by rewrite decide_True by (split; [done|apply agree_refl]). }
    apply node_ok_absent; [lia| |].
    + intros [?|Hc]; [lia|]. eapply lone_not_crowded, Hc. apply dive_lone. lia.
    + rewrite dive_node by done. rewrite !decide_False by lia. apply (rep_absent t C); [done|done|lia|].
      intros [?|Hc]; [lia|]. eapply dive_old, Hc. lia.
  - intros d Hd. destruct (decide (d = S s)) as [->|].
    { apply (p_ok_lone _ _ _ _ p); [apply dive_lone; lia|apply crown_S, dive_crowded; lia|].
      rewrite dive_p by done. rewrite decide_False by lia.
      rewrite decide_False by (intros [_ ?]; by eapply (dive_part (S s)); [lia|]).
      by rewrite decide_True by (split; [done|apply agree_refl]). }
    assert (Hold : (∀ r, ¬ top_at C d p r) ∨ d = td → get_p t' d p = None).
    { intros Hor. rewrite dive_p by done. destruct (decide (d = td ∧ _)) as [|Hn]; [done|].
      rewrite !decide_False by lia. destruct Hor as [Hn' | ->]; [by apply (rep_p_none t C)|].
      destruct Hn. split; [done|apply agree_refl]. }
    destruct (decide (d <= s)).
    + apply p_ok_crowded; [by apply dive_crowded|]. apply Hold.
      destruct (decide (d = td)) as [|]; [by right|left]. intros r [Hc Hl].
      destruct (decide (d < td)); [by eapply lone_not_crowded, dive_old_up|].
      destruct Hc as [?|Hc]; [lia|]. eapply dive_old, Hc. lia.
    + apply p_ok_inner.
      * intros [?|Hc]; [lia|]. eapply lone_not_crowded, Hc. apply dive_lone. lia.
      * apply Hold. left. intros r [[?|Hc] _]; [lia|]. eapply dive_old, Hc. lia.
  - intros d x Hx Hd Hn. destruct (decide (d = S s ∧ agree (S s) x q)) as [[-> Hxq]|Hnq].
    { split.
      - apply (node_ok_agree _ _ _ q); [done..|by apply agree_sym|].
        apply node_ok_crown.
        + apply crown_S. apply (crowded_agree C' s p q Ha). by apply dive_crowded.
        + rewrite dive_node by done. rewrite decide_False by lia. rewrite decide_False by lia.
          rewrite decide_True by (split; [done|apply agree_refl]). apply dive_q_top.
      - apply (p_ok_agree _ _ _ q); [done..|by apply agree_sym|].
        apply (p_ok_lone _ _ _ _ q); [apply dive_lone_q; lia| |].
        + apply crown_S. apply (crowded_agree C' s p q Ha). by apply dive_crowded.
        + rewrite dive_p by done. rewrite decide_False by lia.
          by rewrite decide_True by (split; [done|apply agree_refl]). }
    apply (off_ok t _ C C' p); auto.
    + rewrite dive_node by done. rewrite !decide_False; [done|..]; try done; by intros [? ?]; subst.
    + rewrite dive_p by done. rewrite !decide_False; [done|..]; try done; by intros [? ?]; subst.
    + destruct d as [|e]; [by destruct Hn; apply agree_0|].
      destruct (decide (td <= e < s ∧ agree e x p)) as [[He Hxa]|Hns].
      * left. intros r Hr. assert (r = q) as ->.
        { apply (dive_under e r); [lia|]. apply (under_agree _ _ _ _ _ Hxa). eapply under_le, Hr. lia. }
        destruct Hr as [_ Hr]. apply Hn. eapply agree_trans; [done|]. apply agree_sym, dive_agree. lia.
      * destruct (decide (e = s ∧ agree s x p)) as [[-> Hxa]|Hns'].
        { destruct Hnq. split; [done|]. by apply dive_q_side. }
        right. apply (crown_off p); auto. intros e' [= <-] Hxa. split; [|apply crowded_place].
        intros Hc. destruct (decide (e < td)); [by apply dive_old_up|].
        destruct (decide (e = s)) as [->|]; [by destruct Hns'|].
        destruct (decide (e <= s)); [destruct Hns; split; [lia|done]|].
        exfalso. eapply lone_not_crowded, Hc. apply dive_lone. lia.
Qed.
End dive.
End place.

(** ** Removing a leaf *)

Lemma tombstones_node n : ∀ a p t e x, length p = 32 → length x = 32 → a + n <= 257 →
  get_node (foldl (fun t d => tombstone_node d p t) t (seq a n)) e x
  = if decide (a <= e < a + n ∧ agree e x p) then EMPTY_HASH else get_node t e x.
Proof.
  induction n as [|n IH]; intros a p t e x Hp Hx Hn; cbn [seq foldl].
  { by rewrite decide_False by lia. }
  rewrite IH by (done || lia). rewrite get_node_tombstone by (done || lia).
  destruct (decide (S a <= e < S a + n ∧ agree e x p)) as [[? ?]|Hne].
  { by rewrite decide_True by (split; [lia|done]). }
  destruct (decide (e = a ∧ agree a x p)) as [[-> ?]|Hne'].
  { by rewrite decide_True by (split; [lia|done]). }
  rewrite decide_False; [done|]. intros [? ?]. destruct (decide (e = a)) as [->|]; [by destruct Hne'|].
  destruct Hne. split; [lia|done].
Qed.
Lemma tombstones_p l : ∀ p t e x,
  get_p (foldl (fun t d => tombstone_node d p t) t l) e x = get_p t e x.
Proof. induction l as [|a l IH]; intros; cbn [foldl]; [done|]. by rewrite IH. Qed.

Section remove.
Context (t : SparseMerkleTree) (C : content) (p : path) (td : nat).
Context (HR : Rep t C) (Hp : length p = 32) (Hin : is_Some (C !! p)).
Context (Htd : td <= 256) (Htop : top_at C td p p).
Let C' : content := delete p C.

Lemma remove_wf : wf_content C'.
Proof. apply map_Forall_delete, HR. Qed.
Lemma remove_off : same_off p C C'.
Proof. intros q Hq. unfold C'. by rewrite lookup_delete_ne. Qed.
Lemma under_remove d x q : under C' d x q ↔ under C d x q ∧ q ≠ p.
Proof.
  unfold under, C'. destruct (decide (q = p)) as [->|Hq].
  - rewrite lookup_delete_eq. split; [intros [[? ?] _]; done|tauto].
  - rewrite lookup_delete_ne by done. tauto.
Qed.
Hint Resolve remove_wf remove_off : core.

Lemma remove_under d q : td <= d → under C d p q → q = p.
Proof. intros Hd Hq. destruct Htop as [_ [_ Hl]]. eapply Hl, under_le, Hq. done. Qed.
Lemma remove_vacant d : td <= d → vacant C' d p.
Proof. intros Hd q [Hq Hne]%under_remove. by eapply Hne, remove_under. Qed.
Lemma remove_old d : td <= d → ¬ crowded C d p.
Proof. intros Hd (a & b & Hne & Ha & Hb). apply Hne. by rewrite (remove_under d a), (remove_under d b). Qed.
Lemma remove_old_up d : d < td → crowded C d p.
Proof. intros Hd. destruct Htop as [[?|Hc] _]; [lia|]. eapply crowded_le, Hc. lia. Qed.

(** The key's own rows. *)
Definition cleared : SparseMerkleTree :=
  del_p td p (if td <? 256 then tombstone_node td p (tombstone_node 256 p t)
              else tombstone_node 256 p t).
Lemma cleared_node e x : length x = 32 → get_node cleared e x =
  if decide ((e = td ∨ e = 256) ∧ agree e x p) then EMPTY_HASH else get_node t e x.
Proof.
  intros Hx. unfold cleared. rewrite get_node_del_p.
  destruct (decide ((e = td ∨ e = 256) ∧ agree e x p)) as [[Hor Ha]|Hn].
  - destruct (Nat.ltb_spec td 256); autorewrite with smt.
    + repeat case_decide; try done. by destruct Hor; subst; tauto.
    + by rewrite decide_True by (destruct Hor; subst; split; done || lia || by replace 256 with td by lia).
  - destruct (Nat.ltb_spec td 256); autorewrite with smt; rewrite !decide_False; try done;
      intros [-> ?]; destruct Hn; auto.
Qed.
Lemma cleared_p e x : length x = 32 → get_p cleared e x =
  if decide (e = td ∧ agree td x p) then None else get_p t e x.
Proof. intros Hx. unfold cleared. rewrite get_p_del by done. by destruct (td <? 256). Qed.

(** Below the removed key's top nothing is left on its path. *)
Lemma cleared_below t' : (∀ d, td <= d <= 256 → get_node t' d p = get_node cleared d p) →
  ∀ d, td <= d <= 256 → node_ok t' C' d p.
Proof.
  intros E d Hd. apply node_ok_vacant; [auto|done|lia|apply remove_vacant; lia|].
  rewrite E, cleared_node by done. destruct (decide (_ ∧ _)) as [|Hn]; [done|].
  apply (rep_absent t C); [done|done| |].
  - destruct (decide (d = 256)) as [->|]; [|lia]. destruct Hn. split; [by right|apply agree_refl].
  - intros [->|Hc]; [destruct Hn; split; [left; lia|apply agree_refl]|].
    destruct (decide (d = td)) as [->|]; [destruct Hn; split; [by left|apply agree_refl]|].
    eapply remove_old, Hc. lia.
Qed.
Lemma cleared_below_p t' : (∀ d, td <= d <= 256 → get_p t' d p = get_p cleared d p) →
  ∀ d, td <= d <= 256 → p_ok t' C' d p.
Proof.
  intros E d Hd. apply p_ok_vacant; [apply remove_vacant; lia|].
  rewrite E, cleared_p by done. destruct (decide (_ ∧ _)) as [|Hn]; [done|].
  apply (rep_p_none t C); [done|done|lia|]. intros q [[->|Hc] _].
  - destruct Hn. split; [lia|apply agree_refl].
  - destruct (decide (d = td)) as [->|]; [destruct Hn; split; [done|apply agree_refl]|].
    eapply remove_old, Hc. lia.
Qed.
Lemma cleared_above_p d : d < td → get_p cleared d p = None.
Proof.
  intros Hd. rewrite cleared_p by done. rewrite decide_False by lia.
  apply (rep_p_none t C); [done|done|lia|]. intros q [_ Hl%lone_not_crowded]. by apply Hl, remove_old_up.
Qed.
Lemma cleared_off d x : length x = 32 → ¬ agree d x p →
  get_node cleared d x = get_node t d x ∧ get_p cleared d x = get_p t d x.
Proof.
  intros Hx Hn. rewrite cleared_node, cleared_p by done.
  rewrite !decide_False; [done|by intros [-> ?]|by intros [_ ?]].
Qed.

(** The sole key: the tree is empty. *)
Lemma remove_sole : td = 0 → RepFrom 0 p cleared C'.
Proof.
  intros E0. apply rep_from_intro; [done|auto|lia| | |].
  - intros d Hd. apply cleared_below; [done|lia].
  - intros d Hd. apply cleared_below_p; [done|lia].
  - intros d x Hx Hd Hn. destruct (cleared_off d x Hx Hn).
    apply (off_ok t _ C C' p); auto. left. intros q Hq. apply Hn.
    assert (q = p) as ->; [|apply Hq]. apply (remove_under 0); [lia|].
    eapply (under_agree _ _ x); [apply agree_0|]. eapply under_le, Hq. lia.
Qed.

Section pair.
Context (Hpos : td ≠ 0).
Let bd : nat := td - 1.
Let sib : path := sibling p bd.

Lemma bd_S : S bd = td.
Proof. unfold bd. lia. Qed.
Lemma sib_length : length sib = 32.
Proof. by apply sibling_length. Qed.
Lemma sib_agree x : agree td sib x ↔ agree bd p x ∧ ¬ agree td p x.
Proof. rewrite <- bd_S. apply agree_sibling; [done|]. pose proof bd_S. lia. Qed.
Lemma sib_not : ¬ agree td sib p.
Proof. intros [_ Hn]%sib_agree. apply Hn, agree_refl. Qed.
Hint Resolve sib_length : core.
Lemma sib_crown : crown C td sib.
Proof.
  rewrite <- bd_S. apply crown_S. apply (crowded_agree _ _ p); [|apply remove_old_up; pose proof bd_S; lia].
  apply sibling_agree; [done|]. pose proof bd_S. lia.
Qed.
Lemma sib_occupied : ¬ vacant C td sib.
Proof.
  intros Hv. destruct (remove_old_up bd ltac:(pose proof bd_S; lia)) as (a & b & Hne & Ha & Hb).
  assert (G : ∀ r, under C bd p r → r = p).
  { intros r Hr. destruct (decide (agree td p r)) as [E|E].
    - apply (remove_under td); [done|]. split; [apply Hr|done].
    - destruct (Hv r). split; [apply Hr|]. apply sib_agree. split; [apply Hr|done]. }
  apply Hne. by rewrite (G a), (G b).
Qed.
Lemma cleared_sib_p : get_p cleared td sib = get_p t td sib.
Proof. apply cleared_off; [auto|]. apply sib_not. Qed.

(** The neighbour subtree keeps its own top. *)
Lemma remove_branchy : get_p cleared td sib = None → RepFrom td p cleared C'.
Proof.
  rewrite cleared_sib_p. intros Hnp.
  assert (Hcs : crowded C td sib).
  { destruct (occupancy C td sib (rep_wf _ _ HR) ltac:(auto) Htd) as [?|[[q Hq]|?]]; [by destruct sib_occupied| |done].
    assert (get_p t td sib = Some q) by (apply (rep_p _ _ HR); auto; by split; [apply sib_crown|]). congruence. }
  assert (Hcr : ∀ d, d < td → crowded C' d p).
  { intros d Hd. destruct Hcs as (a & b & Hne & Ha & Hb). exists a, b.
    assert (G : ∀ r, under C td sib r → under C' d p r).
    { intros r [Hr Hra%sib_agree]. apply under_remove. split.
      - split; [done|]. eapply agree_le, Hra. pose proof bd_S. lia.
      - intros ->. destruct Hra as [_ Hra]. apply Hra, agree_refl. }
    auto. }
  apply rep_from_intro; [done|auto|done| | |].
  - by apply cleared_below.
  - intros d Hd. destruct (decide (d < td)); [|apply cleared_below_p; [done|lia]].
    apply p_ok_crowded; [by apply Hcr|by apply cleared_above_p].
  - intros d x Hx Hd Hn. destruct (cleared_off d x Hx Hn). apply (off_ok t _ C C' p); auto.
    right. apply (crown_off p); auto. intros e -> _. destruct (decide (e < td)).
    + split; intros _; [by apply remove_old_up|by apply Hcr].
    + split; [|intros Hc; exfalso; eapply remove_old, Hc; lia].
      intros Hc. exfalso. eapply crowded_not_vacant, remove_vacant; [done|lia].
Qed.

(** The neighbour subtree is one resident, whose region grows up to below the
    next branch. *)
Lemma next_branch_spec t0 n :
  (∀ d, d < n → get_node t0 (S d) (sibling p d) = EMPTY_HASH ↔ vacant C (S d) (sibling p d)) →
  let nt := match next_branch n t0 p with Some d => d + 1 | None => 0 end in
  nt <= n ∧ (nt = 0 ∨ ¬ vacant C nt (sibling p (nt - 1))) ∧
  ∀ e, nt <= e < n → vacant C (S e) (sibling p e).
Proof.
  induction n as [|n IH]; intros Hv; cbn [next_branch]; [split_and!; [done|by left|lia]|].
  rewrite Nat.add_1_r. fold (sibling p n). case_bool_decide as E; cbv zeta.
  - rewrite Nat.add_1_r. split_and!; [done| |lia]. right. rewrite Nat.sub_succ, Nat.sub_0_r.
    by rewrite <- Hv by lia.
  - destruct IH as (H1 & H2 & H3); [intros d Hd; apply Hv; lia|]. split_and!; [lia|done|].
    intros e He. destruct (decide (e = n)) as [->|]; [|apply H3; lia].
    apply Hv; [lia|]. destruct (decide (get_node t0 (S n) (sibling p n) = EMPTY_HASH)); [done|by destruct E].
Qed.

Lemma cleared_siblings d : d < bd →
  get_node (cleared) (S d) (sibling p d) = EMPTY_HASH ↔ vacant C (S d) (sibling p d).
Proof.
  intros Hd. pose proof bd_S. assert (Hs := sibling_length p d Hp).
  assert (¬ agree (S d) (sibling p d) p) as Hn.
  { rewrite agree_sibling by (done || lia). intros [_ Hn]. apply Hn, agree_refl. }
  rewrite (proj1 (cleared_off (S d) _ Hs Hn)).
  assert (Hc : crown C (S d) (sibling p d)).
  { apply crown_S. apply (crowded_agree _ _ p); [apply sibling_agree; done || lia|].
    apply remove_old_up. lia. }
  pose proof (rep_nonempty no_empty t C (S d) (sibling p d) HR Hs ltac:(lia)) as Hrn.
  split.
  - intros E. destruct (occupancy C (S d) (sibling p d) (rep_wf _ _ HR) Hs ltac:(lia)) as [?|Ho]; [done|].
    exfalso. apply Hrn; [|done]. split; [done|].
    destruct Ho as [[q Hq]|Hq]; [by eapply lone_not_vacant|by apply crowded_not_vacant].
  - intros Hv. destruct (decide (get_node t (S d) (sibling p d) = EMPTY_HASH)) as [|Hne]; [done|].
    by apply Hrn in Hne as [_ ?].
Qed.

Section neighbour.
Context (q : path) (nt : nat).
Context (Hq : lone C td sib q) (Hlq : length q = 32) (Hnt : nt <= bd).
Context (Hbranch : nt = 0 ∨ ¬ vacant C nt (sibling p (nt - 1))).
Context (Hrun : ∀ e, nt <= e < bd → vacant C (S e) (sibling p e)).

Lemma nb_agree d : d <= bd → agree d p q.
Proof. intros Hd. destruct Hq as [[_ [Ha _]%sib_agree] _]. by eapply agree_le, Ha. Qed.
Lemma nb_part : ¬ agree td p q.
Proof. by destruct Hq as [[_ [_ Ha]%sib_agree] _]. Qed.
Lemma nb_ne : q ≠ p.
Proof. intros E. apply nb_part. rewrite E. apply agree_refl. Qed.
Lemma nb_in : is_Some (C !! q).
Proof. apply Hq. Qed.
Lemma nb_under d r : nt <= d <= bd → under C d p r → r = p ∨ r = q.
Proof.
  intros Hd. remember (bd - d) as k eqn:Ek. revert d Hd Ek.
  induction k as [|k IH]; intros d Hd Ek Hr.
  - replace d with bd in * by lia. destruct (decide (agree td p r)) as [E|E].
    + left. apply (remove_under td); [done|]. split; [apply Hr|done].
    + right. apply Hq. split; [apply Hr|]. apply sib_agree. split; [apply Hr|done].
  - pose proof bd_S. destruct (under_child C d p r Hp ltac:(lia) Hr) as [Hr'|Hr'].
    + apply (IH (S d)); [lia|lia|done].
    + by destruct (Hrun d ltac:(lia) r).
Qed.
Lemma nb_lone d : nt <= d <= bd → lone C' d p q.
Proof.
  intros Hd. split.
  - apply under_remove. split; [|apply nb_ne]. split; [apply nb_in|]. apply nb_agree. lia.
  - intros r [Hr Hne]%under_remove. by destruct (nb_under d r Hd Hr).
Qed.
Lemma nb_crowded d : d < nt → crowded C' d p.
Proof.
  intros Hd. destruct Hbranch as [?|Hv]; [lia|]. pose proof bd_S.
  assert (Hs := sibling_length p (nt - 1) Hp).
  assert (∃ r, under C nt (sibling p (nt - 1)) r) as [r [Hr Ha]].
  { destruct (occupancy C nt (sibling p (nt - 1)) (rep_wf _ _ HR) Hs ltac:(lia)) as [?|[[r [? _]]|(r & _ & _ & ? & _)]];
      [done|by exists r..]. }
  replace nt with (S (nt - 1)) in Ha at 1 by lia.
  apply agree_sibling in Ha as [Ha Hn]; [|done|lia].
  assert (r ≠ p) by (intros ->; apply Hn, agree_refl).
  assert (r ≠ q) by (intros ->; apply Hn, nb_agree; lia).
  exists r, q. split; [done|]. rewrite !under_remove. split_and!; [|done| |apply nb_ne].
  - split; [done|]. eapply agree_le, Ha. lia.
  - split; [apply nb_in|]. apply nb_agree. lia.
Qed.
Lemma nb_crown : crown C' nt p.
Proof. destruct (decide (nt = 0)); [by left|right]. apply nb_crowded. lia. Qed.
Lemma nb_inner d : nt < d <= td → ¬ crown C' d p.
Proof.
  intros Hd [?|Hc]; [lia|]. pose proof bd_S. eapply lone_not_crowded, Hc. apply nb_lone. lia.
Qed.

Let old_top : digest := get_node cleared td sib.
Let new_top : digest := fold_tail old_top q td nt.
Let t0 : SparseMerkleTree :=
  foldl (fun t d => tombstone_node d p t) cleared (seq (nt + 1) (bd - nt)).
Let t' : SparseMerkleTree :=
  set_p nt q q (set_node nt q new_top
    (del_p td sib (if td <? 256 then tombstone_node td sib t0 else t0))).

Lemma nb_old_top : old_top = ref C' td q.
Proof.
  unfold old_top. rewrite (proj1 (cleared_off td sib ltac:(auto) sib_not)).
  assert (Ha : agree td sib q) by apply Hq.
  rewrite (get_node_agree t td sib q) by auto.
  destruct (rep_node _ _ HR td q Hlq Htd) as [H1 _]. rewrite H1.
  - symmetry. apply (ref_off p); [apply HR|auto|done|done|done|auto|]. intros ?%agree_sym. by apply nb_part.
  - right. apply (crown_agree _ _ sib); [done|apply sib_crown].
Qed.
Lemma nb_new_top : new_top = ref C' nt q.
Proof.
  pose proof bd_S. unfold new_top. rewrite nb_old_top. symmetry.
  apply (ref_lone no_empty); [auto|done|lia|done|].
  apply (lone_agree _ _ p); [apply nb_agree; done|]. apply nb_lone. lia.
Qed.
Lemma nb_node e x : length x = 32 → get_node t' e x =
  if decide (e = nt ∧ agree nt x q) then new_top
  else if decide (td < 256 ∧ e = td ∧ agree td x sib) then EMPTY_HASH
  else if decide (nt < e < td ∧ agree e x p) then EMPTY_HASH else get_node cleared e x.
Proof.
  intros Hx. pose proof bd_S. assert (length sib = 32) by auto. unfold t'.
  assert (E0 : get_node t0 e x = if decide (nt < e < td ∧ agree e x p) then EMPTY_HASH
                                 else get_node cleared e x).
  { unfold t0. rewrite tombstones_node by (done || lia).
    replace (nt + 1 + (bd - nt)) with td by lia.
    apply decide_ext. intuition lia. }
  destruct (Nat.ltb_spec td 256); autorewrite with smt; rewrite E0.
  - destruct (decide (e = nt ∧ _)); [done|]. apply decide_ext. tauto.
  - by rewrite (decide_False (P := td < 256 ∧ _)) by lia.
Qed.
Lemma nb_p e x : length x = 32 → get_p t' e x =
  if decide (e = nt ∧ agree nt x q) then Some q
  else if decide (e = td ∧ agree td x sib) then None else get_p cleared e x.
Proof.
  intros Hx. pose proof bd_S. assert (length sib = 32) by auto. unfold t'.
  rewrite get_p_set by (done || lia). rewrite get_p_set_node, get_p_del by done.
  assert (E0 : get_p t0 e x = get_p cleared e x) by apply tombstones_p.
  destruct (td <? 256); [rewrite get_p_tombstone|]; by rewrite E0.
Qed.

Lemma remove_lone : RepFrom nt p t' C'.
Proof.
  pose proof bd_S as HS. assert (Hls : length sib = 32) by auto.
  assert (Hon : ∀ d, td <= d → agree d p sib → False).
  { intros d Hd Ha. apply sib_not, agree_sym. by eapply agree_le, Ha. }
  apply rep_from_intro; [done|auto|apply nb_crowded| | |].
  - intros d Hd. destruct (decide (td <= d)).
    { apply (cleared_below t'); [|lia]. intros e He. rewrite nb_node by done.
      rewrite !decide_False; [done|lia| |lia]. intros (_ & _ & ?). by eapply (Hon td). }
    destruct (decide (d = nt)) as [->|].
    + apply node_ok_crown; [apply nb_crown|]. rewrite nb_node by done.
      rewrite decide_True by (split; [done|by apply nb_agree]). rewrite nb_new_top.
      apply ref_agree; [done|done|lia|]. apply agree_sym, nb_agree. lia.
    + apply node_ok_absent; [lia|apply nb_inner; lia|]. rewrite nb_node by done.
      rewrite decide_False by lia. rewrite decide_False by lia.
      by rewrite decide_True by (split; [lia|apply agree_refl]).
  - intros d Hd. destruct (decide (td <= d)).
    { apply (cleared_below_p t'); [|lia]. intros e He. rewrite nb_p by done.
      rewrite !decide_False; [done| |lia]. intros (_ & ?). by eapply (Hon td). }
    destruct (decide (d = nt)) as [->|].
    { apply (p_ok_lone _ _ _ _ q); [apply nb_lone; lia|apply nb_crown|]. rewrite nb_p by done.
      by rewrite decide_True by (split; [done|by apply nb_agree]). }
    assert (get_p t' d p = None).
    { rewrite nb_p by done. rewrite !decide_False by lia. apply cleared_above_p. lia. }
    destruct (decide (d < nt)); [apply p_ok_crowded; [by apply nb_crowded|done]|].
    apply p_ok_inner; [apply nb_inner; lia|done].
  - intros d x Hx Hd Hn. destruct (cleared_off d x Hx Hn) as [Ec Ep].
    assert (Hnq : ¬ (d = nt ∧ agree nt x q)).
    { intros [-> Ha]. apply Hn. eapply agree_trans; [done|]. by apply agree_sym, nb_agree. }
    destruct (decide (d = td ∧ agree td x sib)) as [[-> Hxs]|Hns].
    + assert (Hnc : ¬ crown C' td x).
      { intros Hc. apply (nb_inner td); [lia|]. destruct Hc as [?|Hc]; [by left|right].
        apply (crowded_agree _ _ x); [|done]. eapply agree_trans; [eapply agree_le, Hxs; lia|].
        apply agree_sym, sibling_agree; [done|]. lia. }
      split; [|apply p_ok_inner; [done|]; rewrite nb_p by done; rewrite decide_False by done; by rewrite decide_True].
      destruct (decide (td = 256)) as [E|E].
      * assert (Hk : get_node t' td x = get_node t td x).
        { rewrite nb_node by done. rewrite !decide_False; [done|lia|lia|done]. }
        pose proof (rep_node _ _ HR td x Hx Htd) as [H1 _]. rewrite E in *.
        split; [intros _|intros Hst; destruct Hst; by left].
        rewrite Hk, H1 by (by left). symmetry. by apply (ref_off p); [apply HR|auto|done|lia|done|auto|].
      * apply node_ok_absent; [lia|done|]. rewrite nb_node by done. rewrite decide_False by done.
        by rewrite decide_True by (split_and!; [lia|done|done]).
    + apply (off_ok t _ C C' p); auto.
      * rewrite nb_node by done. rewrite !decide_False; [done|by intros [_ ?]|naive_solver|done].
      * rewrite nb_p by done. by rewrite !decide_False.
      * destruct d as [|e]; [by destruct Hn; apply agree_0|].
        destruct (decide (nt <= e < bd ∧ agree e x p)) as [[He Ha]|Hne].
        { left. apply (vacant_agree _ _ (sibling p e)); [|by apply Hrun].
          apply agree_sibling; [done|lia|]. split; [by apply agree_sym|]. by intros ?%agree_sym. }
        right. apply (crown_off p); auto. intros e' [= <-] Ha.
        destruct (decide (e < nt)); [split; intros _; [apply remove_old_up; lia|by apply nb_crowded]|].
        destruct (decide (e < bd)); [destruct Hne; split; [lia|done]|].
        destruct (decide (e = bd)) as [->|].
        { destruct Hns. rewrite HS in *. split; [done|]. apply agree_sym, sib_agree.
          split; [by apply agree_sym|]. by intros ?%agree_sym. }
        split; intros Hc; exfalso.
        -- eapply crowded_not_vacant, remove_vacant; [done|lia].
        -- eapply remove_old, Hc. lia.
Qed.
End neighbour.
End pair.
End remove.
End walks.
