(* ===== verification/SmtBuf.v ===== *)
(** * Buffers, commits and reopening

    The bookkeeping side of the tree of Smt.v: the pending writes and removals of
    the three row families never meet, only the walks' rows change outside the
    value buffers, and a commit moves the buffers into the store without changing
    what any read answers. *)

From S2P Require Import Prelude SmtBits Smt SmtSpec SmtInv SmtOps.
Open Scope nat_scope.

(** ** Store keys *)

Lemma be_bytes2_inj a b : a <= 256 → b <= 256 →
  be_bytes 2 (Z.of_nat a) = be_bytes 2 (Z.of_nat b) → a = b.
Proof.
  intros Ha Hb. cbn [be_bytes app]. intros [= H1 H2].
  apply (f_equal Byte.to_N) in H1, H2. rewrite !to_N_byte_of_N in H1, H2.
  rewrite !N.mod_small in H1, H2 by (pose proof (Z.mod_pos_bound (Z.of_nat a) 256);
    pose proof (Z.mod_pos_bound (Z.of_nat b) 256);
    pose proof (Z.mod_pos_bound (Z.of_nat a / 256) 256);
    pose proof (Z.mod_pos_bound (Z.of_nat b / 256) 256); lia).
  assert (E1 : (Z.of_nat a mod 256 = Z.of_nat b mod 256)%Z).
  { pose proof (Z.mod_pos_bound (Z.of_nat a) 256). pose proof (Z.mod_pos_bound (Z.of_nat b) 256). lia. }
  assert (E2 : ((Z.of_nat a / 256) mod 256 = (Z.of_nat b / 256) mod 256)%Z).
  { pose proof (Z.mod_pos_bound (Z.of_nat a / 256) 256). pose proof (Z.mod_pos_bound (Z.of_nat b / 256) 256). lia. }
  assert (Z.of_nat a / 256 <= 1)%Z by (apply Z.div_le_upper_bound; lia).
  assert (Z.of_nat b / 256 <= 1)%Z by (apply Z.div_le_upper_bound; lia).
  pose proof (Z.div_pos (Z.of_nat a) 256). pose proof (Z.div_pos (Z.of_nat b) 256).
  rewrite !Z.mod_small in E2 by lia.
  pose proof (Z.div_mod (Z.of_nat a) 256). pose proof (Z.div_mod (Z.of_nat b) 256). lia.
Qed.

Lemma tagged_key_inj tag a b p q : a <= 256 → b <= 256 →
  tag ++ be_bytes 2 (Z.of_nat a) ++ p = tag ++ be_bytes 2 (Z.of_nat b) ++ q → (a, p) = (b, q).
Proof.
  intros Ha Hb E. apply app_inv_head in E. apply app_inj_1 in E as [E ->]; [|done].
  apply be_bytes2_inj in E; [by subst|done..].
Qed.
Lemma node_key_inj a b p q : a <= 256 → b <= 256 → node_key a p = node_key b q → (a, p) = (b, q).
Proof. apply tagged_key_inj. Qed.
Lemma p_key_inj a b p q : a <= 256 → b <= 256 → p_key a p = p_key b q → (a, p) = (b, q).
Proof. apply tagged_key_inj. Qed.
Lemma value_key_inj a b : value_key a = value_key b → a = b.
Proof. apply app_inv_head. Qed.

(** ** [write_batch] *)

Lemma foldl_insert_Some (puts : list (list byte * digest)) (m : MemorySmtStore) k v :
  (∀ v', (k, v') ∈ puts → v' = v) → (k, v) ∈ puts ∨ m !! k = Some v →
  foldl (fun m kv => <[kv.1 := kv.2]> m) m puts !! k = Some v.
Proof.
  revert m. induction puts as [|[k' v'] puts IH]; intros m Hu Hor; cbn [foldl fst snd].
  { destruct Hor as [?%not_elem_of_nil|?]; done. }
  apply IH; [set_solver|]. destruct (decide (k' = k)) as [->|Hne].
  - right. rewrite lookup_insert_eq. f_equal. apply Hu. by left.
  - rewrite lookup_insert_ne by done. destruct Hor as [[[= -> ->]|?]%elem_of_cons|?]; auto; done.
Qed.
Lemma foldl_insert_other (puts : list (list byte * digest)) (m : MemorySmtStore) k :
  (∀ v, (k, v) ∉ puts) → foldl (fun m kv => <[kv.1 := kv.2]> m) m puts !! k = m !! k.
Proof.
  revert m. induction puts as [|[k' v'] puts IH]; intros m Hn; cbn [foldl fst snd]; [done|].
  rewrite IH by set_solver. rewrite lookup_insert_ne; [done|]. intros ->. apply (Hn v'). by left.
Qed.
Lemma foldl_delete_in (dels : list (list byte)) (m : MemorySmtStore) k :
  foldl (fun m k => delete k m) m dels !! k = if decide (k ∈ dels) then None else m !! k.
Proof.
  revert m. induction dels as [|k' dels IH]; intros m; cbn [foldl].
  { by rewrite decide_False by apply not_elem_of_nil. }
  rewrite IH. destruct (decide (k ∈ dels)) as [Hi|Hi].
  - by rewrite decide_True by (by right).
  - destruct (decide (k' = k)) as [->|Hne].
    + rewrite decide_True by (by left). apply lookup_delete_eq.
    + rewrite lookup_delete_ne by done. rewrite decide_False; [done|]. set_solver.
Qed.

Lemma write_batch_row (puts : list (list byte * digest)) (dels : list (list byte)) (m : MemorySmtStore) k
    (o : option digest) (gone : Prop) `{Decision gone} :
  (∀ v, (k, v) ∈ puts ↔ o = Some v) → (k ∈ dels ↔ gone) →
  write_batch puts dels m !! k = if decide gone then None else match o with Some v => Some v | None => m !! k end.
Proof.
  intros Hp Hd. unfold write_batch. rewrite foldl_delete_in. rewrite (decide_ext _ gone) by done.
  destruct (decide gone); [done|]. destruct o as [v|].
  - apply foldl_insert_Some; [intros v' Hv; by apply Hp in Hv as [= ->]|left; by apply Hp].
  - apply foldl_insert_other. intros v Hv. by apply Hp in Hv.
Qed.

(** ** Well-formed buffers *)

Record BufOk (t : SparseMerkleTree) : Prop := mkBufOk {
  buf_cache k : is_Some (cache t !! k) → k.1 <= 256 ∧ k ∉ deletes t;
  buf_deletes k : k ∈ deletes t → k.1 <= 256;
  buf_p_cache k : is_Some (p_cache t !! k) → k.1 <= 256 ∧ k ∉ p_deletes t;
  buf_p_deletes k : k ∈ p_deletes t → k.1 <= 256;
  buf_values id : is_Some (pending_values t !! id) → id ∉ pending_value_deletes t;
}.

Lemma buf_new s : BufOk (tree_new s).
Proof. split; simpl; intros k Hk;
  (by apply not_elem_of_empty in Hk) || (destruct Hk as [x Hx]; by rewrite lookup_empty in Hx). Qed.

Ltac buf_solve :=
  intros []; split; intros ?; cbn -[path_mask];
  rewrite ?lookup_insert_is_Some, ?lookup_delete_is_Some; set_solver.

Lemma buf_set_node d p h t : d <= 256 → BufOk t → BufOk (set_node d p h t).
Proof. intros ?. buf_solve. Qed.
Lemma buf_tombstone d p t : d <= 256 → BufOk t → BufOk (tombstone_node d p t).
Proof. intros ?. buf_solve. Qed.
Lemma buf_set_p d p r t : d <= 256 → BufOk t → BufOk (set_p d p r t).
Proof. intros ?. buf_solve. Qed.
Lemma buf_del_p d p t : d <= 256 → BufOk t → BufOk (del_p d p t).
Proof. intros ?. buf_solve. Qed.
Lemma buf_put_value id v t : BufOk t →
  BufOk (t <| pending_value_deletes ::= fun s => s ∖ {[ id ]} |> <| pending_values ::= insert id v |>).
Proof. buf_solve. Qed.
Lemma buf_drop_value id t : BufOk t → BufOk (drop_value id t).
Proof. buf_solve. Qed.
Lemma buf_memo t : BufOk t → BufOk (memo_format t).
Proof. by intros []. Qed.

Create HintDb smt_buf.
#[export] Hint Resolve buf_set_node buf_tombstone buf_set_p buf_del_p buf_put_value buf_drop_value
  buf_memo : smt_buf.
#[export] Hint Extern 1 (_ <= _) => lia : smt_buf.

Section walks.
Context `{Externals}.

Lemma buf_recompute p k : ∀ t, k <= 256 → BufOk t → BufOk (recompute_path_from p k t).
Proof.
  induction k as [|k IH]; intros t Hk Hb; cbn [recompute_path_from]; [done|].
  apply IH; [lia|]. destruct (bool_decide _); auto with smt_buf.
Qed.
Lemma buf_chain n : ∀ h p top t, top + n <= 256 → BufOk t → BufOk (chain_rows n h p top t).
Proof. induction n as [|n IH]; intros; cbn [chain_rows]; [done|]. apply IH; auto with smt_buf. Qed.
Lemma buf_tombstones p l : ∀ t, Forall (fun d => d <= 256) l → BufOk t →
  BufOk (foldl (fun t d => tombstone_node d p t) t l).
Proof.
  induction l as [|d l IH]; intros t Hl Hb; cbn [foldl]; [done|].
  inversion_clear Hl. apply IH; auto with smt_buf.
Qed.

(** ** What the walks leave alone *)

Definition rest (t : SparseMerkleTree) :=
  (store t, pending_values t, pending_value_deletes t, format_state t).

Lemma rest_recompute p k : ∀ t, rest (recompute_path_from p k t) = rest t.
Proof.
  induction k as [|k IH]; intros t; cbn [recompute_path_from]; [done|].
  rewrite IH. by destruct (bool_decide _).
Qed.
Lemma rest_chain n : ∀ h p top t, rest (chain_rows n h p top t) = rest t.
Proof. induction n as [|n IH]; intros; cbn [chain_rows]; [done|]. by rewrite IH. Qed.
Lemma rest_tombstones p l : ∀ t, rest (foldl (fun t d => tombstone_node d p t) t l) = rest t.
Proof. induction l as [|d l IH]; intros t; cbn [foldl]; [done|]. by rewrite IH. Qed.

Lemma rest_del_p d p t : rest (del_p d p t) = rest t.
Proof. done. Qed.
Lemma rest_set_p d p r t : rest (set_p d p r t) = rest t.
Proof. done. Qed.
Lemma rest_set_node d p h t : rest (set_node d p h t) = rest t.
Proof. done. Qed.
Lemma rest_tombstone d p t : rest (tombstone_node d p t) = rest t.
Proof. done. Qed.
Hint Rewrite rest_del_p rest_set_p rest_set_node rest_tombstone rest_chain rest_tombstones
  rest_recompute : smt_rest.

Lemma rest_place p leaf t : rest (v2_place_leaf p leaf t).1 = rest t.
Proof.
  unfold v2_place_leaf. destruct (v2_resolve t p) as [|td|td q|b]; cbv zeta; cbn [fst];
    [| destruct (td <? MAX_DEPTH) | |]; by autorewrite with smt_rest.
Qed.
Lemma rest_remove p t : rest (v2_remove_leaf p t).1 = rest t.
Proof.
  unfold v2_remove_leaf. destruct (v2_resolve t p) as [|td|td q|b]; try done. cbv zeta.
  set (t1 := if td <? MAX_DEPTH then _ else _).
  assert (E1 : rest t1 = rest t) by (unfold t1; by destruct (td <? MAX_DEPTH)).
  case_bool_decide; [by autorewrite with smt_rest|].
  destruct (get_p _ td _) as [q|]; [|by autorewrite with smt_rest].
  destruct (td <? MAX_DEPTH); case_bool_decide; cbn [fst]; by autorewrite with smt_rest.
Qed.

(** ** Buffers through the operations *)

Lemma buf_place p leaf t C : Rep t C → length p = 32 → length leaf = 32 ∧ leaf ≠ EMPTY_HASH →
  site_ok C p (v2_resolve t p) → BufOk t →
  BufOk (v2_place_leaf p leaf t).1 ∧ (v2_place_leaf p leaf t).2 <= 256.
Proof.
  intros HR Hp Hleaf Hs Hb. unfold v2_place_leaf. cbv zeta.
  assert (Hb1 : BufOk (set_node MAX_DEPTH p leaf t)) by (apply buf_set_node; [unfold MAX_DEPTH; lia|done]).
  destruct (v2_resolve t p) as [|td|td q|b]; cbn [fst snd site_ok] in *.
  - split; auto with smt_buf.
  - destruct Hs as (_ & Htd & _). split; [|done]. destruct (td <? MAX_DEPTH); auto with smt_buf.
  - destruct Hs as (Hnone & Htd & Htop & Hq & Hne).
    destruct (dive_diff p Hp q Hq Hne) as (Hlt & _ & _). assert (td <= first_diff_bit p q) by (by eapply (dive_td C p leaf)).
    split; [|lia]. apply buf_del_p; [lia|]. apply buf_chain; [lia|]. auto 10 with smt_buf.
  - destruct Hs as (_ & Hlt & _). split; auto with smt_buf.
Qed.
Lemma buf_remove p t C : site_ok C p (v2_resolve t p) → BufOk t → BufOk (v2_remove_leaf p t).1.
Proof.
  intros Hs Hb. unfold v2_remove_leaf. destruct (v2_resolve t p) as [|td|td q|b]; try done.
  destruct Hs as (_ & Htd & _). cbv zeta.
  set (t1 := if td <? MAX_DEPTH then _ else _).
  assert (Hb1 : BufOk t1).
  { assert (BufOk (tombstone_node MAX_DEPTH p t)) by (apply buf_tombstone; [unfold MAX_DEPTH; lia|done]).
    unfold t1. destruct (td <? MAX_DEPTH); auto with smt_buf. }
  case_bool_decide; [cbn [fst]; auto with smt_buf|].
  destruct (get_p _ td _) as [q|]; [|cbn [fst]; auto with smt_buf].
  set (nt := match next_branch _ _ _ with Some d => _ | None => _ end).
  assert (Hnt : nt <= td - 1).
  { unfold nt. assert (G : ∀ t0 n, match next_branch n t0 p with Some d => d + 1 | None => 0 end <= n).
    { intros t0. induction n as [|n IH]; cbn [next_branch]; [done|]. case_bool_decide; lia. }
    apply G. }
  assert (Hb2 : BufOk (foldl (fun t d => tombstone_node d p t) (del_p td p t1)
                         (seq (nt + 1) (td - 1 - nt)))).
  { apply buf_tombstones; [|auto with smt_buf]. apply Forall_forall. intros d Hd%elem_of_seq. lia. }
  destruct (td <? MAX_DEPTH); case_bool_decide; cbn [fst]; auto 6 with smt_buf.
Qed.
End walks.

(** ** Commit *)

Section commit.
Context (t : SparseMerkleTree) (Hb : BufOk t).

Lemma puts_node e m v : e <= 256 → (node_key e m, v) ∈ commit_puts t ↔ cache t !! (e, m) = Some v.
Proof.
  intros He. unfold commit_puts. rewrite !elem_of_app, !list_elem_of_fmap. split.
  - intros [([[d p] h] & [E ->]%pair_equal_spec & Hk)|[([[d p] h] & [=] & _)|[([acc h] & [=] & _)|Hf]]].
    + apply elem_of_map_to_list in Hk.
      destruct (buf_cache t Hb (d, p)) as [Hd _]; [eauto|]. apply node_key_inj in E; [|done..]. by rewrite E.
    + case_bool_decide; [|by apply not_elem_of_nil in Hf].
      apply list_elem_of_singleton in Hf. discriminate.
  - intros Hc. left. exists (e, m, v). split; [done|]. by apply elem_of_map_to_list.
Qed.
Lemma puts_p e m v : e <= 256 → (p_key e m, v) ∈ commit_puts t ↔ p_cache t !! (e, m) = Some v.
Proof.
  intros He. unfold commit_puts. rewrite !elem_of_app, !list_elem_of_fmap. split.
  - intros [([[d p] h] & [=] & _)|[([[d p] h] & [E ->]%pair_equal_spec & Hk)|[([acc h] & [=] & _)|Hf]]].
    + apply elem_of_map_to_list in Hk.
      destruct (buf_p_cache t Hb (d, p)) as [Hd _]; [eauto|]. apply p_key_inj in E; [|done..]. by rewrite E.
    + case_bool_decide; [|by apply not_elem_of_nil in Hf].
      apply list_elem_of_singleton in Hf. discriminate.
  - intros Hc. right; left. exists (e, m, v). split; [done|]. by apply elem_of_map_to_list.
Qed.
Lemma puts_value id v : (value_key id, v) ∈ commit_puts t ↔ pending_values t !! id = Some v.
Proof.
  unfold commit_puts. rewrite !elem_of_app, !list_elem_of_fmap. split.
  - intros [([[d p] h] & [=] & _)|[([[d p] h] & [=] & _)|[([acc h] & [= -> ->] & Hk)|Hf]]].
    + by apply elem_of_map_to_list in Hk.
    + case_bool_decide; [|by apply not_elem_of_nil in Hf].
      apply list_elem_of_singleton in Hf. discriminate.
  - intros Hc. right; right; left. exists (id, v). split; [done|]. by apply elem_of_map_to_list.
Qed.
Lemma puts_format v : (FORMAT_KEY, v) ∈ commit_puts t ↔
  (if bool_decide (resolve_format t = FMT_V2_FLAG_PENDING) then Some FORMAT_V2_TAG else None) = Some v.
Proof.
  unfold commit_puts. rewrite !elem_of_app, !list_elem_of_fmap. split.
  - intros [([[d p] h] & [=] & _)|[([[d p] h] & [=] & _)|[([acc h] & [=] & _)|Hf]]].
    case_bool_decide; [|by apply not_elem_of_nil in Hf]. by apply list_elem_of_singleton in Hf as [= ->].
  - intros E. right; right; right. case_bool_decide; [|done]. injection E as <-. by apply list_elem_of_singleton.
Qed.

Lemma dels_node e m : e <= 256 → node_key e m ∈ commit_deletes t ↔ (e, m) ∈ deletes t.
Proof.
  intros He. unfold commit_deletes. rewrite !elem_of_app, !list_elem_of_fmap. split.
  - intros [([d p] & E & Hk)|[([d p] & [=] & _)|(acc & [=] & _)]].
    apply elem_of_elements in Hk. pose proof (buf_deletes t Hb _ Hk).
    apply node_key_inj in E; [|done..]. by rewrite E.
  - intros Hk. left. exists (e, m). split; [done|]. by apply elem_of_elements.
Qed.
Lemma dels_p e m : e <= 256 → p_key e m ∈ commit_deletes t ↔ (e, m) ∈ p_deletes t.
Proof.
  intros He. unfold commit_deletes. rewrite !elem_of_app, !list_elem_of_fmap. split.
  - intros [([d p] & [=] & _)|[([d p] & E & Hk)|(acc & [=] & _)]].
    apply elem_of_elements in Hk. pose proof (buf_p_deletes t Hb _ Hk).
    apply p_key_inj in E; [|done..]. by rewrite E.
  - intros Hk. right; left. exists (e, m). split; [done|]. by apply elem_of_elements.
Qed.
Lemma dels_value id : value_key id ∈ commit_deletes t ↔ id ∈ pending_value_deletes t.
Proof.
  unfold commit_deletes. rewrite !elem_of_app, !list_elem_of_fmap. split.
  - intros [([d p] & [=] & _)|[([d p] & [=] & _)|(acc & [= ->] & Hk)]]. by apply elem_of_elements in Hk.
  - intros Hk. right; right. exists id. split; [done|]. by apply elem_of_elements.
Qed.
Lemma dels_format : FORMAT_KEY ∈ commit_deletes t ↔ False.
Proof.
  unfold commit_deletes. rewrite !elem_of_app, !list_elem_of_fmap. split; [|done].
  intros [([d p] & [=] & _)|[([d p] & [=] & _)|(acc & [=] & _)]].
Qed.

(** A commit changes no answer. *)
Lemma get_node_commit e q : e <= 256 → get_node (commit t) e q = get_node t e q.
Proof.
  intros He. unfold get_node, commit. cbn -[path_mask node_key write_batch].
  set (m := path_mask q e). rewrite lookup_empty, bool_decide_eq_false_2 by set_solver.
  rewrite (write_batch_row _ _ _ _ (cache t !! (e, m)) ((e, m) ∈ deletes t));
    [|intros v; by apply puts_node|by apply dels_node].
  destruct (cache t !! (e, m)) as [h|] eqn:E.
  - rewrite decide_False; [done|]. apply (buf_cache t Hb (e, m)). eauto.
  - rewrite <- decide_bool_decide. by destruct (decide ((e, m) ∈ deletes t)).
Qed.
Lemma get_p_commit e q : e <= 256 → get_p (commit t) e q = get_p t e q.
Proof.
  intros He. unfold get_p, commit. cbn -[path_mask p_key write_batch].
  set (m := path_mask q e). rewrite lookup_empty, bool_decide_eq_false_2 by set_solver.
  rewrite (write_batch_row _ _ _ _ (p_cache t !! (e, m)) ((e, m) ∈ p_deletes t));
    [|intros v; by apply puts_p|by apply dels_p].
  destruct (p_cache t !! (e, m)) as [h|] eqn:E.
  - rewrite decide_False; [done|]. apply (buf_p_cache t Hb (e, m)). eauto.
  - rewrite <- decide_bool_decide. by destruct (decide ((e, m) ∈ p_deletes t)).
Qed.
Lemma tree_get_commit id : tree_get (commit t) id = tree_get t id.
Proof.
  unfold tree_get, commit. cbn -[value_key write_batch].
  rewrite bool_decide_eq_false_2 by set_solver. rewrite lookup_empty.
  rewrite (write_batch_row _ _ _ _ (pending_values t !! id) (id ∈ pending_value_deletes t));
    [|intros v; by apply puts_value|by apply dels_value].
  rewrite <- decide_bool_decide. destruct (decide (id ∈ pending_value_deletes t)); [done|].
  by destruct (pending_values t !! id).
Qed.
Lemma commit_format_row : store (commit t) !! FORMAT_KEY =
  if bool_decide (resolve_format t = FMT_V2_FLAG_PENDING) then Some FORMAT_V2_TAG else store t !! FORMAT_KEY.
Proof.
  unfold commit. cbn -[FORMAT_KEY write_batch].
  rewrite (write_batch_row _ _ _ _ _ False puts_format dels_format).
  rewrite decide_False by (by intros []). by destruct (bool_decide _).
Qed.
End commit.
