(* ===== verification/SmtProofs.v ===== *)
(** * Inclusion and exclusion proofs

    Theorems about the proofs of src/crates/elara-smt/src/lib.rs: those a tree
    produces verify, and two that verify against one root and contradict each
    other contain a collision of the hash, which [find_collision] returns. *)

From S2P Require Import Prelude SmtBits Smt SmtSpec SmtInv SmtOps SmtBuf SmtProps.
Open Scope nat_scope.

Section completeness.
Context `{Externals}.
Hypothesis no_empty : ∀ m, length m = 65 → sha3_256 m ≠ EMPTY_HASH.
Hypothesis path_inj : ∀ a b, length a = 32 → length b = 32 → sha3_256 a = sha3_256 b → a = b.
Implicit Types (t : SparseMerkleTree) (C : content) (p present : path) (L : list digest).

Lemma zero_path_get i : bit_get zero_path i = false.
Proof.
  rewrite bit_get_testbit. unfold zero_path. rewrite nth_lookup.
  destruct (replicate 32 x00 !! (i / 8)) as [b|] eqn:E; [apply lookup_replicate in E as [-> _]|]; apply N.bits_0.
Qed.

(** One level of the fold, when the proof carries the sibling's hash. *)
Lemma fold_step C n p present L L' : wf_content C → length p = 32 → n < 256 →
  take_sibling present n L = Some (ref C (S n) (sibling p n), L') →
  fold_loop (S n) p (ref C (S n) p) present L = fold_loop n p (ref C n p) present L'.
Proof.
  intros HC Hp Hn E. cbn [fold_loop]. rewrite E. cbn [mbind option_bind].
  rewrite (ref_step C n p) by done. by destruct (bit_get p n).
Qed.
Lemma fold_skip C p present L : wf_content C → length p = 32 → ∀ n m, n <= m → m <= 256 →
  (∀ d, n <= d < m → bit_get present d = false ∧ vacant C (S d) (sibling p d)) →
  fold_loop m p (ref C m p) present L = fold_loop n p (ref C n p) present L.
Proof.
  intros HC Hp n m Hnm. induction Hnm as [|m Hnm IH]; intros Hm Hsk; [done|].
  destruct (Hsk m ltac:(lia)) as [Hb Hv]. rewrite <- IH; [|lia|intros d Hd; apply Hsk; lia].
  apply fold_step; [done|done|lia|]. unfold take_sibling. rewrite Hb.
  by rewrite ref_vacant by (done || lia || by apply sibling_length).
Qed.

Lemma probe_node t C p d : Rep t C → length p = 32 → d < 256 → crowded C d p →
  get_node t (d + 1) (if bit_get p d then path_mask p d else bit_set (path_mask p d) d)
  = ref C (S d) (sibling p d).
Proof.
  intros HR Hp Hd Hc. rewrite Nat.add_1_r. assert (Hs := sibling_length p d Hp).
  assert (Hm := path_mask_length p d Hp).
  set (x := if bit_get p d then _ else _).
  assert (Hx : length x = 32) by (unfold x; destruct (bit_get p d); [done|by rewrite bit_set_length]).
  assert (Ha : agree (S d) x (sibling p d)).
  { unfold x. pose proof (left_child p d Hp Hd). pose proof (right_child p d Hp Hd). by destruct (bit_get p d). }
  rewrite (get_node_agree t (S d) x (sibling p d)) by (done || lia).
  apply (rep_node _ _ HR); [done|lia|]. right. apply crown_S.
  apply (crowded_agree _ _ p); [by apply sibling_agree|done].
Qed.

(** What probing adds to a bitmap and a list whose low part is still clear. *)
Lemma probe_spec t C p : Rep t C → length p = 32 → ∀ n present L, n <= 256 → length present = 32 →
  (∀ d, d < n → crowded C d p) → (∀ d, d < n → bit_get present d = false) →
  ∃ present' L', probe_siblings_below t p n present L = (present', L ++ L') ∧
    (∀ d, n <= d < 256 → bit_get present' d = bit_get present d) ∧
    fold_loop n p (ref C n p) present' L' = Some (ref C 0 p).
Proof.
  intros HR Hp. assert (HC := rep_wf _ _ HR).
  induction n as [|n IH]; intros present L Hn Hl Hc Hb; cbn [probe_siblings_below].
  { exists present, []. by rewrite app_nil_r. }
  rewrite (probe_node t C p n HR Hp ltac:(lia) (Hc n ltac:(lia))).
  set (h := ref C (S n) (sibling p n)). case_bool_decide as E.
  - destruct (IH (bit_set present n) (L ++ [h])) as (pr & L' & -> & Hpr & Hf).
    { lia. } { by rewrite bit_set_length. } { intros; apply Hc; lia. }
    { intros d Hd. rewrite bit_set_get by lia. rewrite bool_decide_eq_false_2 by lia. apply Hb. lia. }
    exists pr, (h :: L'). rewrite <- app_assoc. split_and!; [done| |].
    + intros d Hd. rewrite Hpr by lia. rewrite bit_set_get by lia. by rewrite bool_decide_eq_false_2 by lia.
    + rewrite (fold_step C n p pr (h :: L') L') by (done || lia || (unfold take_sibling;
        rewrite Hpr, bit_set_get, bool_decide_eq_true_2 by (done || lia); done)). done.
  - destruct (IH present L) as (pr & L' & -> & Hpr & Hf).
    { lia. } { done. } { intros; apply Hc; lia. } { intros; apply Hb; lia. }
    exists pr, L'. split_and!; [done|intros d Hd; apply Hpr; lia|].
    rewrite (fold_step C n p pr L' L'); [done|done|done|lia|]. unfold take_sibling.
    rewrite Hpr by lia. rewrite Hb by lia. fold h.
    destruct (decide (h = EMPTY_HASH)) as [->|]; [done|by destruct E].
Qed.

Lemma collect_siblings_fold t C p : Rep t C → length p = 32 → is_v2 t = true →
  let '(present, L) := collect_siblings t p in
  fold p (ref C 256 p) present L = Some (ref C 0 p).
Proof.
  intros HR Hp Hv2. assert (HC := rep_wf _ _ HR). unfold collect_siblings. rewrite Hv2. cbn [negb].
  assert (Hz : length zero_path = 32) by done. unfold fold. change MAX_DEPTH with 256.
  pose proof (v2_resolve_ok no_empty t C p HR Hp) as Hs.
  destruct (v2_resolve t p) as [|td|td q|b]; cbn [site_ok] in Hs.
  - rewrite (fold_skip C p zero_path [] HC Hp 0) by (lia || (intros d _; split; [apply zero_path_get|];
      intros r [[h Hr] _]; by rewrite Hs in Hr)). done.
  - destruct Hs as (Hin & Htd & Htop).
    destruct (probe_spec t C p HR Hp td zero_path []) as (pr & L' & -> & Hpr & Hf); [done|done| | |].
    { intros d Hd. by eapply remove_old_up. } { intros; apply zero_path_get. }
    cbn [app]. rewrite (fold_skip C p pr L' HC Hp td) by (lia || (intros d Hd; split;
      [rewrite Hpr by lia; apply zero_path_get|];
      by eapply lone_sibling; [done|lia| |apply agree_refl];
         eapply lone_le, Htop; [lia|split; [done|apply agree_refl]])). done.
  - destruct Hs as (Hnone & Htd & Htop & Hq & Hne).
    destruct (first_diff_bit_spec p q Hp Hq ltac:(done)) as (Hlt & Hdiff & Hag).
    set (s := first_diff_bit p q) in *.
    assert (Htds : td <= s).
    { destruct (decide (td <= s)) as [|Hn]; [done|]. destruct Htop as [_ [[_ Ha] _]].
      exfalso. apply Hdiff, Ha. lia. }
    assert (Hund : ∀ e r, td <= e → under C e p r → r = q).
    { intros e r He Hr. destruct Htop as [_ [_ Hl]]. eapply Hl, under_le, Hr. done. }
    assert (Hsib : agree (S s) (sibling p s) q).
    { apply agree_sibling; [done..|]. split; [done|]. by intros [_ ?]%agree_S. }
    assert (Hqt : fold_tail (get_node t 256 q) q 256 (s + 1) = ref C (S s) (sibling p s)).
    { rewrite Nat.add_1_r. rewrite (ref_agree C (S s) (sibling p s) q) by (done || lia || by apply sibling_length).
      assert (is_Some (C !! q)) as [h Hh] by apply Htop. rewrite (rep_leaf t C q HR Hq), Hh. change (default EMPTY_HASH (Some h)) with h.
      symmetry. apply (ref_lone_leaf no_empty); [done|done|lia|done|].
      split; [split; [eauto|apply agree_refl]|]. intros r [Hr Ha]. apply (Hund s); [done|].
      split; [done|]. eapply agree_trans, agree_le, Ha; [done|lia]. }
    destruct (probe_spec t C p HR Hp td (bit_set zero_path s) [fold_tail (get_node t 256 q) q 256 (s + 1)])
      as (pr & L' & -> & Hpr & Hf); [lia|by rewrite bit_set_length| | |].
    { intros d Hd. destruct Htop as [[?|Hc] _]; [lia|]. eapply crowded_le, Hc. lia. }
    { intros d Hd. rewrite bit_set_get by (rewrite ?Hz; lia). rewrite bool_decide_eq_false_2 by lia. apply zero_path_get. }
    assert (Hbit : ∀ d, td <= d < 256 → bit_get pr d = bool_decide (d = s)).
    { intros d Hd. rewrite Hpr by lia. rewrite bit_set_get by (rewrite ?Hz; lia).
      by rewrite zero_path_get, orb_false_r. }
    rewrite (fold_skip C p pr _ HC Hp (S s)); [|lia|lia|].
    + rewrite (fold_step C s p pr _ L') by (done || lia || (unfold take_sibling;
        rewrite Hbit, bool_decide_eq_true_2, <- Hqt by (done || lia); done)).
      rewrite (fold_skip C p pr L' HC Hp td); [done|lia|lia|].
      intros d Hd. rewrite Hbit by lia. rewrite bool_decide_eq_false_2 by lia. split; [done|].
      intros r Hr. assert (r = q) as ->.
      { apply (Hund d); [lia|]. eapply under_sibling, Hr; [done|lia]. }
      eapply under_not_both; [exact Hp| |exact Hr|]; [lia|]. split; [apply Hr|].
      eapply agree_le, Hag. lia.
    + intros d Hd. rewrite Hbit by lia. rewrite bool_decide_eq_false_2 by lia. split; [done|].
      intros r Hr. assert (Hu : under C d p r) by (eapply under_sibling, Hr; [done|lia]).
      assert (r = q) as -> by (apply (Hund d); [lia|done]).
      apply Hdiff. destruct Hu as [_ Hu]. apply Hu. lia.
  - destruct Hs as (Hnone & Hb & Hcr & Hv). rewrite Nat.add_1_r.
    destruct (probe_spec t C p HR Hp (S b) zero_path []) as (pr & L' & -> & Hpr & Hf); [lia|done| | |].
    { intros d Hd. eapply crowded_le, Hcr. lia. } { intros; apply zero_path_get. }
    cbn [app]. rewrite (fold_skip C p pr L' HC Hp (S b)); [done|lia|lia|].
    intros d Hd. split; [rewrite Hpr by lia; apply zero_path_get|].
    intros r Hr. eapply Hv, under_le, under_sibling, Hr; [|done|lia]. lia.
Qed.
End completeness.

(** ** Contradicting proofs contain a collision *)

Section binding.
Context `{Externals}.
(** The sentinel is the hash of the empty string. *)
Hypothesis empty_preimage : sha3_256 [] = EMPTY_HASH.
Implicit Types (p present : path) (L : list digest).

(** The message a node hash is the digest of. *)
Definition preimage (l r : digest) : list byte :=
  if bool_decide (l = EMPTY_HASH) && bool_decide (r = EMPTY_HASH) then [] else [x01] ++ l ++ r.
Definition oriented (p : path) (n : nat) (current sibling : digest) : list byte :=
  if bit_get p n then preimage sibling current else preimage current sibling.

(** Walks two folds of one path side by side up to the level where different
    messages hash alike. *)
Fixpoint find_collision (n : nat) (p : path) (c1 : digest) (present1 : path) (L1 : list digest)
    (c2 : digest) (present2 : path) (L2 : list digest) : option (list byte * list byte) :=
  match n with
  | O => None
  | S n =>
      '(s1, L1) ← take_sibling present1 n L1;
      '(s2, L2) ← take_sibling present2 n L2;
      let m1 := oriented p n c1 s1 in
      let m2 := oriented p n c2 s2 in
      if bool_decide (sha3_256 m1 = sha3_256 m2) then Some (m1, m2)
      else find_collision n p (sha3_256 m1) present1 L1 (sha3_256 m2) present2 L2
  end.
(** From the messages of the two leaves; the message of an absent leaf is empty. *)
Definition collision (p : path) (m1 : list byte) (present1 : path) (L1 : list digest)
    (m2 : list byte) (present2 : path) (L2 : list digest) : option (list byte * list byte) :=
  if bool_decide (sha3_256 m1 = sha3_256 m2) then Some (m1, m2)
  else find_collision MAX_DEPTH p (sha3_256 m1) present1 L1 (sha3_256 m2) present2 L2.

Definition collides (o : option (list byte * list byte)) : Prop :=
  ∃ m1 m2, o = Some (m1, m2) ∧ m1 ≠ m2 ∧ sha3_256 m1 = sha3_256 m2.

Lemma preimage_hash l r : node_hash l r = sha3_256 (preimage l r).
Proof. unfold node_hash, preimage. by destruct (_ && _). Qed.
Lemma preimage_cases l r :
  (l = EMPTY_HASH ∧ r = EMPTY_HASH ∧ preimage l r = []) ∨ preimage l r = x01 :: l ++ r.
Proof.
  unfold preimage. destruct (_ && _) eqn:E; [left|by right].
  by apply andb_true_iff in E as [->%bool_decide_eq_true ->%bool_decide_eq_true].
Qed.
Lemma preimage_inj l r l' r' : length l = 32 → length l' = 32 →
  preimage l r = preimage l' r' → l = l' ∧ r = r'.
Proof.
  intros Hl Hl'. destruct (preimage_cases l r) as [(-> & -> & ->) | ->],
    (preimage_cases l' r') as [(-> & -> & ->) | ->]; [done|done|done|].
  intros [= E]. apply app_inj_1 in E; [done|congruence].
Qed.
Lemma oriented_inj p n c1 s1 c2 s2 : length c1 = 32 → length c2 = 32 → length s1 = 32 → length s2 = 32 →
  oriented p n c1 s1 = oriented p n c2 s2 → c1 = c2.
Proof. intros ????. unfold oriented. by destruct (bit_get p n); intros [? ?]%preimage_inj. Qed.

Definition digests (L : list digest) : Prop := Forall (fun s => length s = 32) L.
Lemma take_sibling_length present n L s L' : digests L → take_sibling present n L = Some (s, L') →
  length s = 32 ∧ digests L'.
Proof.
  intros HL. unfold take_sibling. destruct (bit_get present n).
  - destruct HL as [|s0 L0 Hs HL]; [done|]. by intros [= <- <-].
  - by intros [= <- <-].
Qed.

Lemma find_collision_ok p present1 present2 root : ∀ n c1 L1 c2 L2,
  length c1 = 32 → length c2 = 32 → digests L1 → digests L2 → c1 ≠ c2 →
  fold_loop n p c1 present1 L1 = Some root → fold_loop n p c2 present2 L2 = Some root →
  collides (find_collision n p c1 present1 L1 c2 present2 L2).
Proof.
  induction n as [|n IH]; intros c1 L1 c2 L2 Hc1 Hc2 HL1 HL2 Hne; cbn [fold_loop find_collision].
  { destruct L1, L2; intros ??; congruence. }
  destruct (take_sibling present1 n L1) as [[s1 L1']|] eqn:E1; [|done].
  destruct (take_sibling present2 n L2) as [[s2 L2']|] eqn:E2; [|done].
  apply take_sibling_length in E1 as [Hs1 HL1']; [|done]. apply take_sibling_length in E2 as [Hs2 HL2']; [|done].
  cbn [mbind option_bind].
  assert (Hor : ∀ c s, (let '(l, r) := if bit_get p n then (s, c) else (c, s) in node_hash l r)
    = sha3_256 (oriented p n c s)).
  { intros c s. unfold oriented. destruct (bit_get p n); apply preimage_hash. }
  assert (Hf : ∀ c s present L, (let '(l, r) := if bit_get p n then (s, c) else (c, s) in
    fold_loop n p (node_hash l r) present L) = fold_loop n p (sha3_256 (oriented p n c s)) present L).
  { intros c s present L. rewrite <- Hor. by destruct (bit_get p n). }
  rewrite !Hf. intros F1 F2. case_bool_decide as Eh.
  - eexists _, _. split_and!; [done| |done]. intros E. apply Hne. by apply (oriented_inj p n c1 s1 c2 s2).
  - by apply IH; [apply sha3_256_length..|done|done|done|done|done].
Qed.

Lemma collision_ok p present1 present2 L1 L2 m1 m2 root :
  digests L1 → digests L2 → m1 ≠ m2 →
  fold p (sha3_256 m1) present1 L1 = Some root → fold p (sha3_256 m2) present2 L2 = Some root →
  collides (collision p m1 present1 L1 m2 present2 L2).
Proof.
  intros HL1 HL2 Hm F1 F2. unfold collision. case_bool_decide as E; [by exists m1, m2|].
  by apply (find_collision_ok p present1 present2 root); [apply sha3_256_length..|done|done|done|done|done].
Qed.

Lemma verify_fold (pr : SmtProof) : verify_proof pr = true →
  fold (account_path (pr_account_id pr)) (leaf_hash (pr_account_id pr) (pr_state_hash pr))
    (pr_present pr) (pr_siblings pr) = Some (pr_root pr).
Proof. unfold verify_proof. destruct (fold _ _ _ _); [|done]. by intros ->%bool_decide_eq_true. Qed.
Lemma verify_exclusion_fold (pr : SmtExclusionProof) : verify_exclusion_proof pr = true →
  fold (account_path (ex_account_id pr)) EMPTY_HASH (ex_present pr) (ex_siblings pr) = Some (ex_root pr).
Proof. unfold verify_exclusion_proof. destruct (fold _ _ _ _); [|done]. by intros ->%bool_decide_eq_true. Qed.
End binding.

Definition leaf_message (id value : list byte) : list byte := [x00] ++ id ++ value.

(** C30: a tree proves what it holds. After any history of updates, deletions,
    commits and restarts, for every account the tree produces exactly one of the two
    proofs, an inclusion proof of its current value or an exclusion proof when it
    has none, against its current root, and the stateless verifier accepts it. *)
Theorem smt_proofs_verify `{Externals} l id :
  (∀ m, length m = 65 → sha3_256 m ≠ EMPTY_HASH) →
  (∀ a b, length a = 32 → length b = 32 → sha3_256 a = sha3_256 b → a = b) →
  Forall typed_command l → length id = 32 →
  let t := foldl exec (tree_new ∅) l in
  let D := (foldl exec_spec (∅, ∅) l).1 in
  match D !! id with
  | Some v => ∃ pr, (tree_proof id t).2 = Some pr ∧ pr_account_id pr = id ∧ pr_state_hash pr = v ∧
      pr_root pr = root t ∧ verify_proof pr = true ∧ (tree_exclusion_proof id t).2 = None
  | None => ∃ pr, (tree_exclusion_proof id t).2 = Some pr ∧ ex_account_id pr = id ∧
      ex_root pr = root t ∧ verify_exclusion_proof pr = true ∧ (tree_proof id t).2 = None
  end.
Proof.
  intros Hne Hinj Hl Hid t D. assert (HH : Holds t D) by (by apply history_holds).
  assert (Hp : length (account_path id) = 32) by apply sha3_256_length.
  assert (HR := holds_rep _ _ HH). assert (HC := rep_wf _ _ HR).
  pose proof (collect_siblings_fold Hne t (leaves D) (account_path id) HR Hp (fmt_is_v2 t (holds_fmt _ _ HH))) as Hf.
  rewrite ref_leaf, leaves_id in Hf by (done || apply HH).
  assert (Hroot : ref (leaves D) 0 (account_path id) = root t).
  { unfold root. symmetry. rewrite (get_node_agree t 0 zero_path (account_path id)) by (done || lia || apply agree_0).
    apply (rep_node _ _ HR); [done|lia|]. by right; left. }
  rewrite Hroot in Hf. unfold tree_proof, tree_exclusion_proof. rewrite (holds_get _ _ HH).
  destruct (collect_siblings t (account_path id)) as [present L].
  destruct (D !! id) as [v|]; eexists; (split_and!; [done..| |done]).
  - unfold verify_proof. cbn [pr_account_id pr_state_hash pr_present pr_siblings pr_root].
    change (default EMPTY_HASH (leaf_hash id <$> Some v)) with (leaf_hash id v) in Hf. rewrite Hf.
    by apply bool_decide_eq_true.
  - unfold verify_exclusion_proof. cbn [ex_account_id ex_present ex_siblings ex_root].
    change (default EMPTY_HASH (leaf_hash id <$> None)) with EMPTY_HASH in Hf. rewrite Hf.
    by apply bool_decide_eq_true.
Qed.

(** C29: proofs are binding. If the verifier accepts two proofs for one account
    against one root that contradict each other (two different values, or a value
    and an absence), then walking the two folds side by side returns two different
    messages with the same hash: forging an inclusion or exclusion proof is finding
    a SHA3 collision. *)
Theorem smt_binding `{Externals} (a b : SmtProof) (x : SmtExclusionProof) :
  sha3_256 [] = EMPTY_HASH →
  digests (pr_siblings a) → digests (pr_siblings b) → digests (ex_siblings x) →
  verify_proof a = true →
  (verify_proof b = true → pr_account_id b = pr_account_id a → pr_root b = pr_root a →
   pr_state_hash b ≠ pr_state_hash a →
   collides (collision (account_path (pr_account_id a))
     (leaf_message (pr_account_id a) (pr_state_hash a)) (pr_present a) (pr_siblings a)
     (leaf_message (pr_account_id b) (pr_state_hash b)) (pr_present b) (pr_siblings b))) ∧
  (verify_exclusion_proof x = true → ex_account_id x = pr_account_id a → ex_root x = pr_root a →
   collides (collision (account_path (pr_account_id a))
     (leaf_message (pr_account_id a) (pr_state_hash a)) (pr_present a) (pr_siblings a)
     [] (ex_present x) (ex_siblings x))).
Proof.
  intros He Ha Hb Hx Hva%verify_fold. split.
  - intros Hvb%verify_fold Hid Hroot Hne. eapply collision_ok; [done..| |exact Hva|].
    + unfold leaf_message. rewrite Hid. intros E. apply Hne. symmetry.
      by injection E as E%app_inv_head.
    + rewrite <- Hroot, <- Hid. exact Hvb.
  - intros Hvx%verify_exclusion_fold Hid Hroot. eapply collision_ok; [done..|exact Hva|].
    rewrite He, <- Hroot, <- Hid. exact Hvx.
Qed.

Module SmtProofExamples.
Import SmtExamples.

Lemma smt_proofs_verify_witness :
  ∃ pr, (@tree_proof smt_toy (ex_id 1) (foldl (@exec smt_toy) (tree_new ∅) ex_history)).2 = Some pr ∧
    @verify_proof smt_toy pr = true.
Proof.
  pose proof (@smt_proofs_verify smt_toy ex_history (ex_id 1) smt_toy_no_empty smt_toy_inj
    ex_history_typed eq_refl) as Hw.
  cbv zeta in Hw.
  match type of Hw with match ?x with _ => _ end =>
    replace x with (Some (ex_id 7)) in Hw by (vm_compute; reflexivity) end.
  destruct Hw as (pr & H1 & _ & _ & _ & H2 & _).
  exists pr. split; [exact H1|exact H2].
Defined.

(** A hash that collides on all leaves and nodes. *)
Program Definition weak_hash : Externals := {|
  sha3_256 m := if decide (length m = 32) then m else if bool_decide (m = []) then EMPTY_HASH else replicate 32 x01;
  sig_verify m s pk := bool_decide (s = m ++ pk);
  trim s := s;
  to_lowercase s := s;
|}.
Next Obligation.
  intros m. cbv beta. destruct (decide (length m = 32)) as [E|E]; [exact E|]. by destruct (bool_decide (m = [])).
Qed.

Definition weak_proof (v : digest) : SmtProof := mkSmtProof (ex_id 1) v (replicate 32 x01) zero_path [].
Definition weak_exclusion : SmtExclusionProof :=
  mkSmtExclusionProof (ex_id 1) (replicate 32 x01) (bit_set zero_path 0) [ex_id 2].

Lemma smt_binding_witness :
  @collides weak_hash (@collision weak_hash (@account_path weak_hash (ex_id 1))
    (leaf_message (ex_id 1) (ex_id 7)) zero_path [] (leaf_message (ex_id 1) (ex_id 8)) zero_path []).
Proof.
  destruct (@smt_binding weak_hash (weak_proof (ex_id 7)) (weak_proof (ex_id 8)) weak_exclusion) as [Hw _].
  - reflexivity.
  - constructor.
  - constructor.
  - repeat constructor.
  - vm_compute. reflexivity.
  - apply Hw; [vm_compute; reflexivity|reflexivity|reflexivity|vm_compute; discriminate].
Defined.
End SmtProofExamples.
