(* ===== verification/Types.v ===== *)
(** * Ledger constants and operation names

    src/src/accounting/types.rs: the amounts and rational rates of the token
    economy, the tags of the ledger operations, stake purposes and prediction
    claims with their string forms. *)

From S2P Require Import Prelude F64.
Open Scope Z_scope.

Definition BASE_UNITS_PER_BEAT : Z := 1000000000.
Definition MAX_SUPPLY : Z := 10000000000 * BASE_UNITS_PER_BEAT.
Definition MIN_STAKE : Z := 100 * BASE_UNITS_PER_BEAT.
Definition UNSTAKE_COOLDOWN : f64 := Eval vm_compute in f64_of_Z (7 * 24 * 3600).
Definition WITNESS_BOND_MIN : Z := MIN_STAKE.
Definition MAX_WITNESS_REWARD : Z := 10 * BASE_UNITS_PER_BEAT.
Definition BEAT_OP_KEY : string := "beat_op".

Definition CONSERVATION_POOL_MAX_FRACTION_NUM : Z := 1.
Definition CONSERVATION_POOL_MAX_FRACTION_DEN : Z := 10.
Definition MAX_SLASH_PERCENTAGE_NUM : Z := 1.
Definition MAX_SLASH_PERCENTAGE_DEN : Z := 2.
Definition SLASH_POOL_FRACTION_NUM : Z := 1.
Definition SLASH_POOL_FRACTION_DEN : Z := 2.
Definition SLASH_CHALLENGER_FRACTION_NUM : Z := 3.
Definition SLASH_CHALLENGER_FRACTION_DEN : Z := 10.

(** Years of 365.25 days, computed in [f64] as the source does. *)
Definition year_secs (years : Z) : f64 :=
  f64_mul (f64_mul (f64_mul (f64_of_Z years) (f64_lit 36525 100)) (f64_of_Z 24))
          (f64_of_Z 3600).
Definition DORMANCY_THRESHOLD : f64 := Eval vm_compute in year_secs 5.
Definition DORMANCY_WAKEUP_WINDOW : f64 := Eval vm_compute in year_secs 2.

Definition MIN_PREDICTION_STAKE : Z := 10 * BASE_UNITS_PER_BEAT.
Definition PREDICTION_REWARD_RATE_NUM : Z := 1.
Definition PREDICTION_REWARD_RATE_DEN : Z := 10.
Definition PREDICTION_MARGIN_NUM : Z := 1.
Definition PREDICTION_MARGIN_DEN : Z := 5.

(** ** Operation tags *)

Module LedgerOp.
Inductive t :=
  | Mint | Transfer | Stake | Unstake | WitnessReward | Slash | DormancyReclaim
  | Burn | PoolFund | Predict | XZoneLock | XZoneClaim | XZoneCancel | XZoneReject
  | XZoneAbort | DormancyDeclare | DormancyHeartbeat | DormancyProofOfLife
  | WitnessRegister | IdleDecay | XZoneTimeoutRefund | XZoneStaleReap.

#[global] Instance t_eq_dec : EqDecision t.
Proof. solve_decision. Defined.

Definition as_str (op : t) : string :=
  match op with
  | Mint => "mint"
  | Transfer => "transfer"
  | Stake => "stake"
  | Unstake => "unstake"
  | WitnessReward => "witness_reward"
  | Slash => "slash"
  | DormancyReclaim => "dormancy_reclaim"
  | Burn => "burn"
  | PoolFund => "pool_fund"
  | Predict => "predict"
  | XZoneLock => "xzone_lock"
  | XZoneClaim => "xzone_claim"
  | XZoneCancel => "xzone_cancel"
  | XZoneReject => "xzone_reject"
  | XZoneAbort => "xzone_abort"
  | DormancyDeclare => "dormancy_declare"
  | DormancyHeartbeat => "dormancy_heartbeat"
  | DormancyProofOfLife => "dormancy_proof_of_life"
  | WitnessRegister => "witness_register"
  | IdleDecay => "idle_decay"
  | XZoneTimeoutRefund => "xzone_timeout_refund"
  | XZoneStaleReap => "xzone_stale_reap"
  end.

Definition from_str (s : string) : outcome t :=
  if decide (s = "mint") then Ok Mint
  else if decide (s = "transfer") then Ok Transfer
  else if decide (s = "stake") then Ok Stake
  else if decide (s = "unstake") then Ok Unstake
  else if decide (s = "witness_reward") then Ok WitnessReward
  else if decide (s = "slash") then Ok Slash
  else if decide (s = "dormancy_reclaim") then Ok DormancyReclaim
  else if decide (s = "burn") then Ok Burn
  else if decide (s = "pool_fund") then Ok PoolFund
  else if decide (s = "predict") then Ok Predict
  else if decide (s = "xzone_lock") then Ok XZoneLock
  else if decide (s = "xzone_claim") then Ok XZoneClaim
  else if decide (s = "xzone_cancel") then Ok XZoneCancel
  else if decide (s = "xzone_reject") then Ok XZoneReject
  else if decide (s = "xzone_abort") then Ok XZoneAbort
  else if decide (s = "dormancy_declare") then Ok DormancyDeclare
  else if decide (s = "dormancy_heartbeat") then Ok DormancyHeartbeat
  else if decide (s = "dormancy_proof_of_life") then Ok DormancyProofOfLife
  else if decide (s = "witness_register") then Ok WitnessRegister
  else if decide (s = "idle_decay") then Ok IdleDecay
  else if decide (s = "xzone_timeout_refund") then Ok XZoneTimeoutRefund
  else if decide (s = "xzone_stale_reap") then Ok XZoneStaleReap
  else Err (ELedger "unknown ledger op").

Lemma from_str_as_str op : from_str (as_str op) = Ok op.
Proof. by destruct op. Qed.
End LedgerOp.

Module StakePurpose.
Inductive t := Witness | Governance | Storage.

#[global] Instance t_eq_dec : EqDecision t.
Proof. solve_decision. Defined.

Definition as_str (p : t) : string :=
  match p with
  | Witness => "witness" | Governance => "governance" | Storage => "storage"
  end.

Definition from_str (s : string) : outcome t :=
  if decide (s = "witness") then Ok Witness
  else if decide (s = "governance") then Ok Governance
  else if decide (s = "storage") then Ok Storage
  else Err (ELedger "unknown stake purpose").
End StakePurpose.

Module PredictionClaim.
Inductive t := Active | Volume | IdentityCount.

#[global] Instance t_eq_dec : EqDecision t.
Proof. solve_decision. Defined.

Definition as_str (c : t) : string :=
  match c with
  | Active => "active" | Volume => "volume" | IdentityCount => "identity_count"
  end.

Definition from_str (s : string) : outcome t :=
  if decide (s = "active") then Ok Active
  else if decide (s = "volume") then Ok Volume
  else if decide (s = "identity_count") then Ok IdentityCount
  else Err (ELedger "unknown prediction claim").
End PredictionClaim.

(** One entry of the genesis validator set. *)
Record GenesisValidator := mkGenesisValidator { gv_identity : string; gv_stake : Z }.

(** src/src/accounting/authority.rs: the single seam that decides who may emit
    privileged operations. *)
Definition is_privileged_emitter (actor genesis_authority : string) : bool :=
  bool_decide (actor = genesis_authority).
