(* ===== verification/Dormancy.v ===== *)
(** * Dormancy life cycle

    src/src/accounting/dormancy.rs: an identity goes from [Active] to [Dormant]
    by a declaration, back by a proof of life inside the wake-up window, and to
    [Reclaimed] after it.  The file proves the life cycle as a state machine:
    what the operations do on every branch and that the stored maps stay
    consistent. *)

From S2P Require Import Prelude F64 Types.
Open Scope Z_scope.

Definition DORMANCY_MIN_WITNESSES : Z := 2.

Inductive DormancyPhase := Active | Dormant | Reclaimed.

#[global] Instance DormancyPhase_eq_dec : EqDecision DormancyPhase.
Proof. solve_decision. Defined.

Record DormancyDeclaration := mkDeclaration {
  target_identity : string;
  declared_by : string;
  declared_at : f64;
  last_known_active : f64;
  wakeup_deadline : f64;
  witness_count : Z;
}.

Record DormancyState := mkDormancy {
  declarations : gmap string DormancyDeclaration;
  phases : gmap string DormancyPhase;
  reclaimed : gmap string Z;
}.

Definition eta_dormancy (s : DormancyState) : DormancyState :=
  mkDormancy (declarations s) (phases s) (reclaimed s).
#[export] Hint Extern 0 (@Setter DormancyState _ _) => derive_setter eta_dormancy : typeclass_instances.

Definition new : DormancyState := mkDormancy ∅ ∅ ∅.

Definition phase (s : DormancyState) (identity : string) : DormancyPhase :=
  default Active (phases s !! identity).

Definition eligible_for_declaration (last_active now : f64) : bool :=
  let inactive := f64_sub now last_active in
  f64_geb inactive DORMANCY_THRESHOLD.

Definition declare (target declared_by_ : string) (last_active now : f64)
    (witnesses : Z) : M DormancyState unit :=
  s ← get;
  match phase s target with
  | Dormant => throw (ELedger "identity already declared dormant")
  | Reclaimed => throw (ELedger "identity already reclaimed")
  | Active =>
      if witnesses <? DORMANCY_MIN_WITNESSES
      then throw (ELedger "dormancy declaration requires witnesses")
      else if negb (eligible_for_declaration last_active now)
      then throw (ELedger "identity not eligible")
      else
        let declaration := mkDeclaration target declared_by_ now last_active
            (f64_add now DORMANCY_WAKEUP_WINDOW) witnesses in
        modify (fun s => s <| declarations ::= insert target declaration |>
                           <| phases ::= insert target Dormant |>)
  end.

Definition wake_up (identity : string) (now : f64) : M DormancyState unit :=
  s ← get;
  match phase s identity with
  | Active => throw (ELedger "identity is already active")
  | Reclaimed => throw (ELedger "identity already reclaimed — cannot wake up")
  | Dormant =>
      let expired := match declarations s !! identity with
                     | Some decl => f64_gtb now (wakeup_deadline decl)
                     | None => false
                     end in
      if expired then throw (ELedger "wake-up window expired")
      else modify (fun s => s <| phases ::= delete identity |>
                              <| declarations ::= delete identity |>)
  end.

Definition eligible_for_reclamation (s : DormancyState) (identity : string) (now : f64) : bool :=
  if decide (phase s identity ≠ Dormant) then false
  else match declarations s !! identity with
       | Some decl => f64_gtb now (wakeup_deadline decl)
       | None => false
       end.

Definition record_reclamation (identity : string) (amount : Z) (s : DormancyState) : DormancyState :=
  s <| phases ::= insert identity Reclaimed |>
    <| reclaimed ::= insert identity amount |>
    <| declarations ::= delete identity |>.

Definition declaration (s : DormancyState) (identity : string) : option DormancyDeclaration :=
  declarations s !! identity.

Definition count_phase (p : DormancyPhase) (s : DormancyState) : nat :=
  length (filter (fun kv => kv.2 = p) (map_to_list (phases s))).
Definition dormant_count : DormancyState → nat := count_phase Dormant.
Definition reclaimed_count : DormancyState → nat := count_phase Reclaimed.

Definition reclaimable (s : DormancyState) (now : f64) : list string :=
  (filter (fun kv => f64_gtb now (wakeup_deadline kv.2) = true)
     (map_to_list (declarations s))).*1.

(** ** Replaying dormancy records *)

Inductive ParsedDormancyOp :=
  | DeclareOp (target_identity : string) (last_known_active : f64)
  | Heartbeat
  | ProofOfLife (target_identity signature : string).

(** Errors of a replayed record are dropped; the state stays as the failing
    operation left it. *)
Definition replay_one (s : DormancyState)
    (r : ParsedDormancyOp * string * f64 * Z) : DormancyState :=
  let '(op, creator, timestamp, witnesses) := r in
  match op with
  | DeclareOp target last_active => (declare target creator last_active timestamp witnesses s).2
  | Heartbeat => (wake_up creator timestamp s).2
  | ProofOfLife target _ => (wake_up target timestamp s).2
  end.
Definition rebuild_dormancy_state (records : list (ParsedDormancyOp * string * f64 * Z)) :
    DormancyState := foldl replay_one new records.

(** ** The life cycle *)

(** A stored declaration was filed by the rules: enough witnesses, enough
    inactivity, and a deadline one wake-up window after it. *)
Definition decl_ok (id : string) (d : DormancyDeclaration) : Prop :=
  target_identity d = id ∧ DORMANCY_MIN_WITNESSES <= witness_count d ∧
  eligible_for_declaration (last_known_active d) (declared_at d) = true ∧
  wakeup_deadline d = f64_add (declared_at d) DORMANCY_WAKEUP_WINDOW.

(** The three maps agree: declarations belong to exactly the dormant identities,
    reclaimed amounts to exactly the reclaimed ones, and [Active] is never
    stored. *)
Record wf (s : DormancyState) : Prop := {
  wf_decl id : is_Some (declarations s !! id) ↔ phases s !! id = Some Dormant;
  wf_active id : phases s !! id ≠ Some Active;
  wf_reclaimed id : is_Some (reclaimed s !! id) ↔ phases s !! id = Some Reclaimed;
  wf_decl_ok : map_Forall decl_ok (declarations s);
}.

Lemma wf_new : wf new.
Proof.
  split; simpl; intros; rewrite ?lookup_empty; [|done| |done]; (split; [by intros []|done]).
Qed.

Lemma phase_dormant s id : phase s id = Dormant ↔ phases s !! id = Some Dormant.
Proof. unfold phase. destruct (phases s !! id) as [[]|]; naive_solver. Qed.
Lemma phase_reclaimed s id : phase s id = Reclaimed ↔ phases s !! id = Some Reclaimed.
Proof. unfold phase. destruct (phases s !! id) as [[]|]; naive_solver. Qed.

(** The effect of a successful or failed declaration. *)
Lemma declare_spec target by_ last now w s :
  wp (declare target by_ last now w)
    (fun o s' => match o with
       | Ok _ => phase s target = Active ∧ DORMANCY_MIN_WITNESSES <= w ∧
                 eligible_for_declaration last now = true ∧
                 s' = s <| declarations ::= insert target (mkDeclaration target by_ now last
                             (f64_add now DORMANCY_WAKEUP_WINDOW) w) |>
                        <| phases ::= insert target Dormant |>
       | Err _ => s' = s
       | Panic => False
       end) s.
Proof.
  unfold declare. wp_step. wp_step.
  destruct (phase s target) eqn:E; repeat wp_step; try done.
  rewrite Z.ltb_ge in *. rewrite negb_false_iff in *. done.
Qed.

Lemma wake_up_spec id now s :
  wp (wake_up id now)
    (fun o s' => match o with
       | Ok _ => phase s id = Dormant ∧
                 (∀ d, declarations s !! id = Some d → f64_gtb now (wakeup_deadline d) = false) ∧
                 s' = s <| phases ::= delete id |> <| declarations ::= delete id |>
       | Err _ => s' = s
       | Panic => False
       end) s.
Proof.
  unfold wake_up. wp_step. wp_step.
  destruct (phase s id) eqn:E; repeat wp_step; try done.
  split; [done|]. split; [|done]. intros d Hd. by rewrite Hd in *.
Qed.

Lemma wf_declared s target by_ last now w :
  wf s → phase s target = Active → DORMANCY_MIN_WITNESSES <= w →
  eligible_for_declaration last now = true →
  wf (s <| declarations ::= insert target (mkDeclaration target by_ now last
             (f64_add now DORMANCY_WAKEUP_WINDOW) w) |>
        <| phases ::= insert target Dormant |>).
Proof.
  intros [W1 W2 W3 W4] Hp Hw He. split; simpl.
  - intros id. destruct (decide (id = target)) as [->|].
    + by rewrite !lookup_insert_eq.
    + by rewrite !lookup_insert_ne by done.
  - intros id. destruct (decide (id = target)) as [->|];
      [by rewrite lookup_insert_eq | by rewrite lookup_insert_ne].
  - intros id. destruct (decide (id = target)) as [->|].
    + rewrite lookup_insert_eq, W3. unfold phase in Hp.
      destruct (phases s !! target) as [[]|]; naive_solver.
    + by rewrite lookup_insert_ne.
  - apply map_Forall_insert_2; [|done]. done.
Qed.

Lemma wf_woken s id :
  wf s → phase s id = Dormant →
  wf (s <| phases ::= delete id |> <| declarations ::= delete id |>).
Proof.
  intros [W1 W2 W3 W4] Hp. apply phase_dormant in Hp. split; simpl.
  - intros i. destruct (decide (i = id)) as [->|].
    + rewrite !lookup_delete_eq. split; [by intros []|done].
    + by rewrite !lookup_delete_ne by done.
  - intros i. destruct (decide (i = id)) as [->|];
      [by rewrite lookup_delete_eq | by rewrite lookup_delete_ne].
  - intros i. destruct (decide (i = id)) as [->|].
    + rewrite lookup_delete_eq, W3. naive_solver.
    + by rewrite lookup_delete_ne.
  - by apply map_Forall_delete.
Qed.

Lemma wf_reclamation s id amount : wf s → wf (record_reclamation id amount s).
Proof.
  intros [W1 W2 W3 W4]. unfold record_reclamation. split; simpl.
  - intros i. destruct (decide (i = id)) as [->|].
    + rewrite lookup_delete_eq, lookup_insert_eq. split; [by intros []|done].
    + by rewrite lookup_delete_ne, lookup_insert_ne by done.
  - intros i. destruct (decide (i = id)) as [->|];
      [by rewrite lookup_insert_eq | by rewrite lookup_insert_ne].
  - intros i. destruct (decide (i = id)) as [->|].
    + by rewrite !lookup_insert_eq.
    + by rewrite !lookup_insert_ne by done.
  - by apply map_Forall_delete.
Qed.

Lemma declare_wf target by_ last now w s : wf s → wf (declare target by_ last now w s).2.
Proof.
  intros H. pose proof (declare_spec target by_ last now w s) as D. unfold wp in D.
  destruct (declare target by_ last now w s) as [[]]; simpl in *; [|naive_solver..].
  destruct D as (?&?&?&->). by apply wf_declared.
Qed.

Lemma wake_up_wf id now s : wf s → wf (wake_up id now s).2.
Proof.
  intros H. pose proof (wake_up_spec id now s) as D. unfold wp in D.
  destruct (wake_up id now s) as [[]]; simpl in *; [|naive_solver..].
  destruct D as (?&?&->). by apply wf_woken.
Qed.

(** One step of the life cycle as the ledger drives it: declarations, proofs of
    life, and reclamations of identities that are eligible for one. *)
Inductive step : DormancyState → DormancyState → Prop :=
  | step_declare s target by_ last now w : step s (declare target by_ last now w s).2
  | step_wake s id now : step s (wake_up id now s).2
  | step_reclaim s id now amount :
      eligible_for_reclamation s id now = true → step s (record_reclamation id amount s).

Lemma step_wf s s' : wf s → step s s' → wf s'.
Proof.
  intros Hs H. destruct H;
    [by apply declare_wf | by apply wake_up_wf | by apply wf_reclamation].
Qed.

Lemma reachable_wf s s' : wf s → rtc step s s' → wf s'.
Proof. intros Hs H. induction H; eauto using step_wf. Qed.

Lemma step_reclaimed s s' id :
  step s s' → phase s id = Reclaimed → phase s' id = Reclaimed.
Proof.
  intros Hstep Hp. destruct Hstep as [s target by_ last now w|s i now|s i now amount].
  - pose proof (declare_spec target by_ last now w s) as D. unfold wp in D.
    destruct (declare target by_ last now w s) as [[]]; simpl in *; [|by subst|done].
    destruct D as (Ha&_&_&->). unfold phase in *; simpl.
    rewrite lookup_insert_ne; [done|]. intros ->. by rewrite Hp in Ha.
  - pose proof (wake_up_spec i now s) as D. unfold wp in D.
    destruct (wake_up i now s) as [[]]; simpl in *; [|by subst|done].
    destruct D as (Ha&_&->). unfold phase in *; simpl.
    rewrite lookup_delete_ne; [done|]. intros ->. by rewrite Hp in Ha.
  - unfold phase in *; simpl. destruct (decide (id = i)) as [->|];
      [by rewrite lookup_insert_eq | by rewrite lookup_insert_ne].
Qed.

(** ** Properties *)

(** The dormancy maps never disagree: from the empty state, through any
    interleaving of declarations, proofs of life and eligible reclamations, an
    identity has a declaration exactly when it is dormant and a reclaimed amount
    exactly when it is reclaimed, every declaration was filed by the rules (two
    witnesses, five years of inactivity, a deadline one wake-up window later),
    and being reclaimed is final. *)
Theorem dormancy_lifecycle s :
  rtc step new s →
  wf s ∧ ∀ s' id, rtc step s s' → phase s id = Reclaimed → phase s' id = Reclaimed.
Proof.
  intros H. split; [exact (reachable_wf _ _ wf_new H)|]. clear H.
  intros s' id H' Hp. induction H' as [|x y z Hxy _ IH]; [done|].
  apply IH. by eapply step_reclaimed.
Qed.

Lemma dormancy_lifecycle_witness :
  wf (declare "a" "b" (f64_of_Z 0) (f64_of_Z 200000000) 2 new).2.
Proof.
  apply (dormancy_lifecycle (declare "a" "b" (f64_of_Z 0) (f64_of_Z 200000000) 2 new).2).
  apply rtc_once. constructor.
Defined.

(** An identity can be reclaimed only when a declaration stands against it
    that was filed after the inactivity threshold, with at least two witnesses,
    and whose wake-up window has since closed; inside the window a proof of life
    always succeeds and makes the identity active again. *)
Theorem reclamation_needs_expired_window s id now :
  wf s → eligible_for_reclamation s id now = true →
  (∃ d, declarations s !! id = Some d ∧ decl_ok id d ∧
     f64_gtb now (f64_add (declared_at d) DORMANCY_WAKEUP_WINDOW) = true) ∧
  ∀ t, (∀ d, declarations s !! id = Some d → f64_gtb t (wakeup_deadline d) = false) →
    (wake_up id t s).1 = Ok tt ∧ phase (wake_up id t s).2 id = Active.
Proof.
  intros [W1 W2 W3 W4] He. unfold eligible_for_reclamation in He.
  case_decide as Hd; [done|].
  destruct (declarations s !! id) as [d|] eqn:Ed; [|done].
  destruct (W4 _ _ Ed) as (?&?&?&Hdl). split.
  - exists d. rewrite <- Hdl. done.
  - intros t Ht. unfold wake_up, mbind, M_bind, get. rewrite Hd, Ed, (Ht d eq_refl).
    split; [done|]. unfold phase; simpl. by rewrite lookup_delete_eq.
Qed.

Lemma reclamation_needs_expired_window_witness :
  let s := (declare "a" "b" (f64_of_Z 0) (f64_of_Z 200000000) 2 new).2 in
  ∃ d, declarations s !! "a" = Some d ∧ witness_count d = 2.
Proof.
  destruct (reclamation_needs_expired_window
    (declare "a" "b" (f64_of_Z 0) (f64_of_Z 200000000) 2 new).2 "a" (f64_of_Z 300000000))
    as [(d&Hd&_) _].
  - apply declare_wf, wf_new.
  - vm_compute. reflexivity.
  - exists d. split; [exact Hd|]. vm_compute in Hd. by simplify_eq.
Defined.
