(* ===== verification/Acquisition.v ===== *)
(** * Acquisition limits and vesting

    src/src/accounting/acquisition.rs: the per-identity inflow tracker behind
    the 30-day acquisition limit, and the linear vesting of large mints. *)

From S2P Require Import Prelude F64 Types.
Open Scope Z_scope.

Definition ACQUISITION_WINDOW_SECS : f64 := Eval vm_compute in f64_of_Z (30 * 24 * 3600).
Definition VESTING_DURATION_SECS : f64 := Eval vm_compute in f64_of_Z (365 * 24 * 3600).
Definition MAX_ACQUISITION_RATE_NUM : Z := 5.
Definition MAX_ACQUISITION_RATE_DEN : Z := 1000.
Definition LARGE_MINT_THRESHOLD_NUM : Z := 1.
Definition LARGE_MINT_THRESHOLD_DEN : Z := 1000.
Definition VESTING_DURATION_SECS_INT : Z := 365 * 24 * 3600.
Definition ACQUISITION_LIMIT_ACTIVATION : Z := 1000000 * BASE_UNITS_PER_BEAT.

(** A time-stamped amount; entries strictly younger than the cutoff count. *)
Definition entry := (f64 * Z)%type.
Definition younger (cutoff : f64) (e : entry) : bool := f64_gtb e.1 cutoff.
Definition amounts_after (cutoff : f64) (l : list entry) : list Z :=
  (filter (fun e => younger cutoff e = true) l).*2.

(** ** Acquisition tracker *)

Record AcquisitionTracker := mkAcquisition { inflows : gmap string (list entry) }.

Definition acquisition_new : AcquisitionTracker := mkAcquisition ∅.

Definition record_inflow (identity : string) (amount : Z) (timestamp : f64)
    (t : AcquisitionTracker) : AcquisitionTracker :=
  mkAcquisition (<[identity := default [] (inflows t !! identity) ++ [(timestamp, amount)]]>
                   (inflows t)).

Definition inflow_in_window (t : AcquisitionTracker) (identity : string) (now : f64) : Z :=
  let cutoff := f64_sub now ACQUISITION_WINDOW_SECS in
  match inflows t !! identity with
  | Some v => U64.sat_sum (amounts_after cutoff v)
  | None => 0
  end.

Definition acquisition_limit (circulating_supply : Z) : Z :=
  U64.as_u64 (U64.sat_mul128 circulating_supply MAX_ACQUISITION_RATE_NUM / MAX_ACQUISITION_RATE_DEN).

Definition check_acquisition (t : AcquisitionTracker) (recipient : string)
    (amount circulating_supply : Z) (timestamp : f64) (genesis_authority : string) : outcome unit :=
  if decide (recipient = genesis_authority) then Ok tt
  else if circulating_supply <? ACQUISITION_LIMIT_ACTIVATION then Ok tt
  else
    let limit := acquisition_limit circulating_supply in
    let already_received := inflow_in_window t recipient timestamp in
    let total_inflow := U64.sat_add already_received amount in
    if limit <? total_inflow then Err (ELedger "acquisition velocity exceeded") else Ok tt.

(** [retain] on the values of a map of lists, then on the map. *)
Definition prune_lists (keep : entry → bool) (m : gmap string (list entry)) :
    gmap string (list entry) :=
  filter (fun kv => kv.2 ≠ [])
    ((fun l => filter (fun e => keep e = true) l) <$> m).

Definition acquisition_prune (now : f64) (t : AcquisitionTracker) : AcquisitionTracker :=
  let cutoff := f64_sub now ACQUISITION_WINDOW_SECS in
  mkAcquisition (prune_lists (younger cutoff) (inflows t)).

(** ** Vesting *)

Record VestingEntry := mkVesting {
  vest_record_id : string;
  total_amount : Z;
  start_time : f64;
  end_time : f64;
}.

Definition vesting_entry_new (record_id : string) (amount : Z) (start : f64) : VestingEntry :=
  mkVesting record_id amount start (f64_add start VESTING_DURATION_SECS).

Definition unlocked (e : VestingEntry) (now : f64) : Z :=
  if f64_geb now (end_time e) then total_amount e
  else if f64_leb now (start_time e) then 0
  else
    let elapsed_secs :=
      f64_as_uint 128 (f64_max (f64_floor (f64_sub now (start_time e))) f64_0) in
    U64.as_u64 (U64.sat_mul128 (total_amount e) elapsed_secs / VESTING_DURATION_SECS_INT).

Definition locked (e : VestingEntry) (now : f64) : Z :=
  U64.sat_sub (total_amount e) (unlocked e now).

Definition is_fully_vested (e : VestingEntry) (now : f64) : bool := f64_geb now (end_time e).

Record VestingManager := mkVestingManager {
  schedules : gmap string (list VestingEntry);
  cumulative_mints : gmap string (list entry);
}.

Definition eta_vesting (m : VestingManager) : VestingManager :=
  mkVestingManager (schedules m) (cumulative_mints m).
#[export] Hint Extern 0 (@Setter VestingManager _ _) => derive_setter eta_vesting : typeclass_instances.

Definition vesting_new : VestingManager := mkVestingManager ∅ ∅.

Definition large_mint_threshold (total_supply : Z) : Z :=
  U64.as_u64 (U64.sat_mul128 total_supply LARGE_MINT_THRESHOLD_NUM / LARGE_MINT_THRESHOLD_DEN).

Definition requires_vesting (amount total_supply : Z) : bool :=
  if total_supply =? 0 then false
  else large_mint_threshold total_supply <? amount.

Definition cumulative_exceeds_threshold (m : VestingManager) (identity : string)
    (new_amount total_supply : Z) (timestamp : f64) : bool :=
  if total_supply =? 0 then false
  else
    let cutoff := f64_sub timestamp ACQUISITION_WINDOW_SECS in
    let prior_mints :=
      match cumulative_mints m !! identity with
      | Some mints => U64.sat_sum (amounts_after cutoff mints)
      | None => 0
      end in
    large_mint_threshold total_supply <? U64.sat_add prior_mints new_amount.

Definition record_mint (identity : string) (amount : Z) (timestamp : f64)
    (m : VestingManager) : VestingManager :=
  let cutoff := f64_sub timestamp ACQUISITION_WINDOW_SECS in
  let entries := default [] (cumulative_mints m !! identity) ++ [(timestamp, amount)] in
  m <| cumulative_mints ::=
        insert identity (filter (fun e => younger cutoff e = true) entries) |>.

Definition add_vesting (identity record_id : string) (amount : Z) (timestamp : f64)
    (m : VestingManager) : VestingManager :=
  m <| schedules ::= insert identity
        (default [] (schedules m !! identity) ++ [vesting_entry_new record_id amount timestamp]) |>.

(** [iter().map(|e| e.locked(now)).sum()]: a panic if the sum leaves [u64]. *)
Definition locked_balance {S} (m : VestingManager) (identity : string) (now : f64) : M S Z :=
  match schedules m !! identity with
  | Some entries => sum_u64 ((fun e => locked e now) <$> entries) 0
  | None => mret 0
  end.

Definition transferable_balance {S} (m : VestingManager) (identity : string)
    (available : Z) (now : f64) : M S Z :=
  l ← locked_balance m identity now;
  mret (U64.sat_sub available l).

Definition vesting_prune (now : f64) (m : VestingManager) : VestingManager :=
  let cutoff := f64_sub now ACQUISITION_WINDOW_SECS in
  mkVestingManager
    (filter (fun kv => kv.2 ≠ [])
       ((fun l => filter (fun e => is_fully_vested e now = false) l) <$> schedules m))
    (prune_lists (younger cutoff) (cumulative_mints m)).

(** ** Vesting lemmas *)

(** What an identity was granted over all its schedules. *)
Definition granted (m : VestingManager) (identity : string) : Z :=
  foldr (fun e acc => total_amount e + acc) 0 (default [] (schedules m !! identity)).
Definition vesting_wf (m : VestingManager) : Prop :=
  map_Forall (fun _ l => Forall (fun e => 0 <= total_amount e) l) (schedules m).

Lemma unlocked_nonneg e now : 0 <= total_amount e → 0 <= unlocked e now.
Proof.
  intros H. unfold unlocked. case_match; [done|]. case_match; [done|].
  pose proof (U64.as_u64_bounds (U64.sat_mul128 (total_amount e)
    (f64_as_uint 128 (f64_max (f64_floor (f64_sub now (start_time e))) f64_0)) /
    VESTING_DURATION_SECS_INT)). lia.
Qed.

Lemma locked_bounds e now : 0 <= total_amount e → 0 <= locked e now <= total_amount e.
Proof.
  intros H. pose proof (unlocked_nonneg e now H). unfold locked, U64.sat_sub. lia.
Qed.

Lemma sum_locked_bounds l now :
  Forall (fun e => 0 <= total_amount e) l →
  0 <= foldr Z.add 0 ((fun e => locked e now) <$> l) <= foldr (fun e acc => total_amount e + acc) 0 l.
Proof.
  induction 1 as [|e l He _ IH]; csimpl; [lia|]. pose proof (locked_bounds e now He). lia.
Qed.

Lemma wp_sum_u64 {S} (l : list Z) : ∀ acc (Q : outcome Z → S → Prop) s,
  Forall (fun x => 0 <= x) l → acc + foldr Z.add 0 l <= U64.MAX →
  Q (Ok (acc + foldr Z.add 0 l)) s → wp (sum_u64 l acc) Q s.
Proof.
  induction l as [|x l IH]; intros acc Q s Hl Hb HQ; simpl in *.
  - apply wp_ret. by rewrite Z.add_0_r in HQ.
  - inversion_clear Hl as [|? ? Hx Hl'].
    assert (0 <= foldr Z.add 0 l) by (clear -Hl'; induction Hl'; simpl; lia).
    apply wp_bind, wp_add_u64; [intros _|lia].
    apply IH; [done|lia|]. by rewrite <- Z.add_assoc.
Qed.

(** The locked balance is computed without overflow and never exceeds the
    grants, so the transferable balance never exceeds the available one. *)
Lemma wp_locked_balance {S} m id now (Q : outcome Z → S → Prop) s :
  vesting_wf m → granted m id <= U64.MAX →
  (∀ l, 0 <= l <= granted m id → Q (Ok l) s) → wp (locked_balance m id now) Q s.
Proof.
  intros Hwf Hg HQ. unfold locked_balance, granted in *.
  destruct (schedules m !! id) as [l|] eqn:E; simpl in *; [|apply wp_ret, HQ; lia].
  pose proof (Hwf _ _ E) as Hl. simpl in Hl.
  pose proof (sum_locked_bounds l now Hl).
  apply wp_sum_u64; [|lia|].
  - apply Forall_fmap. eapply Forall_impl; [exact Hl|]. intros e He. by apply locked_bounds.
  - by apply HQ.
Qed.

Lemma wp_transferable_balance {S} m id av now (Q : outcome Z → S → Prop) s :
  vesting_wf m → granted m id <= U64.MAX →
  (∀ t, 0 <= t <= Z.max 0 av → Q (Ok t) s) → wp (transferable_balance m id av now) Q s.
Proof.
  intros Hwf Hg HQ. unfold transferable_balance. apply wp_bind.
  apply wp_locked_balance; [done..|]. intros l Hl. apply wp_ret, HQ.
  unfold U64.sat_sub. lia.
Qed.

Lemma granted_add_vesting m id r amount ts id' :
  granted (add_vesting id r amount ts m) id' =
  granted m id' + (if decide (id = id') then amount else 0).
Proof.
  unfold granted, add_vesting; simpl. case_decide as Hd; [subst|].
  - rewrite lookup_insert_eq. simpl. rewrite foldr_app. simpl. rewrite Z.add_0_r.
    generalize (default [] (schedules m !! id')) as l.
    induction l as [|e l IH]; simpl; lia.
  - rewrite lookup_insert_ne by done. lia.
Qed.

Lemma vesting_wf_add m id r amount ts :
  vesting_wf m → 0 <= amount → vesting_wf (add_vesting id r amount ts m).
Proof.
  intros H Ha. unfold vesting_wf, add_vesting; simpl. apply map_Forall_insert_2; [|done].
  apply Forall_app. split.
  - destruct (schedules m !! id) as [l|] eqn:E; simpl; [by eapply H|done].
  - by constructor.
Qed.

Lemma vesting_wf_new : vesting_wf vesting_new.
Proof. unfold vesting_wf. apply map_Forall_empty. Qed.

Lemma record_mint_schedules m id a ts :
  schedules (record_mint id a ts m) = schedules m.
Proof. done. Qed.

Lemma granted_record_mint m id a ts who : granted (record_mint id a ts m) who = granted m who.
Proof. done. Qed.
Lemma vesting_wf_record_mint m id a ts : vesting_wf m → vesting_wf (record_mint id a ts m).
Proof. done. Qed.

#[export] Hint Resolve vesting_wf_add vesting_wf_record_mint : elara.

Lemma acquisition_limit_exact supply :
  U64.is_u64 supply → acquisition_limit supply = supply / 200.
Proof.
  intros H. unfold acquisition_limit, U64.sat_mul128, MAX_ACQUISITION_RATE_NUM,
    MAX_ACQUISITION_RATE_DEN. unfold U64.is_u64, U64.MAX in H.
  rewrite Z.min_r by (unfold U64.U128_MAX; lia).
  replace (supply * 5 / 1000) with (supply / 200).
  - rewrite U64.as_u64_small; [done|]. unfold U64.MAX.
    split; [apply Z.div_pos; lia|]. apply Z.div_le_upper_bound; lia.
  - rewrite <- (Z.div_mul_cancel_r supply 200 5) by lia. done.
Qed.

Lemma large_mint_threshold_exact supply :
  U64.is_u64 supply → large_mint_threshold supply = supply / 1000.
Proof.
  intros H. unfold large_mint_threshold, U64.sat_mul128, LARGE_MINT_THRESHOLD_NUM,
    LARGE_MINT_THRESHOLD_DEN. unfold U64.is_u64, U64.MAX in H.
  rewrite Z.mul_1_r, Z.min_r by (unfold U64.U128_MAX; lia).
  rewrite U64.as_u64_small; [done|]. unfold U64.MAX.
  split; [apply Z.div_pos; lia|]. apply Z.div_le_upper_bound; lia.
Qed.

(** ** Properties *)

(** The acquisition gate is exactly the documented half per cent: for any
    recipient but the authority and any supply past the activation level, a
    transfer is accepted if and only if the 30-day inflow with it added stays
    within [supply / 200], computed without rounding or truncation. *)
Theorem check_acquisition_exact t recipient amount supply ts ga :
  U64.is_u64 supply → U64.is_u64 amount →
  recipient ≠ ga → ACQUISITION_LIMIT_ACTIVATION <= supply →
  check_acquisition t recipient amount supply ts ga = Ok tt ↔
  U64.sat_add (inflow_in_window t recipient ts) amount <= supply / 200.
Proof.
  intros Hs Ha Hne Hact. unfold check_acquisition.
  rewrite decide_False by done.
  destruct (Z.ltb_spec supply ACQUISITION_LIMIT_ACTIVATION); [lia|].
  rewrite acquisition_limit_exact by done.
  destruct (Z.ltb_spec (supply / 200) (U64.sat_add (inflow_in_window t recipient ts) amount));
    split; try done; lia.
Qed.

Lemma check_acquisition_exact_witness :
  check_acquisition acquisition_new "e" (MAX_SUPPLY / 200) MAX_SUPPLY (f64_of_Z 1000) "genesis" = Ok tt.
Proof.
  apply (check_acquisition_exact acquisition_new "e" (MAX_SUPPLY / 200) MAX_SUPPLY
    (f64_of_Z 1000) "genesis"); vm_compute; (done || by split).
Defined.

(** Vesting never inflates or overflows: for any schedule whose grants to an
    identity fit a [u64], the transferable balance is computed without a panic
    and lies between the balance less the grants and the balance; each locked
    amount lies between zero and the grant, and is zero once the vesting period
    is over. *)
Theorem transferable_within_balance {S} (m : VestingManager) id av now (s : S) :
  vesting_wf m → granted m id <= U64.MAX → 0 <= av →
  (∃ t, transferable_balance m id av now s = (Ok t, s) ∧
        Z.max 0 (av - granted m id) <= t <= av) ∧
  ∀ e, 0 <= total_amount e →
    0 <= locked e now <= total_amount e ∧
    (is_fully_vested e now = true → locked e now = 0).
Proof.
  intros Hwf Hg Hav. split.
  - assert (H : wp (transferable_balance m id av now)
      (fun o s' => s' = s ∧ ∃ t, o = Ok t ∧ Z.max 0 (av - granted m id) <= t <= av) s).
    { unfold transferable_balance. apply wp_bind, wp_locked_balance; [done..|].
      intros l Hl. apply wp_ret. split; [done|]. eexists; split; [done|].
      unfold U64.sat_sub. lia. }
    unfold wp in H. destruct (transferable_balance m id av now s) as [o s']; simpl in *.
    destruct H as (->&t&->&Ht). eauto.
  - intros e He. split; [by apply locked_bounds|].
    unfold is_fully_vested, locked, unlocked. intros ->. unfold U64.sat_sub. lia.
Qed.

Lemma transferable_within_balance_witness :
  ∃ t, transferable_balance (add_vesting "a" "r" 5 (f64_of_Z 0) vesting_new) "a" 7 (f64_of_Z 1) tt
       = (Ok t, tt) ∧ 2 <= t <= 7.
Proof.
  apply (transferable_within_balance (add_vesting "a" "r" 5 (f64_of_Z 0) vesting_new) "a" 7
    (f64_of_Z 1) tt); [|vm_compute; discriminate..].
  apply vesting_wf_add; [apply vesting_wf_new|done].
Defined.
