(* ===== verification/Velocity.v ===== *)
(** * Velocity limits

    src/src/accounting/velocity.rs: tiered daily outflow limits with a 30-day
    peak balance, on integer rates in parts per billion. *)

From S2P Require Import Prelude F64 Types Acquisition.
Open Scope Z_scope.

Definition VELOCITY_WINDOW_SECS : f64 := Eval vm_compute in f64_of_Z (24 * 3600).
Definition PEAK_BALANCE_WINDOW_SECS : f64 := Eval vm_compute in f64_of_Z (30 * 24 * 3600).
Definition TIER_FREE_CEILING : Z := 100000 * BASE_UNITS_PER_BEAT.
Definition TIER_LOW_CEILING : Z := 1000000 * BASE_UNITS_PER_BEAT.
Definition TIER_MID_CEILING : Z := 10000000 * BASE_UNITS_PER_BEAT.
Definition TIER_HIGH_CEILING : Z := 100000000 * BASE_UNITS_PER_BEAT.
Definition VELOCITY_Q : Z := 1000000000.
Definition RATE_LOW_Q : Z := 500000000.
Definition RATE_MID_Q : Z := 100000000.
Definition RATE_HIGH_Q : Z := 30000000.
Definition RATE_MEGA_Q : Z := 10000000.

Record IdentityVelocity := mkIdentityVelocity {
  outflows : list entry;
  balance_history : list entry;
}.
Definition identity_velocity_default : IdentityVelocity := mkIdentityVelocity [] [].

Record VelocityTracker := mkVelocity { identities : gmap string IdentityVelocity }.
Definition velocity_new : VelocityTracker := mkVelocity ∅.

Definition velocity_of (t : VelocityTracker) (identity : string) : IdentityVelocity :=
  default identity_velocity_default (identities t !! identity).

Definition velocity_record_outflow (identity : string) (amount : Z) (timestamp : f64)
    (t : VelocityTracker) : VelocityTracker :=
  let e := velocity_of t identity in
  mkVelocity (<[identity := mkIdentityVelocity (outflows e ++ [(timestamp, amount)])
                              (balance_history e)]> (identities t)).

Definition velocity_record_balance (identity : string) (total_balance : Z) (timestamp : f64)
    (t : VelocityTracker) : VelocityTracker :=
  let e := velocity_of t identity in
  mkVelocity (<[identity := mkIdentityVelocity (outflows e)
                              (balance_history e ++ [(timestamp, total_balance)])]> (identities t)).

(** [iter().max().unwrap_or(0)] *)
Definition max_or_0 (l : list Z) : Z := foldr Z.max 0 l.

Definition outflow_in_custom_window (t : VelocityTracker) (identity : string)
    (now window_secs : f64) : Z :=
  let cutoff := f64_sub now window_secs in
  match identities t !! identity with
  | Some v => U64.sat_sum (amounts_after cutoff (outflows v))
  | None => 0
  end.
Definition outflow_in_window (t : VelocityTracker) (identity : string) (now : f64) : Z :=
  outflow_in_custom_window t identity now VELOCITY_WINDOW_SECS.

Definition peak_balance_in_window (t : VelocityTracker) (identity : string)
    (now window_secs : f64) : Z :=
  let cutoff := f64_sub now window_secs in
  match identities t !! identity with
  | Some v => max_or_0 (amounts_after cutoff (balance_history v))
  | None => 0
  end.
Definition peak_balance (t : VelocityTracker) (identity : string) (now : f64) : Z :=
  peak_balance_in_window t identity now PEAK_BALANCE_WINDOW_SECS.

Definition velocity_rate_q (balance : Z) : Z :=
  if TIER_HIGH_CEILING <=? balance then RATE_MEGA_Q
  else if TIER_MID_CEILING <=? balance then RATE_HIGH_Q
  else if TIER_LOW_CEILING <=? balance then RATE_MID_Q
  else if TIER_FREE_CEILING <=? balance then RATE_LOW_Q
  else VELOCITY_Q.

(** The daily limit of a balance under a circuit-breaker multiplier. *)
Definition velocity_limit (effective_balance : Z) (velocity_multiplier : f64) : Z :=
  let rate_q := velocity_rate_q effective_balance in
  let base_limit := U64.sat_mul128 effective_balance rate_q / VELOCITY_Q in
  let mult_q := f64_as_uint 128 (f64_mul velocity_multiplier (f64_of_Z VELOCITY_Q)) in
  U64.sat_mul128 base_limit mult_q / VELOCITY_Q.

Definition check_velocity (t : VelocityTracker) (identity : string) (amount current_total : Z)
    (timestamp velocity_multiplier : f64) : outcome unit :=
  let peak := peak_balance t identity timestamp in
  let effective_balance := Z.max current_total peak in
  if effective_balance <? TIER_FREE_CEILING then Ok tt
  else
    let limit := velocity_limit effective_balance velocity_multiplier in
    let already_sent := outflow_in_window t identity timestamp in
    let total_outflow := Z.min U64.U128_MAX (already_sent + amount) in
    if limit <? total_outflow then Err (ELedger "velocity limit exceeded") else Ok tt.

Definition velocity_prune (now : f64) (t : VelocityTracker) : VelocityTracker :=
  let outflow_cutoff := f64_sub now VELOCITY_WINDOW_SECS in
  let balance_cutoff := f64_sub now PEAK_BALANCE_WINDOW_SECS in
  mkVelocity
    (filter (fun kv => outflows kv.2 ≠ [] ∨ balance_history kv.2 ≠ [])
      ((fun v => mkIdentityVelocity
          (filter (fun e => younger outflow_cutoff e = true) (outflows v))
          (filter (fun e => younger balance_cutoff e = true) (balance_history v)))
       <$> identities t)).

(** ** Lemmas *)

Lemma velocity_limit_full b :
  0 <= b <= U64.MAX →
  velocity_limit b (f64_of_Z 1) = b * velocity_rate_q b / VELOCITY_Q.
Proof.
  intros H. unfold velocity_limit.
  replace (f64_as_uint 128 (f64_mul (f64_of_Z 1) (f64_of_Z VELOCITY_Q))) with VELOCITY_Q
    by (vm_compute; reflexivity).
  assert (Hr : 0 < velocity_rate_q b <= VELOCITY_Q).
  { unfold velocity_rate_q, RATE_MEGA_Q, RATE_HIGH_Q, RATE_MID_Q, RATE_LOW_Q, VELOCITY_Q.
    repeat case_match; lia. }
  assert (Hq : VELOCITY_Q = 1000000000) by done.
  unfold U64.sat_mul128, U64.U128_MAX, U64.MAX in *.
  assert (0 <= b * velocity_rate_q b <= (2 ^ 64 - 1) * 1000000000) by nia.
  rewrite (Z.min_r _ (b * velocity_rate_q b)) by lia.
  assert (0 <= b * velocity_rate_q b / VELOCITY_Q <= (2 ^ 64 - 1)).
  { split; [apply Z.div_pos; lia|]. apply Z.div_le_upper_bound; lia. }
  rewrite Z.min_r by lia. rewrite Z.div_mul by lia. done.
Qed.

(** The velocity gate in normal operation: an identity whose effective
    balance (the larger of the current total and the 30-day peak) is in a
    limited tier may send exactly while the 24-hour outflow with the new amount
    stays within the tier's share of that balance, and outside the limited tiers
    everything is accepted. *)
Theorem check_velocity_exact t identity amount total ts :
  0 <= amount <= U64.MAX →
  0 <= Z.max total (peak_balance t identity ts) <= U64.MAX →
  0 <= outflow_in_window t identity ts <= U64.MAX →
  let b := Z.max total (peak_balance t identity ts) in
  check_velocity t identity amount total ts (f64_of_Z 1) = Ok tt ↔
  b < TIER_FREE_CEILING ∨
  outflow_in_window t identity ts + amount <= b * velocity_rate_q b / VELOCITY_Q.
Proof.
  intros Ha Hb Ho b. unfold check_velocity. fold b in Hb |- *.
  rewrite velocity_limit_full by done.
  rewrite Z.min_r by (unfold U64.U128_MAX, U64.MAX in *; lia).
  destruct (Z.ltb_spec b TIER_FREE_CEILING); [split; [by left|done]|].
  destruct (Z.ltb_spec (b * velocity_rate_q b / VELOCITY_Q)
    (outflow_in_window t identity ts + amount)); split; try done; intros; try lia.
Qed.

Lemma check_velocity_exact_witness :
  check_velocity (velocity_record_balance "a" (2 * TIER_LOW_CEILING) (f64_of_Z 0) velocity_new)
    "a" (TIER_LOW_CEILING / 5) TIER_FREE_CEILING (f64_of_Z 1) (f64_of_Z 1) = Ok tt.
Proof.
  apply (check_velocity_exact
    (velocity_record_balance "a" (2 * TIER_LOW_CEILING) (f64_of_Z 0) velocity_new)
    "a" (TIER_LOW_CEILING / 5) TIER_FREE_CEILING (f64_of_Z 1)).
  - by vm_compute.
  - by vm_compute.
  - by vm_compute.
  - right. by vm_compute.
Defined.
