(* ===== verification/CircuitBreaker.v ===== *)
(** * Circuit breaker

    src/src/accounting/circuit_breaker.rs: the volume-driven level of the
    network with immediate escalation and timed, stepwise de-escalation. *)

From S2P Require Import Prelude F64 Types Acquisition.
Open Scope Z_scope.

Definition SMALL_TRANSFER_LIMIT : Z := 10000 * BASE_UNITS_PER_BEAT.
Definition MICRO_TRANSFER_LIMIT : Z := 1000 * BASE_UNITS_PER_BEAT.
Definition VOLUME_WINDOW_SECS : f64 := Eval vm_compute in f64_of_Z (24 * 3600).
Definition LEVEL_1_COOLDOWN_SECS : f64 := Eval vm_compute in f64_of_Z (6 * 3600).
Definition LEVEL_2_MIN_DURATION_SECS : f64 := Eval vm_compute in f64_of_Z (24 * 3600).
Definition LEVEL_3_MIN_DURATION_SECS : f64 := Eval vm_compute in f64_of_Z (48 * 3600).

Inductive BreakerLevel := Normal | Level1 | Level2 | Level3.

#[global] Instance BreakerLevel_eq_dec : EqDecision BreakerLevel.
Proof. solve_decision. Defined.

Definition breaker_as_u8 (l : BreakerLevel) : Z :=
  match l with Normal => 0 | Level1 => 1 | Level2 => 2 | Level3 => 3 end.
Definition level_ltb (a b : BreakerLevel) : bool := breaker_as_u8 a <? breaker_as_u8 b.
(** [Ord::max]: the second operand when they are equal. *)
Definition level_max (a b : BreakerLevel) : BreakerLevel := if level_ltb b a then a else b.

Record CircuitBreaker := mkBreaker {
  level : BreakerLevel;
  level_since : f64;
  below_l1_since : option f64;
  volume_entries : list entry;
}.

Definition eta_breaker (b : CircuitBreaker) : CircuitBreaker :=
  mkBreaker (level b) (level_since b) (below_l1_since b) (volume_entries b).
#[export] Hint Extern 0 (@Setter CircuitBreaker _ _) => derive_setter eta_breaker : typeclass_instances.

Definition breaker_new : CircuitBreaker := mkBreaker Normal f64_0 None [].

Definition record_volume (amount : Z) (timestamp : f64) (b : CircuitBreaker) : CircuitBreaker :=
  b <| volume_entries ::= fun l => l ++ [(timestamp, amount)] |>.

Definition volume_in_window (b : CircuitBreaker) (now : f64) : Z :=
  U64.sat_sum (amounts_after (f64_sub now VOLUME_WINDOW_SECS) (volume_entries b)).

(** The level the volume calls for, by the integer cross products. *)
Definition target_level (v c : Z) : BreakerLevel :=
  if U64.sat_mul128 c 10 <=? U64.sat_mul128 v 100 then Level3
  else if U64.sat_mul128 c 5 <=? U64.sat_mul128 v 100 then Level2
  else if U64.sat_mul128 c 3 <=? U64.sat_mul128 v 100 then Level1
  else Normal.

Definition update_level (circulating_supply : Z) (now : f64) (b : CircuitBreaker) : CircuitBreaker :=
  if circulating_supply =? 0 then b
  else
    let v := volume_in_window b now in
    let c := circulating_supply in
    let new_level := target_level v c in
    let b :=
      if U64.sat_mul128 v 100 <? U64.sat_mul128 c 3 then
        match below_l1_since b with
        | None => b <| below_l1_since := Some now |>
        | Some _ => b
        end
      else b <| below_l1_since := None |> in
    if level_ltb (level b) new_level then
      b <| level := new_level |> <| level_since := now |>
    else
      match level b with
      | Level3 =>
          let elapsed := f64_sub now (level_since b) in
          if f64_geb elapsed LEVEL_3_MIN_DURATION_SECS && level_ltb new_level Level3
          then b <| level := level_max new_level Level2 |> <| level_since := now |>
          else b
      | Level2 =>
          let elapsed := f64_sub now (level_since b) in
          if f64_geb elapsed LEVEL_2_MIN_DURATION_SECS && level_ltb new_level Level2
          then b <| level := level_max new_level Level1 |> <| level_since := now |>
          else b
      | Level1 =>
          match below_l1_since b with
          | Some below_since =>
              if f64_geb (f64_sub now below_since) LEVEL_1_COOLDOWN_SECS
              then b <| level := Normal |> <| level_since := now |>
              else b
          | None => b
          end
      | Normal => b
      end.

Definition check_transfer (b : CircuitBreaker) (amount circulating_supply : Z) : outcome unit :=
  match level b with
  | Normal => Ok tt
  | Level1 => Ok tt
  | Level2 =>
      if amount <=? SMALL_TRANSFER_LIMIT then Ok tt
      else
        let pause_threshold := U64.as_u64 (circulating_supply / 10000) in
        if pause_threshold <? amount then Err (ELedger "circuit breaker Level 2 (stress)")
        else Ok tt
  | Level3 =>
      if amount <=? MICRO_TRANSFER_LIMIT then Ok tt
      else Err (ELedger "circuit breaker Level 3 (crisis)")
  end.

Definition velocity_multiplier (b : CircuitBreaker) : f64 :=
  match level b with
  | Normal => f64_of_Z 1
  | Level1 => f64_lit 1 2
  | Level2 => f64_lit 1 2
  | Level3 => f64_0
  end.

Definition breaker_prune (now : f64) (b : CircuitBreaker) : CircuitBreaker :=
  let cutoff := f64_sub now VOLUME_WINDOW_SECS in
  b <| volume_entries ::= filter (fun e => younger cutoff e = true) |>.

(** A volume below three per cent calls for no level at all. *)
Lemma low_volume_target v c : 0 < c →
  U64.sat_mul128 v 100 <? U64.sat_mul128 c 3 = true → target_level v c = Normal.
Proof.
  intros Hc H. apply Z.ltb_lt in H. unfold target_level.
  assert (U64.sat_mul128 c 3 <= U64.sat_mul128 c 5 ∧ U64.sat_mul128 c 5 <= U64.sat_mul128 c 10)
    by (unfold U64.sat_mul128; lia).
  destruct (Z.leb_spec (U64.sat_mul128 c 10) (U64.sat_mul128 v 100)); [lia|].
  destruct (Z.leb_spec (U64.sat_mul128 c 5) (U64.sat_mul128 v 100)); [lia|].
  destruct (Z.leb_spec (U64.sat_mul128 c 3) (U64.sat_mul128 v 100)); [lia|done].
Qed.

(** ** Properties *)

(** The breaker escalates at once and steps down one level at a time, only
    after the level's minimum duration: after an update the level is at least
    what the volume calls for unless the breaker is above it already, and it
    falls by at most one level, from level 3 and 2 only when the time since the
    level was entered has passed the minimum, and from level 1 only when the
    volume has been low for the cool-down. *)
Theorem update_level_stepwise c now b :
  0 < c →
  let b' := update_level c now b in
  let target := target_level (volume_in_window b now) c in
  (breaker_as_u8 target <= breaker_as_u8 (level b')) ∧
  (breaker_as_u8 (level b) - 1 <= breaker_as_u8 (level b')) ∧
  (level_ltb (level b') (level b) = true →
     match level b with
     | Level3 => f64_geb (f64_sub now (level_since b)) LEVEL_3_MIN_DURATION_SECS = true
     | Level2 => f64_geb (f64_sub now (level_since b)) LEVEL_2_MIN_DURATION_SECS = true
     | Level1 => ∃ since, below_l1_since b' = Some since ∧
                   f64_geb (f64_sub now since) LEVEL_1_COOLDOWN_SECS = true
     | Normal => False
     end).
Proof.
  intros Hc. cbv zeta. unfold update_level.
  destruct (Z.eqb_spec c 0) as [|_]; [lia|].
  pose proof (low_volume_target (volume_in_window b now) c Hc) as Hlow.
  generalize dependent (target_level (volume_in_window b now) c). intros tgt Hlow.
  destruct b as [lv since below vol]. unfold level_ltb in *. cbn -[f64_geb f64_sub] in *.
  destruct (U64.sat_mul128 _ 100 <? U64.sat_mul128 c 3) eqn:Elow.
  - rewrite (Hlow eq_refl). clear Hlow Elow.
    destruct below as [below|], lv; cbn -[f64_geb f64_sub];
      repeat (case_match; cbn -[f64_geb f64_sub] in *);
      split_and!; try lia; intros; try done; try eauto.
  - clear Hlow Elow. destruct lv, tgt; cbn -[f64_geb f64_sub];
      repeat (case_match; cbn -[f64_geb f64_sub] in *);
      split_and!; try lia; intros; try done.
Qed.

Lemma update_level_stepwise_witness :
  3 <= breaker_as_u8 (level (update_level 100 (f64_of_Z 5)
         (record_volume 40 (f64_of_Z 5) breaker_new))).
Proof.
  eapply Z.le_trans; [|exact (proj1 (update_level_stepwise 100 (f64_of_Z 5)
    (record_volume 40 (f64_of_Z 5) breaker_new) eq_refl))].
  vm_compute. discriminate.
Defined.
