(* ===== verification/Custodial.v ===== *)
(** * Exchange classification

    src/src/accounting/custodial.rs: behavioural signals per identity, the
    integer score that classifies an identity as an exchange, and the
    restrictions that follow. *)

From S2P Require Import Prelude F64 Types.
Open Scope Z_scope.

Definition UNIQUE_COUNTERPARTY_THRESHOLD : Z := 100.
Definition VOLUME_STAKE_RATIO_THRESHOLD_INT : Z := 10.
Definition PTS_UNIQUE_INBOUND : Z := 20.
Definition PTS_UNIQUE_OUTBOUND : Z := 20.
Definition PTS_ZERO_PUBLICATIONS : Z := 15.
Definition PTS_ZERO_WITNESS : Z := 15.
Definition PTS_BALANCE_VOLATILITY : Z := 15.
Definition PTS_VOLUME_STAKE_RATIO : Z := 15.
Definition EXCHANGE_CLASSIFICATION_THRESHOLD_PTS : Z := 60.
Definition BALANCE_VOLATILITY_THRESHOLD : f64 := Eval vm_compute in f64_lit 1 2.
Definition VOLUME_STAKE_RATIO_THRESHOLD : f64 := Eval vm_compute in f64_of_Z 10.
Definition WEIGHT_UNIQUE_INBOUND : f64 := Eval vm_compute in f64_lit 20 100.
Definition WEIGHT_UNIQUE_OUTBOUND : f64 := Eval vm_compute in f64_lit 20 100.
Definition WEIGHT_ZERO_PUBLICATIONS : f64 := Eval vm_compute in f64_lit 15 100.
Definition WEIGHT_ZERO_WITNESS : f64 := Eval vm_compute in f64_lit 15 100.
Definition WEIGHT_BALANCE_VOLATILITY : f64 := Eval vm_compute in f64_lit 15 100.
Definition WEIGHT_VOLUME_STAKE_RATIO : f64 := Eval vm_compute in f64_lit 15 100.

Record ExchangeSignals := mkSignals {
  unique_inbound_30d : Z;
  unique_outbound_30d : Z;
  has_publications : bool;
  has_witness_activity : bool;
  balance_volatility : f64;
  volume_stake_ratio : f64;
}.

Definition compute_exchange_score (s : ExchangeSignals) : f64 :=
  let score := f64_0 in
  let score := if UNIQUE_COUNTERPARTY_THRESHOLD <? unique_inbound_30d s
               then f64_add score WEIGHT_UNIQUE_INBOUND else score in
  let score := if UNIQUE_COUNTERPARTY_THRESHOLD <? unique_outbound_30d s
               then f64_add score WEIGHT_UNIQUE_OUTBOUND else score in
  let score := if negb (has_publications s) then f64_add score WEIGHT_ZERO_PUBLICATIONS else score in
  let score := if negb (has_witness_activity s) then f64_add score WEIGHT_ZERO_WITNESS else score in
  let score := if f64_gtb (balance_volatility s) BALANCE_VOLATILITY_THRESHOLD
               then f64_add score WEIGHT_BALANCE_VOLATILITY else score in
  let score := if f64_gtb (volume_stake_ratio s) VOLUME_STAKE_RATIO_THRESHOLD
               then f64_add score WEIGHT_VOLUME_STAKE_RATIO else score in
  score.

Definition compute_exchange_score_pts (s : ExchangeSignals) : Z :=
  let pts := 0 in
  let pts := if UNIQUE_COUNTERPARTY_THRESHOLD <? unique_inbound_30d s
             then pts + PTS_UNIQUE_INBOUND else pts in
  let pts := if UNIQUE_COUNTERPARTY_THRESHOLD <? unique_outbound_30d s
             then pts + PTS_UNIQUE_OUTBOUND else pts in
  let pts := if negb (has_publications s) then pts + PTS_ZERO_PUBLICATIONS else pts in
  let pts := if negb (has_witness_activity s) then pts + PTS_ZERO_WITNESS else pts in
  let pts := if f64_gtb (balance_volatility s) BALANCE_VOLATILITY_THRESHOLD
             then pts + PTS_BALANCE_VOLATILITY else pts in
  let pts := if f64_gtb (volume_stake_ratio s) VOLUME_STAKE_RATIO_THRESHOLD
             then pts + PTS_VOLUME_STAKE_RATIO else pts in
  pts.

Definition is_exchange (s : ExchangeSignals) : bool :=
  EXCHANGE_CLASSIFICATION_THRESHOLD_PTS <=? compute_exchange_score_pts s.

Record ExchangeRestrictions := mkRestrictions {
  restr_velocity_multiplier : f64;
  governance_weight : f64;
  witness_eligible : bool;
  circuit_breaker_weight : f64;
  stake_reward_multiplier : f64;
}.
Definition restrictions_normal : ExchangeRestrictions :=
  mkRestrictions (f64_of_Z 1) (f64_of_Z 1) true (f64_of_Z 1) (f64_of_Z 1).
Definition restrictions_exchange : ExchangeRestrictions :=
  mkRestrictions (f64_lit 1 2) f64_0 false (f64_of_Z 2) f64_0.

(** ** Signals per identity *)

Record IdentitySignals := mkIdSignals {
  counterparties_in : gset string;
  counterparties_out : gset string;
  inbound_over : bool;
  outbound_over : bool;
  volume : Z;
  has_published : bool;
  has_witnessed : bool;
}.
Definition eta_signals (s : IdentitySignals) : IdentitySignals :=
  mkIdSignals (counterparties_in s) (counterparties_out s) (inbound_over s) (outbound_over s)
    (volume s) (has_published s) (has_witnessed s).
#[export] Hint Extern 0 (@Setter IdentitySignals _ _) => derive_setter eta_signals : typeclass_instances.

Definition signals_default : IdentitySignals := mkIdSignals ∅ ∅ false false 0 false false.

(** Once the threshold is passed the set is dropped and only the flag kept. *)
Definition add_inbound (from : string) (s : IdentitySignals) : IdentitySignals :=
  if inbound_over s then s
  else
    let cs := {[ from ]} ∪ counterparties_in s in
    if UNIQUE_COUNTERPARTY_THRESHOLD <? Z.of_nat (size cs)
    then s <| inbound_over := true |> <| counterparties_in := ∅ |>
    else s <| counterparties_in := cs |>.
Definition add_outbound (to : string) (s : IdentitySignals) : IdentitySignals :=
  if outbound_over s then s
  else
    let cs := {[ to ]} ∪ counterparties_out s in
    if UNIQUE_COUNTERPARTY_THRESHOLD <? Z.of_nat (size cs)
    then s <| outbound_over := true |> <| counterparties_out := ∅ |>
    else s <| counterparties_out := cs |>.
Definition inbound_count (s : IdentitySignals) : Z :=
  if inbound_over s then UNIQUE_COUNTERPARTY_THRESHOLD + 1
  else Z.of_nat (size (counterparties_in s)).
Definition outbound_count (s : IdentitySignals) : Z :=
  if outbound_over s then UNIQUE_COUNTERPARTY_THRESHOLD + 1
  else Z.of_nat (size (counterparties_out s)).

(** ** The classifier *)

Record ExchangeClassifier := mkClassifier {
  classifications : gmap string f64;
  confirmed_exchanges : gset string;
  tracked : gmap string IdentitySignals;
}.
Definition eta_classifier (c : ExchangeClassifier) : ExchangeClassifier :=
  mkClassifier (classifications c) (confirmed_exchanges c) (tracked c).
#[export] Hint Extern 0 (@Setter ExchangeClassifier _ _) => derive_setter eta_classifier : typeclass_instances.

Definition classifier_new : ExchangeClassifier := mkClassifier ∅ ∅ ∅.

Definition is_classified (c : ExchangeClassifier) (identity : string) : bool :=
  bool_decide (identity ∈ confirmed_exchanges c).

(** [tracked.entry(id).or_default()] changed by [f], unless already confirmed. *)
Definition track (identity : string) (f : IdentitySignals → IdentitySignals)
    (c : ExchangeClassifier) : ExchangeClassifier :=
  if is_classified c identity then c
  else c <| tracked ::= insert identity (f (default signals_default (tracked c !! identity))) |>.

Definition record_transfer (from to : string) (amount : Z) (c : ExchangeClassifier) : ExchangeClassifier :=
  let c := track from (fun s => add_outbound to s <| volume ::= fun v => U64.sat_add v amount |>) c in
  track to (fun s => add_inbound from s <| volume ::= fun v => U64.sat_add v amount |>) c.

Definition record_publication (identity : string) (c : ExchangeClassifier) : ExchangeClassifier :=
  track identity (fun s => s <| has_published := true |>) c.
Definition record_witness_activity (identity : string) (c : ExchangeClassifier) : ExchangeClassifier :=
  track identity (fun s => s <| has_witnessed := true |>) c.

Definition build_signals (c : ExchangeClassifier) (identity : string) (staked_amount : Z) :
    ExchangeSignals :=
  let s := tracked c !! identity in
  let inbound := from_option inbound_count 0 s in
  let outbound := from_option outbound_count 0 s in
  let vol := from_option volume 0 s in
  let above := f64_add VOLUME_STAKE_RATIO_THRESHOLD (f64_of_Z 1) in
  let vol_stake :=
    if 0 <? staked_amount then
      if U64.sat_mul128 VOLUME_STAKE_RATIO_THRESHOLD_INT staked_amount <? vol then above else f64_0
    else if 0 <? vol then above
    else f64_0 in
  mkSignals inbound outbound (from_option has_published false s)
    (from_option has_witnessed false s) f64_0 vol_stake.

Definition classify (identity : string) (signals : ExchangeSignals) (c : ExchangeClassifier) :
    f64 * ExchangeClassifier :=
  let score := compute_exchange_score signals in
  let c := c <| classifications ::= insert identity score |> in
  (score,
   if EXCHANGE_CLASSIFICATION_THRESHOLD_PTS <=? compute_exchange_score_pts signals
   then c <| confirmed_exchanges ::= union {[ identity ]} |> <| tracked ::= delete identity |>
   else c).

Definition reclassify (identity : string) (staked_amount : Z) (c : ExchangeClassifier) :
    f64 * ExchangeClassifier :=
  if is_classified c identity
  then (default (f64_of_Z 1) (classifications c !! identity), c)
  else classify identity (build_signals c identity staked_amount) c.

Definition classified_identities (c : ExchangeClassifier) : list string :=
  elements (confirmed_exchanges c).
Definition restrictions (c : ExchangeClassifier) (identity : string) : ExchangeRestrictions :=
  if is_classified c identity then restrictions_exchange else restrictions_normal.

(** ** Properties *)

(** Dropping the counterparty set once it passes the threshold loses nothing:
    after any sequence of inbound transfers the count the classifier reads is
    the number of distinct senders, cut off one above the threshold, so the
    "more than 100 counterparties" signal is exactly the one the full set would
    give. *)
Theorem inbound_count_exact (l : list string) :
  inbound_count (foldl (fun s f => add_inbound f s) signals_default l) =
  Z.min (UNIQUE_COUNTERPARTY_THRESHOLD + 1) (Z.of_nat (size (list_to_set l : gset string))).
Proof.
  assert (G : ∀ s seen,
    (if inbound_over s then UNIQUE_COUNTERPARTY_THRESHOLD < Z.of_nat (size seen)
     else counterparties_in s = seen ∧ Z.of_nat (size seen) <= UNIQUE_COUNTERPARTY_THRESHOLD) →
    inbound_count (foldl (fun s f => add_inbound f s) s l) =
    Z.min (UNIQUE_COUNTERPARTY_THRESHOLD + 1) (Z.of_nat (size (seen ∪ list_to_set l : gset string)))).
  { induction l as [|f l IH]; intros s seen H; simpl.
    - rewrite (right_id_L ∅ (∪)). unfold inbound_count.
      destruct (inbound_over s); [lia|]. destruct H as [-> H]. lia.
    - rewrite (assoc_L (∪)). apply IH. unfold add_inbound.
      rewrite (comm_L (∪) seen {[f]}).
      destruct (inbound_over s) eqn:Eo.
      + rewrite Eo. eapply Z.lt_le_trans; [exact H|]. apply inj_le, subseteq_size. set_solver.
      + destruct H as [-> H].
        destruct (Z.ltb_spec UNIQUE_COUNTERPARTY_THRESHOLD (Z.of_nat (size ({[f]} ∪ seen))));
          simpl; [done|]. by rewrite Eo. }
  rewrite (G _ ∅); [by rewrite (left_id_L ∅ (∪))|]. simpl.
  by vm_compute.
Qed.

(** Classification is sticky: no operation of the classifier takes an identity
    out of the confirmed set, and confirming one forgets its raw signals. *)
Theorem classification_sticky c identity other to amount stake sig :
  is_classified c identity = true →
  is_classified (record_transfer other to amount c) identity = true ∧
  is_classified (record_publication other c) identity = true ∧
  is_classified (record_witness_activity other c) identity = true ∧
  is_classified (reclassify other stake c).2 identity = true ∧
  is_classified (classify other sig c).2 identity = true ∧
  (is_exchange sig = true → tracked (classify other sig c).2 !! other = None).
Proof.
  intros H.
  assert (Ht : ∀ i f c', is_classified c' identity = true → is_classified (track i f c') identity = true)
    by (intros i f c' Hc'; unfold track; by case_match).
  assert (Hc : ∀ i sg, is_classified (classify i sg c).2 identity = true).
  { intros i sg. unfold classify, is_classified in *. simpl. case_match; [|done].
    apply bool_decide_eq_true in H. simpl. apply bool_decide_eq_true. set_solver. }
  split_and!.
  - unfold record_transfer. auto.
  - unfold record_publication. auto.
  - unfold record_witness_activity. auto.
  - unfold reclassify. case_match; [done|auto].
  - auto.
  - unfold is_exchange, classify. intros ->. simpl. apply lookup_delete_eq.
Qed.

Lemma classification_sticky_witness :
  is_classified (record_publication "b" (mkClassifier ∅ {["a"]} ∅)) "a" = true.
Proof.
  apply (classification_sticky (mkClassifier ∅ {["a"]} ∅) "a" "b" "c" 1 1
    (mkSignals 0 0 true true f64_0 f64_0)). reflexivity.
Defined.
