(* ===== verification/IdleDecay.v ===== *)
(** * Custodial idle decay

    src/src/accounting/idle_decay.rs: the flow trackers of classified
    exchanges, the integer churn measure and rate tiers, the per-epoch
    assessment, and the frozen batch that the ledger applies. *)

From S2P Require Import Prelude F64 Types Acquisition.
Open Scope Z_scope.

Definition CHURN_WINDOW_SECS : f64 := Eval vm_compute in f64_of_Z (7 * 86400).
Definition MIN_IDLE_DECAY_BALANCE : Z := BASE_UNITS_PER_BEAT.
Definition IDLE_DECAY_Q : Z := 1000000000.
Definition SECS_PER_DAY : Z := 86400.
Definition RATE_QUIET_PPB : Z := 50000.
Definition RATE_ACTIVE_PPB : Z := 100000.
Definition RATE_HEAVY_PPB : Z := 500000.
Definition RATE_PUMP_DUMP_PPB : Z := 1500000.
Definition RATE_EXTREME_PPB : Z := 3000000.
Definition CHURN_TIER_1_Q : Z := 300000000.
Definition CHURN_TIER_2_Q : Z := 700000000.
Definition CHURN_TIER_3_Q : Z := 1500000000.
Definition CHURN_TIER_4_Q : Z := 3000000000.

Inductive ChurnTier := Quiet | ActiveTier | Heavy | PumpDump | Extreme.

Definition from_churn_q (churn_q : Z) : ChurnTier :=
  if churn_q <? CHURN_TIER_1_Q then Quiet
  else if churn_q <? CHURN_TIER_2_Q then ActiveTier
  else if churn_q <? CHURN_TIER_3_Q then Heavy
  else if churn_q <? CHURN_TIER_4_Q then PumpDump
  else Extreme.

Definition daily_rate_ppb (t : ChurnTier) : Z :=
  match t with
  | Quiet => RATE_QUIET_PPB
  | ActiveTier => RATE_ACTIVE_PPB
  | Heavy => RATE_HEAVY_PPB
  | PumpDump => RATE_PUMP_DUMP_PPB
  | Extreme => RATE_EXTREME_PPB
  end.

(** The display-only twin of the rate. *)
Definition daily_rate (t : ChurnTier) : f64 :=
  match t with
  | Quiet => f64_lit 5 100000
  | ActiveTier => f64_lit 10 100000
  | Heavy => f64_lit 50 100000
  | PumpDump => f64_lit 150 100000
  | Extreme => f64_lit 300 100000
  end.

(** ** Flow trackers *)

Record FlowTracker := mkFlow {
  flow_inflows : list entry;
  flow_outflows : list entry;
  balance_snapshots : list entry;
}.
Definition eta_flow (t : FlowTracker) : FlowTracker :=
  mkFlow (flow_inflows t) (flow_outflows t) (balance_snapshots t).
#[export] Hint Extern 0 (@Setter FlowTracker _ _) => derive_setter eta_flow : typeclass_instances.
Definition flow_default : FlowTracker := mkFlow [] [] [].

Definition entry_count (t : FlowTracker) : nat :=
  length (flow_inflows t) + length (flow_outflows t) + length (balance_snapshots t).

(** Entries at or after the cutoff. *)
Definition since (cutoff : f64) (l : list entry) : list entry :=
  filter (fun e => f64_geb e.1 cutoff = true) l.

Definition flow_prune (now : f64) (t : FlowTracker) : FlowTracker :=
  let cutoff := f64_sub now CHURN_WINDOW_SECS in
  mkFlow (since cutoff (flow_inflows t)) (since cutoff (flow_outflows t))
         (since cutoff (balance_snapshots t)).

(** Sums of [u64] entries in [u128]: a vector has fewer than [2^63] entries, so
    the exact sum is in range. *)
Definition churn_q (t : FlowTracker) (now : f64) : Z :=
  let cutoff := f64_sub now CHURN_WINDOW_SECS in
  let relevant := since cutoff (balance_snapshots t) in
  let sum_balances := zsum relevant.*2 in
  let count := Z.of_nat (length relevant) in
  if (sum_balances =? 0) || (count =? 0) then 0
  else
    let total_flow := zsum (since cutoff (flow_inflows t)).*2
                      + zsum (since cutoff (flow_outflows t)).*2 in
    U64.sat_mul128 (U64.sat_mul128 total_flow count) IDLE_DECAY_Q / sum_balances.

Record IdleDecayAssessment := mkAssessment {
  as_identity : string;
  as_churn_ratio : f64;
  as_tier : ChurnTier;
  as_daily_rate : f64;
  as_is_registered : bool;
  idle_decay_micros : Z;
  pool_micros : Z;
  staker_micros : Z;
}.

(** ** Batches *)

Record IdleDecayBatch := mkDecayBatch {
  batch_epoch : Z;
  batch_zone : string;
  debits : list (string * Z);
  pool_credit : Z;
  staker_credits : list (string * Z);
}.

Definition total_debit (b : IdleDecayBatch) : Z := zsum (debits b).*2.
Definition total_staker_credit (b : IdleDecayBatch) : Z := zsum (staker_credits b).*2.
Definition total_credit (b : IdleDecayBatch) : Z := pool_credit b + total_staker_credit b.
Definition is_conserved (b : IdleDecayBatch) : bool := total_debit b =? total_credit b.

(** ** State *)

Record IdleDecayState := mkIdleDecay {
  trackers : gmap string FlowTracker;
  registered : gset string;
  last_assessed : gmap string f64;
  total_collected : Z;
  total_pooled : Z;
  total_distributed : Z;
}.
Definition eta_idle (s : IdleDecayState) : IdleDecayState :=
  mkIdleDecay (trackers s) (registered s) (last_assessed s) (total_collected s)
    (total_pooled s) (total_distributed s).
#[export] Hint Extern 0 (@Setter IdleDecayState _ _) => derive_setter eta_idle : typeclass_instances.
Definition idle_decay_new : IdleDecayState := mkIdleDecay ∅ ∅ ∅ 0 0 0.

(** [tracker_mut(identity)], changed by [f]. *)
Definition tracker_mut (identity : string) (f : FlowTracker → FlowTracker) (s : IdleDecayState) :
    IdleDecayState :=
  s <| trackers ::= insert identity (f (default flow_default (trackers s !! identity))) |>.

Definition idle_record_inflow (identity : string) (amount : Z) (now : f64) : IdleDecayState → IdleDecayState :=
  tracker_mut identity (fun t => t <| flow_inflows ::= fun l => l ++ [(now, amount)] |>).
Definition idle_record_outflow (identity : string) (amount : Z) (now : f64) : IdleDecayState → IdleDecayState :=
  tracker_mut identity (fun t => t <| flow_outflows ::= fun l => l ++ [(now, amount)] |>).
Definition idle_record_balance (identity : string) (balance : Z) (now : f64) : IdleDecayState → IdleDecayState :=
  tracker_mut identity (fun t => t <| balance_snapshots ::= fun l => l ++ [(now, balance)] |>).

Definition register_exchange (identity : string) (s : IdleDecayState) : IdleDecayState :=
  s <| registered ::= union {[ identity ]} |>.
Definition revoke_registration (identity : string) (s : IdleDecayState) : IdleDecayState :=
  s <| registered ::= fun r => r ∖ {[ identity ]} |>.

Definition assess_amount (s : IdleDecayState) (identity : string) (balance duration_secs : Z)
    (now : f64) : option IdleDecayAssessment :=
  if (balance <? MIN_IDLE_DECAY_BALANCE) || (duration_secs =? 0) then None
  else
    tracker ← trackers s !! identity;
    let churn := churn_q tracker now in
    let tier := from_churn_q churn in
    let is_registered := bool_decide (identity ∈ registered s) in
    let rate_ppb := if is_registered then RATE_QUIET_PPB else daily_rate_ppb tier in
    let idle_decay :=
      U64.as_u64 (U64.sat_mul128 (U64.sat_mul128 balance rate_ppb) duration_secs
                  / U64.sat_mul128 IDLE_DECAY_Q SECS_PER_DAY) in
    let pool := idle_decay / 2 in
    let staker := idle_decay - pool in
    Some (mkAssessment identity (f64_div (f64_of_Z churn) (f64_of_Z IDLE_DECAY_Q)) tier
      (if is_registered then f64_lit 5 100000 else daily_rate tier) is_registered
      idle_decay pool staker).

(** [assess]: the amount, with the lifetime counters advanced. *)
Definition assess (identity : string) (balance duration_secs : Z) (now : f64) :
    M IdleDecayState (option IdleDecayAssessment) :=
  s ← get;
  match assess_amount s identity balance duration_secs now with
  | None => mret None
  | Some a =>
      c ← add_u64 (total_collected s) (idle_decay_micros a);
      p ← add_u64 (total_pooled s) (pool_micros a);
      d ← add_u64 (total_distributed s) (staker_micros a);
      modify (fun s => s <| total_collected := c |> <| total_pooled := p |>
                         <| total_distributed := d |> <| last_assessed ::= insert identity now |>);;
      mret (Some a)
  end.

Definition note_applied_batch (collected pooled distributed : Z) : M IdleDecayState unit :=
  s ← get;
  c ← add_u64 (total_collected s) collected;
  p ← add_u64 (total_pooled s) pooled;
  d ← add_u64 (total_distributed s) distributed;
  modify (fun s => s <| total_collected := c |> <| total_pooled := p |> <| total_distributed := d |>).

Definition prune_all (now : f64) (s : IdleDecayState) : IdleDecayState :=
  s <| trackers ::= fmap (flow_prune now) |>.

Definition tracker_count (s : IdleDecayState) (identity : string) : nat :=
  from_option entry_count 0%nat (trackers s !! identity).
