(* ===== verification/CrossZone.v ===== *)
(** * Cross-zone transfers

    src/src/accounting/cross_zone.rs: the two-phase transfer of funds between
    zones.  A transfer is [Locked] and leaves that state exactly once, to
    [Claimed], [Refunded] or [Aborted]; claims and aborts need a Merkle inclusion
    proof and a two-thirds quorum of committee signatures.  Zones are their path
    strings (crates/elara-record/src/zone_id.rs). *)

From Stdlib Require Import Strings.Ascii.
From S2P Require Import Prelude F64 Types.
Open Scope Z_scope.

Definition hash := list byte.
Definition zero_hash : hash := replicate 32 x00.

Definition CLAIM_TIMEOUT_SECS : f64 := Eval vm_compute in f64_of_Z (24 * 3600).
Definition REAP_HORIZON_SECS : f64 := Eval vm_compute in f64_of_Z (30 * 24 * 3600).
Definition XZONE_FINALITY_DOMAIN : list byte := bytes_of "ELARA/XZONE_SEAL_FINALITY/v1".
Definition XZONE_ABORT_DOMAIN : list byte := bytes_of "ELARA/XZONE_ABORT/v1".
Definition COMMITTEE_FOLD_V2_NODE_TAG : list byte := bytes_of "ELARA/COMMITTEE_NODE/v1".
Definition FOLD_V2_MIN_WIRE_VERSION : Z := 7.
Definition SEAL_FOLD_V2_NODE_TAG : list byte := bytes_of "ELARA_SEAL_MERKLE_NODE_V1".

(** ** Zones *)

(** [trim_end_matches('/')] *)
Fixpoint trim_end_slashes (s : string) : string :=
  match s with
  | EmptyString => EmptyString
  | String c s =>
      match trim_end_slashes s with
      | EmptyString => if Ascii.eqb c "/"%char then EmptyString else String c EmptyString
      | s' => String c s'
      end
  end.

Definition zone_new `{Externals} (path : string) : string :=
  let normalized := trim_end_slashes (to_lowercase (trim path)) in
  if decide (normalized = EmptyString) then "default" else normalized.

(** ** Data *)

Record ProofSibling := mkSibling { sib_hash : hash; is_right : bool }.
#[global] Instance ProofSibling_eq_dec : EqDecision ProofSibling.
Proof. solve_decision. Defined.

Record SealFinalityWitness := mkWitness {
  witness_pk : list byte;
  signature : list byte;
  committee_proof : list ProofSibling;
}.
#[global] Instance SealFinalityWitness_eq_dec : EqDecision SealFinalityWitness.
Proof. solve_decision. Defined.

Inductive TransferStatus := Locked | Claimed | Refunded | Aborted.
#[global] Instance TransferStatus_eq_dec : EqDecision TransferStatus.
Proof. solve_decision. Defined.

Record PendingTransfer := mkTransfer {
  transfer_id : string;
  sender : string;
  recipient : string;
  amount : Z;
  source_zone : string;
  dest_zone : string;
  locked_at : f64;
  expires_at : f64;
  status : TransferStatus;
  merkle_proof : list ProofSibling;
  source_seal_wire_version : Z;
  lock_record_hash : hash;
  source_merkle_root : hash;
  source_seal_signers : list SealFinalityWitness;
  source_committee_hash : hash;
  source_seal_epoch : Z;
  source_committee_size : Z;
  dest_finality_committee : option (hash * Z);
  claim_record_id : option string;
}.
Definition eta_transfer (t : PendingTransfer) : PendingTransfer :=
  mkTransfer (transfer_id t) (sender t) (recipient t) (amount t) (source_zone t) (dest_zone t)
    (locked_at t) (expires_at t) (status t) (merkle_proof t) (source_seal_wire_version t)
    (lock_record_hash t) (source_merkle_root t) (source_seal_signers t)
    (source_committee_hash t) (source_seal_epoch t) (source_committee_size t)
    (dest_finality_committee t) (claim_record_id t).
#[export] Hint Extern 0 (@Setter PendingTransfer _ _) => derive_setter eta_transfer : typeclass_instances.

Record XZoneRefundBatch := mkRefundBatch {
  refund_epoch : Z;
  refund_zone : string;
  refunds : list (string * string * Z);
}.
Definition total_refund (b : XZoneRefundBatch) : Z := foldr Z.add 0 (refunds b).*2.

Record CrossZoneState := mkCrossZone {
  pending : gmap string PendingTransfer;
  total_locked : Z;
  claim_finality_enforced_total : Z;
  claim_finality_legacy_total : Z;
  locked_count : Z;
  claimed_count : Z;
  refunded_count : Z;
  aborted_count : Z;
  needs_proof_index : gmap hash (list string);
}.
Definition eta_crosszone (s : CrossZoneState) : CrossZoneState :=
  mkCrossZone (pending s) (total_locked s) (claim_finality_enforced_total s)
    (claim_finality_legacy_total s) (locked_count s) (claimed_count s) (refunded_count s)
    (aborted_count s) (needs_proof_index s).
#[export] Hint Extern 0 (@Setter CrossZoneState _ _) => derive_setter eta_crosszone : typeclass_instances.

Definition crosszone_new : CrossZoneState := mkCrossZone ∅ 0 0 0 0 0 0 0 ∅.

(** Not yet committed to an epoch seal. *)
Definition unsealed (t : PendingTransfer) : bool := bool_decide (merkle_proof t = []).
Definition is_locked (t : PendingTransfer) : bool := bool_decide (status t = Locked).

(** ** The index of locks that wait for a proof *)

Definition needs_proof_ids (s : CrossZoneState) (h : hash) : list string :=
  default [] (needs_proof_index s !! h).

Definition index_needs_proof (h : hash) (tid : string) (s : CrossZoneState) : CrossZoneState :=
  let ids := needs_proof_ids s h in
  s <| needs_proof_index ::=
        insert h (if bool_decide (tid ∈ ids) then ids else ids ++ [tid]) |>.

Definition unindex_needs_proof (h : hash) (tid : string) (s : CrossZoneState) : CrossZoneState :=
  match needs_proof_index s !! h with
  | Some ids =>
      let ids := filter (fun t => t ≠ tid) ids in
      if bool_decide (ids = []) then s <| needs_proof_index ::= delete h |>
      else s <| needs_proof_index ::= insert h ids |>
  | None => s
  end.

Definition count_status (st : TransferStatus) (ts : list PendingTransfer) : Z :=
  Z.of_nat (length (filter (fun t => status t = st) ts)).

(** [recount_status]: the counters and the index from [pending] alone. *)
Definition recount_status (s : CrossZoneState) : CrossZoneState :=
  let ts := (map_to_list (pending s)).*2 in
  let index := foldl (fun m t =>
      if is_locked t && unsealed t
      then <[lock_record_hash t := default [] (m !! lock_record_hash t) ++ [transfer_id t]]> m
      else m) ∅ ts in
  s <| locked_count := count_status Locked ts |>
    <| claimed_count := count_status Claimed ts |>
    <| refunded_count := count_status Refunded ts |>
    <| aborted_count := count_status Aborted ts |>
    <| needs_proof_index := index |>.

(** ** Inclusion proofs *)

Section crypto.
Context `{Externals}.

(** One level of the fold: the tag (empty in the first version) and the two
    children in order. *)
Definition fold_node (tag : list byte) (current : hash) (sib : ProofSibling) : hash :=
  sha3_256 (tag ++ (if is_right sib then current ++ sib_hash sib else sib_hash sib ++ current)).

Definition inclusion_fold_v1 (leaf : hash) (proof : list ProofSibling) (expected_root : hash) : bool :=
  bool_decide (foldl (fold_node []) leaf proof = expected_root).
Definition inclusion_fold_v2 (tag : list byte) (leaf : hash) (proof : list ProofSibling)
    (expected_root : hash) : bool :=
  bool_decide (foldl (fold_node tag) leaf proof = expected_root).

Definition verify_seal_inclusion_proof (seal_wire_version : Z) (leaf : hash)
    (proof : list ProofSibling) (expected_root : hash) : bool :=
  if FOLD_V2_MIN_WIRE_VERSION <=? seal_wire_version
  then inclusion_fold_v2 SEAL_FOLD_V2_NODE_TAG leaf proof expected_root
  else inclusion_fold_v1 leaf proof expected_root.
Definition verify_committee_inclusion_proof (seal_wire_version : Z) (leaf : hash)
    (proof : list ProofSibling) (expected_root : hash) : bool :=
  if FOLD_V2_MIN_WIRE_VERSION <=? seal_wire_version
  then inclusion_fold_v2 COMMITTEE_FOLD_V2_NODE_TAG leaf proof expected_root
  else inclusion_fold_v1 leaf proof expected_root.

Definition committee_leaf_hash (pk : list byte) : hash :=
  sha3_256 (bytes_of "ELARA/COMMITTEE_LEAF/v1" ++ pk).

Definition xzone_finality_signable_bytes (zone : string) (seal_epoch : Z)
    (merkle_root committee_hash : hash) : list byte :=
  XZONE_FINALITY_DOMAIN
  ++ be_bytes 4 (Z.of_nat (length (bytes_of zone)) mod 2 ^ 32) ++ bytes_of zone
  ++ be_bytes 8 seal_epoch ++ merkle_root ++ committee_hash.

Definition xzone_abort_signable_bytes (tid zone : string) (seal_epoch : Z)
    (dest_committee_hash : hash) : list byte :=
  XZONE_ABORT_DOMAIN
  ++ be_bytes 4 (Z.of_nat (length (bytes_of tid)) mod 2 ^ 32) ++ bytes_of tid
  ++ be_bytes 4 (Z.of_nat (length (bytes_of zone)) mod 2 ^ 32) ++ bytes_of zone
  ++ be_bytes 8 seal_epoch ++ dest_committee_hash.

(** The keys of the signers that count: in the committee, signature valid,
    counted once. *)
Definition count_signer (version : Z) (msg committee_hash : list byte)
    (verified : gset (list byte)) (w : SealFinalityWitness) : gset (list byte) :=
  if bool_decide (witness_pk w ∈ verified) then verified
  else if negb (verify_committee_inclusion_proof version (committee_leaf_hash (witness_pk w))
                  (committee_proof w) committee_hash) then verified
  else if negb (sig_verify msg (signature w) (witness_pk w)) then verified
  else {[ witness_pk w ]} ∪ verified.
Definition verified_signers (version : Z) (msg committee_hash : list byte)
    (signers : list SealFinalityWitness) : gset (list byte) :=
  foldl (count_signer version msg committee_hash) ∅ signers.

Definition verify_finality_quorum (version : Z) (zone : string) (seal_epoch : Z)
    (merkle_root committee_hash : hash) (committee_size : Z)
    (signers : list SealFinalityWitness) : outcome unit :=
  if committee_size =? 0
  then Err (EWire "xzone finality: committee_size must be > 0 to enforce quorum")
  else
    let msg := xzone_finality_signable_bytes zone seal_epoch merkle_root committee_hash in
    let n := Z.of_nat (size (verified_signers version msg committee_hash signers)) in
    if U64.sat_mul128 n 3 <? U64.sat_mul128 committee_size 2
    then Err (EWire "xzone finality: need 2/3 of committee")
    else Ok tt.

Definition verify_abort_quorum (version : Z) (tid zone : string) (source_seal_epoch : Z)
    (dest_committee_hash : hash) (dest_committee_size : Z)
    (signers : list SealFinalityWitness) (anchored : option (hash * Z)) : outcome unit :=
  match anchored with
  | None => Err (EWire "xzone abort: no sealed dest-committee anchor for transfer")
  | Some (canon_hash, canon_size) =>
      if bool_decide (dest_committee_hash ≠ canon_hash)
      then Err (EWire "xzone abort: dest_committee_hash does not match")
      else if negb (dest_committee_size =? canon_size)
      then Err (EWire "xzone abort: dest_committee_size does not match")
      else if canon_size =? 0
      then Err (EWire "xzone abort: dest_committee_size must be > 0 to enforce quorum")
      else
        let msg := xzone_abort_signable_bytes tid zone source_seal_epoch canon_hash in
        let n := Z.of_nat (size (verified_signers version msg canon_hash signers)) in
        if U64.sat_mul128 n 3 <? U64.sat_mul128 canon_size 2
        then Err (EWire "xzone abort: need 2/3 of dest committee")
        else Ok tt
  end.

(** ** Transitions *)

Definition lock_transfer (tid sender_ recipient_ : string) (amount_ : Z)
    (source dest : string) (timestamp : f64) (lock_hash : hash) : M CrossZoneState unit :=
  s ← get;
  if bool_decide (is_Some (pending s !! tid)) then throw (ELedger "cross-zone transfer already exists")
  else if amount_ =? 0 then throw (ELedger "cross-zone transfer amount must be > 0")
  else if bool_decide (source = dest)
  then throw (ELedger "cross-zone transfer source and dest must differ")
  else
    let transfer := mkTransfer tid sender_ recipient_ amount_ source dest timestamp
      (f64_add timestamp CLAIM_TIMEOUT_SECS) Locked [] 0 lock_hash zero_hash [] zero_hash 0 0
      None None in
    modify (fun s => s <| total_locked ::= fun v => U64.sat_add v amount_ |>);;
    modify (index_needs_proof lock_hash tid);;
    modify (fun s => s <| pending ::= insert tid transfer |>);;
    n ← add_u64 (locked_count s) 1;
    modify (fun s => s <| locked_count := n |>).

(** [pending.get_mut(id).ok_or_else(..)?] *)
Definition get_transfer (tid : string) : M CrossZoneState PendingTransfer :=
  s ← get;
  ok_or (pending s !! tid) (ELedger "cross-zone transfer not found").
Definition put_transfer (tid : string) (t : PendingTransfer) : M CrossZoneState unit :=
  modify (fun s => s <| pending ::= insert tid t |>).

(** What every release does: the status changes, the amount leaves the locked
    total and the locked counter. *)
Definition release (tid : string) (t : PendingTransfer) (st : TransferStatus) : M CrossZoneState unit :=
  put_transfer tid (t <| status := st |>);;
  modify (fun s => s <| total_locked ::= fun v => U64.sat_sub v (amount t) |>
                     <| locked_count ::= fun v => U64.sat_sub v 1 |>).

Definition claim_transfer (tid claimer claim_id : string) (timestamp : f64) :
    M CrossZoneState PendingTransfer :=
  t ← get_transfer tid;
  if negb (is_locked t) then throw (ELedger "transfer is not Locked")
  else if bool_decide (claimer ≠ recipient t) then throw (ELedger "claimer is not the recipient")
  else if f64_gtb timestamp (expires_at t) then throw (ELedger "transfer has expired")
  else if unsealed t then throw (ELedger "transfer lock not yet committed to epoch seal")
  else if negb (verify_seal_inclusion_proof (source_seal_wire_version t) (lock_record_hash t)
                  (merkle_proof t) (source_merkle_root t))
  then throw (ELedger "transfer merkle proof invalid (root mismatch)")
  else match verify_finality_quorum (source_seal_wire_version t) (source_zone t)
               (source_seal_epoch t) (source_merkle_root t) (source_committee_hash t)
               (source_committee_size t) (source_seal_signers t) with
       | Ok _ =>
           let result := t <| status := Claimed |> <| claim_record_id := Some claim_id |> in
           release tid (t <| claim_record_id := Some claim_id |>) Claimed;;
           s ← get;
           n ← add_u64 (claimed_count s) 1;
           modify (fun s => s <| claimed_count := n |>);;
           m ← add_u64 (claim_finality_enforced_total s) 1;
           modify (fun s => s <| claim_finality_enforced_total := m |>);;
           mret result
       | _ => throw (ELedger "transfer seal not finalized in source zone")
       end.

Definition set_proof (tid : string) (proof : list ProofSibling) (merkle_root : hash)
    (seal_wire_version : Z) : M CrossZoneState unit :=
  t ← get_transfer tid;
  if negb (is_locked t) then throw (ELedger "transfer is not Locked, cannot attach proof")
  else
    put_transfer tid (t <| merkle_proof := proof |> <| source_merkle_root := merkle_root |>
                        <| source_seal_wire_version := seal_wire_version |>);;
    modify (unindex_needs_proof (lock_record_hash t) tid).

Definition set_finality_witnesses (tid : string) (signers : list SealFinalityWitness)
    (committee_hash : hash) (seal_epoch committee_size : Z) : M CrossZoneState unit :=
  t ← get_transfer tid;
  if negb (is_locked t) then throw (ELedger "transfer is not Locked, cannot attach finality witnesses")
  else
    put_transfer tid (t <| source_seal_signers := signers |>
                        <| source_committee_hash := committee_hash |>
                        <| source_seal_epoch := seal_epoch |>
                        <| source_committee_size := committee_size |>).

Definition bump_refunded : M CrossZoneState unit :=
  s ← get;
  n ← add_u64 (refunded_count s) 1;
  modify (fun s => s <| refunded_count := n |>).

Definition cancel_transfer (tid canceller : string) : M CrossZoneState (string * string * Z) :=
  t ← get_transfer tid;
  if negb (is_locked t) then throw (ELedger "transfer is not Locked, cannot cancel")
  else if bool_decide (canceller ≠ sender t) then throw (ELedger "canceller is not the sender")
  else if negb (unsealed t) then throw (ELedger "transfer already sealed in source zone")
  else
    release tid t Refunded;;
    bump_refunded;;
    modify (unindex_needs_proof (lock_record_hash t) tid);;
    mret (transfer_id t, sender t, amount t).

Definition abort_transfer (tid : string) : M CrossZoneState (string * string * Z) :=
  t ← get_transfer tid;
  if negb (is_locked t) then throw (ELedger "transfer is not Locked, cannot abort")
  else if unsealed t || (source_seal_epoch t =? 0) then throw (ELedger "transfer is not sealed yet")
  else
    release tid t Aborted;;
    s ← get;
    n ← add_u64 (aborted_count s) 1;
    modify (fun s => s <| aborted_count := n |>);;
    mret (transfer_id t, sender t, amount t).

Definition reject_transfer (tid rejector : string) : M CrossZoneState (string * string * Z) :=
  t ← get_transfer tid;
  if negb (is_locked t) then throw (ELedger "transfer is not Locked, cannot reject")
  else if bool_decide (rejector ≠ recipient t) then throw (ELedger "rejector is not the recipient")
  else if negb (unsealed t) then throw (ELedger "transfer already sealed in source zone")
  else
    release tid t Refunded;;
    bump_refunded;;
    modify (unindex_needs_proof (lock_record_hash t) tid);;
    mret (transfer_id t, sender t, amount t).

(** ** Expiry and batches *)

Definition expired_unsealed (now : f64) (t : PendingTransfer) : bool :=
  is_locked t && f64_gtb now (expires_at t) && unsealed t.
Definition stale_sealed (now : f64) (t : PendingTransfer) : bool :=
  is_locked t && negb (unsealed t) && f64_gtb now (f64_add (expires_at t) REAP_HORIZON_SECS).
Definition refund_of (t : PendingTransfer) : string * string * Z :=
  (transfer_id t, sender t, amount t).

Definition expire (now : f64) (t : PendingTransfer) : PendingTransfer :=
  if expired_unsealed now t then t <| status := Refunded |> else t.

Definition process_expired (now : f64) : M CrossZoneState (list (string * string * Z)) :=
  s ← get;
  let expired := filter (fun t => expired_unsealed now t = true) (map_to_list (pending s)).*2 in
  modify (fun s => s
    <| pending ::= fmap (expire now) |>
    <| total_locked ::= fun v => foldl U64.sat_sub v (amount <$> expired) |>);;
  let n := Z.of_nat (length expired) in
  modify (fun s => s <| locked_count ::= fun v => U64.sat_sub v n |>);;
  r ← add_u64 (refunded_count s) n;
  modify (fun s => s <| refunded_count := r |>);;
  modify (fun s => foldl (fun s t => unindex_needs_proof (lock_record_hash t) (transfer_id t) s) s expired);;
  mret (refund_of <$> expired).

(** Sorted by transfer id. *)
Definition refund_le (a b : string * string * Z) : Prop := String.leb a.1.1 b.1.1 = true.
#[local] Instance refund_le_dec : RelDecision refund_le.
Proof. intros a b. unfold refund_le. apply _. Defined.
Definition sort_refunds (l : list (string * string * Z)) : list (string * string * Z) :=
  merge_sort refund_le l.
Definition batch_of (keep : PendingTransfer → bool) (s : CrossZoneState) (epoch : Z) (zone : string) :
    option XZoneRefundBatch :=
  let rs := refund_of <$> filter (fun t => keep t = true) (map_to_list (pending s)).*2 in
  if bool_decide (rs = []) then None else Some (mkRefundBatch epoch zone (sort_refunds rs)).
Definition compute_expired_refund_batch (s : CrossZoneState) (now : f64) (epoch : Z) (zone : string) :=
  batch_of (expired_unsealed now) s epoch zone.
Definition compute_stale_reap_batch (s : CrossZoneState) (now : f64) (epoch : Z) (zone : string) :=
  batch_of (stale_sealed now) s epoch zone.

(** One entry of a refund batch: only a transfer that is still locked and
    unsealed is released, for the amount and to the sender of the live entry. *)
Definition apply_refund_entry (e : string * string * Z) : M CrossZoneState (list (string * Z)) :=
  let tid := e.1.1 in
  s ← get;
  match pending s !! tid with
  | Some t =>
      if is_locked t && unsealed t then
        release tid t Refunded;;
        bump_refunded;;
        modify (unindex_needs_proof (lock_record_hash t) tid);;
        mret [(sender t, amount t)]
      else mret []
  | None => mret []
  end.
Definition apply_reap_entry (e : string * string * Z) : M CrossZoneState (list (string * Z)) :=
  let tid := e.1.1 in
  s ← get;
  match pending s !! tid with
  | Some t =>
      if is_locked t && negb (unsealed t) then
        release tid t Refunded;;
        bump_refunded;;
        mret [(sender t, amount t)]
      else mret []
  | None => mret []
  end.
Fixpoint apply_entries (f : string * string * Z → M CrossZoneState (list (string * Z)))
    (l : list (string * string * Z)) : M CrossZoneState (list (string * Z)) :=
  match l with
  | [] => mret []
  | e :: l => applied ← f e; rest ← apply_entries f l; mret (applied ++ rest)
  end.
Definition apply_refund_batch (b : XZoneRefundBatch) : M CrossZoneState (list (string * Z)) :=
  apply_entries apply_refund_entry (refunds b).
Definition apply_reap_batch (b : XZoneRefundBatch) : M CrossZoneState (list (string * Z)) :=
  apply_entries apply_reap_entry (refunds b).

Definition prune_completed (cutoff : f64) : M CrossZoneState nat :=
  s ← get;
  let keep (t : PendingTransfer) := is_locked t || f64_gtb (locked_at t) cutoff in
  let dropped := filter (fun t => keep t = false) (map_to_list (pending s)).*2 in
  modify (fun s => s
    <| pending ::= filter (fun kv => keep kv.2 = true) |>
    <| claimed_count ::= fun v => U64.sat_sub v (count_status Claimed dropped) |>
    <| refunded_count ::= fun v => U64.sat_sub v (count_status Refunded dropped) |>
    <| aborted_count ::= fun v => U64.sat_sub v (count_status Aborted dropped) |>);;
  s' ← get;
  mret (size (pending s) - size (pending s'))%nat.

(** ** Reading the state *)

Definition count_if (p : PendingTransfer → bool) (s : CrossZoneState) : Z :=
  Z.of_nat (length (filter (fun t => p t = true) (map_to_list (pending s)).*2)).
Definition locked_past_expiry_count (s : CrossZoneState) (now : f64) : Z :=
  count_if (fun t => is_locked t && f64_gtb now (expires_at t)) s.
Definition sealed_locked_past_expiry_count (s : CrossZoneState) (now : f64) : Z :=
  count_if (fun t => is_locked t && f64_gtb now (expires_at t) && negb (unsealed t)) s.
Definition pending_abort_candidates (s : CrossZoneState) (my_zone : string) (now : f64) :
    list PendingTransfer :=
  filter (fun t => is_locked t && bool_decide (dest_zone t = my_zone) && negb (unsealed t)
                   && f64_gtb now (expires_at t) = true) (map_to_list (pending s)).*2.
Definition oldest_locked_age_secs (s : CrossZoneState) (now : f64) : Z :=
  foldr Z.max 0 ((fun t => f64_as_uint 64 (f64_max (f64_sub now (locked_at t)) f64_0))
                 <$> filter (fun t => is_locked t = true) (map_to_list (pending s)).*2).

(** ** Transfer bundles *)

Record XZoneTransferBundle := mkBundle {
  b_transfer_id : string;
  b_sender : string;
  b_recipient : string;
  b_amount : Z;
  b_source_zone : string;
  b_dest_zone : string;
  b_lock_record_hash : hash;
  b_merkle_proof : list ProofSibling;
  b_source_merkle_root : hash;
  b_source_seal_epoch : Z;
  b_source_committee_hash : hash;
  b_source_committee_size : Z;
  b_source_seal_signers : list SealFinalityWitness;
  b_source_seal_wire_version : Z;
}.

Definition from_pending (pt : PendingTransfer) : option XZoneTransferBundle :=
  if unsealed pt || (source_committee_size pt =? 0) then None
  else Some (mkBundle (transfer_id pt) (sender pt) (recipient pt) (amount pt) (source_zone pt)
    (dest_zone pt) (lock_record_hash pt) (merkle_proof pt) (source_merkle_root pt)
    (source_seal_epoch pt) (source_committee_hash pt) (source_committee_size pt)
    (source_seal_signers pt) (source_seal_wire_version pt)).

Definition bundle_verify (b : XZoneTransferBundle) : outcome unit :=
  if negb (verify_seal_inclusion_proof (b_source_seal_wire_version b) (b_lock_record_hash b)
             (b_merkle_proof b) (b_source_merkle_root b))
  then Err (EWire "xzone bundle: merkle inclusion proof invalid")
  else match verify_finality_quorum (b_source_seal_wire_version b) (b_source_zone b)
               (b_source_seal_epoch b) (b_source_merkle_root b) (b_source_committee_hash b)
               (b_source_committee_size b) (b_source_seal_signers b) with
       | Ok _ => Ok tt
       | _ => Err (EWire "xzone bundle: finality quorum failed")
       end.

Record XZoneAbortBundle := mkAbortBundle {
  ab_transfer_id : string;
  ab_dest_zone : string;
  ab_source_seal_epoch : Z;
  ab_dest_committee_hash : hash;
  ab_dest_committee_size : Z;
  ab_signers : list SealFinalityWitness;
  ab_source_seal_wire_version : Z;
}.
Definition abort_bundle_verify (b : XZoneAbortBundle) : outcome unit :=
  match verify_abort_quorum (ab_source_seal_wire_version b) (ab_transfer_id b) (ab_dest_zone b)
          (ab_source_seal_epoch b) (ab_dest_committee_hash b) (ab_dest_committee_size b)
          (ab_signers b) (Some (ab_dest_committee_hash b, ab_dest_committee_size b)) with
  | Ok _ => Ok tt
  | _ => Err (EWire "xzone abort bundle: quorum check failed")
  end.
End crypto.
