(* ===== verification/CrossZoneInv.v ===== *)
(** * Cross-zone transfers: invariant and specifications

    The bookkeeping invariant of [CrossZoneState] ([XInv]: the locked total and
    the four status counters are the sums over the pending map), a
    specification of every transition in weakest-precondition form, and the
    exactly-once theorem over sequences of transitions. *)

From S2P Require Import Prelude F64 Types CrossZone.
Open Scope Z_scope.

(** ** Measures *)

Definition locked_amt (t : PendingTransfer) : Z := if is_locked t then amount t else 0.
Definition has_status (st : TransferStatus) (t : PendingTransfer) : Z :=
  if bool_decide (status t = st) then 1 else 0.

Record XInv (s : CrossZoneState) : Prop := {
  x_keys : map_Forall (fun k t => transfer_id t = k) (pending s);
  x_amounts : map_Forall (fun _ t => 0 <= amount t) (pending s);
  x_total : total_locked s = msum locked_amt (pending s);
  x_locked : locked_count s = msum (has_status Locked) (pending s);
  x_claimed : claimed_count s = msum (has_status Claimed) (pending s);
  x_refunded : refunded_count s = msum (has_status Refunded) (pending s);
  x_aborted : aborted_count s = msum (has_status Aborted) (pending s);
}.

(** Every counter can still be bumped [n] times. *)
Definition counters_below (s : CrossZoneState) (n : Z) : Prop :=
  locked_count s + n <= U64.MAX ∧ claimed_count s + n <= U64.MAX ∧
  refunded_count s + n <= U64.MAX ∧ aborted_count s + n <= U64.MAX ∧
  claim_finality_enforced_total s + n <= U64.MAX.

Lemma has_status_nonneg st (m : gmap string PendingTransfer) : map_Forall (fun _ t => 0 <= has_status st t) m.
Proof. intros k t _. unfold has_status. case_match; lia. Qed.

Lemma locked_amt_nonneg (m : gmap string PendingTransfer) :
  map_Forall (fun _ t => 0 <= amount t) m → map_Forall (fun _ t => 0 <= locked_amt t) m.
Proof. intros H k t E. unfold locked_amt. case_match; [by eapply H|lia]. Qed.

Lemma is_locked_spec t : is_locked t = true ↔ status t = Locked.
Proof. apply bool_decide_eq_true. Qed.

Lemma XInv_new : XInv crosszone_new.
Proof. split; simpl; [apply map_Forall_empty|apply map_Forall_empty|done..]. Qed.

Lemma XInv_locked_le s tid t :
  XInv s → pending s !! tid = Some t → is_locked t = true → 0 <= amount t <= total_locked s.
Proof.
  intros I E L. split; [by eapply (x_amounts s I)|]. rewrite (x_total s I).
  pose proof (msum_lookup_le locked_amt tid t _ (locked_amt_nonneg _ (x_amounts s I)) E) as H.
  unfold locked_amt in H at 1. by rewrite L in H.
Qed.

Lemma XInv_total_nonneg s : XInv s → 0 <= total_locked s.
Proof. intros I. rewrite (x_total s I). apply msum_nonneg, locked_amt_nonneg, I. Qed.

(** Replacing an entry by one that only differs in proof material. *)
Lemma XInv_update s tid t t' idx :
  XInv s → pending s !! tid = Some t → transfer_id t' = transfer_id t →
  amount t' = amount t → status t' = status t →
  XInv (s <| pending ::= insert tid t' |> <| needs_proof_index := idx |>).
Proof.
  intros [] E Hid Ha Hst.
  assert (Hl : locked_amt t' = locked_amt t) by (unfold locked_amt, is_locked; by rewrite Ha, Hst).
  assert (Hs : ∀ st, has_status st t' = has_status st t) by (intros; unfold has_status; by rewrite Hst).
  split; simpl; try (rewrite msum_insert, E; simpl; rewrite ?Hl, ?Hs; lia).
  - apply map_Forall_insert_2; [|done]. rewrite Hid. by eapply x_keys0.
  - apply map_Forall_insert_2; [|done]. rewrite Ha. by eapply x_amounts0.
Qed.

(** A new locked entry. *)
Lemma XInv_insert s s' tid t :
  XInv s → pending s !! tid = None → pending s' = <[tid := t]> (pending s) →
  status t = Locked → transfer_id t = tid → 0 <= amount t → total_locked s' = total_locked s + amount t →
  locked_count s' = locked_count s + 1 → claimed_count s' = claimed_count s →
  refunded_count s' = refunded_count s → aborted_count s' = aborted_count s → XInv s'.
Proof.
  intros [I1 I2 I3 I4 I5 I6 I7] E Ep Hst Hid Ha Et El Ec Er Eb.
  assert (HL : locked_amt t = amount t)
    by (unfold locked_amt, is_locked; by rewrite Hst).
  assert (HS : ∀ st, has_status st t = if decide (st = Locked) then 1 else 0).
  { intros st. unfold has_status. rewrite Hst. by destruct st. }
  split; rewrite ?Et, ?El, ?Ec, ?Er, ?Eb, Ep;
    try (rewrite msum_insert, E; simpl; rewrite ?HL, ?HS; simpl; lia);
    by apply map_Forall_insert_2.
Qed.

(** ** Releases *)

(** [s'] is [s] after the locked transfer [t] left for status [st]. *)
Record released (s s' : CrossZoneState) (tid : string) (t : PendingTransfer)
    (st : TransferStatus) : Prop := {
  rel_old : pending s !! tid = Some t;
  rel_locked : is_locked t = true;
  rel_pending : ∃ t', pending s' = <[tid := t']> (pending s) ∧ status t' = st ∧
                  transfer_id t' = transfer_id t ∧ amount t' = amount t ∧ sender t' = sender t;
  rel_total : total_locked s' = total_locked s - amount t;
  rel_inv : XInv s';
  rel_counters n : counters_below s (n + 1) → counters_below s' n;
}.

(** The counter of the status a transfer is released to. *)
Definition set_counter (st : TransferStatus) (f : Z → Z) (s : CrossZoneState) : CrossZoneState :=
  match st with
  | Claimed => s <| claimed_count ::= f |>
  | Refunded => s <| refunded_count ::= f |>
  | Aborted => s <| aborted_count ::= f |>
  | Locked => s
  end.

Lemma release_released s s' tid t t' st :
  XInv s → pending s !! tid = Some t → is_locked t = true → st ≠ Locked →
  pending s' = <[tid := t']> (pending s) →
  status t' = st → transfer_id t' = transfer_id t → amount t' = amount t → sender t' = sender t →
  total_locked s' = U64.sat_sub (total_locked s) (amount t) →
  locked_count s' = U64.sat_sub (locked_count s) 1 →
  claimed_count s' = claimed_count s + has_status Claimed t' →
  refunded_count s' = refunded_count s + has_status Refunded t' →
  aborted_count s' = aborted_count s + has_status Aborted t' →
  claim_finality_enforced_total s' <= claim_finality_enforced_total s + 1 →
  released s s' tid t st.
Proof.
  intros I E L Hne Ep Hst Hid Ha Hsnd Et El Ec Er Eab Ee.
  pose proof (XInv_locked_le s tid t I E L) as Hamt.
  pose proof (proj1 (is_locked_spec t) L) as Hstt.
  assert (Hl1 : 1 <= locked_count s).
  { rewrite (x_locked s I).
    pose proof (msum_lookup_le (has_status Locked) tid t _ (has_status_nonneg _ _) E) as H.
    unfold has_status in H at 1. rewrite Hstt in H. by simpl in H. }
  assert (HL : locked_amt t' = 0).
  { unfold locked_amt, is_locked. rewrite bool_decide_eq_false_2; [done|congruence]. }
  assert (HL' : locked_amt t = amount t) by (unfold locked_amt; by rewrite L).
  assert (HtL : has_status Locked t' = 0)
    by (unfold has_status; rewrite bool_decide_eq_false_2; [done|congruence]).
  assert (HtL' : has_status Locked t = 1) by (unfold has_status; by rewrite Hstt).
  assert (Ht0 : ∀ st', st' ≠ Locked → has_status st' t = 0)
    by (intros; unfold has_status; rewrite bool_decide_eq_false_2; [done|congruence]).
  unfold U64.sat_sub in *. destruct I as [I1 I2 I3 I4 I5 I6 I7].
  split; [done|done| |lia| |].
  - exists t'. done.
  - split; rewrite ?Ep; simpl.
    + apply map_Forall_insert_2; [|done]. rewrite Hid. by eapply I1.
    + apply map_Forall_insert_2; [|done]. rewrite Ha. by eapply I2.
    + rewrite msum_insert, E; simpl. lia.
    + rewrite msum_insert, E; simpl. lia.
    + rewrite msum_insert, E; simpl. rewrite (Ht0 Claimed) by done. lia.
    + rewrite msum_insert, E; simpl. rewrite (Ht0 Refunded) by done. lia.
    + rewrite msum_insert, E; simpl. rewrite (Ht0 Aborted) by done. lia.
  - unfold counters_below. intros n.
    assert (∀ st', has_status st' t' <= 1) as Hle by (intros; unfold has_status; case_match; lia).
    pose proof (Hle Claimed). pose proof (Hle Refunded). pose proof (Hle Aborted). lia.
Qed.

(** The index plays no part in the sums. *)
Lemma unindex_pending h tid s : pending (unindex_needs_proof h tid s) = pending s.
Proof. unfold unindex_needs_proof. by repeat case_match. Qed.
Lemma unindex_total_locked h tid s : total_locked (unindex_needs_proof h tid s) = total_locked s.
Proof. unfold unindex_needs_proof. by repeat case_match. Qed.
Lemma unindex_locked_count h tid s : locked_count (unindex_needs_proof h tid s) = locked_count s.
Proof. unfold unindex_needs_proof. by repeat case_match. Qed.
Lemma unindex_claimed_count h tid s : claimed_count (unindex_needs_proof h tid s) = claimed_count s.
Proof. unfold unindex_needs_proof. by repeat case_match. Qed.
Lemma unindex_refunded_count h tid s : refunded_count (unindex_needs_proof h tid s) = refunded_count s.
Proof. unfold unindex_needs_proof. by repeat case_match. Qed.
Lemma unindex_aborted_count h tid s : aborted_count (unindex_needs_proof h tid s) = aborted_count s.
Proof. unfold unindex_needs_proof. by repeat case_match. Qed.
Lemma unindex_claim_finality_enforced_total h tid s : claim_finality_enforced_total (unindex_needs_proof h tid s) = claim_finality_enforced_total s.
Proof. unfold unindex_needs_proof. by repeat case_match. Qed.
#[export] Hint Rewrite unindex_pending unindex_total_locked unindex_locked_count unindex_claimed_count unindex_refunded_count unindex_aborted_count unindex_claim_finality_enforced_total : xzone.

(** ** Specifications of the transitions *)

(** Runs a transition up to its outcomes. *)
Ltac xwp :=
  repeat (unfold get_transfer, put_transfer, release, bump_refunded in *; wp_step).

(** Discharges [released] for the state a transition ends in. *)
Ltac solve_released :=
  eapply release_released;
    [done|done|done|done
    |simpl; autorewrite with xzone; reflexivity
    |simpl; autorewrite with xzone; unfold has_status; simpl; first [done|lia]..].

Lemma wp_lock_transfer tid snd rcp amt src dst ts h Q s :
  XInv s → 0 <= amt → total_locked s + amt <= U64.MAX →
  (∀ t s', pending s !! tid = None → pending s' = <[tid := t]> (pending s) →
     0 < amt → status t = Locked → transfer_id t = tid →
     sender t = snd → recipient t = rcp → amount t = amt → merkle_proof t = [] →
     expires_at t = f64_add ts CLAIM_TIMEOUT_SECS → lock_record_hash t = h →
     total_locked s' = total_locked s + amt → XInv s' → Q (Ok tt) s') →
  (∀ e, Q (Err e) s) → (¬ counters_below s 1 → ∀ s', Q Panic s') →
  wp (lock_transfer tid snd rcp amt src dst ts h) Q s.
Proof.
  intros I Ha Hb HOk HErr HPanic. unfold lock_transfer. do 2 wp_step.
  apply wp_if; intros H1; [by apply wp_throw|].
  apply bool_decide_eq_false in H1. apply eq_None_not_Some in H1.
  apply wp_if; intros H2; [by apply wp_throw|]. apply Z.eqb_neq in H2.
  apply wp_if; intros H3; [by apply wp_throw|]. repeat wp_step.
  - eapply HOk; [done|reflexivity|..]; simpl; try done; try lia.
    + unfold U64.sat_add. lia.
    + eapply XInv_insert; [exact I|exact H1|reflexivity|..]; simpl; try done;
        unfold U64.sat_add; lia.
  - apply HPanic. unfold counters_below. simpl in *. lia.
Qed.

Lemma wp_cancel_transfer tid who Q s :
  XInv s →
  (∀ t s', sender t = who → unsealed t = true → released s s' tid t Refunded →
     Q (Ok (refund_of t)) s') →
  (∀ e, Q (Err e) s) → (¬ counters_below s 1 → ∀ s', Q Panic s') →
  wp (cancel_transfer tid who) Q s.
Proof.
  intros I HOk HErr HPanic. unfold cancel_transfer. xwp; try done; bools.
  - apply HOk; [done|done|]. solve_released.
  - apply HPanic. unfold counters_below. simpl in *. lia.
Qed.

Lemma wp_reject_transfer tid who Q s :
  XInv s →
  (∀ t s', recipient t = who → unsealed t = true → released s s' tid t Refunded →
     Q (Ok (refund_of t)) s') →
  (∀ e, Q (Err e) s) → (¬ counters_below s 1 → ∀ s', Q Panic s') →
  wp (reject_transfer tid who) Q s.
Proof.
  intros I HOk HErr HPanic. unfold reject_transfer. xwp; try done; bools.
  - apply HOk; [done|done|]. solve_released.
  - apply HPanic. unfold counters_below. simpl in *. lia.
Qed.

Lemma wp_abort_transfer tid Q s :
  XInv s →
  (∀ t s', unsealed t = false → source_seal_epoch t ≠ 0 → released s s' tid t Aborted →
     Q (Ok (refund_of t)) s') →
  (∀ e, Q (Err e) s) → (¬ counters_below s 1 → ∀ s', Q Panic s') →
  wp (abort_transfer tid) Q s.
Proof.
  intros I HOk HErr HPanic. unfold abort_transfer. xwp; try done; bools.
  - apply HOk; [done|done|]. solve_released.
  - apply HPanic. unfold counters_below. simpl in *. lia.
Qed.

Lemma wp_claim_transfer `{Externals} tid who rid ts Q s :
  XInv s →
  (∀ t t' s', recipient t = who → unsealed t = false → f64_gtb ts (expires_at t) = false →
     verify_seal_inclusion_proof (source_seal_wire_version t) (lock_record_hash t)
       (merkle_proof t) (source_merkle_root t) = true →
     verify_finality_quorum (source_seal_wire_version t) (source_zone t) (source_seal_epoch t)
       (source_merkle_root t) (source_committee_hash t) (source_committee_size t)
       (source_seal_signers t) = Ok tt →
     amount t' = amount t → sender t' = sender t → recipient t' = recipient t →
     released s s' tid t Claimed → Q (Ok t') s') →
  (∀ e, Q (Err e) s) → (¬ counters_below s 1 → ∀ s', Q Panic s') →
  wp (claim_transfer tid who rid ts) Q s.
Proof.
  intros I HOk HErr HPanic. unfold claim_transfer, get_transfer.
  do 3 wp_step. wp_step; [|done]. do 5 (wp_step; [wp_step; done|]).
  destruct (verify_finality_quorum _ _ _ _ _ _ _) as [[]| |] eqn:Ev; xwp; try done; bools.
  - eapply HOk; try done. solve_released.
  - apply HPanic. unfold counters_below. simpl in *. lia.
  - apply HPanic. unfold counters_below. simpl in *. lia.
Qed.

(** ** Proof material *)

Lemma wp_set_proof tid proof root v Q s :
  XInv s →
  (∀ t s', pending s !! tid = Some t → is_locked t = true →
     pending s' = <[tid := t <| merkle_proof := proof |> <| source_merkle_root := root |>
                             <| source_seal_wire_version := v |>]> (pending s) →
     total_locked s' = total_locked s → XInv s' → Q (Ok tt) s') →
  (∀ e, Q (Err e) s) → wp (set_proof tid proof root v) Q s.
Proof.
  intros I HOk HErr. unfold set_proof. xwp; try done; bools.
  eapply HOk; [done|done|..]; simpl; autorewrite with xzone; try done.
  assert (E : unindex_needs_proof (lock_record_hash a) tid
      (s <| pending ::= insert tid (a <| merkle_proof := proof |> <| source_merkle_root := root |>
                             <| source_seal_wire_version := v |>) |>) =
    s <| pending ::= insert tid (a <| merkle_proof := proof |> <| source_merkle_root := root |>
                             <| source_seal_wire_version := v |>) |>
      <| needs_proof_index := needs_proof_index (unindex_needs_proof (lock_record_hash a) tid s) |>).
  { unfold unindex_needs_proof; simpl. destruct s; simpl. by repeat case_match. }
  simpl in E. rewrite E. eapply (XInv_update s tid a); done.
Qed.

Lemma wp_set_finality_witnesses tid signers ch ep n Q s :
  XInv s →
  (∀ t s', pending s !! tid = Some t → is_locked t = true →
     pending s' = <[tid := t <| source_seal_signers := signers |> <| source_committee_hash := ch |>
        <| source_seal_epoch := ep |> <| source_committee_size := n |>]> (pending s) →
     total_locked s' = total_locked s → XInv s' → Q (Ok tt) s') →
  (∀ e, Q (Err e) s) → wp (set_finality_witnesses tid signers ch ep n) Q s.
Proof.
  intros I HOk HErr. unfold set_finality_witnesses. xwp; try done; bools.
  eapply HOk; [done|done|..]; simpl; try done.
  destruct s. eapply (XInv_update (mkCrossZone _ _ _ _ _ _ _ _ _) tid a); done.
Qed.

(** ** Batches *)

(** A chain of releases to [Refunded], in order. *)
Inductive releases : CrossZoneState → list PendingTransfer → CrossZoneState → Prop :=
  | releases_nil s : releases s [] s
  | releases_cons s s' s'' t ts :
      released s s' (transfer_id t) t Refunded → releases s' ts s'' → releases s (t :: ts) s''.

Lemma releases_app s s' s'' ts ts' :
  releases s ts s' → releases s' ts' s'' → releases s (ts ++ ts') s''.
Proof. induction 1; simpl; [done|]. intros. econstructor; eauto. Qed.

Lemma released_sender s s' i t st tid x' :
  released s s' i t st → pending s' !! tid = Some x' →
  ∃ x, pending s !! tid = Some x ∧ sender x = sender x'.
Proof.
  intros R E. destruct (rel_pending _ _ _ _ _ R) as (t'&Ep&_&_&_&Es). rewrite Ep in E.
  destruct (decide (tid = i)) as [->|].
  - rewrite lookup_insert_eq in E. pose proof (rel_old _ _ _ _ _ R). naive_solver.
  - rewrite lookup_insert_ne in E by done. eauto.
Qed.

(** The senders of released transfers are those of the original entries. *)
Lemma releases_senders s ts s' :
  releases s ts s' →
  Forall (fun t => ∃ x, pending s !! transfer_id t = Some x ∧ sender x = sender t) ts.
Proof.
  induction 1 as [|s s1 s' t ts R Rs IH]; constructor.
  - exists t. split; [apply R|done].
  - eapply Forall_impl; [exact IH|]. intros x (y&Ey&Hy).
    destruct (released_sender _ _ _ _ _ _ _ R Ey) as (z&Ez&Hz). exists z. split; congruence.
Qed.

Lemma releases_sound s ts s' :
  releases s ts s' → XInv s →
  XInv s' ∧ total_locked s' = total_locked s - zsum (amount <$> ts) ∧
  Forall (fun t => 0 <= amount t) ts ∧
  ∀ n, counters_below s (n + Z.of_nat (length ts)) → counters_below s' n.
Proof.
  induction 1 as [s|s s' s'' t ts H1 _ IH]; intros I.
  - split_and!; simpl; [done|lia|done|]. intros n. by rewrite Z.add_0_r.
  - destruct IH as (I'&Ht&Hf&Hc); [apply H1|].
    pose proof (XInv_locked_le s _ t I (rel_old _ _ _ _ _ H1) (rel_locked _ _ _ _ _ H1)).
    pose proof (rel_total _ _ _ _ _ H1). csimpl.
    split_and!; [done|lia|constructor; [lia|done]|].
    intros n Hn. apply Hc, (rel_counters _ _ _ _ _ H1).
    by replace (n + Z.of_nat (length ts) + 1) with (n + Z.of_nat (S (length ts))) by lia.
Qed.

(** What an entry of a batch releases: nothing, or one live transfer. *)
Definition entry_ok (f : string * string * Z → M CrossZoneState (list (string * Z)))
    (ok : PendingTransfer → bool) : Prop :=
  ∀ e Q s, XInv s →
    (∀ t s', ok t = true → released s s' e.1.1 t Refunded → Q (Ok [(sender t, amount t)]) s') →
    Q (Ok []) s → (¬ counters_below s 1 → ∀ s', Q Panic s') → wp (f e) Q s.

Lemma refund_entry_ok : entry_ok apply_refund_entry unsealed.
Proof.
  intros e Q s I HOk HNone HPanic. unfold apply_refund_entry. do 2 wp_step.
  destruct (pending s !! e.1.1) as [t|] eqn:E; [|by wp_step].
  xwp; try done; bools.
  - apply HOk; [done|]. solve_released.
  - apply HPanic. unfold counters_below. simpl in *. lia.
Qed.

Lemma reap_entry_ok : entry_ok apply_reap_entry (fun t => negb (unsealed t)).
Proof.
  intros e Q s I HOk HNone HPanic. unfold apply_reap_entry. do 2 wp_step.
  destruct (pending s !! e.1.1) as [t|] eqn:E; [|by wp_step].
  xwp; try done; bools.
  - apply HOk; [by rewrite negb_true_iff|]. solve_released.
  - apply HPanic. unfold counters_below. simpl in *. lia.
Qed.

Lemma wp_apply_entries f ok l : entry_ok f ok → ∀ Q s,
  XInv s →
  (∀ ts s', Forall (fun t => ok t = true ∧ transfer_id t ∈ l.*1.*1) ts → releases s ts s' →
     Q (Ok ((fun t => (sender t, amount t)) <$> ts)) s') →
  (¬ counters_below s (Z.of_nat (length l)) → ∀ s', Q Panic s') →
  wp (apply_entries f l) Q s.
Proof.
  intros Hf. induction l as [|e l IH]; intros Q s I HOk HPanic; simpl.
  - apply wp_ret. apply (HOk []); constructor.
  - apply wp_bind, Hf; [done| | |].
    + intros t s' Ht Hr. apply wp_bind, IH; [apply Hr| |].
      * intros ts s'' Hts Hrs. apply wp_ret.
        pose proof (x_keys s I _ _ (rel_old _ _ _ _ _ Hr)) as Hid. simpl in Hid.
        apply (HOk (t :: ts)); [|econstructor; [by rewrite Hid|done]].
        constructor; [split; [done|]; csimpl; rewrite Hid; by left|].
        eapply Forall_impl; [done|]. intros x [Hx1 Hx2]. split; [done|]. csimpl. by right.
      * intros Hn s''. apply HPanic. intros Hc. apply Hn, (rel_counters _ _ _ _ _ Hr).
        simpl in Hc. by replace (Z.of_nat (length l) + 1) with (Z.of_nat (S (length l))) by lia.
    + apply wp_bind, IH; [done| |].
      * intros ts s' Hts Hrs. apply wp_ret, HOk; [|done].
        eapply Forall_impl; [done|]. intros x [Hx1 Hx2]. split; [done|]. csimpl. by right.
      * intros Hn s'. apply HPanic. intros Hc. apply Hn. unfold counters_below in *. simpl in Hc. lia.
    + intros Hn s'. apply HPanic. intros Hc. apply Hn. unfold counters_below in *. simpl in Hc. lia.
Qed.

(** ** Expiry and pruning *)

Lemma foldl_unindex l s :
  let s' := foldl (fun s t => unindex_needs_proof (lock_record_hash t) (transfer_id t) s) s l in
  pending s' = pending s ∧ total_locked s' = total_locked s ∧ locked_count s' = locked_count s ∧
  claimed_count s' = claimed_count s ∧ refunded_count s' = refunded_count s ∧
  aborted_count s' = aborted_count s.
Proof.
  revert s. induction l as [|t l IH]; intros s; simpl; [done|].
  specialize (IH (unindex_needs_proof (lock_record_hash t) (transfer_id t) s)). simpl in IH.
  autorewrite with xzone in IH. done.
Qed.

Lemma foldl_sat_sub l v :
  Forall (fun x => 0 <= x) l → zsum l <= v → foldl U64.sat_sub v l = v - zsum l.
Proof.
  intros Hl. revert v. induction Hl as [|x l Hx Hl IH]; intros v Hv; simpl in *; [lia|].
  pose proof (zsum_nonneg l Hl). rewrite IH; unfold U64.sat_sub; lia.
Qed.

(** A measure that drops by [c t] on each expired transfer, summed. *)
Lemma msum_expire f (c : PendingTransfer → Z) now (m : gmap string PendingTransfer) :
  (∀ t, f (expire now t) = f t + if expired_unsealed now t then c t else 0) →
  msum f (expire now <$> m) =
  msum f m + zsum (c <$> filter (fun t => expired_unsealed now t = true) (map_to_list m).*2).
Proof.
  intros H. rewrite msum_fmap. rewrite (msum_ext _ _ _ H), msum_plus. f_equal.
  rewrite zsum_filter, msum_map_to_list. f_equal.
  apply list_fmap_ext. intros i t _. simpl.
  by destruct (expired_unsealed now t).
Qed.

Lemma zsum_ones {A} (l : list A) (k : Z) : zsum ((fun _ => k) <$> l) = k * Z.of_nat (length l).
Proof. induction l as [|x l IH]; csimpl; [lia|]. rewrite IH. lia. Qed.

Lemma expired_locked now t : expired_unsealed now t = true → status t = Locked.
Proof. unfold expired_unsealed. intros H. bools. by apply is_locked_spec. Qed.

Lemma expire_has_status now st t :
  has_status st (expire now t) = has_status st t +
  if expired_unsealed now t
  then (if decide (st = Locked) then -1 else if decide (st = Refunded) then 1 else 0) else 0.
Proof.
  unfold expire. destruct (expired_unsealed now t) eqn:E; [|lia].
  apply expired_locked in E. unfold has_status. rewrite E. simpl. by destruct st.
Qed.

Lemma expire_locked_amt now t :
  locked_amt (expire now t) = locked_amt t + if expired_unsealed now t then - amount t else 0.
Proof.
  unfold expire. destruct (expired_unsealed now t) eqn:E; [|lia].
  apply expired_locked in E. unfold locked_amt, is_locked. rewrite E. simpl. lia.
Qed.

Lemma zsum_opp {A} (f : A → Z) (l : list A) : zsum ((fun x => - f x) <$> l) = - zsum (f <$> l).
Proof. induction l as [|x l IH]; csimpl; lia. Qed.

Lemma wp_process_expired now Q s :
  XInv s →
  (∀ ts s', Forall (fun t => (0 <= amount t ∧ expired_unsealed now t = true) ∧
                             pending s !! transfer_id t = Some t) ts →
     pending s' = expire now <$> pending s →
     total_locked s' = total_locked s - zsum (amount <$> ts) → XInv s' →
     Q (Ok (refund_of <$> ts)) s') →
  (¬ counters_below s (Z.of_nat (size (pending s))) → ∀ s', Q Panic s') →
  wp (process_expired now) Q s.
Proof.
  intros I HOk HPanic. unfold process_expired. do 2 wp_step.
  set (ts := filter _ (map_to_list (pending s)).*2).
  assert (Hts : Forall (fun t => (0 <= amount t ∧ expired_unsealed now t = true) ∧
                                 pending s !! transfer_id t = Some t) ts).
  { apply Forall_forall. intros t Ht. apply list_elem_of_filter in Ht as [Hexp Ht].
    apply list_elem_of_fmap in Ht as ([k t']&->&Hin). apply elem_of_map_to_list in Hin.
    split; [split; [by eapply (x_amounts s I)|done]|]. cbn. by rewrite (x_keys s I _ _ Hin). }
  assert (Hlen : Z.of_nat (length ts) <= Z.of_nat (size (pending s))).
  { apply inj_le. unfold ts. etrans; [apply length_filter|]. rewrite length_fmap.
    by rewrite length_map_to_list. }
  pose proof (msum_expire locked_amt (fun t => - amount t) now (pending s)
    (expire_locked_amt now)) as Hamt. fold ts in Hamt. rewrite zsum_opp in Hamt.
  assert (Hst : ∀ st, msum (has_status st) (expire now <$> pending s) = msum (has_status st) (pending s) +
    (if decide (st = Locked) then -1 else if decide (st = Refunded) then 1 else 0) * Z.of_nat (length ts)).
  { intros st. rewrite (msum_expire _ _ _ _ (expire_has_status now st)). fold ts.
    by rewrite zsum_ones. }
  assert (Hna : Forall (fun x => 0 <= x) (amount <$> ts)).
  { apply Forall_fmap. eapply Forall_impl; [exact Hts|]. by intros t [[? ?] ?]. }
  assert (Hle : zsum (amount <$> ts) <= total_locked s).
  { assert (0 <= msum locked_amt (expire now <$> pending s)).
    { apply msum_nonneg. intros k t Hk. apply lookup_fmap_Some in Hk as (t'&<-&Hk).
      rewrite expire_locked_amt. pose proof (x_amounts s I _ _ Hk). simpl in *.
      unfold locked_amt. destruct (expired_unsealed now t') eqn:E.
      - apply expired_locked, is_locked_spec in E. rewrite E. lia.
      - case_match; lia. }
    pose proof (x_total s I). lia. }
  assert (Hlk : Z.of_nat (length ts) <= locked_count s).
  { assert (0 <= msum (has_status Locked) (expire now <$> pending s)) by apply msum_nonneg, has_status_nonneg.
    pose proof (Hst Locked). simpl in *. pose proof (x_locked s I). lia. }
  repeat wp_step.
  - destruct (foldl_unindex ts (s
      <| pending ::= fmap (expire now) |>
      <| total_locked ::= fun v => foldl U64.sat_sub v (amount <$> ts) |>
      <| locked_count ::= fun v => U64.sat_sub v (Z.of_nat (length ts)) |>
      <| refunded_count := refunded_count s + Z.of_nat (length ts) |>)) as (Ep&Et&El&Ec&Er&Ea).
    simpl in *. apply HOk; [done|done| |].
    + rewrite Et. by apply foldl_sat_sub.
    + split; rewrite ?Ep, ?Et, ?El, ?Ec, ?Er, ?Ea.
      * intros k t Hk. apply lookup_fmap_Some in Hk as (t'&<-&Hk).
        pose proof (x_keys s I _ _ Hk). unfold expire. by case_match.
      * intros k t Hk. apply lookup_fmap_Some in Hk as (t'&<-&Hk).
        pose proof (x_amounts s I _ _ Hk). unfold expire. by case_match.
      * rewrite foldl_sat_sub by done. pose proof (x_total s I). lia.
      * pose proof (Hst Locked). pose proof (x_locked s I). unfold U64.sat_sub. simpl in *. lia.
      * pose proof (Hst Claimed). pose proof (x_claimed s I). simpl in *. lia.
      * pose proof (Hst Refunded). pose proof (x_refunded s I). simpl in *. lia.
      * pose proof (Hst Aborted). pose proof (x_aborted s I). simpl in *. lia.
  - apply HPanic. unfold counters_below. simpl in *. lia.
Qed.

Lemma count_status_sum st (l : list PendingTransfer) :
  count_status st l = zsum (has_status st <$> l).
Proof.
  unfold count_status. induction l as [|t l IH]; [done|]. rewrite filter_cons. csimpl.
  unfold has_status at 1. case_decide as Hd.
  - rewrite bool_decide_eq_true_2 by done. csimpl. lia.
  - rewrite bool_decide_eq_false_2 by done. lia.
Qed.

Lemma wp_prune_completed cutoff Q s :
  XInv s →
  (∀ n s', (∀ tid, from_option locked_amt 0 (pending s' !! tid) =
                   from_option locked_amt 0 (pending s !! tid)) →
     (∀ tid t, pending s' !! tid = Some t → pending s !! tid = Some t) →
     (∀ tid t, pending s !! tid = Some t → is_locked t = true → pending s' !! tid = Some t) →
     total_locked s' = total_locked s → XInv s' → Q (Ok n) s') →
  wp (prune_completed cutoff) Q s.
Proof.
  intros I HOk. unfold prune_completed. repeat wp_step.
  set (keep := fun t => is_locked t || f64_gtb (locked_at t) cutoff).
  assert (Hfilt : ∀ f : PendingTransfer → Z,
    msum f (filter (fun kv => keep kv.2 = true) (pending s)) =
    msum (fun v => if decide (keep v = true) then f v else 0) (pending s))
    by (intros f; exact (msum_filter_if f (fun t => keep t = true) (pending s))).
  assert (Hsub : ∀ st, st ≠ Locked →
    U64.sat_sub (msum (has_status st) (pending s))
      (count_status st (filter (fun t => keep t = false) (map_to_list (pending s)).*2)) =
    msum (has_status st) (filter (fun kv => keep kv.2 = true) (pending s))).
  { intros st Hst. rewrite count_status_sum, zsum_filter, <- msum_map_to_list, Hfilt.
    assert (E : msum (has_status st) (pending s) =
      msum (fun v => if decide (keep v = true) then has_status st v else 0) (pending s) +
      msum (fun v => if decide (keep v = false) then has_status st v else 0) (pending s)).
    { rewrite <- msum_plus. apply msum_ext. intros t. by destruct (keep t); simpl; lia. }
    assert (0 <= msum (fun v => if decide (keep v = true) then has_status st v else 0) (pending s)).
    { apply msum_nonneg. intros k t _. case_decide; [|lia]. unfold has_status. case_match; lia. }
    unfold U64.sat_sub. lia. }
  assert (Hlk : ∀ t, is_locked t = true → keep t = true) by (unfold keep; by intros t ->).
  assert (Hdrop : ∀ f : PendingTransfer → Z, (∀ t, is_locked t = false → f t = 0) →
    msum f (filter (fun kv => keep kv.2 = true) (pending s)) = msum f (pending s)).
  { intros f Hf. rewrite Hfilt. apply msum_ext. intros t.
    case_decide as Hk; [done|]. symmetry. apply Hf, not_true_iff_false.
    intros Hl. by apply Hk, Hlk. }
  assert (Hl0 : ∀ t, is_locked t = false → locked_amt t = 0) by (unfold locked_amt; by intros t ->).
  apply HOk; simpl.
  - intros tid. rewrite map_lookup_filter. destruct (pending s !! tid) as [t|]; simpl; [|done].
    case_guard as Hk; simpl; [done|]. symmetry. apply Hl0, not_true_iff_false.
    intros Hl. by apply Hk, Hlk.
  - intros tid t Ht. by apply map_lookup_filter_Some in Ht as [Ht _].
  - intros tid t Ht Hl. apply map_lookup_filter_Some. split; [done|by apply Hlk].
  - done.
  - pose proof (x_locked s I). pose proof (x_claimed s I) as Hc.
    pose proof (x_refunded s I) as Hr. pose proof (x_aborted s I) as Ha.
    split; simpl; rewrite ?Hc, ?Hr, ?Ha; try (by apply Hsub).
    + intros k t Hk. apply map_lookup_filter_Some in Hk as [Hk _]. by eapply (x_keys s I).
    + intros k t Hk. apply map_lookup_filter_Some in Hk as [Hk _]. by eapply (x_amounts s I).
    + rewrite Hdrop by done. apply I.
    + rewrite Hdrop; [done|]. intros t Hl. unfold has_status.
      rewrite bool_decide_eq_false_2; [done|]. by apply bool_decide_eq_false in Hl.
Qed.

(** [dest_finality_committee = Some(anchor)], written when the source seal is
    processed (src/src/network/epoch.rs). *)
Definition set_dest_anchor (tid : string) (anchor : hash * Z) : M CrossZoneState unit :=
  s ← get;
  match pending s !! tid with
  | Some t => put_transfer tid (t <| dest_finality_committee := Some anchor |>)
  | None => mret tt
  end.

(** ** Traces: every lock is released at most once *)

Inductive xevent :=
  | EvLock (tid : string) (amt : Z)
  | EvRelease (tid : string) (amt : Z).

Section traces.
Context `{Externals}.

(** What a batch releases, entry by entry. *)
Fixpoint batch_events (f : string * string * Z → M CrossZoneState (list (string * Z)))
    (l : list (string * string * Z)) (s : CrossZoneState) : list xevent :=
  match l with
  | [] => []
  | e :: l =>
      match f e s with
      | (Ok r, s') => ((fun x => EvRelease e.1.1 x.2) <$> r) ++ batch_events f l s'
      | _ => []
      end
  end.
Definition event_amount (e : xevent) : Z := match e with EvLock _ a | EvRelease _ a => a end.
(** These are the amounts the batch returns for payment. *)
Lemma batch_events_paid f l s r s' :
  apply_entries f l s = (Ok r, s') → event_amount <$> batch_events f l s = r.*2.
Proof.
  revert s r s'. induction l as [|e l IH]; intros s r s'; cbn [apply_entries batch_events]; [by intros [= <- _]|].
  unfold mbind, M_bind. destruct (f e s) as [[r1|x|] s1]; [|done..].
  destruct (apply_entries f l s1) as [[r2|x|] s2] eqn:E; [|done..]. intros [= <- <-].
  rewrite !fmap_app, (IH _ _ _ E). f_equal. rewrite <- list_fmap_compose. apply list_fmap_ext. by intros.
Qed.

(** The successful transitions, labelled with what they lock and release.  A
    failing transition leaves the state alone (see the specifications above).  A
    lock keeps the locked total in 64 bits: in the ledger its amount is part of
    the supply. *)
Inductive xstep : CrossZoneState → list xevent → CrossZoneState → Prop :=
  | xs_lock s s' tid snd rcp amt src dst ts h :
      0 <= amt → total_locked s + amt <= U64.MAX →
      lock_transfer tid snd rcp amt src dst ts h s = (Ok tt, s') → xstep s [EvLock tid amt] s'
  | xs_claim s s' tid who rid ts t :
      claim_transfer tid who rid ts s = (Ok t, s') → xstep s [EvRelease tid (amount t)] s'
  | xs_cancel s s' tid who i sn a :
      cancel_transfer tid who s = (Ok (i, sn, a), s') → xstep s [EvRelease i a] s'
  | xs_reject s s' tid who i sn a :
      reject_transfer tid who s = (Ok (i, sn, a), s') → xstep s [EvRelease i a] s'
  | xs_abort s s' tid i sn a :
      abort_transfer tid s = (Ok (i, sn, a), s') → xstep s [EvRelease i a] s'
  | xs_refund s s' b l :
      apply_refund_batch b s = (Ok l, s') → xstep s (batch_events apply_refund_entry (refunds b) s) s'
  | xs_reap s s' b l :
      apply_reap_batch b s = (Ok l, s') → xstep s (batch_events apply_reap_entry (refunds b) s) s'
  | xs_proof s s' tid proof root v :
      set_proof tid proof root v s = (Ok tt, s') → xstep s [] s'
  | xs_finality s s' tid signers ch ep n :
      set_finality_witnesses tid signers ch ep n s = (Ok tt, s') → xstep s [] s'
  | xs_anchor s s' tid anchor :
      set_dest_anchor tid anchor s = (Ok tt, s') → xstep s [] s'
  | xs_prune s s' cutoff n :
      prune_completed cutoff s = (Ok n, s') → xstep s [] s'.

Inductive xtrace : CrossZoneState → list xevent → CrossZoneState → Prop :=
  | xt_nil s : xtrace s [] s
  | xt_cons s s' s'' l l' : xstep s l s' → xtrace s' l' s'' → xtrace s (l ++ l') s''.

(** Locks less releases of one transfer: how many, and how much. *)
Definition net (w : Z → Z) (tid : string) (l : list xevent) : Z :=
  zsum ((fun e => match e with
                  | EvLock i a => if decide (i = tid) then w a else 0
                  | EvRelease i a => if decide (i = tid) then - w a else 0
                  end) <$> l).
Definition outstanding (w : Z → Z) (tid : string) (s : CrossZoneState) : Z :=
  match pending s !! tid with
  | Some t => if is_locked t then w (amount t) else 0
  | None => 0
  end.

Lemma net_app w tid l l' : net w tid (l ++ l') = net w tid l + net w tid l'.
Proof. unfold net. by rewrite fmap_app, zsum_app. Qed.

(** A released transfer, as an event. *)
Lemma released_net w s s' i t st tid :
  released s s' i t st → st ≠ Locked →
  outstanding w tid s' = outstanding w tid s + net w tid [EvRelease i (amount t)].
Proof.
  intros R Hst. destruct (rel_pending _ _ _ _ _ R) as (t'&Ep&Et&_). unfold outstanding, net.
  rewrite Ep. simpl. case_decide as Hd; [subst i|rewrite lookup_insert_ne by done; lia].
  rewrite lookup_insert_eq, (rel_old _ _ _ _ _ R), (rel_locked _ _ _ _ _ R).
  unfold is_locked. rewrite bool_decide_eq_false_2 by congruence. lia.
Qed.

(** A transition that keeps status and amount of every entry. *)
Lemma outstanding_insert w s s' i t t' tid :
  pending s !! i = Some t → pending s' = <[i := t']> (pending s) →
  status t' = status t → amount t' = amount t → outstanding w tid s' = outstanding w tid s.
Proof.
  intros E Ep Hst Ha. unfold outstanding. rewrite Ep.
  destruct (decide (i = tid)) as [->|]; [|by rewrite lookup_insert_ne].
  rewrite lookup_insert_eq, E. unfold is_locked. by rewrite Hst, Ha.
Qed.

(** Reads the result of a transition off its specification. *)
Lemma wp_run {S A} (m : M S A) (Q : outcome A → S → Prop) s o s' :
  wp m Q s → m s = (o, s') → Q o s'.
Proof. unfold wp. intros HQ E. by rewrite E in HQ. Qed.

(** One entry of a batch, and a batch. *)
Definition entry_net (f : string * string * Z → M CrossZoneState (list (string * Z))) : Prop :=
  ∀ w e s l s', XInv s → f e s = (Ok l, s') →
    XInv s' ∧ ∀ tid, outstanding w tid s' = outstanding w tid s + net w tid ((fun x => EvRelease e.1.1 x.2) <$> l).
Lemma entry_ok_net f ok : entry_ok f ok → entry_net f.
Proof.
  intros Hf w e s l s' I E.
  refine (wp_run _ (fun o s' => o = Ok l → XInv s' ∧ ∀ tid, outstanding w tid s' = outstanding w tid s +
    net w tid ((fun x => EvRelease e.1.1 x.2) <$> l)) s _ _ _ E eq_refl).
  apply Hf; [done| | |done].
  - intros t s1 _ R [= <-]. csimpl. split; [apply R|]. intros tid. by eapply released_net.
  - intros [= <-]. split; [done|]. intros tid. unfold net. simpl. lia.
Qed.
Lemma batch_net f w l s r s' : entry_net f → XInv s → apply_entries f l s = (Ok r, s') →
  XInv s' ∧ ∀ tid, outstanding w tid s' = outstanding w tid s + net w tid (batch_events f l s).
Proof.
  intros Hf. revert s r. induction l as [|e l IH]; intros s r I; cbn [apply_entries batch_events].
  { intros [= _ <-]. split; [done|]. intros tid. unfold net. simpl. lia. }
  unfold mbind, M_bind. destruct (f e s) as [[r1|x|] s1] eqn:E1; [|done..].
  destruct (apply_entries f l s1) as [[r2|x|] s2] eqn:E2; [|done..]. intros [= _ <-].
  destruct (Hf w _ _ _ _ I E1) as [I1 H1], (IH _ _ (proj1 (Hf w _ _ _ _ I E1)) E2) as [I2 H2].
  split; [done|]. intros tid. rewrite net_app, H2, H1. lia.
Qed.

Lemma xstep_net w s l s' :
  XInv s → xstep s l s' → XInv s' ∧ ∀ tid, outstanding w tid s' = outstanding w tid s + net w tid l.
Proof.
  intros I Hstep. pose (Q (l : list xevent) s s' :=
    XInv s' ∧ ∀ tid, outstanding w tid s' = outstanding w tid s + net w tid l).
  fold (Q l s s').
  assert (Hrel : ∀ s s' i t st, XInv s → released s s' i t st → st ≠ Locked →
     Q [EvRelease (transfer_id t) (amount t)] s s').
  { intros s1 s2 i t st I1 R Hst. split; [apply R|]. intros tid.
    rewrite (x_keys s1 I1 _ _ (rel_old _ _ _ _ _ R)). by eapply released_net. }
  destruct Hstep as [s s' tid snd rcp amt src dst ts h Ha Hb E|s s' tid who rid ts t E
    |s s' tid who i sn a E|s s' tid who i sn a E|s s' tid i sn a E|s s' b l E|s s' b l E
    |s s' tid proof root v E|s s' tid signers ch ep n E|s s' tid anchor E|s s' cutoff n E].
  - refine (wp_run _ (fun o s' => o = Ok tt → Q _ s s') s _ _ _ E eq_refl).
    apply wp_lock_transfer; try done. intros t s1 Hn Ep Hpos Hst Hid _ _ Hamt _ _ _ _ I1 _.
    split; [done|]. intros tid'. unfold outstanding, net. rewrite Ep. simpl.
    case_decide; [subst|rewrite lookup_insert_ne by done; lia].
    rewrite lookup_insert_eq, Hn. unfold is_locked. rewrite Hst. simpl. lia.
  - refine (wp_run _ (fun o s' => o = Ok t → Q _ s s') s _ _ _ E eq_refl).
    apply wp_claim_transfer; try done. intros t1 t2 s1 _ _ _ _ _ Hamt _ _ R [= ->].
    rewrite Hamt. pose proof (x_keys s I _ _ (rel_old _ _ _ _ _ R)) as Hk. simpl in Hk.
    rewrite <- Hk. by eapply Hrel.
  - refine (wp_run _ (fun o s' => o = Ok (i, sn, a) → Q _ s s') s _ _ _ E eq_refl).
    apply wp_cancel_transfer; try done. intros t s1 _ _ R [= <- <- <-]. by eapply Hrel.
  - refine (wp_run _ (fun o s' => o = Ok (i, sn, a) → Q _ s s') s _ _ _ E eq_refl).
    apply wp_reject_transfer; try done. intros t s1 _ _ R [= <- <- <-]. by eapply Hrel.
  - refine (wp_run _ (fun o s' => o = Ok (i, sn, a) → Q _ s s') s _ _ _ E eq_refl).
    apply wp_abort_transfer; try done. intros t s1 _ _ R [= <- <- <-]. by eapply Hrel.
  - exact (batch_net _ w _ _ _ _ (entry_ok_net _ _ refund_entry_ok) I E).
  - exact (batch_net _ w _ _ _ _ (entry_ok_net _ _ reap_entry_ok) I E).
  - refine (wp_run _ (fun o s' => o = Ok tt → Q _ s s') s _ _ _ E eq_refl).
    apply wp_set_proof; try done. intros t s1 Et _ Ep _ I1 _. split; [done|]. intros i.
    rewrite (outstanding_insert w _ _ _ _ _ i Et Ep) by done. unfold net. simpl. lia.
  - refine (wp_run _ (fun o s' => o = Ok tt → Q _ s s') s _ _ _ E eq_refl).
    apply wp_set_finality_witnesses; try done. intros t s1 Et _ Ep _ I1 _. split; [done|]. intros i.
    rewrite (outstanding_insert w _ _ _ _ _ i Et Ep) by done. unfold net. simpl. lia.
  - refine (wp_run _ (fun o s' => o = Ok tt → Q _ s s') s _ _ _ E eq_refl).
    unfold set_dest_anchor. do 2 wp_step.
    destruct (pending s !! tid) as [t|] eqn:Et; [|wp_step; intros _; split; [done|];
      intros i; unfold net; simpl; lia].
    unfold put_transfer. wp_step. intros _. split.
    + destruct s. eapply (XInv_update (mkCrossZone _ _ _ _ _ _ _ _ _) tid t); done.
    + intros i. erewrite (outstanding_insert w s _ tid t _ i Et); [|reflexivity|done|done].
      unfold net. simpl. lia.
  - refine (wp_run _ (fun o s' => o = Ok n → Q _ s s') s _ _ _ E eq_refl).
    apply wp_prune_completed; [done|]. intros n' s1 _ Hsub Hkeep _ I1 _. split; [done|].
    intros i. unfold outstanding, net. simpl. rewrite Z.add_0_r.
    destruct (pending s1 !! i) as [t|] eqn:E1; [by rewrite (Hsub _ _ E1)|].
    destruct (pending s !! i) as [t|] eqn:E0; [|done].
    destruct (is_locked t) eqn:El; [|done]. rewrite (Hkeep _ _ E0 El) in E1. done.
Qed.
End traces.
