(* ===== verification/CrossZoneProps.v ===== *)
(** * Cross-zone transfers: properties

    What a client of the cross-zone component may rely on: each lock is released
    at most once and for its own amount, funds leave only with a two-thirds
    quorum of distinct committee members, and a failing transition changes
    nothing. *)

From S2P Require Import Prelude F64 Types CrossZone CrossZoneInv.
Open Scope Z_scope.

(** ** Quorums *)

Section quorum.
Context `{Externals}.

(** A signature that counts towards a quorum. *)
Definition valid_signer (version : Z) (msg committee_hash : list byte)
    (w : SealFinalityWitness) : bool :=
  verify_committee_inclusion_proof version (committee_leaf_hash (witness_pk w))
    (committee_proof w) committee_hash && sig_verify msg (signature w) (witness_pk w).

Lemma count_signer_spec v msg ch acc w pk :
  pk ∈ count_signer v msg ch acc w ↔
  pk ∈ acc ∨ (pk = witness_pk w ∧ valid_signer v msg ch w = true).
Proof.
  unfold count_signer, valid_signer.
  case_bool_decide as Hin; [split; [by left|intros [?|[-> _]]; done]|].
  destruct (verify_committee_inclusion_proof _ _ _ _); simpl; [|naive_solver].
  destruct (sig_verify _ _ _); simpl; [set_solver|naive_solver].
Qed.

Lemma verified_signers_spec v msg ch signers pk :
  pk ∈ verified_signers v msg ch signers ↔
  ∃ w, w ∈ signers ∧ witness_pk w = pk ∧ valid_signer v msg ch w = true.
Proof.
  unfold verified_signers.
  assert (G : ∀ acc, pk ∈ foldl (count_signer v msg ch) acc signers ↔
    pk ∈ acc ∨ ∃ w, w ∈ signers ∧ witness_pk w = pk ∧ valid_signer v msg ch w = true).
  { induction signers as [|w signers IH]; intros acc; simpl.
    - split; [by left|]. intros [?|(w&Hw&_)]; [done|]. by apply elem_of_nil in Hw.
    - rewrite IH, count_signer_spec. setoid_rewrite elem_of_cons. naive_solver. }
  rewrite G. set_solver.
Qed.

Lemma two_thirds n c : 0 <= n → 0 <= c <= 2 ^ 32 →
  U64.sat_mul128 n 3 <? U64.sat_mul128 c 2 = false ↔ 2 * c <= 3 * n.
Proof. intros Hn Hc. rewrite Z.ltb_ge. unfold U64.sat_mul128, U64.U128_MAX. lia. Qed.

Lemma finality_quorum_iff version zone epoch root ch csize signers :
  0 <= csize <= 2 ^ 32 →
  let msg := xzone_finality_signable_bytes zone epoch root ch in
  verify_finality_quorum version zone epoch root ch csize signers = Ok tt ↔
  csize ≠ 0 ∧ 2 * csize <= 3 * Z.of_nat (size (verified_signers version msg ch signers)).
Proof.
  intros Hc msg. unfold verify_finality_quorum. fold msg.
  destruct (Z.eqb_spec csize 0) as [->|Hne]; [naive_solver|].
  pose proof (two_thirds (Z.of_nat (size (verified_signers version msg ch signers))) csize
    ltac:(lia) Hc) as Ht.
  destruct (_ <? _); split; naive_solver.
Qed.

(** C19: the finality quorum is exactly a two-thirds majority of distinct keys:
    for a committee size of 32 bits the check succeeds if and only if the
    committee is not empty and the set of keys with a valid inclusion proof under
    the committee root and a valid signature over the seal has at least two
    thirds of it; duplicates, outsiders and bad signatures never count. *)
Theorem finality_quorum_exact version zone epoch root ch csize signers :
  0 <= csize <= 2 ^ 32 →
  let msg := xzone_finality_signable_bytes zone epoch root ch in
  (verify_finality_quorum version zone epoch root ch csize signers = Ok tt ↔
   csize ≠ 0 ∧ 2 * csize <= 3 * Z.of_nat (size (verified_signers version msg ch signers))) ∧
  ∀ pk, pk ∈ verified_signers version msg ch signers ↔
    ∃ w, w ∈ signers ∧ witness_pk w = pk ∧ valid_signer version msg ch w = true.
Proof.
  intros Hc msg. split; [by apply finality_quorum_iff|intros pk; apply verified_signers_spec].
Qed.

(** An abort refunds only against the committee the source seal anchored: the
    check succeeds exactly when an anchor exists, the record names that committee
    and that size, the size is not zero and two thirds of it signed. *)
Theorem abort_quorum_exact version tid zone epoch ch csize signers anchored :
  0 <= csize <= 2 ^ 32 →
  verify_abort_quorum version tid zone epoch ch csize signers anchored = Ok tt ↔
  anchored = Some (ch, csize) ∧ csize ≠ 0 ∧
  2 * csize <= 3 * Z.of_nat (size (verified_signers version
    (xzone_abort_signable_bytes tid zone epoch ch) ch signers)).
Proof.
  intros Hc. unfold verify_abort_quorum.
  destruct anchored as [[h n]|]; [|naive_solver].
  case_bool_decide as Hh; [naive_solver|]. subst h.
  destruct (Z.eqb_spec csize n) as [->|Hn]; simpl; [|naive_solver].
  destruct (Z.eqb_spec n 0) as [->|Hne]; [naive_solver|].
  pose proof (two_thirds (Z.of_nat (size (verified_signers version
    (xzone_abort_signable_bytes tid zone epoch ch) ch signers))) n ltac:(lia) Hc) as Ht.
  destruct (_ <? _); split; naive_solver.
Qed.

(** ** Exactly once *)

Lemma xtrace_net w s l s' :
  XInv s → xtrace s l s' →
  XInv s' ∧ ∀ tid, outstanding w tid s' = outstanding w tid s + net w tid l.
Proof.
  intros I T. induction T as [s|s s' s'' l l' Hs _ IH].
  - split; [done|]. intros tid. unfold net. simpl. lia.
  - destruct (xstep_net w s l s' I Hs) as [I' H']. destruct (IH I') as [I'' H''].
    split; [done|]. intros tid. rewrite net_app, H'', H'. lia.
Qed.

(** C2: every locked transfer is released at most once, and for exactly its own
    amount.  After any sequence of successful transitions from the empty state
    (locks, claims, cancels, rejects, aborts, whole refund and reap batches, proof
    and anchor updates, pruning), the locks of an identifier less its releases are
    one while the transfer is pending as locked and zero otherwise, the locked
    amount less the released amounts is the amount still locked, and the state's
    total and status counters are the sums over the pending map.  Locks are taken
    while the locked total fits 64 bits; a lock of the ledger always does
    ([ledger_lock_fits]), because its amount is debited from a supply that fits. *)
Theorem xzone_exactly_once l s :
  xtrace crosszone_new l s →
  XInv s ∧
  ∀ tid, net (fun _ => 1) tid l = outstanding (fun _ => 1) tid s ∧
         net (fun a => a) tid l = outstanding (fun a => a) tid s.
Proof.
  intros T. destruct (xtrace_net (fun _ => 1) _ _ _ XInv_new T) as [I H1].
  destruct (xtrace_net (fun a => a) _ _ _ XInv_new T) as [_ H2].
  split; [done|]. intros tid. split; [by rewrite H1 | by rewrite H2].
Qed.

(** ** Errors *)

(** A rejected transition leaves the cross-zone state exactly as it was, for
    every operation that can reject. *)
Theorem xzone_errors_change_nothing s :
  (∀ tid sn rc a src dst ts h e s',
     lock_transfer tid sn rc a src dst ts h s = (Err e, s') → s' = s) ∧
  (∀ tid who rid ts e s', claim_transfer tid who rid ts s = (Err e, s') → s' = s) ∧
  (∀ tid who e s', cancel_transfer tid who s = (Err e, s') → s' = s) ∧
  (∀ tid who e s', reject_transfer tid who s = (Err e, s') → s' = s) ∧
  (∀ tid e s', abort_transfer tid s = (Err e, s') → s' = s) ∧
  (∀ tid p r v e s', set_proof tid p r v s = (Err e, s') → s' = s) ∧
  (∀ tid sg ch ep n e s', set_finality_witnesses tid sg ch ep n s = (Err e, s') → s' = s).
Proof.
  assert (G : ∀ {A} (m : M CrossZoneState A),
    wp m (fun o s' => match o with Err _ => s' = s | _ => True end) s →
    ∀ e s', m s = (Err e, s') → s' = s)
    by (intros A m Hm e s' E; exact (wp_run _ _ _ _ _ Hm E)).
  split_and!; intros until 0; apply G.
  - unfold lock_transfer. repeat wp_step; done.
  - unfold claim_transfer, get_transfer. repeat (wp_step; try done).
    case_match; unfold release, put_transfer; repeat wp_step; done.
  - unfold cancel_transfer. xwp; done.
  - unfold reject_transfer. xwp; done.
  - unfold abort_transfer. xwp; done.
  - unfold set_proof. xwp; done.
  - unfold set_finality_witnesses. xwp; done.
Qed.
End quorum.

(** ** Witnesses *)

#[local] Existing Instance toy_externals.

Definition toy_signer : SealFinalityWitness :=
  mkWitness [x01] (xzone_finality_signable_bytes "a" 1 zero_hash (committee_leaf_hash [x01]) ++ [x01]) [].

Lemma finality_quorum_exact_witness :
  verify_finality_quorum 0 "a" 1 zero_hash (committee_leaf_hash [x01]) 1 [toy_signer] = Ok tt.
Proof.
  apply (finality_quorum_exact 0 "a" 1 zero_hash (committee_leaf_hash [x01]) 1 [toy_signer]);
    [lia|]. split; [lia|]. vm_compute. discriminate.
Defined.

Definition toy_aborter : SealFinalityWitness :=
  mkWitness [x01] (xzone_abort_signable_bytes "t" "a" 1 (committee_leaf_hash [x01]) ++ [x01]) [].

Lemma abort_quorum_exact_witness :
  verify_abort_quorum 0 "t" "a" 1 (committee_leaf_hash [x01]) 1 [toy_aborter]
    (Some (committee_leaf_hash [x01], 1)) = Ok tt.
Proof.
  apply (abort_quorum_exact 0 "t" "a" 1 (committee_leaf_hash [x01]) 1 [toy_aborter]
    (Some (committee_leaf_hash [x01], 1))); [lia|].
  split; [reflexivity|]. split; [lia|]. vm_compute. discriminate.
Defined.

Definition sample_lock : CrossZoneState :=
  (lock_transfer "t" "alice" "bob" 5 "a" "b" f64_0 zero_hash crosszone_new).2.

Lemma xzone_exactly_once_witness :
  net (fun a => a) "t" [EvLock "t" 5; EvRelease "t" 5] = 0.
Proof.
  destruct (xzone_exactly_once [EvLock "t" 5; EvRelease "t" 5]
    (cancel_transfer "t" "alice" sample_lock).2) as [_ H]; [|exact (proj2 (H "t"))].
  apply (xt_cons _ sample_lock _ [EvLock "t" 5] [EvRelease "t" 5]).
  - apply (xs_lock _ _ "t" "alice" "bob" 5 "a" "b" f64_0 zero_hash); [lia| |by vm_compute].
    vm_compute. discriminate.
  - apply (xt_cons _ (cancel_transfer "t" "alice" sample_lock).2 _ [EvRelease "t" 5] []); [|constructor].
    apply (xs_cancel _ _ "t" "alice" "t" "alice" 5). by vm_compute.
Defined.
