(* ===== verification/Merkle.v ===== *)
(** * Merkle trees of seals and committees

    src/network/sync.rs ([MerkleTree]: root, inclusion proof and verification of
    the record tree of a seal, in the bare and the tagged fold recipe) and the
    committee tree of src/accounting/cross_zone.rs and
    src/network/zone_committee.rs, which the source builds in three places: with
    proofs, as a bare root, and as a tagged root. *)

From S2P Require Import Prelude Sorting F64 Types CrossZone.
Open Scope Z_scope.

Definition SUPER_SEAL_FOLD_V2_NODE_TAG : list byte := bytes_of "ELARA_SUPER_SEAL_MERKLE_NODE_V1".

Record MerkleProofNode := mkNode { node_hash : hash; node_is_right : bool }.
Record MerkleProof := mkProof {
  mp_leaf : hash;
  mp_siblings : list MerkleProofNode;
  mp_root : hash;
  mp_fold_version : Z;
}.

Section seal_tree.
Context `{Externals}.

(** [SHA3(left || right)] of the first recipe, [SHA3(tag || left || right)] of
    the second. *)
Definition combine (left right : hash) : hash := sha3_256 (left ++ right).
Definition combine_tagged (tag : list byte) (left right : hash) : hash :=
  sha3_256 (tag ++ left ++ right).

Section recipe.
Context (comb : hash → hash → hash).

(** One pass over [layer.chunks(2)]: an odd last element is promoted. *)
Fixpoint next_layer (layer : list hash) : list hash :=
  match layer with
  | a :: b :: layer => comb a b :: next_layer layer
  | layer => layer
  end.

(** [while layer.len() > 1 { .. } layer[0]], in at most [fuel] passes. *)
Fixpoint fold_layers (fuel : nat) (layer : list hash) : outcome hash :=
  match layer with
  | [] => Panic
  | [h] => Ok h
  | _ => match fuel with
         | O => Panic
         | S fuel => fold_layers fuel (next_layer layer)
         end
  end.
Definition root_with (hashes : list hash) : outcome hash :=
  match hashes with
  | [] => Ok zero_hash
  | [h] => Ok h
  | _ => fold_layers (length hashes) hashes
  end.

(** The sibling recorded at one level: none for a promoted node. *)
Definition sibling_at (layer : list hash) (pos : nat) : outcome (list MerkleProofNode) :=
  if Nat.even pos then
    match layer !! S pos with
    | Some h => Ok [mkNode h true]
    | None => Ok []
    end
  else
    match layer !! (pos - 1)%nat with
    | Some h => Ok [mkNode h false]
    | None => Panic
    end.
Fixpoint proof_loop (fuel : nat) (layer : list hash) (pos : nat)
    (siblings : list MerkleProofNode) : outcome (list MerkleProofNode) :=
  match layer with
  | [] | [_] => Ok siblings
  | _ => match fuel with
         | O => Panic
         | S fuel =>
             node ← sibling_at layer pos;
             proof_loop fuel (next_layer layer) (pos / 2) (siblings ++ node)
         end
  end.
(** [hashes.iter().position(|h| h == leaf)] *)
Definition position (leaf : hash) (hashes : list hash) : option nat :=
  fst <$> list_find (fun h => h = leaf) hashes.
Definition proof_with (fold_version : Z) (hashes : list hash) (leaf : hash)
    : outcome (option MerkleProof) :=
  match position leaf hashes with
  | None => Ok None
  | Some idx =>
      root ← root_with hashes;
      siblings ← proof_loop (length hashes) hashes idx [];
      Ok (Some (mkProof leaf siblings root fold_version))
  end.

Definition fold_proof_node (current : hash) (node : MerkleProofNode) : hash :=
  if node_is_right node then comb current (node_hash node) else comb (node_hash node) current.
Definition verify_with (proof : MerkleProof) : bool :=
  bool_decide (foldl fold_proof_node (mp_leaf proof) (mp_siblings proof) = mp_root proof).
End recipe.

Definition root : list hash → outcome hash := root_with combine.
Definition proof : list hash → hash → outcome (option MerkleProof) := proof_with combine 1.
Definition verify_proof : MerkleProof → bool := verify_with combine.
Definition root_tagged (tag : list byte) : list hash → outcome hash :=
  root_with (combine_tagged tag).
Definition proof_tagged (tag : list byte) : list hash → hash → outcome (option MerkleProof) :=
  proof_with (combine_tagged tag) 2.
Definition verify_proof_tagged (tag : list byte) : MerkleProof → bool :=
  verify_with (combine_tagged tag).
Definition root_v2_seal : list hash → outcome hash := root_tagged SEAL_FOLD_V2_NODE_TAG.
Definition root_v2_super_seal : list hash → outcome hash := root_tagged SUPER_SEAL_FOLD_V2_NODE_TAG.
Definition proof_v2_seal : list hash → hash → outcome (option MerkleProof) :=
  proof_tagged SEAL_FOLD_V2_NODE_TAG.
Definition verify_proof_v2_seal : MerkleProof → bool := verify_proof_tagged SEAL_FOLD_V2_NODE_TAG.

(** The recipe is read off the seal's own signed wire version. *)
Definition seal_root_for (seal_wire_version : Z) (hashes : list hash) : outcome hash :=
  if FOLD_V2_MIN_WIRE_VERSION <=? seal_wire_version then root_v2_seal hashes else root hashes.
Definition super_seal_root_for (seal_wire_version : Z) (hashes : list hash) : outcome hash :=
  if FOLD_V2_MIN_WIRE_VERSION <=? seal_wire_version then root_v2_super_seal hashes else root hashes.
Definition seal_proof_for (seal_wire_version : Z) (hashes : list hash) (leaf : hash)
    : outcome (option MerkleProof) :=
  if FOLD_V2_MIN_WIRE_VERSION <=? seal_wire_version then proof_v2_seal hashes leaf
  else proof hashes leaf.
Definition verify_seal_proof_for (seal_wire_version : Z) (proof : MerkleProof) : bool :=
  if seal_wire_version =? 0 then false
  else if FOLD_V2_MIN_WIRE_VERSION <=? seal_wire_version then
    (mp_fold_version proof =? 2) && verify_proof_v2_seal proof
  else (mp_fold_version proof <=? 1) && verify_proof proof.

(** The siblings as the cross-zone layer stores them (the epoch apply path). *)
Definition to_proof_siblings (nodes : list MerkleProofNode) : list ProofSibling :=
  (fun n => mkSibling (node_hash n) (node_is_right n)) <$> nodes.

(** ** The committee tree *)

(** [leaves.dedup()] and [paired.dedup_by(..)]: consecutive equal keys. *)
Section dedup.
Context {A : Type} (key : A → hash).
Fixpoint dedup_from (prev : hash) (l : list A) : list A :=
  match l with
  | [] => []
  | x :: l => if decide (key x = prev) then dedup_from prev l else x :: dedup_from (key x) l
  end.
Definition dedup_by (l : list A) : list A :=
  match l with [] => [] | x :: l => x :: dedup_from (key x) l end.
End dedup.

Definition sorted_leaves (pks : list (list byte)) : list hash :=
  dedup_by (fun h => h) (stable_sort bytes_leb (committee_leaf_hash <$> pks)).
Definition sorted_pairs (pks : list (list byte)) : list (hash * list byte) :=
  dedup_by fst (stable_sort (by_key_leb fst bytes_leb) ((fun pk => (committee_leaf_hash pk, pk)) <$> pks)).

(** A level with an odd last leaf combined with itself ([committee_hash_from_pks]). *)
Fixpoint next_level_dup (comb : hash → hash → hash) (leaves : list hash) : list hash :=
  match leaves with
  | l :: r :: leaves => comb l r :: next_level_dup comb leaves
  | [l] => [comb l l]
  | [] => []
  end.
(** A level padded with its last leaf, then paired ([committee_root_v2_interior]
    and [build_committee_proofs_tagged]). *)
Definition pad_level (level : list hash) : list hash :=
  if Nat.odd (length level) then
    match last level with Some h => level ++ [h] | None => level end
  else level.
Fixpoint pair_level (comb : hash → hash → hash) (level : list hash) : outcome (list hash) :=
  match level with
  | [] => Ok []
  | l :: r :: level => next ← pair_level comb level; Ok (comb l r :: next)
  | [_] => Panic
  end.

Fixpoint dup_root_loop (comb : hash → hash → hash) (fuel : nat) (leaves : list hash)
    : outcome hash :=
  match leaves with
  | [] => Panic
  | [h] => Ok h
  | _ => match fuel with
         | O => Panic
         | S fuel => dup_root_loop comb fuel (next_level_dup comb leaves)
         end
  end.
Definition committee_hash_from_pks (pks : list (list byte)) : outcome hash :=
  match pks with
  | [] => Ok zero_hash
  | _ => dup_root_loop combine (length pks) (sorted_leaves pks)
  end.

Fixpoint padded_root_loop (comb : hash → hash → hash) (fuel : nat) (level : list hash)
    : outcome hash :=
  match level with
  | [] => Panic
  | [h] => Ok h
  | _ => match fuel with
         | O => Panic
         | S fuel => next ← pair_level comb (pad_level level); padded_root_loop comb fuel next
         end
  end.
Definition committee_root_v2_interior (pks : list (list byte)) : outcome hash :=
  match pks with
  | [] => Ok zero_hash
  | _ => padded_root_loop (combine_tagged COMMITTEE_FOLD_V2_NODE_TAG) (length pks)
           (sorted_leaves pks)
  end.
Definition committee_hash_from_pks_for (seal_wire_version : Z) (pks : list (list byte))
    : outcome hash :=
  if FOLD_V2_MIN_WIRE_VERSION <=? seal_wire_version then committee_root_v2_interior pks
  else committee_hash_from_pks pks.

(** [padded[pair_pos.min(padded.len() - 1)]], for the leaf at [cur_pos]. *)
Definition committee_sibling (padded : list hash) (cur_pos : nat) : outcome ProofSibling :=
  let pair_pos := if Nat.even cur_pos then S cur_pos else (cur_pos - 1)%nat in
  match padded !! Nat.min pair_pos (length padded - 1) with
  | Some h => Ok (mkSibling h (Nat.even cur_pos))
  | None => Panic
  end.
Fixpoint build_loop (comb : hash → hash → hash) (fuel : nat) (level : list hash)
    (indices : list nat) (proofs : list (list ProofSibling))
    : outcome (hash * list (list ProofSibling)) :=
  match level with
  | [] => Panic
  | [h] => Ok (h, proofs)
  | _ => match fuel with
         | O => Panic
         | S fuel =>
             let padded := pad_level level in
             sibs ← mapM (committee_sibling padded) indices;
             next ← pair_level comb padded;
             build_loop comb fuel next ((fun i => i / 2)%nat <$> indices)
               (zip_with (fun p s => p ++ [s]) proofs sibs)
         end
  end.

Definition committee_combine (tag : option (list byte)) : hash → hash → hash :=
  match tag with Some t => combine_tagged t | None => combine end.
Definition ProofMap := gmap (list byte) (list ProofSibling).
Definition build_committee_proofs_tagged (tag : option (list byte)) (pks : list (list byte))
    : outcome (hash * ProofMap) :=
  match pks with
  | [] => Ok (zero_hash, ∅)
  | _ =>
      let paired := sorted_pairs pks in
      let leaves := paired.*1 in
      let n := length leaves in
      res ← build_loop (committee_combine tag) (length pks) leaves (seq 0 n) (replicate n []);
      Ok (res.1, foldl (fun m kv => <[kv.1:=kv.2]> m) ∅ (zip paired.*2 res.2))
  end.
Definition build_committee_proofs (pks : list (list byte)) : outcome (hash * ProofMap) :=
  build_committee_proofs_tagged None pks.
Definition build_committee_proofs_for (seal_wire_version : Z) (pks : list (list byte))
    : outcome (hash * ProofMap) :=
  if FOLD_V2_MIN_WIRE_VERSION <=? seal_wire_version
  then build_committee_proofs_tagged (Some COMMITTEE_FOLD_V2_NODE_TAG) pks
  else build_committee_proofs_tagged None pks.

(** ** Signing *)

(** An identity as the signing helpers use it: its public key and its signing
    function, which may fail. *)
Record Signer := mkSigner { signer_pk : list byte; signer_sign : list byte → option (list byte) }.

Definition sign_finality_witness (signer : Signer) (zone : string) (seal_epoch : Z)
    (merkle_root committee_hash : hash) (proofs_by_pk : ProofMap) : option SealFinalityWitness :=
  proof ← proofs_by_pk !! signer_pk signer;
  let msg := xzone_finality_signable_bytes zone seal_epoch merkle_root committee_hash in
  signature ← signer_sign signer msg;
  Some (mkWitness (signer_pk signer) signature proof).
Definition sign_abort_witness (signer : Signer) (transfer_id dest_zone : string)
    (source_seal_epoch : Z) (dest_committee_hash : hash) (proofs_by_pk : ProofMap)
    : option SealFinalityWitness :=
  proof ← proofs_by_pk !! signer_pk signer;
  let msg := xzone_abort_signable_bytes transfer_id dest_zone source_seal_epoch dest_committee_hash in
  signature ← signer_sign signer msg;
  Some (mkWitness (signer_pk signer) signature proof).
Definition try_sign_xzone_abort (signer : Signer) (transfer_id dest_zone : string)
    (source_seal_epoch seal_wire_version : Z) (committee_pks : list (list byte))
    (expected_committee_hash : hash) : outcome (option (SealFinalityWitness * hash * Z)) :=
  if bool_decide (committee_pks = []) then Ok None
  else if negb (bool_decide (signer_pk signer ∈ committee_pks)) then Ok None
  else
    built ← build_committee_proofs_for seal_wire_version committee_pks;
    if negb (bool_decide (built.1 = expected_committee_hash)) then Ok None
    else Ok (
      witness ← sign_abort_witness signer transfer_id dest_zone source_seal_epoch
                  expected_committee_hash built.2;
      Some (witness, built.1, Z.of_nat (length committee_pks) mod 2 ^ 32)).
End seal_tree.
