(* ===== verification/MerkleProps.v ===== *)
(** * Merkle trees: completeness of proofs and agreement of the builders

    Every record of a seal has an inclusion proof that both verifiers accept;
    the three constructions of the committee root agree, depend only on the set
    of members, and give every member a proof; so two thirds of an honest
    committee always make a quorum. *)

From S2P Require Import Prelude Sorting F64 Types CrossZone CrossZoneInv CrossZoneProps Merkle.
Open Scope Z_scope.

(** Induction two elements at a time, as [chunks(2)] goes. *)
Lemma pairs_ind {A} (P : list A → Prop) :
  P [] → (∀ a, P [a]) → (∀ a b l, P l → P (a :: b :: l)) → ∀ l, P l.
Proof.
  intros H0 H1 H2 l. assert (P l ∧ ∀ a, P (a :: l)) as [? _]; [|done].
  induction l as [|b l [IH1 IH2]]; [auto|]. split; [apply IH2|auto].
Qed.

Lemma div2_SS i : (S (S i) / 2 = S (i / 2))%nat.
Proof. replace (S (S i)) with (i + 1 * 2)%nat by lia. rewrite Nat.div_add by lia. lia. Qed.

Section recipe.
Context (comb : hash → hash → hash).

(** ** The seal tree *)

Lemma next_layer_length l :
  (length (next_layer comb l) <= length l)%nat ∧
  ((2 <= length l)%nat → (0 < length (next_layer comb l) < length l)%nat).
Proof.
  induction l as [| |a b l [IH1 IH2]] using pairs_ind; cbn [next_layer length]; [lia|lia|].
  split; lia.
Qed.

(** Where a node goes in the next layer. *)
Lemma next_layer_lookup l pos cur :
  l !! pos = Some cur →
  next_layer comb l !! (pos / 2)%nat = Some (
    if Nat.even pos then match l !! S pos with Some h => comb cur h | None => cur end
    else match l !! (pos - 1)%nat with Some h => comb h cur | None => cur end).
Proof.
  revert pos. induction l as [|a|a b l IH] using pairs_ind; intros pos; [done|by destruct pos; intros [= <-]|].
  destruct pos as [|[|pos]]; [by intros [= <-]|by intros [= <-]|].
  intros E. rewrite div2_SS.
  change (next_layer comb (a :: b :: l) !! S (pos / 2)%nat) with (next_layer comb l !! (pos / 2)%nat).
  change (l !! pos = Some cur) in E. rewrite (IH pos E).
  change (Nat.even (S (S pos))) with (Nat.even pos). destruct (Nat.even pos) eqn:Ev; [done|].
  destruct pos as [|pos]; [done|]. simpl. by rewrite Nat.sub_0_r.
Qed.

Lemma fold_layers_ok fuel l :
  (0 < length l <= S fuel)%nat → ∃ r, fold_layers comb fuel l = Ok r.
Proof.
  revert l. induction fuel as [|fuel IH]; intros [|a [|b l]] Hl; simpl in Hl; try lia; eauto.
  cbn [fold_layers]. apply IH. pose proof (next_layer_length (a :: b :: l)) as [_ HL].
  simpl in *. lia.
Qed.

Lemma sibling_at_lookup l pos cur :
  l !! pos = Some cur →
  ∃ nodes, sibling_at l pos = Ok nodes ∧
    next_layer comb l !! (pos / 2)%nat = Some (foldl (fold_proof_node comb) cur nodes).
Proof.
  intros E. pose proof (next_layer_lookup l pos cur E) as HN. unfold sibling_at.
  destruct (Nat.even pos) eqn:Ev.
  - destruct (l !! S pos) as [h|]; eexists; by split.
  - assert (is_Some (l !! (pos - 1)%nat)) as [h Eh].
    { apply lookup_lt_Some in E. apply lookup_lt_is_Some. lia. }
    rewrite Eh in HN |- *. eexists; by split.
Qed.

Lemma proof_loop_correct fuel l pos cur sibs :
  l !! pos = Some cur → (length l <= S fuel)%nat →
  ∃ nodes, proof_loop comb fuel l pos sibs = Ok (sibs ++ nodes) ∧
    fold_layers comb fuel l = Ok (foldl (fold_proof_node comb) cur nodes).
Proof.
  revert l pos cur sibs. induction fuel as [|fuel IH]; intros l pos cur sibs E Hl.
  { destruct l as [|a [|b l]]; [done| |simpl in Hl; lia]. destruct pos; [|done].
    injection E as <-. exists []. by rewrite app_nil_r. }
  destruct l as [|a [|b l]]; [done| |].
  { destruct pos; [|done]. injection E as <-. exists []. by rewrite app_nil_r. }
  cbn [proof_loop fold_layers].
  destruct (sibling_at_lookup (a :: b :: l) pos cur E) as (n1 & -> & E').
  pose proof (next_layer_length (a :: b :: l)) as [_ HL].
  destruct (IH _ _ _ (sibs ++ n1) E') as (n2 & P2 & F2); [simpl in *; lia|].
  exists (n1 ++ n2). rewrite foldl_app, F2. split; [|done].
  change (proof_loop comb fuel (next_layer comb (a :: b :: l)) (pos / 2) (sibs ++ n1)
          = Ok (sibs ++ n1 ++ n2)). by rewrite P2, app_assoc.
Qed.

Lemma root_with_fold hashes :
  hashes ≠ [] → root_with comb hashes = fold_layers comb (length hashes) hashes.
Proof. by destruct hashes as [|a [|b l]]. Qed.

Lemma proof_with_complete fv hashes leaf :
  (leaf ∈ hashes → ∃ r p, root_with comb hashes = Ok r ∧
     proof_with comb fv hashes leaf = Ok (Some p) ∧ mp_leaf p = leaf ∧ mp_root p = r ∧
     mp_fold_version p = fv ∧ foldl (fold_proof_node comb) leaf (mp_siblings p) = r) ∧
  (leaf ∉ hashes → proof_with comb fv hashes leaf = Ok None).
Proof.
  unfold proof_with, position. split.
  - intros Hin. destruct (list_find_elem_of (fun h => h = leaf) hashes leaf) as [[i h] Hf]; [done|done|].
    rewrite Hf. apply list_find_Some in Hf as (Ei & -> & _). simpl.
    rewrite root_with_fold by (by intros ->).
    destruct (proof_loop_correct (length hashes) hashes i leaf [] Ei) as (nodes & P & F); [lia|].
    eexists _, (mkProof leaf nodes _ fv). rewrite F.
    split; [done|]. split; [|done].
    change (proof_loop comb (length hashes) hashes i [] ≫=
      (fun siblings => Ok (Some (mkProof leaf siblings (foldl (fold_proof_node comb) leaf nodes) fv)))
      = Ok (Some (mkProof leaf nodes (foldl (fold_proof_node comb) leaf nodes) fv))).
    by rewrite P.
  - intros Hn. replace (list_find (fun h => h = leaf) hashes) with (@None (nat * hash)); [done|].
    symmetry. apply list_find_None, Forall_forall. by intros x Hx ->.
Qed.

(** ** Committee levels *)

Lemma next_level_dup_length l :
  (length (next_level_dup comb l) <= length l)%nat ∧
  ((2 <= length l)%nat → (0 < length (next_level_dup comb l) < length l)%nat).
Proof.
  induction l as [| |a b l [IH1 IH2]] using pairs_ind; cbn [next_level_dup length]; [lia|lia|].
  split; lia.
Qed.

Lemma pad_level_cons2 a b l : pad_level (a :: b :: l) = a :: b :: pad_level l.
Proof.
  unfold pad_level. cbn [length]. change (Nat.odd (S (S (length l)))) with (Nat.odd (length l)).
  destruct (Nat.odd (length l)) eqn:E; [|done].
  destruct l as [|c l]; [done|]. cbn [last]. by destruct (last (c :: l)).
Qed.

Lemma pair_pad_level l : pair_level comb (pad_level l) = Ok (next_level_dup comb l).
Proof.
  induction l as [| |a b l IH] using pairs_ind; [done|done|].
  rewrite pad_level_cons2. cbn [pair_level next_level_dup]. by rewrite IH.
Qed.

(** The partner of a node in the padded level, and where the pair goes. *)
Lemma pad_level_partner l i cur :
  l !! i = Some cur →
  ∃ h, pad_level l !! (if Nat.even i then S i else (i - 1)%nat) = Some h ∧
    next_level_dup comb l !! (i / 2)%nat = Some (if Nat.even i then comb cur h else comb h cur).
Proof.
  revert i. induction l as [|a|a b l IH] using pairs_ind; intros i; [done| |].
  { destruct i; [|done]. intros [= <-]. by exists a. }
  rewrite pad_level_cons2. destruct i as [|[|i]].
  - intros [= <-]. by exists b.
  - intros [= <-]. by exists a.
  - intros E. destruct (IH i E) as (h & E1 & E2). exists h. rewrite div2_SS.
    change (Nat.even (S (S i))) with (Nat.even i) in *.
    destruct (Nat.even i) eqn:Ev; [done|]. split; [|done].
    destruct i as [|i]; [done|]. simpl in *. by rewrite Nat.sub_0_r in E1.
Qed.

Lemma padded_root_loop_dup fuel l : padded_root_loop comb fuel l = dup_root_loop comb fuel l.
Proof.
  revert l. induction fuel as [|fuel IH]; intros [|a [|b l]]; try done.
  cbn [padded_root_loop dup_root_loop]. rewrite pair_pad_level. apply IH.
Qed.

Lemma dup_root_loop_fuel fuel fuel' l :
  (length l <= S fuel)%nat → (length l <= S fuel')%nat →
  dup_root_loop comb fuel l = dup_root_loop comb fuel' l.
Proof.
  revert fuel' l. induction fuel as [|fuel IH]; intros fuel' [|a [|b l]] H1 H2;
    simpl in H1, H2; try lia; try (by destruct fuel').
  destruct fuel' as [|fuel']; [lia|]. cbn [dup_root_loop].
  pose proof (next_level_dup_length (a :: b :: l)) as [_ HL]. simpl in HL. apply IH; simpl; lia.
Qed.
End recipe.

(** ** Building the committee proofs *)

Section build.
Context (comb : hash → hash → hash).

Definition fold_sibling (cur : hash) (s : ProofSibling) : hash :=
  if is_right s then comb cur (sib_hash s) else comb (sib_hash s) cur.

(** Folding a leaf's partial proof leads to its node of the current level. *)
Definition tracked (level leaves : list hash) (indices : list nat)
    (proofs : list (list ProofSibling)) : Prop :=
  length indices = length leaves ∧ length proofs = length leaves ∧
  ∀ k leaf i p, leaves !! k = Some leaf → indices !! k = Some i → proofs !! k = Some p →
    level !! i = Some (foldl fold_sibling leaf p).

Lemma committee_sibling_ok level i cur :
  level !! i = Some cur →
  ∃ s, committee_sibling (pad_level level) i = Ok s ∧
    next_level_dup comb level !! (i / 2)%nat = Some (fold_sibling cur s).
Proof.
  intros E. destruct (pad_level_partner comb level i cur E) as (h & E1 & E2).
  exists (mkSibling h (Nat.even i)). split; [|done]. unfold committee_sibling.
  rewrite Nat.min_l, E1; [done|]. apply lookup_lt_Some in E1. lia.
Qed.

Lemma mapM_siblings level indices :
  Forall (fun i => is_Some (level !! i)) indices →
  ∃ sibs, mapM (committee_sibling (pad_level level)) indices = Ok sibs ∧
    length sibs = length indices ∧
    ∀ k i cur, indices !! k = Some i → level !! i = Some cur → ∃ s, sibs !! k = Some s ∧
      next_level_dup comb level !! (i / 2)%nat = Some (fold_sibling cur s).
Proof.
  induction 1 as [|i indices [cur Hi] _ (sibs & HM & HL & HK)]; [by exists []|].
  destruct (committee_sibling_ok level i cur Hi) as (s & HS & HN).
  exists (s :: sibs). cbn [mapM]. rewrite HS, HM. split; [done|]. split; [simpl; lia|].
  intros [|k] i' cur'; [|apply HK]. intros [= <-] Hc. exists s. split; [done|].
  rewrite Hi in Hc. by injection Hc as <-.
Qed.

Lemma tracked_step level leaves indices proofs :
  tracked level leaves indices proofs →
  ∃ sibs, mapM (committee_sibling (pad_level level)) indices = Ok sibs ∧
    tracked (next_level_dup comb level) leaves ((fun i => i / 2)%nat <$> indices)
      (zip_with (fun p s => p ++ [s]) proofs sibs).
Proof.
  intros (H1 & H2 & H3).
  assert (HF : Forall (fun i => is_Some (level !! i)) indices).
  { apply Forall_lookup. intros k i Hk.
    destruct (lookup_lt_is_Some_2 leaves k) as [leaf Hl]; [apply lookup_lt_Some in Hk; lia|].
    destruct (lookup_lt_is_Some_2 proofs k) as [p Hp]; [apply lookup_lt_Some in Hk; lia|]. eauto. }
  destruct (mapM_siblings level indices HF) as (sibs & HM & HL & HK). exists sibs. split; [done|].
  split_and!; [by rewrite length_fmap|rewrite length_zip_with; lia|].
  intros k leaf i p Hl Hi Hp. apply list_lookup_fmap_Some in Hi as (i0 & -> & Hi0).
  apply lookup_zip_with_Some in Hp as (p0 & s & -> & Hp0 & Hs).
  destruct (HK k i0 _ Hi0 (H3 k leaf i0 p0 Hl Hi0 Hp0)) as (s' & Hs' & HN).
  rewrite Hs in Hs'. injection Hs' as <-. by rewrite foldl_app.
Qed.

Lemma build_loop_correct fuel level leaves indices proofs :
  (0 < length level <= S fuel)%nat → tracked level leaves indices proofs →
  ∃ r proofs', build_loop comb fuel level indices proofs = Ok (r, proofs') ∧
    dup_root_loop comb fuel level = Ok r ∧ length proofs' = length leaves ∧
    ∀ k leaf p, leaves !! k = Some leaf → proofs' !! k = Some p → foldl fold_sibling leaf p = r.
Proof.
  revert level indices proofs. induction fuel as [|fuel IH]; intros level indices proofs Hl HT.
  all: destruct level as [|a [|b level]]; simpl in Hl; try lia.
  1,2: destruct HT as (H1 & H2 & H3); exists a, proofs; split_and!; try done;
    intros k leaf p Hk Hp; destruct (lookup_lt_is_Some_2 indices k) as [i Hi];
      [apply lookup_lt_Some in Hk; lia|];
    specialize (H3 k leaf i p Hk Hi Hp); destruct i; [by injection H3|done].
  cbn [build_loop dup_root_loop]. destruct (tracked_step _ _ _ _ HT) as (sibs & HM & HT').
  cbv zeta. rewrite HM. unfold mbind, outcome_bind. rewrite pair_pad_level.
  pose proof (next_level_dup_length comb (a :: b :: level)) as [_ HL].
  apply IH; [simpl in *; lia|done].
Qed.

Lemma tracked_start leaves :
  tracked leaves leaves (seq 0 (length leaves)) (replicate (length leaves) []).
Proof.
  split_and!; [by rewrite length_seq|by rewrite length_replicate|].
  intros k leaf i p Hl Hi Hp. apply lookup_seq in Hi as [-> _].
  apply lookup_replicate in Hp as [-> _]. done.
Qed.
End build.

(** ** Sorting and deduplicating the leaves *)

Section dedup.
Context {A : Type} (key : A → hash).

Lemma dedup_from_fmap prev l : key <$> dedup_from key prev l = dedup_from (fun h => h) prev (key <$> l).
Proof.
  revert prev. induction l as [|x l IH]; intros prev; csimpl; [done|].
  case_decide; csimpl; by rewrite IH.
Qed.
Lemma dedup_by_fmap l : key <$> dedup_by key l = dedup_by (fun h => h) (key <$> l).
Proof. destruct l as [|x l]; csimpl; [done|]. by rewrite dedup_from_fmap. Qed.

Lemma dedup_from_sublist prev l : dedup_from key prev l `sublist_of` l.
Proof.
  revert prev. induction l as [|x l IH]; intros prev; simpl; [constructor|].
  case_decide; by constructor.
Qed.
Lemma dedup_by_sublist l : dedup_by key l `sublist_of` l.
Proof. destruct l; simpl; constructor. apply dedup_from_sublist. Qed.
End dedup.

(** On a sorted list, deduplication keeps each value once. *)
Lemma dedup_from_sorted prev l :
  StronglySorted (sle bytes_leb) (prev :: l) →
  NoDup (prev :: dedup_from (fun h => h) prev l) ∧
  (∀ x, x ∈ prev :: dedup_from (fun h => h) prev l ↔ x ∈ prev :: l) ∧
  StronglySorted (sle bytes_leb) (prev :: dedup_from (fun h => h) prev l).
Proof.
  revert prev. induction l as [|x l IH]; intros prev HS; simpl.
  { split_and!; [apply NoDup_singleton|done|done]. }
  apply StronglySorted_inv in HS as [HS1 HS2]. apply Forall_cons in HS2 as [Hpx Hpl].
  case_decide as E.
  - subst x. destruct (IH prev HS1) as (H1 & H2 & H3). split_and!; [done| |done].
    intros x. rewrite H2. set_solver.
  - destruct (IH x HS1) as (H1 & H2 & H3).
    assert (HF : Forall (fun y => sle bytes_leb x y) (x :: dedup_from (fun h => h) x l)).
    { constructor; [apply StronglySorted_inv in H3 as [_ H3]; unfold sle|by apply StronglySorted_inv in H3 as [_ H3]].
      by destruct (bytes_leb_total x x). }
    split_and!.
    + constructor; [|done]. intros Hin. rewrite Forall_forall in HF.
      apply E. apply (anti_symm (sle bytes_leb)); [|done]. by apply HF.
    + intros y. rewrite !elem_of_cons, <- (elem_of_cons l y x), <- H2, elem_of_cons. done.
    + constructor; [done|]. eapply Forall_impl; [apply HF|]. intros y Hy. by transitivity x.
Qed.

Lemma dedup_sorted l :
  StronglySorted (sle bytes_leb) l →
  NoDup (dedup_by (fun h => h) l) ∧ (∀ x, x ∈ dedup_by (fun h => h) l ↔ x ∈ l) ∧
  StronglySorted (sle bytes_leb) (dedup_by (fun h => h) l).
Proof.
  destruct l as [|x l]; [|apply dedup_from_sorted].
  intros _. split_and!; [constructor|done|constructor].
Qed.

Section committee.
Context `{Externals}.

Lemma sorted_leaves_spec pks :
  NoDup (sorted_leaves pks) ∧
  (∀ h, h ∈ sorted_leaves pks ↔ h ∈ committee_leaf_hash <$> pks) ∧
  StronglySorted (sle bytes_leb) (sorted_leaves pks).
Proof.
  destruct (dedup_sorted (stable_sort bytes_leb (committee_leaf_hash <$> pks)))
    as (H1 & H2 & H3); [apply (stable_sort_sorted bytes_leb bytes_leb_total)|].
  split; [exact H1|split; [|exact H3]]. intros h. unfold sorted_leaves.
  by rewrite H2, stable_sort_perm.
Qed.

(** The leaves of the tree depend on the set of members only. *)
Lemma sorted_leaves_set pks pks' :
  (∀ h, h ∈ committee_leaf_hash <$> pks ↔ h ∈ committee_leaf_hash <$> pks') →
  sorted_leaves pks = sorted_leaves pks'.
Proof.
  intros HS. destruct (sorted_leaves_spec pks) as (N1 & E1 & S1).
  destruct (sorted_leaves_spec pks') as (N2 & E2 & S2).
  eapply (StronglySorted_unique (sle bytes_leb)); [done|done|].
  apply NoDup_Permutation; [done|done|]. intros h. by rewrite E1, E2.
Qed.

Lemma sorted_pairs_leaves pks : (sorted_pairs pks).*1 = sorted_leaves pks.
Proof.
  unfold sorted_pairs, sorted_leaves. rewrite dedup_by_fmap. f_equal.
  rewrite (by_key_sort_keys fst bytes_leb bytes_leb_total). f_equal. by rewrite <- list_fmap_compose.
Qed.

Lemma sorted_pairs_elem pks h pk :
  (h, pk) ∈ sorted_pairs pks → h = committee_leaf_hash pk ∧ pk ∈ pks.
Proof.
  intros Hin. eapply elem_of_sublist in Hin; [|apply dedup_by_sublist].
  rewrite stable_sort_perm in Hin. apply list_elem_of_fmap in Hin as (pk' & [= -> ->] & ?). done.
Qed.

Lemma sorted_leaves_length pks : (length (sorted_leaves pks) <= length pks)%nat.
Proof.
  unfold sorted_leaves. etransitivity; [apply sublist_length, dedup_by_sublist|].
  by rewrite stable_sort_length, length_fmap.
Qed.

Lemma sorted_leaves_pos pks : pks ≠ [] → (0 < length (sorted_leaves pks))%nat.
Proof.
  destruct pks as [|pk pks]; [done|]. intros _.
  destruct (sorted_leaves_spec (pk :: pks)) as (_ & E & _).
  destruct (sorted_leaves (pk :: pks)) as [|h l]; [|simpl; lia].
  exfalso. apply (not_elem_of_nil (committee_leaf_hash pk)), E. csimpl. by left.
Qed.
End committee.

(** ** Seals *)

Section seals.
Context `{Externals}.

Lemma fold_node_tagged tag leaf p :
  foldl (fold_node tag) leaf p = foldl (fold_sibling (combine_tagged tag)) leaf p.
Proof.
  revert leaf. induction p as [|s p IH]; intros leaf; [done|]. simpl. rewrite IH. f_equal.
  unfold fold_node, fold_sibling. by destruct (is_right s).
Qed.
Lemma fold_to_siblings comb leaf nodes :
  foldl (fold_sibling comb) leaf (to_proof_siblings nodes)
  = foldl (fold_proof_node comb) leaf nodes.
Proof. revert leaf. induction nodes as [|n nodes IH]; intros leaf; [done|]. simpl. apply IH. Qed.

(** Both recipes, against both verifiers. *)
Lemma seal_proofs_spec version hashes leaf :
  (leaf ∈ hashes →
   ∃ r p, seal_root_for version hashes = Ok r ∧
     seal_proof_for version hashes leaf = Ok (Some p) ∧
     mp_leaf p = leaf ∧ mp_root p = r ∧
     verify_seal_proof_for version p = negb (version =? 0) ∧
     verify_seal_inclusion_proof version leaf (to_proof_siblings (mp_siblings p)) r = true) ∧
  (leaf ∉ hashes → seal_proof_for version hashes leaf = Ok None).
Proof.
  unfold seal_root_for, seal_proof_for, verify_seal_proof_for, verify_seal_inclusion_proof.
  destruct (FOLD_V2_MIN_WIRE_VERSION <=? version).
  - destruct (proof_with_complete (combine_tagged SEAL_FOLD_V2_NODE_TAG) 2 hashes leaf) as [H1 H2].
    split; [|exact H2]. intros Hin. destruct (H1 Hin) as (r & p & R & P & L & RR & FV & F).
    exists r, p. split_and!; try done.
    + rewrite FV. unfold verify_proof_v2_seal, verify_proof_tagged, verify_with.
      rewrite bool_decide_true by (by rewrite L, F). by destruct (version =? 0).
    + unfold inclusion_fold_v2. apply bool_decide_true.
      by rewrite fold_node_tagged, fold_to_siblings.
  - destruct (proof_with_complete combine 1 hashes leaf) as [H1 H2].
    split; [|exact H2]. intros Hin. destruct (H1 Hin) as (r & p & R & P & L & RR & FV & F).
    exists r, p. split_and!; try done.
    + rewrite FV. unfold verify_proof, verify_with.
      rewrite bool_decide_true by (by rewrite L, F). by destruct (version =? 0).
    + unfold inclusion_fold_v1. apply bool_decide_true.
      rewrite fold_node_tagged. by rewrite (fold_to_siblings (combine_tagged [])).
Qed.

(** Every sealed record has an inclusion proof, and both verifiers accept
    it.  Whatever the records of an epoch and the wire version of its seal, the
    root and the proofs are computed without a panic; a record that is sealed
    gets a proof against that root which the light client's check accepts (for a
    known version) and which, stored in a transfer, the cross-zone check
    accepts; a record that is not sealed gets none. *)
Theorem seal_proofs_complete version hashes leaf :
  (leaf ∈ hashes →
   ∃ r p, seal_root_for version hashes = Ok r ∧
     seal_proof_for version hashes leaf = Ok (Some p) ∧
     mp_leaf p = leaf ∧ mp_root p = r ∧
     verify_seal_proof_for version p = negb (version =? 0) ∧
     verify_seal_inclusion_proof version leaf (to_proof_siblings (mp_siblings p)) r = true) ∧
  (leaf ∉ hashes → seal_proof_for version hashes leaf = Ok None).
Proof. apply seal_proofs_spec. Qed.

(** ** Committees *)

Lemma foldl_insert_lookup {V} (l : list (list byte * V)) (m : gmap (list byte) V) k v :
  NoDup l.*1 →
  foldl (fun m kv => <[kv.1:=kv.2]> m) m l !! k = Some v ↔
  (k, v) ∈ l ∨ (k ∉ l.*1 ∧ m !! k = Some v).
Proof.
  revert m. induction l as [|[k' v'] l IH]; intros m HN; csimpl in *.
  { split; [right|]; [by split; [apply not_elem_of_nil|]|]. intros [Hin|[_ ?]]; [|done].
    by apply elem_of_nil in Hin. }
  apply NoDup_cons in HN as [Hk HN]. rewrite IH by done. rewrite !elem_of_cons, lookup_insert_Some.
  assert (Hl : ∀ v, (k', v) ∈ l → False).
  { intros v0 Hv. apply Hk. apply list_elem_of_fmap. by exists (k', v0). }
  naive_solver.
Qed.

Definition committee_tag (version : Z) : option (list byte) :=
  if FOLD_V2_MIN_WIRE_VERSION <=? version then Some COMMITTEE_FOLD_V2_NODE_TAG else None.

Lemma verify_committee_fold version leaf p r :
  verify_committee_inclusion_proof version leaf p r =
  bool_decide (foldl (fold_sibling (committee_combine (committee_tag version))) leaf p = r).
Proof.
  unfold verify_committee_inclusion_proof, committee_tag.
  destruct (FOLD_V2_MIN_WIRE_VERSION <=? version); simpl.
  - unfold inclusion_fold_v2. by rewrite fold_node_tagged.
  - unfold inclusion_fold_v1. by rewrite fold_node_tagged.
Qed.

Lemma committee_hash_loop version pks :
  pks ≠ [] →
  committee_hash_from_pks_for version pks =
  dup_root_loop (committee_combine (committee_tag version)) (length pks) (sorted_leaves pks).
Proof.
  intros Hne. unfold committee_hash_from_pks_for, committee_tag.
  unfold committee_root_v2_interior, committee_hash_from_pks.
  destruct (FOLD_V2_MIN_WIRE_VERSION <=? version); destruct pks as [|pk pks]; try done.
  apply padded_root_loop_dup.
Qed.

Lemma zip_fst_le {A B} (l : list A) (k : list B) : length k = length l → (zip l k).*1 = l.
Proof. intros E. apply fst_zip. lia. Qed.

Lemma build_tagged_eq tag pks :
  pks ≠ [] →
  build_committee_proofs_tagged tag pks =
  (res ← build_loop (committee_combine tag) (length pks) (sorted_leaves pks)
           (seq 0 (length (sorted_leaves pks))) (replicate (length (sorted_leaves pks)) []);
   Ok (res.1, foldl (fun m kv => <[kv.1:=kv.2]> m) ∅ (zip (sorted_pairs pks).*2 res.2))).
Proof. intros Hne. rewrite <- sorted_pairs_leaves. by destruct pks. Qed.

(** What the builder returns. *)
Lemma build_committee_spec version pks :
  ∃ r proofs, build_committee_proofs_for version pks = Ok (r, proofs) ∧
    committee_hash_from_pks_for version pks = Ok r ∧
    (∀ pk p, proofs !! pk = Some p →
       pk ∈ pks ∧ verify_committee_inclusion_proof version (committee_leaf_hash pk) p r = true) ∧
    (∀ pk, pk ∈ pks →
       ∃ pk', pk' ∈ pks ∧ committee_leaf_hash pk' = committee_leaf_hash pk ∧ is_Some (proofs !! pk')).
Proof.
  destruct (decide (pks = [])) as [->|Hne].
  { exists zero_hash, ∅. unfold build_committee_proofs_for, committee_hash_from_pks_for.
    destruct (FOLD_V2_MIN_WIRE_VERSION <=? version); split_and!; try done;
      intros pk Hin; by apply elem_of_nil in Hin. }
  set (comb := committee_combine (committee_tag version)).
  pose proof (sorted_leaves_length pks) as HL. pose proof (sorted_leaves_pos pks Hne) as HP.
  destruct (build_loop_correct comb (length pks) (sorted_leaves pks) (sorted_leaves pks) _ _
    ltac:(lia) (tracked_start comb (sorted_leaves pks))) as (r & ps & HB & HD & HLp & HF).
  set (paired := sorted_pairs pks).
  assert (Hlp : length paired.*2 = length ps).
  { rewrite HLp, <- sorted_pairs_leaves, !length_fmap. done. }
  exists r, (foldl (fun m kv => <[kv.1:=kv.2]> m) ∅ (zip paired.*2 ps)).
  assert (Hel : ∀ h pk, (h, pk) ∈ paired → h = committee_leaf_hash pk ∧ pk ∈ pks)
    by apply sorted_pairs_elem.
  assert (HND : NoDup paired.*2).
  { destruct (sorted_leaves_spec pks) as (HN & _ & _). rewrite <- sorted_pairs_leaves in HN.
    apply (NoDup_fmap_1 committee_leaf_hash). replace (committee_leaf_hash <$> paired.*2) with paired.*1; [done|].
    rewrite <- list_fmap_compose. apply list_fmap_ext. intros i [h pk] Hi.
    apply list_elem_of_lookup_2 in Hi. by apply Hel in Hi as [-> _]. }
  split_and!.
  - unfold build_committee_proofs_for.
    assert (G : build_committee_proofs_tagged (committee_tag version) pks =
      Ok (r, foldl (fun m kv => <[kv.1:=kv.2]> m) ∅ (zip paired.*2 ps))).
    { rewrite build_tagged_eq by done. fold comb. by rewrite HB. }
    unfold committee_tag in G. by destruct (FOLD_V2_MIN_WIRE_VERSION <=? version).
  - by rewrite committee_hash_loop.
  - intros pk p Hp. apply foldl_insert_lookup in Hp; [|by rewrite zip_fst_le].
    destruct Hp as [Hp|[_ Hp]]; [|discriminate Hp].
    apply list_elem_of_lookup in Hp as [k Hk]. apply lookup_zip_Some in Hk as [Hk Hkp].
    apply list_lookup_fmap_Some in Hk as ([h pk'] & -> & Hk).
    destruct (Hel h pk') as [-> Hin]; [by eapply list_elem_of_lookup_2|]. split; [done|].
    rewrite verify_committee_fold. apply bool_decide_true. eapply HF; [|exact Hkp].
    rewrite <- sorted_pairs_leaves, list_lookup_fmap. fold paired. by rewrite Hk.
  - intros pk Hin. destruct (sorted_leaves_spec pks) as (_ & HE & _).
    assert (Hh : committee_leaf_hash pk ∈ paired.*1).
    { unfold paired. rewrite sorted_pairs_leaves. apply HE. by apply list_elem_of_fmap_2. }
    apply list_elem_of_fmap in Hh as ([h pk'] & Hh & Hin'). simpl in Hh.
    destruct (Hel h pk' Hin') as [-> Hpk']. exists pk'. split_and!; [done|done|].
    apply list_elem_of_lookup in Hin' as [k Hk].
    destruct (lookup_lt_is_Some_2 ps k) as [p Hp].
    { apply lookup_lt_Some in Hk. rewrite length_fmap in Hlp. lia. }
    exists p. apply foldl_insert_lookup; [by rewrite zip_fst_le|]. left.
    apply list_elem_of_lookup. exists k. apply lookup_zip_Some. split; [|done].
    by rewrite list_lookup_fmap, Hk.
Qed.
End seals.

Section agreement.
Context `{Externals}.

(** The constructions of the committee root agree.  At every wire version
    (plain nodes before the tagged fold, tagged nodes from it on) the root that
    comes with the proofs and the root computed on its own are the same value,
    computed without a panic, and it depends on the set of member keys only, not
    on their order or repetition. *)
Theorem committee_builders_agree version pks :
  ∃ r proofs, build_committee_proofs_for version pks = Ok (r, proofs) ∧
    committee_hash_from_pks_for version pks = Ok r ∧
    ∀ pks', (∀ pk, pk ∈ pks' ↔ pk ∈ pks) → committee_hash_from_pks_for version pks' = Ok r.
Proof.
  destruct (build_committee_spec version pks) as (r & proofs & HB & HH & _).
  exists r, proofs. split_and!; [done|done|]. intros pks' HS.
  destruct (decide (pks = [])) as [->|Hne].
  { destruct pks' as [|pk pks']; [done|]. exfalso.
    by apply (not_elem_of_nil pk), HS; left. }
  assert (Hne' : pks' ≠ []).
  { intros ->. destruct pks as [|pk pks]; [done|]. by apply (not_elem_of_nil pk), HS; left. }
  rewrite <- HH, !committee_hash_loop by done.
  assert (HL : sorted_leaves pks' = sorted_leaves pks).
  { apply sorted_leaves_set. intros h. rewrite !list_elem_of_fmap. by setoid_rewrite HS. }
  rewrite HL. pose proof (sorted_leaves_length pks). pose proof (sorted_leaves_length pks').
  rewrite HL in *. apply dup_root_loop_fuel; lia.
Qed.

(** C5: an honest two thirds always suffice.  Take a committee of distinct keys
    with distinct leaf hashes, its root and proofs as built, and any of its
    members, two thirds or more, whose signatures over the seal verify: the
    witnesses they produce are accepted by [verify_finality_quorum], whatever
    other witnesses are mixed in before or after them. *)
Theorem honest_quorum_accepted version zone epoch root pks r proofs signers junk1 junk2 :
  NoDup pks → Z.of_nat (length pks) <= 2 ^ 32 → pks ≠ [] →
  (∀ pk pk', pk ∈ pks → pk' ∈ pks → committee_leaf_hash pk = committee_leaf_hash pk' → pk = pk') →
  build_committee_proofs_for version pks = Ok (r, proofs) →
  NoDup (signer_pk <$> signers) →
  (∀ s, s ∈ signers → signer_pk s ∈ pks ∧
     ∃ sg, signer_sign s (xzone_finality_signable_bytes zone epoch root r) = Some sg ∧
           sig_verify (xzone_finality_signable_bytes zone epoch root r) sg (signer_pk s) = true) →
  2 * Z.of_nat (length pks) <= 3 * Z.of_nat (length signers) →
  verify_finality_quorum version zone epoch root r (Z.of_nat (length pks))
    (junk1 ++ omap (fun s => sign_finality_witness s zone epoch root r proofs) signers ++ junk2)
  = Ok tt.
Proof.
  intros HN Hsz Hne Hinj HB HNs Hs H23.
  destruct (build_committee_spec version pks) as (r' & proofs' & HB' & _ & HP & HM).
  rewrite HB in HB'. injection HB' as <- <-.
  apply finality_quorum_iff; [lia|]. cbv zeta.
  set (msg := xzone_finality_signable_bytes zone epoch root r) in *.
  split; [destruct pks; simpl; [done|lia]|]. etransitivity; [apply H23|].
  apply Z.mul_le_mono_nonneg_l; [lia|]. apply inj_le.
  rewrite <- (length_fmap signer_pk), <- (size_list_to_set (C := gset (list byte)) _ HNs).
  apply subseteq_size. intros pk Hpk. apply elem_of_list_to_set, list_elem_of_fmap in Hpk as (s & -> & Hin).
  apply verified_signers_spec. destruct (Hs s Hin) as [Hmem (sg & Hsg & Hv)].
  destruct (HM _ Hmem) as (pk' & Hmem' & Heq & [p Hp]).
  apply (Hinj _ _ Hmem' Hmem) in Heq as ->. destruct (HP _ _ Hp) as [_ Hver].
  exists (mkWitness (signer_pk s) sg p). split_and!; [|done|].
  - rewrite !elem_of_app. right; left. apply list_elem_of_omap. exists s. split; [done|].
    unfold sign_finality_witness. rewrite Hp. simpl. fold msg. by rewrite Hsg.
  - unfold valid_signer. simpl. by rewrite Hver, Hv.
Qed.
End agreement.

(** ** Examples *)

Module MerkleExamples.
#[local] Existing Instance toy_externals.

Definition three_hashes : list hash := sha3_256 <$> [[x01]; [x02]; [x03]].

Lemma seal_proofs_complete_witness :
  ∃ r p, seal_root_for 7 three_hashes = Ok r ∧
    seal_proof_for 7 three_hashes (sha3_256 [x03]) = Ok (Some p) ∧
    length (mp_siblings p) = 1%nat.
Proof.
  destruct (seal_proofs_complete 7 three_hashes (sha3_256 [x03])) as [H _].
  destruct H as (r & p & HR & HP & _); [by vm_compute; repeat constructor|].
  exists r, p. split; [exact HR|]. split; [exact HP|].
  vm_compute in HP. by injection HP as <-.
Defined.

Definition keys : list (list byte) := [[x01]; [x02]; [x03]].
Definition toy_signer_of (pk : list byte) : Signer := mkSigner pk (fun m => Some (m ++ pk)).

Lemma keys_distinct pk pk' :
  pk ∈ keys → pk' ∈ keys → committee_leaf_hash pk = committee_leaf_hash pk' → pk = pk'.
Proof.
  intros H1 H2 E.
  assert (G : Forall (fun pk => Forall (fun pk' =>
    committee_leaf_hash pk = committee_leaf_hash pk' → pk = pk') keys) keys).
  { repeat constructor; vm_compute; intros; first [done|discriminate]. }
  rewrite Forall_forall in G. specialize (G pk H1). rewrite Forall_forall in G. by apply (G pk' H2).
Qed.

Lemma honest_quorum_accepted_witness :
  ∃ r proofs, build_committee_proofs_for 7 keys = Ok (r, proofs) ∧
    verify_finality_quorum 7 "a" 1 zero_hash r 3
      ([mkWitness [x09] [] []] ++
       omap (fun s => sign_finality_witness s "a" 1 zero_hash r proofs)
         [toy_signer_of [x01]; toy_signer_of [x03]] ++ []) = Ok tt.
Proof.
  destruct (build_committee_spec 7 keys) as (r & proofs & HB & _).
  exists r, proofs. split; [exact HB|].
  apply (honest_quorum_accepted 7 "a" 1 zero_hash keys r proofs).
  - refine (bool_decide_unpack _ _). by vm_compute.
  - by vm_compute.
  - discriminate.
  - apply keys_distinct.
  - exact HB.
  - refine (bool_decide_unpack _ _). by vm_compute.
  - apply Forall_forall. apply Forall_cons. split; [|apply Forall_singleton]; (split;
      [refine (bool_decide_unpack _ _); by vm_compute|]); eexists; (split; [reflexivity|]);
      apply bool_decide_true; reflexivity.
  - by vm_compute.
Defined.
End MerkleExamples.
