(* ===== verification/Records.v ===== *)
(** * Records as the ledger sees them

    The part of a [ValidationRecord] (crates/elara-record/src/record.rs) that the
    accounting layer reads, its JSON metadata, identity hashes, cryptographic
    profiles and attestation levels (src/src/identity.rs). *)

From Stdlib Require Import Strings.Ascii.
From stdpp Require Import pretty.
From S2P Require Import Prelude F64 Types CrossZone.
Open Scope Z_scope.

(** ** JSON values ([serde_json::Value]) *)

Inductive Json :=
  | JNull
  | JBool (b : bool)
  | JInt (n : Z)      (* [PosInt(u64)] or [NegInt(i64)] *)
  | JFloat (f : f64)
  | JString (s : string)
  | JArray (l : list Json)
  | JObject (l : list (string * Json)).

Definition as_str (v : Json) : option string :=
  match v with JString s => Some s | _ => None end.
Definition as_bool (v : Json) : option bool :=
  match v with JBool b => Some b | _ => None end.
Definition as_u64 (v : Json) : option Z :=
  match v with
  | JInt n => if (0 <=? n) && (n <=? U64.MAX) then Some n else None
  | _ => None
  end.
Definition as_i64 (v : Json) : option Z :=
  match v with
  | JInt n => if (- 2 ^ 63 <=? n) && (n <? 2 ^ 63) then Some n else None
  | _ => None
  end.
(** Integers convert too. *)
Definition as_f64 (v : Json) : option f64 :=
  match v with
  | JInt n => Some (f64_of_Z n)
  | JFloat f => Some f
  | _ => None
  end.

(** [json!(x)]: a double that is not finite has no JSON form. *)
Definition json_f64 (x : f64) : Json := if f64_is_finite x then JFloat x else JNull.

Definition Metadata := gmap string Json.

(** ** Numbers in text *)

(** [str::parse::<u64>]: an optional plus sign, then digits of a value in range. *)
Fixpoint u64_digits (s : string) (acc : Z) : option Z :=
  match s with
  | EmptyString => Some acc
  | String c s =>
      let d := Z.of_N (N_of_ascii c) - 48 in
      if (0 <=? d) && (d <=? 9) && (acc * 10 + d <=? U64.MAX) then u64_digits s (acc * 10 + d) else None
  end.
Definition parse_u64 (s : string) : option Z :=
  match s with
  | EmptyString => None
  | String c s' =>
      if Ascii.eqb c "+"%char then match s' with EmptyString => None | _ => u64_digits s' 0 end
      else u64_digits s 0
  end.
Definition display_u64 (n : Z) : string := pretty (Z.to_N n).

(** ** Hexadecimal *)

Definition hex_digit (n : N) : ascii :=
  ascii_of_N (if (n <? 10)%N then 48 + n else 87 + n)%N.
Fixpoint hex_encode (l : list byte) : string :=
  match l with
  | [] => EmptyString
  | b :: l =>
      String (hex_digit (Byte.to_N b / 16)) (String (hex_digit (Byte.to_N b mod 16)) (hex_encode l))
  end.

Lemma hex_encode_length l : String.length (hex_encode l) = (2 * length l)%nat.
Proof. induction l as [|b l IH]; simpl; [done|]. rewrite IH. lia. Qed.

(** ** Slicing a string for a message

    [&s[..s.len().min(16)]] panics when byte 16 is in the middle of a UTF-8
    sequence, that is, when it is a continuation byte. *)

Definition is_continuation (c : ascii) : bool :=
  let n := N_of_ascii c in (128 <=? n)%N && (n <? 192)%N.
Definition prefix16_ok (s : string) : bool :=
  match String.get 16 s with Some c => negb (is_continuation c) | None => true end.
Definition prefix16 {S} (s : string) : M S unit := if prefix16_ok s then mret tt else panic.
(** [&s[..16]] also panics on a string shorter than 16 bytes. *)
Definition slice16_ok (s : string) : bool :=
  (16 <=? Z.of_nat (String.length s)) && prefix16_ok s.
Definition slice16 {S} (s : string) : M S unit := if slice16_ok s then mret tt else panic.

(** ** Profiles and attestation *)

Inductive CryptoProfile := ProfileA | ProfileB | ProfileC.
#[global] Instance CryptoProfile_eq_dec : EqDecision CryptoProfile.
Proof. solve_decision. Defined.

Module Attestation.
Inductive level := None_ | Software | SecureBoot | HardwareKey | Puf.

Definition rank (l : level) : Z :=
  match l with None_ => 0 | Software => 1 | SecureBoot => 2 | HardwareKey => 3 | Puf => 4 end.

Definition parse (s : string) : option level :=
  if decide (s = "NONE" ∨ s = "none") then Some None_
  else if decide (s = "SOFTWARE" ∨ s = "software") then Some Software
  else if decide (s = "SECURE_BOOT" ∨ s = "secure_boot") then Some SecureBoot
  else if decide (s = "HARDWARE_KEY" ∨ s = "hardware_key") then Some HardwareKey
  else if decide (s = "PUF" ∨ s = "puf") then Some Puf
  else None.
End Attestation.

Definition ATTESTATION_LEVEL_KEY : string := "attestation_level".

(** ** Records *)

Record ValidationRecord := mkRecord {
  rec_id : string;
  rec_timestamp : f64;
  rec_public_key : list byte;
  rec_sphincs_signature : option (list byte);
  rec_sphincs_pk : option (list byte);
  rec_metadata : Metadata;
  (** The value of [record_hash()], the digest of the signed bytes. *)
  rec_hash : hash;
}.

Definition extract_attestation_level (r : ValidationRecord) : option Attestation.level :=
  v ← rec_metadata r !! ATTESTATION_LEVEL_KEY;
  s ← as_str v;
  Attestation.parse s.

Section identity.
Context `{Externals}.

Definition sha3_256_hex (d : list byte) : string := hex_encode (sha3_256 d).
Definition creator_identity_hash (r : ValidationRecord) : string := sha3_256_hex (rec_public_key r).

Lemma creator_identity_hash_length r : String.length (creator_identity_hash r) = 64%nat.
Proof.
  unfold creator_identity_hash, sha3_256_hex. by rewrite hex_encode_length, sha3_256_length.
Qed.
End identity.

Lemma hex_digit_ascii n : (n < 16)%N → is_continuation (hex_digit n) = false.
Proof.
  intros H. assert (Hn : n ∈ (N.of_nat <$> seq 0 16)).
  { apply list_elem_of_fmap. exists (N.to_nat n). rewrite N2Nat.id, elem_of_seq. lia. }
  assert (G : forallb (fun n => negb (is_continuation (hex_digit n))) (N.of_nat <$> seq 0 16) = true)
    by (by vm_compute).
  rewrite forallb_forall in G. apply list_elem_of_In, G in Hn. by apply negb_true_iff in Hn.
Qed.

Lemma hex_encode_get l i c : String.get i (hex_encode l) = Some c → is_continuation c = false.
Proof.
  revert i. induction l as [|b l IH]; intros i; [by destruct i|].
  pose proof (Byte.to_N_bounded b) as Hb.
  destruct i as [|[|i]]; cbn [hex_encode String.get].
  - intros [= <-]. apply hex_digit_ascii. apply N.Div0.div_lt_upper_bound. lia.
  - intros [= <-]. apply hex_digit_ascii, N.mod_lt. lia.
  - apply IH.
Qed.

Lemma hex_prefix16_ok l : prefix16_ok (hex_encode l) = true.
Proof.
  unfold prefix16_ok. destruct (String.get 16 (hex_encode l)) as [c|] eqn:E; [|done].
  by rewrite (hex_encode_get _ _ _ E).
Qed.
