(* ===== verification/Wire.v ===== *)
(** * The ELRA wire format

    crates/elara-record/src/wire.rs: the length-prefixed encoders, the reading
    cursor with its bounds checks, the header, and the binary form of a record's
    metadata.  An encoder appends to a byte buffer and may fail half way, leaving
    what it has written; a decoder moves the cursor of a [WireReader]. *)

From Stdlib Require Import Floats.SpecFloat.
From S2P Require Import Prelude F64.
Open Scope Z_scope.

(** ** Constants *)

Definition MAGIC : list byte := bytes_of "ELRA".
Definition WIRE_VERSION : Z := 8.
Definition CURRENT_SIGNING_VERSION : Z := 7.
Definition WIRE_VERSION_MIN : Z := 4.
Definition MAX_NETWORK_ID_LEN : Z := 64.
Definition MAX_METADATA_ENTRIES : Z := 256.
Definition MAX_METADATA_DEPTH : nat := 8.

Definition META_NULL : Z := 0.
Definition META_BOOL : Z := 1.
Definition META_INT : Z := 2.
Definition META_FLOAT : Z := 3.
Definition META_STRING : Z := 4.
Definition META_ARRAY : Z := 5.
Definition META_OBJECT : Z := 6.

Definition U16_MAX : Z := 2 ^ 16 - 1.
Definition USIZE_MAX : Z := 2 ^ 64 - 1.

(** ** Integers as bytes *)

Definition Zbyte (b : byte) : Z := Z.of_N (Byte.to_N b).
(** [n as u8] *)
Definition as_byte (n : Z) : byte := byte_of_N (Z.to_N (n mod 256)).
(** [uN::from_be_bytes] *)
Definition from_be (l : list byte) : Z := fold_left (fun acc b => acc * 256 + Zbyte b) l 0.
(** [i64::to_be_bytes] and [i64::from_be_bytes], two's complement. *)
Definition i64_bytes (n : Z) : list byte := be_bytes 8 (n mod 2 ^ 64).
Definition i64_from_be (l : list byte) : Z :=
  let n := from_be l in if n <? 2 ^ 63 then n else n - 2 ^ 64.

(** A double is its 64-bit pattern here: the wire format and the signed bytes
    carry it bit for bit, the payload of a NaN included. *)
Definition f64_bits_finite (b : Z) : bool := negb ((b / 2 ^ 52) mod 2 ^ 11 =? 2 ^ 11 - 1).
(** The bit pattern of a computed double ([n as f64] of an integer). *)
Definition bits_of_f64 (x : f64) : Z :=
  match x with
  | S754_zero s => if s then 2 ^ 63 else 0
  | S754_infinity s => (if s then 2 ^ 63 else 0) + 2047 * 2 ^ 52
  | S754_nan => 2047 * 2 ^ 52 + 2 ^ 51
  | S754_finite s m e =>
      (if s then 2 ^ 63 else 0) +
      (if 2 ^ 52 <=? Z.pos m then (e + 1075) * 2 ^ 52 + (Z.pos m - 2 ^ 52) else Z.pos m)
  end.

(** ** UTF-8 ([std::str::from_utf8])

    The well-formed byte sequences of the Unicode standard: no overlong form,
    no surrogate, nothing above U+10FFFF. *)

Definition is_cont (b : byte) : bool := (0x80 <=? Zbyte b) && (Zbyte b <=? 0xBF).
Definition byte_in (lo hi : Z) (b : byte) : bool := (lo <=? Zbyte b) && (Zbyte b <=? hi).

Fixpoint utf8_valid (l : list byte) : bool :=
  match l with
  | [] => true
  | b0 :: l1 =>
      if byte_in 0 0x7F b0 then utf8_valid l1
      else match l1 with
      | [] => false
      | b1 :: l2 =>
          if byte_in 0xC2 0xDF b0 then is_cont b1 && utf8_valid l2
          else match l2 with
          | [] => false
          | b2 :: l3 =>
              if byte_in 0xE0 0xEF b0 then
                byte_in (if Zbyte b0 =? 0xE0 then 0xA0 else 0x80)
                        (if Zbyte b0 =? 0xED then 0x9F else 0xBF) b1
                && is_cont b2 && utf8_valid l3
              else match l3 with
              | [] => false
              | b3 :: l4 =>
                  byte_in 0xF0 0xF4 b0
                  && byte_in (if Zbyte b0 =? 0xF0 then 0x90 else 0x80)
                             (if Zbyte b0 =? 0xF4 then 0x8F else 0xBF) b1
                  && is_cont b2 && is_cont b3 && utf8_valid l4
              end
          end
      end
  end.

Definition from_utf8 (l : list byte) : option string :=
  if utf8_valid l then Some (String.string_of_list_byte l) else None.
Definition is_ascii (s : string) : bool := forallb (byte_in 0 0x7F) (bytes_of s).
(** [s.len()] *)
Definition slen (s : string) : Z := Z.of_nat (length (bytes_of s)).

(** ** Writing *)

Definition Buf := list byte.
(** [buf.extend_from_slice(l)], and [buf.push(b)] for one byte. *)
Definition extend (l : list byte) : M Buf unit := modify (fun buf => buf ++ l).

Definition encode_header (version : Z) : M Buf unit :=
  extend MAGIC ;; extend (be_bytes 2 version) ;; extend [x01] ;; extend [x00].
Definition encode_u8_prefixed (data : list byte) : M Buf unit :=
  extend [as_byte (Z.of_nat (length data))] ;; extend data.
(** The assertion is kept in release builds. *)
Definition encode_u16_prefixed (data : list byte) : M Buf unit :=
  if Z.of_nat (length data) <=? U16_MAX then
    extend (be_bytes 2 (Z.of_nat (length data))) ;; extend data
  else panic.
Definition encode_u32_prefixed (data : list byte) : M Buf unit :=
  extend (be_bytes 4 (Z.of_nat (length data))) ;; extend data.
Definition encode_timestamp (bits : Z) : M Buf unit := extend (be_bytes 8 bits).
Definition encode_optional_u16 (data : option (list byte)) : M Buf unit :=
  match data with
  | Some d => encode_u16_prefixed d
  | None => extend (be_bytes 2 0)
  end.
Definition encode_optional_u32 (data : option (list byte)) : M Buf unit :=
  match data with
  | Some d => encode_u32_prefixed d
  | None => extend (be_bytes 4 0)
  end.

(** ** Reading *)

Record WireReader := mkReader { wr_data : list byte; wr_pos : Z }.
Definition eta_WireReader (r : WireReader) := mkReader (wr_data r) (wr_pos r).
#[global] Instance set_wr_pos : Setter wr_pos.
Proof. derive_setter eta_WireReader. Defined.

Definition reader_new (data : list byte) : WireReader := mkReader data 0.
Definition data_len (r : WireReader) : Z := Z.of_nat (length (wr_data r)).
Definition remaining (r : WireReader) : Z := Z.max 0 (data_len r - wr_pos r).
Definition remaining_bytes (r : WireReader) : list byte :=
  if wr_pos r <=? data_len r then drop (Z.to_nat (wr_pos r)) (wr_data r) else [].
Definition advance (n : Z) : M WireReader unit :=
  modify (fun r => r <| wr_pos := Z.min USIZE_MAX (wr_pos r + n) |>).

(** [&data[from..to]]: a panic outside the slice. *)
Definition slice {S} (data : list byte) (from to : Z) : M S (list byte) :=
  if (from <=? to) && (to <=? Z.of_nat (length data)) then
    mret (take (Z.to_nat (to - from)) (drop (Z.to_nat from) data))
  else panic.

Definition checked_end (r : WireReader) (n : Z) : option Z :=
  let e := wr_pos r + n in
  if (e <=? USIZE_MAX) && (e <=? data_len r) then Some e else None.
Definition read_bytes (n : Z) : M WireReader (list byte) :=
  r ← get;
  e ← ok_or (checked_end r n) (EWire "unexpected EOF");
  s ← slice (wr_data r) (wr_pos r) e;
  modify (fun r => r <| wr_pos := e |>) ;;
  mret s.

(** [bytes[i]] *)
Definition index {S} (l : list byte) (i : nat) : M S byte :=
  match l !! i with Some b => mret b | None => panic end.

Definition read_u8 : M WireReader Z :=
  bytes ← read_bytes 1; b ← index bytes 0; mret (Zbyte b).
(** [uN::from_be_bytes([bytes[0], .., bytes[n-1]])] after [read_bytes(n)]. *)
Fixpoint index_all {S} (l : list byte) (ks : list nat) : M S (list byte) :=
  match ks with
  | [] => mret []
  | i :: ks => b ← index l i; bs ← index_all l ks; mret (b :: bs)
  end.
Definition read_be (n : nat) : M WireReader Z :=
  bytes ← read_bytes (Z.of_nat n); bs ← index_all bytes (seq 0 n); mret (from_be bs).
Definition read_u16 : M WireReader Z := read_be 2.
Definition read_u32 : M WireReader Z := read_be 4.
Definition read_f64 : M WireReader Z := read_be 8.
Definition read_u8_prefixed : M WireReader (list byte) := len ← read_u8; read_bytes len.
Definition read_u16_prefixed : M WireReader (list byte) := len ← read_u16; read_bytes len.
Definition read_u32_prefixed : M WireReader (list byte) := len ← read_u32; read_bytes len.
Definition read_optional_u16 : M WireReader (option (list byte)) :=
  len ← read_u16;
  if len =? 0 then mret None else data ← read_bytes len; mret (Some data).
Definition read_optional_u32 : M WireReader (option (list byte)) :=
  len ← read_u32;
  if len =? 0 then mret None else data ← read_bytes len; mret (Some data).
Definition read_header : M WireReader (Z * Z) :=
  magic ← read_bytes 4;
  require (bool_decide (magic = MAGIC)) (EWire "invalid magic") ;;
  version ← read_u16;
  require ((WIRE_VERSION_MIN <=? version) && (version <=? WIRE_VERSION))
    (EWire "unsupported wire version") ;;
  rec_type ← read_u8;
  _ ← read_u8;
  mret (version, rec_type).

(** ** Metadata values ([serde_json::Value])

    Numbers as the crate's interface tells them apart: an unsigned 64-bit
    integer, a negative 64-bit integer, or a finite double.  An object is a
    [BTreeMap]: its entries in the order of their keys. *)

Inductive Number :=
  | PosInt (n : Z)
  | NegInt (n : Z)
  | Float (bits : Z).
Inductive Value :=
  | VNull
  | VBool (b : bool)
  | VNumber (n : Number)
  | VString (s : string)
  | VArray (l : list Value)
  | VObject (l : list (string * Value)).
Definition MetadataMap := list (string * Value).

Definition num_as_i64 (n : Number) : option Z :=
  match n with
  | PosInt n => if n <? 2 ^ 63 then Some n else None
  | NegInt n => Some n
  | Float _ => None
  end.
Definition num_as_f64 (n : Number) : option Z :=
  match n with
  | PosInt n | NegInt n => Some (bits_of_f64 (f64_of_Z n))
  | Float b => Some b
  end.
(** [json!(n)] of an [i64]. *)
Definition json_i64 (n : Z) : Value := VNumber (if n <? 0 then NegInt n else PosInt n).

(** [BTreeMap::insert]: keys in increasing byte order, a present key replaced. *)
Fixpoint map_insert (k : string) (v : Value) (m : MetadataMap) : MetadataMap :=
  match m with
  | [] => [(k, v)]
  | (k', v') :: m' =>
      match String.compare k k' with
      | Lt => (k, v) :: m
      | Eq => (k', v) :: m'
      | Gt => (k', v') :: map_insert k v m'
      end
  end.

(** ** Encoding metadata *)

Definition encode_metadata_key (key : string) : M Buf unit :=
  require (slen key <=? 255) (EWire "metadata key length overflows u8 length prefix") ;;
  encode_u8_prefixed (bytes_of key).

Definition tag (t : Z) : M Buf unit := extend [as_byte t].
Definition encode_count (n : nat) : M Buf unit := extend (be_bytes 2 (Z.of_nat n)).

Fixpoint encode_json_value (val : Value) : M Buf unit :=
  match val with
  | VNull => tag META_NULL
  | VBool b => tag META_BOOL ;; extend [as_byte (if b then 1 else 0)]
  | VNumber n =>
      match num_as_i64 n with
      | Some i => tag META_INT ;; extend (i64_bytes i)
      | None =>
          match num_as_f64 n with
          | Some f => tag META_FLOAT ;; extend (be_bytes 8 f)
          | None => tag META_NULL
          end
      end
  | VString s =>
      require (slen s <=? U16_MAX) (EWire "metadata string length overflows u16 length prefix") ;;
      tag META_STRING ;;
      encode_u16_prefixed (bytes_of s)
  | VArray arr =>
      require (Z.of_nat (length arr) <=? U16_MAX)
        (EWire "metadata array count overflows u16 length prefix") ;;
      tag META_ARRAY ;;
      encode_count (length arr) ;;
      (fix items (l : list Value) : M Buf unit :=
         match l with
         | [] => mret tt
         | item :: l => encode_json_value item ;; items l
         end) arr
  | VObject obj =>
      require (Z.of_nat (length obj) <=? U16_MAX)
        (EWire "metadata object count overflows u16 length prefix") ;;
      tag META_OBJECT ;;
      encode_count (length obj) ;;
      (fix entries (l : list (string * Value)) : M Buf unit :=
         match l with
         | [] => mret tt
         | (k, v) :: l => encode_metadata_key k ;; encode_json_value v ;; entries l
         end) obj
  end.

Definition encode_entry (kv : string * Value) : M Buf unit :=
  encode_metadata_key kv.1 ;; encode_json_value kv.2.
Definition encode_metadata_binary (metadata : MetadataMap) : M Buf unit :=
  require (Z.of_nat (length metadata) <=? U16_MAX)
    (EWire "metadata entry count overflows u16 length prefix") ;;
  encode_count (length metadata) ;;
  for_each encode_entry metadata.

(** ** Decoding metadata

    [levels] is [MAX_METADATA_DEPTH + 1 - depth]: the code refuses a depth above
    the limit on entry, which is the empty budget. *)

Section loops.
Context {A : Type} (read_one : M WireReader A).

(** [for _ in 0..count { arr.push(read_one()?) }] *)
Fixpoint read_items (count : nat) (arr : list A) : M WireReader (list A) :=
  match count with
  | O => mret arr
  | S count => x ← read_one; read_items count (arr ++ [x])
  end.
End loops.

Section entries.
Context (read_value : M WireReader Value).

Definition read_key : M WireReader string :=
  bytes ← read_u8_prefixed;
  ok_or (from_utf8 bytes) (EWire "invalid metadata key").
(** [for _ in 0..count { read key; read value; map.insert(key, value) }] *)
Fixpoint read_entries (count : nat) (m : MetadataMap) : M WireReader MetadataMap :=
  match count with
  | O => mret m
  | S count => k ← read_key; v ← read_value; read_entries count (map_insert k v m)
  end.
End entries.

Definition read_count : M WireReader nat :=
  count ← read_u16;
  require (count <=? MAX_METADATA_ENTRIES) (EWire "too many metadata entries") ;;
  mret (Z.to_nat count).

(** [<[u8; 8]>::try_from(reader.read_bytes(8)?)] *)
Definition read_array8 : M WireReader (list byte) :=
  bytes ← read_bytes 8;
  require (bool_decide (length bytes = 8%nat)) (EWire "expected 8 bytes") ;;
  mret bytes.

Fixpoint decode_json_value (levels : nat) : M WireReader Value :=
  match levels with
  | O => throw (EWire "metadata nesting depth exceeds limit")
  | S levels =>
      t ← read_u8;
      if t =? META_NULL then mret VNull
      else if t =? META_BOOL then b ← read_u8; mret (VBool (negb (b =? 0)))
      else if t =? META_INT then
        bytes ← read_array8; mret (json_i64 (i64_from_be bytes))
      else if t =? META_FLOAT then
        bytes ← read_array8;
        let f := from_be bytes in
        require (f64_bits_finite f) (EWire "metadata float is non-finite (NaN/Inf)") ;;
        mret (VNumber (Float f))
      else if t =? META_STRING then
        bytes ← read_u16_prefixed;
        s ← ok_or (from_utf8 bytes) (EWire "invalid metadata string");
        mret (VString s)
      else if t =? META_ARRAY then
        count ← read_count;
        arr ← read_items (decode_json_value levels) count [];
        mret (VArray arr)
      else if t =? META_OBJECT then
        count ← read_count;
        obj ← read_entries (decode_json_value levels) count [];
        mret (VObject obj)
      else throw (EWire "unknown metadata type tag")
  end.

Definition decode_metadata_binary : M WireReader MetadataMap :=
  count ← read_count;
  read_entries (decode_json_value (S MAX_METADATA_DEPTH)) count [].
