(* ===== verification/WireCodec.v ===== *)
(** * Codecs

    What it means for a decoder of [Wire] to read back what an encoder wrote,
    and for a decoder to yield only values of a certain form from arbitrary
    bytes, with the rules that compose both along the monads' sequencing, and
    the metadata codec as their first client. *)

From Stdlib Require Import Structures.OrdersEx.
From S2P Require Import Prelude F64 Wire.
Open Scope Z_scope.

(** ** Integers and bytes *)

Lemma Zbyte_bounds b : 0 <= Zbyte b < 256.
Proof. unfold Zbyte. pose proof (Byte.to_N_bounded b). lia. Qed.

Lemma Zbyte_as_byte n : Zbyte (as_byte n) = n mod 256.
Proof.
  unfold Zbyte, as_byte. rewrite to_N_byte_of_N.
  pose proof (Z.mod_pos_bound n 256 ltac:(lia)).
  rewrite N2Z.inj_mod, Z2N.id by lia. apply Z.mod_small. lia.
Qed.

Lemma as_byte_Zbyte b : as_byte (Zbyte b) = b.
Proof.
  unfold as_byte. rewrite Z.mod_small by apply Zbyte_bounds.
  unfold Zbyte. rewrite N2Z.id. apply byte_of_to_N.
Qed.

Lemma be_bytes_S w x : be_bytes (S w) x = be_bytes w (x / 256) ++ [as_byte x].
Proof. done. Qed.

Lemma be_bytes_length w x : length (be_bytes w x) = w.
Proof.
  revert x. induction w as [|w IH]; intros x; [done|].
  rewrite be_bytes_S, length_app, IH. simpl. lia.
Qed.

Lemma from_be_snoc l b : from_be (l ++ [b]) = from_be l * 256 + Zbyte b.
Proof. unfold from_be. by rewrite fold_left_app. Qed.

Lemma from_be_bounds l : 0 <= from_be l < 256 ^ Z.of_nat (length l).
Proof.
  induction l as [|b l IH] using rev_ind; [unfold from_be; simpl; lia|].
  rewrite from_be_snoc, length_app, Nat2Z.inj_add, Z.pow_add_r by lia.
  simpl (length [b]). pose proof (Zbyte_bounds b).
  change (256 ^ Z.of_nat 1) with 256. nia.
Qed.

Lemma from_be_be_bytes w x : from_be (be_bytes w x) = x mod 256 ^ Z.of_nat w.
Proof.
  revert x. induction w as [|w IH]; intros x; [unfold from_be; simpl; by rewrite Z.mod_1_r|].
  rewrite be_bytes_S, from_be_snoc, IH, Zbyte_as_byte, Nat2Z.inj_succ, Z.pow_succ_r by lia.
  rewrite Z.rem_mul_r; [lia|lia|]. apply Z.pow_pos_nonneg; lia.
Qed.

Lemma from_be_be_small w x : 0 <= x < 256 ^ Z.of_nat w → from_be (be_bytes w x) = x.
Proof. intros H. by rewrite from_be_be_bytes, Z.mod_small. Qed.

Lemma be_bytes_inj w x y :
  0 <= x < 256 ^ Z.of_nat w → 0 <= y < 256 ^ Z.of_nat w → be_bytes w x = be_bytes w y → x = y.
Proof.
  intros Hx Hy E. apply (f_equal from_be) in E. by rewrite !from_be_be_small in E.
Qed.

Lemma i64_from_i64_bytes n : - 2 ^ 63 <= n < 2 ^ 63 → i64_from_be (i64_bytes n) = n.
Proof.
  intros H. unfold i64_from_be, i64_bytes.
  rewrite from_be_be_small; [|change (256 ^ Z.of_nat 8) with (2 ^ 64); apply Z.mod_pos_bound; lia].
  cbv zeta. destruct (Z.ltb_spec (n mod 2 ^ 64) (2 ^ 63)) as [Hm|Hm];
    destruct (Z.lt_ge_cases n 0) as [Hn|Hn].
  - rewrite <- (Z_mod_plus_full n 1), Z.mod_small in Hm by lia. lia.
  - by rewrite Z.mod_small by lia.
  - rewrite <- (Z_mod_plus_full n 1), Z.mod_small by lia. lia.
  - rewrite Z.mod_small in Hm by lia. lia.
Qed.

Lemma i64_from_be_bounds l : length l = 8%nat → - 2 ^ 63 <= i64_from_be l < 2 ^ 63.
Proof.
  intros Hl. pose proof (from_be_bounds l) as H. rewrite Hl in H.
  change (256 ^ Z.of_nat 8) with (2 ^ 64) in H. unfold i64_from_be.
  cbv zeta. destruct (Z.ltb_spec (from_be l) (2 ^ 63)); lia.
Qed.

(** ** Strings *)

Lemma bytes_of_string_of l : bytes_of (String.string_of_list_byte l) = l.
Proof. apply String.list_byte_of_string_of_list_byte. Qed.

Lemma from_utf8_bytes_of s : utf8_valid (bytes_of s) = true → from_utf8 (bytes_of s) = Some s.
Proof.
  intros H. unfold from_utf8. rewrite H. f_equal. apply String.string_of_list_byte_of_string.
Qed.

Lemma from_utf8_Some l s : from_utf8 l = Some s → bytes_of s = l ∧ utf8_valid (bytes_of s) = true.
Proof.
  unfold from_utf8. destruct (utf8_valid l) eqn:E; [|done]. intros [= <-].
  by rewrite bytes_of_string_of.
Qed.

Lemma ascii_utf8 l : forallb (byte_in 0 0x7F) l = true → utf8_valid l = true.
Proof.
  induction l as [|b l IH]; [done|]. cbn [forallb utf8_valid]. intros H. bools.
  rewrite H. by apply IH.
Qed.

Lemma bytes_of_inj s1 s2 : bytes_of s1 = bytes_of s2 → s1 = s2.
Proof.
  intros E. rewrite <- (String.string_of_list_byte_of_string s1).
  unfold bytes_of in E. rewrite E. apply String.string_of_list_byte_of_string.
Qed.

(** ** Readers and writers *)

Definition reader_ok (r : WireReader) : Prop :=
  0 <= wr_pos r <= data_len r ∧ data_len r <= USIZE_MAX.
Definition rest (r : WireReader) : list byte := drop (Z.to_nat (wr_pos r)) (wr_data r).

Definition writes (enc : M Buf unit) (bs : list byte) : Prop :=
  ∀ buf, enc buf = (Ok tt, buf ++ bs).
Definition parses {A} (dec : M WireReader A) (bs : list byte) (a : A) : Prop :=
  ∀ r s, reader_ok r → rest r = bs ++ s →
  ∃ r', dec r = (Ok a, r') ∧ reader_ok r' ∧ rest r' = s.
(** [enc] writes at least [n] bytes, which [dec] reads back as [a]. *)
Definition codec {A} (n : nat) (enc : M Buf unit) (dec : M WireReader A) (a : A) : Prop :=
  ∃ bs, (n <= length bs)%nat ∧ writes enc bs ∧ parses dec bs a.
(** On any input [dec] fails, or returns a value of [P]; it never panics. *)
Definition yields {A} (dec : M WireReader A) (P : A → Prop) : Prop :=
  ∀ r, reader_ok r →
  match dec r with (Ok a, r') => reader_ok r' ∧ P a | (Err _, _) => True | (Panic, _) => False end.

Create HintDb codec.

Lemma rest_length r : reader_ok r → Z.of_nat (length (rest r)) = data_len r - wr_pos r.
Proof. unfold reader_ok, rest, data_len. intros H. rewrite length_drop. lia. Qed.

Lemma remaining_rest r : reader_ok r → remaining r = Z.of_nat (length (rest r)).
Proof. intros H. rewrite rest_length by done. unfold remaining. unfold reader_ok in H. lia. Qed.

Lemma reader_moved r n (Hr : reader_ok r) :
  0 <= n <= Z.of_nat (length (rest r)) →
  reader_ok (r <| wr_pos := wr_pos r + n |>) ∧
  rest (r <| wr_pos := wr_pos r + n |>) = drop (Z.to_nat n) (rest r).
Proof.
  intros Hn. rewrite rest_length in Hn by done. unfold reader_ok, rest, data_len in *.
  destruct r as [d p]; simpl in *. split; [lia|]. rewrite drop_drop. f_equal. lia.
Qed.

Lemma read_bytes_eq n r :
  reader_ok r → 0 <= n →
  read_bytes n r =
  if n <=? Z.of_nat (length (rest r))
  then (Ok (take (Z.to_nat n) (rest r)), r <| wr_pos := wr_pos r + n |>)
  else (Err (EWire "unexpected EOF"), r).
Proof.
  intros Hr Hn. rewrite rest_length by done. unfold reader_ok in Hr.
  unfold read_bytes, get, mbind, M_bind, ok_or, checked_end, slice. cbv zeta.
  destruct (Z.leb_spec n (data_len r - wr_pos r)) as [H|H].
  - replace (wr_pos r + n <=? USIZE_MAX) with true by lia.
    replace (wr_pos r + n <=? data_len r) with true by lia. simpl.
    replace (wr_pos r <=? wr_pos r + n) with true by lia. unfold data_len in H.
    replace (wr_pos r + n <=? Z.of_nat (length (wr_data r))) with true by lia. simpl.
    unfold rest. by replace (wr_pos r + n - wr_pos r) with n by lia.
  - replace (wr_pos r + n <=? data_len r) with false by lia. by rewrite andb_false_r.
Qed.

(** *** Composition *)

Lemma seq_assoc {S A} (e1 e2 : M S unit) (e3 : M S A) s :
  ((e1 ;; e2) ;; e3) s = (e1 ;; e2 ;; e3) s.
Proof. unfold mbind, M_bind. by destruct (e1 s) as [[]]. Qed.

Lemma writes_ret : writes (mret tt) [].
Proof. intros buf. by rewrite app_nil_r. Qed.
Lemma writes_extend l : writes (extend l) l.
Proof. done. Qed.
Lemma writes_bind e1 e2 b1 b2 : writes e1 b1 → writes e2 b2 → writes (e1 ;; e2) (b1 ++ b2).
Proof. intros H1 H2 buf. unfold mbind, M_bind. by rewrite H1, H2, app_assoc. Qed.
Lemma writes_require e : writes (require true e) [].
Proof. apply writes_ret. Qed.

Lemma parses_pure {A} (m : M WireReader A) a : (∀ r, m r = (Ok a, r)) → parses m [] a.
Proof. intros H r s Hr E. exists r. by rewrite H. Qed.
Lemma parses_ret {A} (a : A) : parses (mret a) [] a.
Proof. by apply parses_pure. Qed.
Lemma parses_require e : parses (require true e) [] tt.
Proof. by apply parses_pure. Qed.
Lemma parses_ok_or {A} (a : A) e : parses (ok_or (Some a) e) [] a.
Proof. by apply parses_pure. Qed.
Lemma parses_bind {A B} (d : M WireReader A) (f : A → M WireReader B) b1 b2 a b :
  parses d b1 a → parses (f a) b2 b → parses (d ≫= f) (b1 ++ b2) b.
Proof.
  intros H1 H2 r s Hr E. rewrite <- app_assoc in E.
  destruct (H1 r _ Hr E) as (r1 & E1 & Hr1 & R1).
  destruct (H2 r1 _ Hr1 R1) as (r2 & E2 & Hr2 & R2).
  exists r2. unfold mbind, M_bind. by rewrite E1.
Qed.
Lemma parses_bind_pure {A B} (d : M WireReader A) (f : A → M WireReader B) bs a b :
  parses d bs a → parses (f a) [] b → parses (d ≫= f) bs b.
Proof. intros H1 H2. rewrite <- (app_nil_r bs). by eapply parses_bind. Qed.

Lemma codec_weaken {A} n m e (d : M WireReader A) a : codec n e d a → (m <= n)%nat → codec m e d a.
Proof. intros (bs & ? & ? & ?) ?. exists bs. split; [lia|done]. Qed.
Lemma codec_ext {A} n e e' (d : M WireReader A) a :
  (∀ buf, e buf = e' buf) → codec n e' d a → codec n e d a.
Proof. intros H (bs & ? & Hw & ?). exists bs. split_and!; [done| |done]. intros buf. by rewrite H. Qed.
Lemma codec_bind {A B} n1 n2 e1 e2 (d : M WireReader A) (f : A → M WireReader B) a b :
  codec n1 e1 d a → codec n2 e2 (f a) b → codec n1 (e1 ;; e2) (d ≫= f) b.
Proof.
  intros (b1 & ? & ? & ?) (b2 & ? & ? & ?). exists (b1 ++ b2).
  split_and!; [rewrite length_app; lia|by apply writes_bind|by eapply parses_bind].
Qed.
(** A decoder that goes on without reading. *)
Lemma codec_then {A B} n e (d : M WireReader A) (f : A → M WireReader B) a b :
  codec n e d a → parses (f a) [] b → codec n e (d ≫= f) b.
Proof. intros (bs & ? & ? & ?) ?. exists bs. split_and!; [done|done|by eapply parses_bind_pure]. Qed.
(** An encoder that starts, or ends, without writing. *)
Lemma codec_require {A} n c err e (d : M WireReader A) a :
  c = true → codec n e d a → codec n (require c err ;; e) d a.
Proof. intros -> H. by eapply codec_ext; [|apply H]. Qed.
Lemma codec_ret {A} (a : A) : codec 0 (mret tt) (mret a) a.
Proof. exists []. split_and!; [done|apply writes_ret|apply parses_ret]. Qed.

(** *** Primitive fields *)

Lemma parses_bytes bs : parses (read_bytes (Z.of_nat (length bs))) bs bs.
Proof.
  intros r s Hr E. pose proof (f_equal length E) as HL. rewrite length_app in HL.
  rewrite read_bytes_eq by (done || lia).
  replace (Z.of_nat (length bs) <=? Z.of_nat (length (rest r))) with true by lia.
  destruct (reader_moved r (Z.of_nat (length bs)) Hr) as [? HR]; [lia|].
  eexists. split; [|split; [done|]].
  - by rewrite Nat2Z.id, E, take_app_length.
  - by rewrite HR, Nat2Z.id, E, drop_app_length.
Qed.

Lemma index_all_seq {S} (l pre : list byte) (s : S) :
  index_all (pre ++ l) (seq (length pre) (length l)) s = (Ok l, s).
Proof.
  revert pre. induction l as [|b l IH]; intros pre; [done|].
  cbn [length seq index_all]. unfold index. rewrite list_lookup_middle by done.
  unfold mbind, M_bind, mret, M_ret. specialize (IH (pre ++ [b])).
  rewrite <- app_assoc, length_app, Nat.add_1_r in IH. simpl in IH. by rewrite IH.
Qed.

Lemma read_be_eq n r :
  reader_ok r →
  read_be n r =
  if Z.of_nat n <=? Z.of_nat (length (rest r))
  then (Ok (from_be (take n (rest r))), r <| wr_pos := wr_pos r + Z.of_nat n |>)
  else (Err (EWire "unexpected EOF"), r).
Proof.
  intros Hr. unfold read_be. unfold mbind at 1, M_bind at 1. rewrite read_bytes_eq by (done || lia).
  destruct (Z.leb_spec (Z.of_nat n) (Z.of_nat (length (rest r)))) as [H|H]; [|done].
  rewrite Nat2Z.id. unfold mbind, M_bind.
  pose proof (index_all_seq (take n (rest r)) [] (r <| wr_pos := wr_pos r + Z.of_nat n |>)) as HI.
  cbn [length app] in HI. rewrite length_take_le in HI by lia. by rewrite HI.
Qed.

Lemma parses_be n bs : length bs = n → parses (read_be n) bs (from_be bs).
Proof.
  intros <- r s Hr E. pose proof (f_equal length E) as HL. rewrite length_app in HL.
  rewrite read_be_eq by done.
  replace (Z.of_nat (length bs) <=? Z.of_nat (length (rest r))) with true by lia.
  destruct (reader_moved r (Z.of_nat (length bs)) Hr) as [? HR]; [lia|].
  eexists. split; [|split; [done|]].
  - by rewrite E, take_app_length.
  - by rewrite HR, Nat2Z.id, E, drop_app_length.
Qed.

Lemma parses_u8 b : parses read_u8 [b] (Zbyte b).
Proof.
  unfold read_u8. eapply parses_bind_pure; [apply (parses_bytes [b])|]. by apply parses_pure.
Qed.

Lemma codec_be w x :
  0 <= x < 256 ^ Z.of_nat w → codec w (extend (be_bytes w x)) (read_be w) x.
Proof.
  intros H. exists (be_bytes w x). rewrite be_bytes_length.
  split_and!; [done|apply writes_extend|].
  rewrite <- (from_be_be_small w x) at 2 by done. apply parses_be, be_bytes_length.
Qed.

Lemma codec_byte x : 0 <= x < 256 → codec 1 (extend [as_byte x]) read_u8 x.
Proof.
  intros H. exists [as_byte x]. split_and!; [done|apply writes_extend|].
  rewrite <- (Z.mod_small x 256) at 2 by done. rewrite <- Zbyte_as_byte. apply parses_u8.
Qed.

Lemma codec_bytes n l : Z.of_nat (length l) = n → codec 0 (extend l) (read_bytes n) l.
Proof.
  intros <-. exists l. split_and!; [lia|apply writes_extend|apply parses_bytes].
Qed.

Lemma codec_u8_prefixed l :
  Z.of_nat (length l) <= 255 → codec 1 (encode_u8_prefixed l) read_u8_prefixed l.
Proof.
  intros H. unfold encode_u8_prefixed, read_u8_prefixed.
  eapply codec_bind; [apply codec_byte; lia|by apply codec_bytes].
Qed.

Lemma codec_u16_prefixed l :
  Z.of_nat (length l) <= U16_MAX → codec 2 (encode_u16_prefixed l) read_u16_prefixed l.
Proof.
  intros H. unfold encode_u16_prefixed, read_u16_prefixed. unfold U16_MAX in *.
  replace (Z.of_nat (length l) <=? 2 ^ 16 - 1) with true by lia.
  eapply codec_bind; [apply (codec_be 2); simpl; lia|by apply codec_bytes].
Qed.

(** [Some] of a non-empty field within its prefix, or [None]. *)
Definition opt_ok (max : Z) (o : option (list byte)) : Prop :=
  match o with Some d => 0 < Z.of_nat (length d) <= max | None => True end.

Lemma codec_optional_u16 o :
  opt_ok U16_MAX o → codec 2 (encode_optional_u16 o) read_optional_u16 o.
Proof.
  unfold encode_optional_u16, read_optional_u16, encode_u16_prefixed. destruct o as [d|]; simpl.
  - intros H. unfold U16_MAX in *. replace (Z.of_nat (length d) <=? 2 ^ 16 - 1) with true by lia.
    eapply codec_bind; [apply (codec_be 2); simpl; lia|].
    replace (Z.of_nat (length d) =? 0) with false by lia.
    eapply codec_then; [by apply codec_bytes|apply parses_ret].
  - intros _. eapply codec_then; [apply (codec_be 2 0); simpl; lia|apply parses_ret].
Qed.

Lemma codec_optional_u32 o :
  opt_ok (2 ^ 32 - 1) o → codec 4 (encode_optional_u32 o) read_optional_u32 o.
Proof.
  unfold encode_optional_u32, read_optional_u32, encode_u32_prefixed. destruct o as [d|]; simpl.
  - intros H. eapply codec_bind; [apply (codec_be 4); simpl; lia|].
    replace (Z.of_nat (length d) =? 0) with false by lia.
    eapply codec_then; [by apply codec_bytes|apply parses_ret].
  - intros _. eapply codec_then; [apply (codec_be 4 0); simpl; lia|apply parses_ret].
Qed.

Lemma codec_count n :
  Z.of_nat n <= U16_MAX → codec 2 (encode_count n) read_u16 (Z.of_nat n).
Proof. intros H. apply (codec_be 2). unfold U16_MAX in H. simpl. lia. Qed.

(** The items of a counted list. *)
Lemma codec_items {A} (enc : A → M Buf unit) (dec : M WireReader A) l acc :
  Forall (fun x => codec 0 (enc x) dec x) l →
  codec 0 (for_each enc l) (read_items dec (length l) acc) (acc ++ l).
Proof.
  intros H. revert acc. induction H as [|x l Hx _ IH]; intros acc.
  - rewrite app_nil_r. apply codec_ret.
  - cbn [for_each length read_items]. eapply codec_bind; [apply Hx|].
    specialize (IH (acc ++ [x])). by rewrite <- app_assoc in IH.
Qed.

Lemma codec_list {A} (enc : A → M Buf unit) (dec : M WireReader A) l e max :
  Forall (fun x => codec 0 (enc x) dec x) l →
  Z.of_nat (length l) <= max → max <= U16_MAX →
  codec 2 (encode_count (length l) ;; for_each enc l)
    (n ← read_u16; require (negb (max <? n)) e ;; read_items dec (Z.to_nat n) []) l.
Proof.
  intros H Hn Hmax. eapply codec_bind; [apply codec_count; lia|].
  replace (max <? Z.of_nat (length l)) with false by lia. rewrite Nat2Z.id.
  eapply codec_ext; [|apply codec_items, H]; done.
Qed.

(** *** What decoders yield *)

Lemma yields_ret {A} (a : A) (P : A → Prop) : P a → yields (mret a) P.
Proof. intros H r Hr. done. Qed.
Lemma yields_throw {A} e (P : A → Prop) : yields (throw e) P.
Proof. done. Qed.
Lemma yields_bind {A B} (d : M WireReader A) (f : A → M WireReader B) P Q :
  yields d P → (∀ a, P a → yields (f a) Q) → yields (d ≫= f) Q.
Proof.
  intros H1 H2 r Hr. specialize (H1 r Hr). unfold mbind, M_bind.
  destruct (d r) as [[a| |] r']; [|done|done]. destruct H1 as [Hr' Ha]. by apply H2.
Qed.
Lemma yields_mono {A} (d : M WireReader A) (P Q : A → Prop) :
  yields d P → (∀ a, P a → Q a) → yields d Q.
Proof.
  intros H1 H2 r Hr. specialize (H1 r Hr). destruct (d r) as [[a| |] r']; naive_solver.
Qed.
Lemma yields_require b e : yields (require b e) (fun _ => b = true).
Proof. destruct b; intros r Hr; done. Qed.
Lemma yields_ok_or {A} (x : option A) e : yields (ok_or x e) (fun a => x = Some a).
Proof. destruct x; intros r Hr; done. Qed.
Lemma yields_if {A} (b : bool) (d1 d2 : M WireReader A) P :
  (b = true → yields d1 P) → (b = false → yields d2 P) → yields (if b then d1 else d2) P.
Proof. destruct b; auto. Qed.
Lemma yields_gets {A} (f : WireReader → A) : yields (gets f) (fun _ => True).
Proof. intros r Hr. done. Qed.

Lemma yields_bytes n : 0 <= n → yields (read_bytes n) (fun l => Z.of_nat (length l) = n).
Proof.
  intros Hn r Hr. rewrite read_bytes_eq by done.
  destruct (Z.leb_spec n (Z.of_nat (length (rest r)))); [|done].
  split; [apply reader_moved; [done|lia]|]. rewrite length_take. lia.
Qed.
Lemma yields_be w : yields (read_be w) (fun x => 0 <= x < 256 ^ Z.of_nat w).
Proof.
  intros r Hr. rewrite read_be_eq by done.
  destruct (Z.leb_spec (Z.of_nat w) (Z.of_nat (length (rest r)))); [|done].
  split; [apply reader_moved; [done|lia]|].
  pose proof (from_be_bounds (take w (rest r))) as HB. by rewrite length_take_le in HB by lia.
Qed.
Lemma yields_u8 : yields read_u8 (fun x => 0 <= x < 256).
Proof.
  unfold read_u8. eapply yields_bind; [by apply yields_bytes|]. intros l Hl.
  destruct l as [|b l]; [simpl in Hl; lia|]. intros r Hr. split; [done|]. apply Zbyte_bounds.
Qed.
#[export] Hint Resolve yields_ret yields_throw yields_require yields_ok_or yields_gets yields_be
  yields_u8 : codec.

Lemma yields_u8_prefixed :
  yields read_u8_prefixed (fun l => Z.of_nat (length l) <= 255).
Proof.
  eapply yields_bind; [apply yields_u8|]. intros n Hn; cbv beta in Hn.
  eapply yields_mono; [apply yields_bytes; lia|]. intros l Hl. cbv beta in *. lia.
Qed.
Lemma yields_u16_prefixed :
  yields read_u16_prefixed (fun l => Z.of_nat (length l) <= U16_MAX).
Proof.
  eapply yields_bind; [apply yields_be|]. intros n Hn; simpl in Hn.
  eapply yields_mono; [apply yields_bytes; lia|]. intros l Hl. cbv beta in *. unfold U16_MAX. lia.
Qed.

Lemma yields_optional w :
  yields (len ← read_be w; if len =? 0 then mret None else data ← read_bytes len; mret (Some data))
    (opt_ok (256 ^ Z.of_nat w - 1)).
Proof.
  eapply yields_bind; [apply yields_be|]. intros n Hn; cbv beta in Hn. apply yields_if; intros; bools.
  - by apply yields_ret.
  - eapply yields_bind; [apply yields_bytes; lia|]. intros l Hl; cbv beta in Hl. apply yields_ret. simpl. lia.
Qed.
Lemma yields_optional_u16 : yields read_optional_u16 (opt_ok U16_MAX).
Proof. apply (yields_optional 2). Qed.
Lemma yields_optional_u32 : yields read_optional_u32 (opt_ok (2 ^ 32 - 1)).
Proof. apply (yields_optional 4). Qed.

Lemma yields_items {A} (d : M WireReader A) P n acc :
  yields d P → Forall P acc →
  yields (read_items d n acc) (fun l => Forall P l ∧ length l = (length acc + n)%nat).
Proof.
  intros Hd. revert acc. induction n as [|n IH]; intros acc Hacc; cbn [read_items].
  - apply yields_ret. split; [done|lia].
  - eapply yields_bind; [apply Hd|]. intros x Hx.
    eapply yields_mono; [apply IH, Forall_app; split; [done|by apply Forall_singleton]|].
    intros l [H1 H2]. split; [done|]. rewrite length_app in H2. simpl in H2. lia.
Qed.

(** ** Metadata *)

(** *** Keys in order *)

Definition key_lt (a b : string) : Prop := String.compare a b = Lt.
Definition keys_sorted (m : MetadataMap) : Prop := StronglySorted key_lt m.*1.

#[global] Instance key_lt_trans : Transitive key_lt.
Proof. exact (StrictOrder_Transitive (StrictOrder := String_as_OT.lt_strorder)). Qed.

Lemma key_gt a b : String.compare a b = Gt → key_lt b a.
Proof. intros H. unfold key_lt. rewrite String.compare_antisym, H. done. Qed.

(** A key above all others goes to the end. *)
Lemma map_insert_last k v m : Forall (fun k' => key_lt k' k) m.*1 → map_insert k v m = m ++ [(k, v)].
Proof.
  induction m as [|[k' v'] m IH]; [done|]. csimpl. intros [H1 H2]%Forall_cons.
  unfold key_lt in H1. rewrite String.compare_antisym, H1. simpl. by rewrite IH.
Qed.

Lemma map_insert_entries (P : string * Value → Prop) k v m :
  P (k, v) → Forall P m → Forall P (map_insert k v m).
Proof.
  intros Hv. induction 1 as [|[k' v'] m H1 H2 IH]; cbn [map_insert]; [by repeat constructor|].
  destruct (String.compare k k') eqn:E; [|by repeat constructor|by constructor].
  apply String.compare_eq_iff in E as <-. by constructor.
Qed.

Lemma map_insert_length k v m :
  (length m <= length (map_insert k v m) <= S (length m))%nat.
Proof.
  induction m as [|[k' v'] m IH]; cbn [map_insert]; [simpl; lia|].
  destruct (String.compare k k'); simpl; lia.
Qed.

Lemma map_insert_keys (P : string → Prop) k v m : P k → Forall P m.*1 → Forall P (map_insert k v m).*1.
Proof.
  intros Hk H. rewrite Forall_fmap in *. by apply map_insert_entries.
Qed.

Lemma map_insert_sorted k v m : keys_sorted m → keys_sorted (map_insert k v m).
Proof.
  unfold keys_sorted. induction m as [|[k' v'] m IH]; intros H; cbn [map_insert].
  { csimpl. by repeat constructor. }
  csimpl in H. apply StronglySorted_inv in H as [H1 H2].
  destruct (String.compare k k') eqn:E; csimpl.
  - by constructor.
  - constructor; [by constructor|]. constructor; [done|].
    eapply Forall_impl; [apply H2|]. intros x Hx. by transitivity k'.
  - constructor; [by apply IH|]. apply map_insert_keys; [by apply key_gt|done].
Qed.

(** *** Values within the limits *)

Definition key_ok (k : string) : Prop := slen k <= 255 ∧ utf8_valid (bytes_of k) = true.
Definition number_ok (n : Number) : Prop :=
  match n with
  | PosInt n => 0 <= n < 2 ^ 63
  | NegInt n => - 2 ^ 63 <= n < 0
  | Float b => 0 <= b < 2 ^ 64 ∧ f64_bits_finite b = true
  end.

Section entries_ok.
Context (ok : Value → Prop).
Definition entries_ok (m : MetadataMap) : Prop :=
  Z.of_nat (length m) <= MAX_METADATA_ENTRIES ∧ keys_sorted m ∧
  Forall (fun kv => key_ok kv.1 ∧ ok kv.2) m.
End entries_ok.

Fixpoint value_ok (levels : nat) (v : Value) : Prop :=
  match levels with
  | O => False
  | S levels =>
      match v with
      | VNull | VBool _ => True
      | VNumber n => number_ok n
      | VString s => slen s <= U16_MAX ∧ utf8_valid (bytes_of s) = true
      | VArray l => Z.of_nat (length l) <= MAX_METADATA_ENTRIES ∧ Forall (value_ok levels) l
      | VObject m => entries_ok (value_ok levels) m
      end
  end.
Definition metadata_ok (m : MetadataMap) : Prop := entries_ok (value_ok (S MAX_METADATA_DEPTH)) m.

(** *** The metadata codec *)

Lemma encode_array_eq l :
  encode_json_value (VArray l) =
  (require (Z.of_nat (length l) <=? U16_MAX)
     (EWire "metadata array count overflows u16 length prefix") ;;
   tag META_ARRAY ;; encode_count (length l) ;; for_each encode_json_value l).
Proof.
  cbn [encode_json_value]. generalize (length l) as n. intros n.
  assert (E : ∀ l, (fix items (l : list Value) : M Buf unit :=
     match l with [] => mret tt | item :: l => encode_json_value item ;; items l end) l
     = for_each encode_json_value l); [|by rewrite E].
  intros l'. induction l' as [|v l' IH]; [done|]. cbn [for_each]. by rewrite <- IH.
Qed.

Lemma encode_object_eq m :
  encode_json_value (VObject m) =
  (require (Z.of_nat (length m) <=? U16_MAX)
     (EWire "metadata object count overflows u16 length prefix") ;;
   tag META_OBJECT ;; encode_count (length m) ;;
   (fix entries (l : MetadataMap) : M Buf unit :=
      match l with
      | [] => mret tt
      | kv :: l => encode_metadata_key kv.1 ;; encode_json_value kv.2 ;; entries l
      end) m).
Proof.
  cbn [encode_json_value]. generalize (length m) as n. intros n.
  assert (E : ∀ m, (fix entries (l : MetadataMap) : M Buf unit :=
     match l with
     | [] => mret tt
     | (k, v) :: l => encode_metadata_key k ;; encode_json_value v ;; entries l
     end) m = (fix entries (l : MetadataMap) : M Buf unit :=
      match l with
      | [] => mret tt
      | kv :: l => encode_metadata_key kv.1 ;; encode_json_value kv.2 ;; entries l
      end) m); [|by rewrite E].
  intros m'. induction m' as [|[k v] m' IH]; [done|]. by rewrite IH.
Qed.

Lemma encode_entries_for_each m buf :
  (fix entries (l : MetadataMap) : M Buf unit :=
     match l with
     | [] => mret tt
     | kv :: l => encode_metadata_key kv.1 ;; encode_json_value kv.2 ;; entries l
     end) m buf = for_each encode_entry m buf.
Proof.
  revert buf. induction m as [|kv m IH]; intros buf; [done|].
  cbn [for_each].
  change (encode_entry kv) with (encode_metadata_key kv.1 ;; encode_json_value kv.2).
  rewrite seq_assoc.
  unfold mbind, M_bind. destruct (encode_metadata_key kv.1 buf) as [[] b]; [|done|done].
  destruct (encode_json_value kv.2 b) as [[] b']; [|done|done]. apply IH.
Qed.

Lemma codec_key k : key_ok k → codec 1 (encode_metadata_key k) read_key k.
Proof.
  intros [Hl Hu]. unfold encode_metadata_key, read_key.
  apply codec_require; [lia|].
  eapply codec_then; [by apply codec_u8_prefixed|]. rewrite from_utf8_bytes_of by done.
  apply parses_ok_or.
Qed.

Lemma codec_tag {A} t n e (f : Z → M WireReader A) a :
  0 <= t < 256 → codec n e (f t) a → codec 1 (tag t ;; e) (read_u8 ≫= f) a.
Proof. intros Ht H. eapply codec_bind; [by apply codec_byte|apply H]. Qed.

(** Selects the decoder's branch for a constant tag. *)
Ltac pick_tag :=
  cbn [META_NULL META_BOOL META_INT META_FLOAT META_STRING META_ARRAY META_OBJECT Z.eqb Pos.eqb].

Section entries_codec.
Context (ok : Value → Prop) (dec : M WireReader Value).
Hypothesis dec_ok : ∀ v, ok v → codec 1 (encode_json_value v) dec v.

Lemma codec_entries m acc :
  Forall (fun kv => key_ok kv.1 ∧ ok kv.2) m → keys_sorted (acc ++ m) →
  codec 0 (for_each encode_entry m) (read_entries dec (length m) acc) (acc ++ m).
Proof.
  intros H. revert acc. induction H as [|[k v] m [Hk Hv] _ IH]; intros acc Hs.
  { rewrite app_nil_r. apply codec_ret. }
  cbn [for_each length read_entries].
  eapply (codec_ext _ _ (encode_metadata_key k ;; encode_json_value v ;; for_each encode_entry m)).
  { intros buf. apply seq_assoc. }
  eapply codec_weaken; [|apply Nat.le_0_l].
  eapply codec_bind; [by apply codec_key|]. eapply codec_bind; [by apply dec_ok|].
  rewrite map_insert_last.
  - rewrite (app_assoc acc [_] m : acc ++ (k, v) :: m = _). apply IH.
    by rewrite <- app_assoc.
  - unfold keys_sorted in Hs. rewrite fmap_app in Hs. csimpl in Hs.
    apply Forall_forall. intros x Hx.
    eapply StronglySorted_app_1_elem_of; [apply Hs|done|]. set_solver.
Qed.

Lemma codec_counted_entries m :
  entries_ok ok m →
  codec 2 (encode_count (length m) ;; for_each encode_entry m)
    (n ← read_count; read_entries dec n []) m.
Proof.
  intros (Hn & Hs & Hm). unfold read_count.
  eapply (codec_ext _ _ (encode_count (length m) ;; for_each encode_entry m)); [done|].
  eapply codec_bind.
  - unfold MAX_METADATA_ENTRIES in Hn. eapply codec_then; [apply codec_count; unfold U16_MAX; lia|].
    replace (Z.of_nat (length m) <=? MAX_METADATA_ENTRIES) with true by (unfold MAX_METADATA_ENTRIES; lia).
    rewrite Nat2Z.id. eapply parses_bind_pure; [apply parses_require|apply parses_ret].
  - by apply (codec_entries m []).
Qed.
End entries_codec.

Lemma json_i64_pos n : 0 <= n → json_i64 n = VNumber (PosInt n).
Proof. intros H. unfold json_i64. by replace (n <? 0) with false by lia. Qed.
Lemma json_i64_neg n : n < 0 → json_i64 n = VNumber (NegInt n).
Proof. intros H. unfold json_i64. by replace (n <? 0) with true by lia. Qed.

Lemma parses_array8 bs : length bs = 8%nat → parses read_array8 bs bs.
Proof.
  intros H. unfold read_array8. pose proof (parses_bytes bs) as HP. rewrite H in HP.
  eapply parses_bind_pure; [apply HP|]. rewrite bool_decide_true by done.
  eapply parses_bind_pure; [apply parses_require|apply parses_ret].
Qed.
Lemma codec_array8 bs : length bs = 8%nat → codec 8 (extend bs) read_array8 bs.
Proof. intros H. exists bs. split_and!; [lia|apply writes_extend|by apply parses_array8]. Qed.

Lemma codec_number levels n :
  number_ok n → codec 1 (encode_json_value (VNumber n)) (decode_json_value (S levels)) (VNumber n).
Proof.
  intros Hn. cbn [encode_json_value decode_json_value].
  assert (Hint : ∀ i, num_as_i64 n = Some i → json_i64 i = VNumber n ∧ - 2 ^ 63 <= i < 2 ^ 63).
  { destruct n as [k|k|b]; simpl in *; intros i; [destruct (Z.ltb_spec k (2 ^ 63))|..];
      intros [= <-]; [rewrite json_i64_pos by lia|rewrite json_i64_neg by lia]; (split; [done|lia]). }
  destruct (num_as_i64 n) as [i|] eqn:E.
  - destruct (Hint i eq_refl) as [Hj Hi]. eapply codec_tag; [by vm_compute|]. pick_tag.
    eapply codec_then; [apply codec_array8, be_bytes_length|].
    rewrite i64_from_i64_bytes, Hj by done. apply parses_ret.
  - destruct n as [k|k|b]; cbn [num_as_i64 num_as_f64 number_ok] in *; [|done|].
    { destruct (Z.ltb_spec k (2 ^ 63)); [done|lia]. }
    destruct Hn as [Hb Hf]. eapply codec_tag; [by vm_compute|]. pick_tag.
    eapply codec_then; [apply codec_array8, be_bytes_length|].
    rewrite from_be_be_small by (simpl; lia). rewrite Hf.
    eapply parses_bind_pure; [apply parses_require|apply parses_ret].
Qed.

(** Every value within the limits is read back as it was. *)
Lemma codec_value levels v :
  value_ok levels v → codec 1 (encode_json_value v) (decode_json_value levels) v.
Proof.
  revert v. induction levels as [|levels IH]; intros v; [done|].
  destruct v as [|b|n|s|l|m]; cbn [value_ok].
  - intros _. eapply codec_then; [by apply (codec_byte 0)|apply parses_ret].
  - intros _. eapply codec_tag; [by vm_compute|]. pick_tag.
    eapply codec_then; [apply codec_byte; destruct b; lia|]. destruct b; apply parses_ret.
  - apply codec_number.
  - intros [Hl Hu]. cbn [encode_json_value]. apply codec_require; [lia|].
    eapply codec_tag; [by vm_compute|]. pick_tag.
    eapply codec_then; [by apply codec_u16_prefixed|]. rewrite from_utf8_bytes_of by done.
    eapply parses_bind_pure; [apply parses_ok_or|apply parses_ret].
  - intros [Hn Hl]. rewrite encode_array_eq. unfold MAX_METADATA_ENTRIES, U16_MAX in *.
    apply codec_require; [lia|]. eapply codec_tag; [by vm_compute|]. pick_tag.
    eapply codec_bind.
    + unfold read_count. eapply codec_then; [apply codec_count; unfold U16_MAX; lia|].
      unfold MAX_METADATA_ENTRIES. replace (Z.of_nat (length l) <=? 256) with true by lia.
      eapply parses_bind_pure; [apply parses_require|apply parses_ret].
    + rewrite Nat2Z.id. eapply codec_then; [|apply parses_ret].
      apply (codec_items _ _ l []). eapply Forall_impl; [apply Hl|].
      intros x Hx. eapply codec_weaken; [by apply IH|lia].
  - intros Hm. rewrite encode_object_eq.
    apply codec_require; [destruct Hm as [Hn _]; unfold MAX_METADATA_ENTRIES, U16_MAX in *; lia|].
    eapply codec_tag; [by vm_compute|]. pick_tag.
    destruct (codec_counted_entries _ _ IH m Hm) as (bs & Hbs & Hw & Hp).
    exists bs. split_and!; [apply Hbs| |].
    + intros buf. rewrite <- Hw. unfold mbind, M_bind. cbn. apply encode_entries_for_each.
    + intros r s Hr E. destruct (Hp r s Hr E) as (r' & E' & Hr' & R').
      exists r'. split; [|done]. revert E'. unfold mbind, M_bind.
      destruct (read_count r) as [[n| |] r1]; [|done|done].
      destruct (read_entries _ n [] r1) as [[o| |] r2]; [|done|done]. by intros [= -> ->].
Qed.

Lemma codec_metadata m :
  metadata_ok m → codec 2 (encode_metadata_binary m) decode_metadata_binary m.
Proof.
  intros H. unfold encode_metadata_binary. apply codec_require.
  { destruct H as [Hn _]. unfold MAX_METADATA_ENTRIES, U16_MAX in *. lia. }
  apply (codec_counted_entries (value_ok (S MAX_METADATA_DEPTH))); [|done].
  intros v. apply codec_value.
Qed.

(** *** What the metadata decoder yields *)

Lemma yields_key : yields read_key key_ok.
Proof.
  unfold read_key. eapply yields_bind; [apply yields_u8_prefixed|]. intros l Hl; cbv beta in Hl.
  eapply yields_mono; [apply yields_ok_or|]. intros s Hs.
  apply from_utf8_Some in Hs as [Hs Hu]. unfold key_ok, slen. rewrite Hs in *. split; [lia|done].
Qed.

Lemma yields_count : yields read_count (fun n => Z.of_nat n <= MAX_METADATA_ENTRIES).
Proof.
  unfold read_count. eapply yields_bind; [apply yields_be|]. intros n Hn; cbv beta in Hn.
  eapply yields_bind; [apply yields_require|]. intros [] Hc; cbv beta in Hc.
  apply yields_ret. lia.
Qed.

Lemma yields_entries (ok : Value → Prop) d n acc :
  yields d ok → Z.of_nat (length acc + n) <= MAX_METADATA_ENTRIES →
  entries_ok ok acc → yields (read_entries d n acc) (entries_ok ok).
Proof.
  intros Hd. revert acc. induction n as [|n IH]; intros acc Hn Hacc; cbn [read_entries].
  { by apply yields_ret. }
  eapply yields_bind; [apply yields_key|]. intros k Hk.
  eapply yields_bind; [apply Hd|]. intros v Hv.
  pose proof (map_insert_length k v acc). destruct Hacc as (Hl & Hs & Hf).
  apply IH; [lia|]. split_and!; [lia|by apply map_insert_sorted|by apply map_insert_entries].
Qed.

Lemma entries_ok_nil ok : entries_ok ok [].
Proof. split_and!; [by vm_compute|constructor|constructor]. Qed.

Lemma yields_counted_entries (ok : Value → Prop) d :
  yields d ok → yields (n ← read_count; read_entries d n []) (entries_ok ok).
Proof.
  intros Hd. eapply yields_bind; [apply yields_count|]. intros n Hn; cbv beta in Hn.
  apply yields_entries; [done|simpl; lia|apply entries_ok_nil].
Qed.

Lemma yields_array8 : yields read_array8 (fun l => length l = 8%nat).
Proof.
  unfold read_array8. eapply yields_bind; [by apply yields_bytes|]. intros l Hl; cbv beta in Hl.
  eapply yields_bind; [apply yields_require|]. intros _ _. apply yields_ret. lia.
Qed.

Lemma yields_value levels : yields (decode_json_value levels) (value_ok levels).
Proof.
  induction levels as [|levels IH]; cbn [decode_json_value]; [apply yields_throw|].
  eapply yields_bind; [apply yields_u8|]. intros t _.
  repeat (apply yields_if; intros _).
  - by apply yields_ret.
  - eapply yields_bind; [apply yields_u8|]. intros b _. by apply yields_ret.
  - eapply yields_bind; [apply yields_array8|]. intros l Hl. apply yields_ret.
    pose proof (i64_from_be_bounds l Hl). unfold json_i64.
    destruct (Z.ltb_spec (i64_from_be l) 0); simpl; lia.
  - eapply yields_bind; [apply yields_array8|]. intros l Hl; cbv beta in Hl. cbv zeta.
    eapply yields_bind; [apply yields_require|]. intros [] Hf. apply yields_ret. split; [|done].
    pose proof (from_be_bounds l) as HB. by rewrite Hl in HB.
  - eapply yields_bind; [apply yields_u16_prefixed|]. intros l Hl; cbv beta in Hl.
    eapply yields_bind; [apply yields_ok_or|]. intros s Hs.
    apply from_utf8_Some in Hs as [Hs Hu]. apply yields_ret. split; [|done].
    unfold slen. by rewrite Hs.
  - eapply yields_bind; [apply yields_count|]. intros n Hn; cbv beta in Hn.
    eapply yields_bind; [apply yields_items; [apply IH|constructor]|]. intros l [Hl1 Hl2].
    apply yields_ret. split; [simpl in Hl2; lia|done].
  - intros r Hr. pose proof (yields_counted_entries _ _ IH r Hr) as H. revert H.
    unfold mbind, M_bind. destruct (read_count r) as [[n| |] r1]; [|done|done].
    by destruct (read_entries _ n [] r1) as [[o| |] r2].
  - apply yields_throw.
Qed.

Lemma yields_metadata : yields decode_metadata_binary metadata_ok.
Proof. apply yields_counted_entries, yields_value. Qed.
