(* ===== verification/RecordCodec.v ===== *)
(** * Validation records: construction, signed bytes and wire form

    crates/elara-record/src/record.rs, with the zone field's wire form of
    zone_id.rs and the second-signature dispatch of pqc.rs.  This is the full
    record; [Records] keeps the part of it the ledger reads. *)

From stdpp Require Import pretty.
From S2P Require Import Prelude F64 Types CrossZone Records Wire.
Open Scope Z_scope.

Definition MAX_PARENTS : Z := 256.
Definition MAX_RECORD_ID_LEN : Z := 128.
Definition MAX_ZONE_REFS : Z := 256.
Definition DOMAIN_TAG_RECORD_V1 : list byte := bytes_of "ELARA_RECORD_V1".
Definition ALG_DILITHIUM3 : Z := 1.
Definition ALG_SPHINCS_SHA2_192F : Z := 2.
Definition ALG_SLH_DSA_SHA2_192F : Z := 4.
Definition LEGACY_SECOND_LEG_MAX_RECORD_VERSION : Z := 7.
Definition FIPS205_SECOND_LEG_MAX_RECORD_VERSION : Z := 8.
Definition LEGACY_SECOND_LEG_MAX_SNAPSHOT_SELECTOR : Z := 1.

(** ** Classification *)

Inductive Classification := Public | Private | Restricted | Sovereign.
#[global] Instance Classification_eq_dec : EqDecision Classification.
Proof. solve_decision. Defined.

Definition class_as_u8 (c : Classification) : Z :=
  match c with Public => 0 | Private => 1 | Restricted => 2 | Sovereign => 3 end.
Definition class_from_u8 (v : Z) : option Classification :=
  if v =? 0 then Some Public
  else if v =? 1 then Some Private
  else if v =? 2 then Some Restricted
  else if v =? 3 then Some Sovereign
  else None.

(** ** The record *)

Record WireRecord := mkWireRecord {
  vr_id : string;
  vr_version : Z;
  vr_content_hash : list byte;
  vr_creator_public_key : list byte;
  vr_timestamp : Z;
  vr_parents : list string;
  vr_classification : Classification;
  vr_metadata : MetadataMap;
  vr_signature : option (list byte);
  vr_sphincs_signature : option (list byte);
  vr_zk_proof : option (list byte);
  vr_itc_stamp : option (list byte);
  vr_zone_refs : list (list byte);
  vr_creator_sphincs_pk : option (list byte);
  vr_sig_algorithm : Z;
  vr_sphincs_algorithm : option Z;
  vr_zone : option string;
  vr_identity_hash_wire : option (list byte);
  vr_nonce : Z;
  vr_network_id : string;
}.
Definition eta_WireRecord (r : WireRecord) :=
  mkWireRecord (vr_id r) (vr_version r) (vr_content_hash r) (vr_creator_public_key r)
    (vr_timestamp r) (vr_parents r) (vr_classification r) (vr_metadata r) (vr_signature r)
    (vr_sphincs_signature r) (vr_zk_proof r) (vr_itc_stamp r) (vr_zone_refs r)
    (vr_creator_sphincs_pk r) (vr_sig_algorithm r) (vr_sphincs_algorithm r) (vr_zone r)
    (vr_identity_hash_wire r) (vr_nonce r) (vr_network_id r).
#[global] Instance set_vr_metadata : Setter vr_metadata.
Proof. derive_setter eta_WireRecord. Defined.
#[global] Instance set_vr_parents : Setter vr_parents.
Proof. derive_setter eta_WireRecord. Defined.
#[global] Instance set_vr_zone : Setter vr_zone.
Proof. derive_setter eta_WireRecord. Defined.
#[global] Instance set_vr_sphincs_signature : Setter vr_sphincs_signature.
Proof. derive_setter eta_WireRecord. Defined.
#[global] Instance set_vr_creator_sphincs_pk : Setter vr_creator_sphincs_pk.
Proof. derive_setter eta_WireRecord. Defined.
#[global] Instance set_vr_sphincs_algorithm : Setter vr_sphincs_algorithm.
Proof. derive_setter eta_WireRecord. Defined.

(** [ValidationRecord::fixture_shell] *)
Definition fixture_shell : WireRecord :=
  mkWireRecord "" 0 [] [] 0 [] Public [] None None None None [] None ALG_DILITHIUM3 None None
    None 0 "".

(** ** The network binding of fresh records

    [EMISSION_NETWORK_ID] is a process-wide cell that is written once. *)

Definition validate_network_id (id : string) : outcome unit :=
  if MAX_NETWORK_ID_LEN <? slen id then Err (EWire "network_id too long")
  else if negb (is_ascii id) then Err (EWire "network_id must be ASCII")
  else Ok tt.
Definition set_emission_network_id (id : string) : M (option string) unit := fun cell =>
  match validate_network_id id with
  | Ok _ =>
      match cell with
      | None => (Ok tt, Some id)
      | Some current =>
          if decide (current = id) then (Ok tt, cell)
          else (Err (EWire "emission network_id already set"), cell)
      end
  | Err e => (Err e, cell)
  | Panic => (Panic, cell)
  end.
Definition emission_network_id_for (cell : option string) (version : Z) : string :=
  if 6 <=? version then default "" cell else "".

(** ** Construction

    [uuid7()] and [now_timestamp()] are inputs from the process environment. *)

Record Emission := mkEmission { em_uuid : string; em_now : Z; em_network : option string }.

Definition unsigned_record (env : Emission) (content_hash pk : list byte) (parents : list string)
    (c : Classification) (metadata : option MetadataMap) : WireRecord :=
  mkWireRecord (em_uuid env) CURRENT_SIGNING_VERSION content_hash pk (em_now env) parents c
    (default [] metadata) None None None None [] None ALG_DILITHIUM3 None None None 0
    (emission_network_id_for (em_network env) CURRENT_SIGNING_VERSION).
Definition create `{Externals} (env : Emission) (content pk : list byte) (parents : list string)
    (c : Classification) (metadata : option MetadataMap) : WireRecord :=
  unsigned_record env (sha3_256 content) pk parents c metadata.
Definition create_from_hash (env : Emission) (content_hash pk : list byte)
    (parents : list string) (c : Classification) (metadata : option MetadataMap)
    : outcome WireRecord :=
  if bool_decide (length content_hash ≠ 32%nat) then
    Err (EWire "content hash must be 32 bytes")
  else Ok (unsigned_record env content_hash pk parents c metadata).
Definition bind_network_id (network_id : string) (r : WireRecord) : WireRecord :=
  if decide (network_id = "") then r
  else r <| vr_metadata ::= map_insert "network_id" (VString network_id) |>.

(** ** The signed bytes

    [json_to_string] is [serde_json::to_string] of the metadata map. *)

Class Serializer := { json_to_string : MetadataMap → option (list byte) }.

Definition parent_le (a b : string) : Prop := String.leb a b = true.
#[global] Instance parent_le_dec a b : Decision (parent_le a b).
Proof. unfold parent_le. apply _. Defined.
Definition sorted_parents (r : WireRecord) : list string := merge_sort parent_le (vr_parents r).

Section signing.
Context `{Serializer}.

Definition meta_json (r : WireRecord) : list byte :=
  default (bytes_of "{}") (json_to_string (vr_metadata r)).

Definition signable_bytes_under (r : WireRecord) (construction_version : Z) : list byte :=
  (if 6 <=? construction_version then
     DOMAIN_TAG_RECORD_V1 ++ be_bytes 2 (slen (vr_network_id r)) ++ bytes_of (vr_network_id r)
   else []) ++
  bytes_of (vr_id r) ++
  be_bytes 2 (vr_version r) ++
  (if 5 <=? construction_version then be_bytes 8 (vr_nonce r) else []) ++
  vr_content_hash r ++
  vr_creator_public_key r ++
  be_bytes 8 (vr_timestamp r) ++
  be_bytes 2 (Z.of_nat (length (vr_parents r))) ++
  concat (bytes_of <$> sorted_parents r) ++
  [as_byte (class_as_u8 (vr_classification r))] ++
  be_bytes 4 (Z.of_nat (length (meta_json r))) ++ meta_json r ++
  match vr_zk_proof r with
  | Some zk => be_bytes 4 (Z.of_nat (length zk)) ++ zk
  | None => be_bytes 4 0
  end ++
  (if 8 <=? construction_version then
     [as_byte (vr_sig_algorithm r); as_byte (default 0 (vr_sphincs_algorithm r))] ++
     be_bytes 2 (Z.of_nat (length (default [] (vr_creator_sphincs_pk r)))) ++
     default [] (vr_creator_sphincs_pk r)
   else []).
Definition signable_bytes (r : WireRecord) : list byte := signable_bytes_under r (vr_version r).

Definition record_hash `{Externals} (r : WireRecord) : list byte := sha3_256 (signable_bytes r).
End signing.

(** ** The second signature *)

Definition record_second_leg_algorithm (version : Z) : option Z :=
  if version <=? LEGACY_SECOND_LEG_MAX_RECORD_VERSION then Some ALG_SPHINCS_SHA2_192F
  else if version <=? FIPS205_SECOND_LEG_MAX_RECORD_VERSION then Some ALG_SLH_DSA_SHA2_192F
  else None.

Definition strip_sphincs : M WireRecord unit :=
  r ← get;
  let has_leg := bool_decide (is_Some (vr_sphincs_signature r)) ||
                 bool_decide (is_Some (vr_creator_sphincs_pk r)) ||
                 bool_decide (is_Some (vr_sphincs_algorithm r)) in
  require (negb ((8 <=? vr_version r) && bool_decide (is_Some (vr_signature r)) && has_leg))
    (ECrypto "stripping the second leg of a signed record breaks its first signature") ;;
  modify (fun r => r <| vr_sphincs_signature := None |> <| vr_creator_sphincs_pk := None |>
                     <| vr_sphincs_algorithm := None |>).

Inductive SignedFormat := FormatRecord (version : Z) | FormatSnapshot (selector : option Z).

(** The two verifiers of the second leg are third-party code. *)
Class SecondLeg := {
  sphincs_verify : list byte → list byte → list byte → bool;
  slh_dsa_verify : list byte → list byte → list byte → bool;
}.

Section second_leg.
Context `{SecondLeg}.

Definition second_leg_era (f : SignedFormat) : option Z :=
  match f with
  | FormatRecord v => record_second_leg_algorithm v
  | FormatSnapshot None => Some ALG_SPHINCS_SHA2_192F
  | FormatSnapshot (Some s) =>
      if s <=? LEGACY_SECOND_LEG_MAX_SNAPSHOT_SELECTOR then Some ALG_SPHINCS_SHA2_192F else None
  end.
Definition verify_second_leg (f : SignedFormat) (alg : option Z) (message sig pk : list byte)
    : outcome bool :=
  match second_leg_era f with
  | None => Err (ECrypto "no second-leg verifier")
  | Some era =>
      if (era =? ALG_SPHINCS_SHA2_192F)
         && bool_decide (alg = None ∨ alg = Some ALG_SPHINCS_SHA2_192F) then
        Ok (sphincs_verify message sig pk)
      else if (era =? ALG_SLH_DSA_SHA2_192F) && bool_decide (alg = Some ALG_SLH_DSA_SHA2_192F) then
        Ok (slh_dsa_verify message sig pk)
      else match alg with
           | None => Err (ECrypto "no second-leg algorithm byte")
           | Some _ => Err (ECrypto "second-leg algorithm is not valid")
           end
  end.

Definition check_second_leg (r : WireRecord) (signable : list byte) : outcome (option bool) :=
  match vr_sphincs_signature r, vr_creator_sphincs_pk r with
  | None, None => Ok None
  | Some sig, Some pk =>
      Some <$> verify_second_leg (FormatRecord (vr_version r)) (vr_sphincs_algorithm r)
                 signable sig pk
  | Some _, None => Err (EWire "SPHINCS+ signature present but no SPHINCS+ public key in record")
  | None, Some _ => Err (EWire "SPHINCS+ public key present but no SPHINCS+ signature")
  end.
End second_leg.

(** ** Zones on the wire *)

(** The length is cast to [u16], not checked. *)
Definition zone_to_wire_bytes (z : string) : list byte := be_bytes 2 (slen z) ++ bytes_of z.
Definition zone_from_wire_bytes `{Externals} (data : list byte) : option (string * Z) :=
  match data with
  | b0 :: b1 :: tail =>
      let len := from_be [b0; b1] in
      if Z.of_nat (length data) <? 2 + len then None
      else path ← from_utf8 (take (Z.to_nat len) tail); Some (zone_new path, 2 + len)
  | _ => None
  end.

(** [ZoneId::from_legacy], [for_record_dynamic] and [for_record]. *)
Definition zone_from_legacy (n : Z) : string := pretty (Z.to_N n).
Definition zone_for_record_dynamic `{Externals} (record_id : string) (zone_count : Z) : string :=
  let zone_count := Z.max zone_count 1 in
  let hash := sha3_256 (bytes_of record_id) in
  zone_from_legacy (from_be (take 8 hash) mod zone_count).
Definition zone_for_record `{Externals} (record_id : string) : string :=
  zone_for_record_dynamic record_id 256.
Definition record_zone `{Externals} (r : WireRecord) : string :=
  match vr_zone r with Some z => z | None => zone_for_record (vr_id r) end.

(** ** Slots *)

(** [format!("{}:{:016x}", account_hash, nonce)] *)
Definition slot_key `{Externals} (r : WireRecord) : option string :=
  if vr_version r <? 5 then None
  else Some (String.append (sha3_256_hex (vr_creator_public_key r))
               (String.append ":" (hex_encode (be_bytes 8 (vr_nonce r))))).

(** ** Projection *)

Record ProjectedRecord := mkProjected {
  pr_id : string;
  pr_classification : Classification;
  pr_timestamp : Z;
  pr_content_hash : option string;
  pr_metadata : option MetadataMap;
  pr_creator_hash : option string;
  pr_confirmation_level : option string;
}.

Definition project `{Externals} (r : WireRecord) (observer_clearance : Classification)
    : ProjectedRecord :=
  let creator_hash := sha3_256_hex (vr_creator_public_key r) in
  match observer_clearance with
  | Public =>
      mkProjected (vr_id r) (vr_classification r) (vr_timestamp r)
        (Some (hex_encode (vr_content_hash r))) (Some (vr_metadata r)) (Some creator_hash) None
  | Private =>
      mkProjected (vr_id r) (vr_classification r) (vr_timestamp r)
        (Some (hex_encode (vr_content_hash r))) None (Some creator_hash) None
  | Restricted =>
      mkProjected (vr_id r) (vr_classification r) (vr_timestamp r)
        None None (Some creator_hash) None
  | Sovereign =>
      mkProjected (vr_id r) (vr_classification r) (vr_timestamp r) None None None None
  end.

(** ** Encoding *)

(** The metadata block, rewound to an empty map when it cannot be encoded. *)
Definition encode_metadata_or_empty (m : MetadataMap) : M Buf unit := fun buf =>
  match encode_metadata_binary m buf with
  | (Err _, buf') => extend (be_bytes 2 0) (take (length buf) buf')
  | res => res
  end.

Definition encode_zone (z : option string) : M Buf unit :=
  match z with
  | Some zone => extend [x01] ;; extend (zone_to_wire_bytes zone)
  | None => extend [x00]
  end.

Definition write_record (r : WireRecord) : M Buf unit :=
  encode_header (vr_version r) ;;
  encode_u8_prefixed (bytes_of (vr_id r)) ;;
  extend (vr_content_hash r) ;;
  encode_u16_prefixed (vr_creator_public_key r) ;;
  encode_timestamp (vr_timestamp r) ;;
  encode_count (length (vr_parents r)) ;;
  for_each (fun pid => encode_u8_prefixed (bytes_of pid)) (vr_parents r) ;;
  extend [as_byte (class_as_u8 (vr_classification r))] ;;
  encode_metadata_or_empty (vr_metadata r) ;;
  encode_optional_u32 (vr_zk_proof r) ;;
  encode_optional_u16 (vr_signature r) ;;
  encode_optional_u16 (vr_sphincs_signature r) ;;
  when (2 <=? vr_version r) (
    encode_optional_u16 (vr_itc_stamp r) ;;
    encode_count (length (vr_zone_refs r)) ;;
    for_each extend (vr_zone_refs r) ;;
    encode_optional_u16 (vr_creator_sphincs_pk r) ;;
    extend [as_byte (vr_sig_algorithm r)] ;;
    extend [as_byte (default 0 (vr_sphincs_algorithm r))]) ;;
  when (3 <=? vr_version r) (encode_zone (vr_zone r)) ;;
  when (5 <=? vr_version r) (extend (be_bytes 8 (vr_nonce r))) ;;
  when (6 <=? vr_version r) (encode_u16_prefixed (bytes_of (vr_network_id r))).

Definition to_bytes (r : WireRecord) : outcome (list byte) :=
  let '(o, buf) := write_record r [] in fmap (fun _ => buf) o.

(** ** Decoding *)

Definition validate_wire_id (id : string) : M WireReader unit :=
  require (is_ascii id) (EWire "non-ASCII id rejected at decode") ;;
  require (negb (MAX_RECORD_ID_LEN <? slen id)) (EWire "id too long at decode").

Definition read_id : M WireReader string :=
  bytes ← read_u8_prefixed;
  id ← ok_or (from_utf8 bytes) (EWire "invalid UTF-8 in id");
  validate_wire_id id ;;
  mret id.

(** [if reader.remaining() >= n { read } else { absent }] *)
Definition if_remaining {A} (n : Z) (read : M WireReader A) (absent : A) : M WireReader A :=
  rem ← gets remaining; if n <=? rem then read else mret absent.

Definition read_parents : M WireReader (list string) :=
  num_parents ← read_u16;
  require (negb (MAX_PARENTS <? num_parents)) (EWire "too many parents") ;;
  read_items read_id (Z.to_nat num_parents) [].

Definition read_itc_and_refs : M WireReader (option (list byte) * list (list byte)) :=
  itc ← read_optional_u16;
  num_refs ← if_remaining 2 read_u16 0;
  require (negb (MAX_ZONE_REFS <? num_refs)) (EWire "too many zone_refs") ;;
  refs ← read_items (read_bytes 24) (Z.to_nat num_refs) [];
  mret (itc, refs).

Definition read_algorithms (version : Z) : M WireReader (Z * option Z) :=
  primary ← read_u8;
  secondary ← read_u8;
  require (primary =? ALG_DILITHIUM3) (EWire "unsupported sig_algorithm byte") ;;
  let expected := record_second_leg_algorithm version in
  if secondary =? 0 then mret (primary, None)
  else if bool_decide (Some secondary = expected) then mret (primary, Some secondary)
  else throw (EWire "unsupported sphincs_algorithm byte").

Definition read_zone `{Externals} : M WireReader (option string) :=
  flag ← read_u8;
  if flag =? 1 then
    remaining_data ← gets remaining_bytes;
    match zone_from_wire_bytes remaining_data with
    | Some (z, consumed) => advance consumed ;; mret (Some z)
    | None => mret None
    end
  else mret None.

Definition read_network_id : M WireReader string :=
  nid_bytes ← read_u16_prefixed;
  require (negb (MAX_NETWORK_ID_LEN <? Z.of_nat (length nid_bytes)))
    (EWire "network_id too long at decode") ;;
  nid ← ok_or (from_utf8 nid_bytes) (EWire "invalid UTF-8 in network_id");
  require (is_ascii nid) (EWire "non-ASCII network_id rejected at decode") ;;
  mret nid.

Definition is_present {A} (o : option A) : bool := match o with Some _ => true | None => false end.

Section decoding.
Context `{Externals}.

Definition read_record : M WireReader WireRecord :=
  header ← read_header;
  let version := header.1 in
  id ← read_id;
  content_hash ← read_bytes 32;
  creator_public_key ← read_u16_prefixed;
  timestamp ← read_f64;
  parents ← read_parents;
  class_val ← read_u8;
  classification ← ok_or (class_from_u8 class_val) (EWire "invalid classification");
  metadata ← decode_metadata_binary;
  zk_proof ← read_optional_u32;
  signature ← read_optional_u16;
  sphincs_signature ← if_remaining 1 read_optional_u16 None;
  refs ← (if 2 <=? version then if_remaining 1 read_itc_and_refs (None, []) else mret (None, []));
  creator_sphincs_pk ← if_remaining 1 read_optional_u16 None;
  algs ← if_remaining 2 (read_algorithms version) (ALG_DILITHIUM3, None);
  zone ← (if 3 <=? version then if_remaining 1 read_zone None else mret None);
  nonce ← (if 5 <=? version then if_remaining 8 (read_be 8) 0 else mret 0);
  network_id ← (if 6 <=? version then if_remaining 2 read_network_id "" else mret "");
  require (negb (is_present algs.2 && negb (is_present sphincs_signature)))
    (EWire "sphincs_algorithm declared but no SPHINCS+ signature attached") ;;
  require (negb (is_present sphincs_signature && negb (is_present algs.2)))
    (EWire "SPHINCS+ signature attached but sphincs_algorithm byte is 0") ;;
  require (negb (is_present algs.2 && negb (is_present creator_sphincs_pk)))
    (EWire "sphincs_algorithm declared but no SPHINCS+ public key attached") ;;
  mret (mkWireRecord id version content_hash creator_public_key timestamp parents classification
    metadata signature sphincs_signature zk_proof refs.1 refs.2 creator_sphincs_pk algs.1 algs.2
    zone None nonce network_id).

Definition from_bytes (data : list byte) : outcome WireRecord := (read_record (reader_new data)).1.
End decoding.
