(* ===== verification/RecordProps.v ===== *)
(** * What the record codec and the signed bytes guarantee

    Every record within the limits of the wire format is read back from its own
    bytes; whatever bytes are accepted give a record within those limits; and
    two records with the same signed bytes agree on every signed field whose
    boundaries the preimage fixes. *)

From Stdlib Require Import Strings.Ascii Structures.OrdersEx.
From S2P Require Import Prelude F64 Types CrossZone Records Wire WireCodec RecordCodec.
Open Scope Z_scope.

(** ** Records within the limits of the wire format *)

Definition id_ok (id : string) : Prop := is_ascii id = true ∧ slen id <= MAX_RECORD_ID_LEN.

(** Every field but the zone. *)
Record wire_ok (r : WireRecord) : Prop := {
  ok_version : WIRE_VERSION_MIN <= vr_version r <= WIRE_VERSION;
  ok_id : id_ok (vr_id r);
  ok_content_hash : Z.of_nat (length (vr_content_hash r)) = 32;
  ok_public_key : Z.of_nat (length (vr_creator_public_key r)) <= U16_MAX;
  ok_timestamp : 0 <= vr_timestamp r < 2 ^ 64;
  ok_parents : Z.of_nat (length (vr_parents r)) <= MAX_PARENTS;
  ok_parent_ids : Forall id_ok (vr_parents r);
  ok_metadata : metadata_ok (vr_metadata r);
  ok_zk_proof : opt_ok (2 ^ 32 - 1) (vr_zk_proof r);
  ok_signature : opt_ok U16_MAX (vr_signature r);
  ok_sphincs_signature : opt_ok U16_MAX (vr_sphincs_signature r);
  ok_itc_stamp : opt_ok U16_MAX (vr_itc_stamp r);
  ok_zone_refs : Z.of_nat (length (vr_zone_refs r)) <= MAX_ZONE_REFS;
  ok_zone_ref : Forall (fun z => Z.of_nat (length z) = 24) (vr_zone_refs r);
  ok_sphincs_pk : opt_ok U16_MAX (vr_creator_sphincs_pk r);
  ok_sig_algorithm : vr_sig_algorithm r = ALG_DILITHIUM3;
  ok_sphincs_algorithm : vr_sphincs_algorithm r = None ∨
    vr_sphincs_algorithm r = record_second_leg_algorithm (vr_version r);
  ok_identity_hash : vr_identity_hash_wire r = None;
  ok_nonce : 0 <= vr_nonce r < 2 ^ 64;
  ok_nonce_absent : vr_version r < 5 → vr_nonce r = 0;
  ok_network_id : is_ascii (vr_network_id r) = true ∧ slen (vr_network_id r) <= MAX_NETWORK_ID_LEN;
  ok_network_id_absent : vr_version r < 6 → vr_network_id r = "";
  ok_leg_signature : is_present (vr_sphincs_algorithm r) = is_present (vr_sphincs_signature r);
  ok_leg_key : is_present (vr_sphincs_algorithm r) = true →
    is_present (vr_creator_sphincs_pk r) = true;
}.

(** The zone's text fits its field. *)
Definition zone_ok (z : option string) : Prop :=
  match z with
  | Some z => slen z <= U16_MAX ∧ utf8_valid (bytes_of z) = true
  | None => True
  end.
(** What a decoder makes of it. *)
Definition renormalised `{Externals} (r : WireRecord) : WireRecord :=
  r <| vr_zone := zone_new <$> vr_zone r |>.

(** ** Codecs of the record's fields *)

Lemma codec_skip {A B} n e (d : M WireReader A) (f : A → M WireReader B) a b :
  parses d [] a → codec n e (f a) b → codec n e (d ≫= f) b.
Proof. intros H (bs & ? & ? & ?). exists bs. split_and!; [done|done|]. by apply (parses_bind d f [] bs a). Qed.

Lemma codec_check {A} n e c err (d : M WireReader A) a :
  c = true → codec n e d a → codec n e (require c err ;; d) a.
Proof. intros -> H. eapply codec_skip; [apply parses_require|done]. Qed.

Lemma codec_if_remaining {A} n e (d : M WireReader A) a absent :
  codec n e d a → codec n e (if_remaining (Z.of_nat n) d absent) a.
Proof.
  intros (bs & Hn & Hw & Hp). exists bs. split_and!; [done|done|].
  intros r s Hr E. unfold if_remaining, gets, mbind, M_bind.
  rewrite remaining_rest, E, length_app by done.
  replace (Z.of_nat n <=? Z.of_nat (length bs + length s)) with true by lia. by apply Hp.
Qed.

(** A field that only some versions carry. *)
Lemma codec_versioned {A} b n e (d : M WireReader A) a absent :
  (b = true → codec n e d a) → (b = false → a = absent) →
  codec 0 (when b e) (if b then if_remaining (Z.of_nat n) d absent else mret absent) a.
Proof.
  intros H1 H2. destruct b; simpl.
  - eapply codec_weaken; [|apply Nat.le_0_l]. by apply codec_if_remaining, H1.
  - rewrite (H2 eq_refl). apply codec_ret.
Qed.

Lemma ascii_from_utf8 s : is_ascii s = true → from_utf8 (bytes_of s) = Some s.
Proof. intros H. by apply from_utf8_bytes_of, ascii_utf8. Qed.

Lemma codec_header v :
  WIRE_VERSION_MIN <= v <= WIRE_VERSION → codec 8 (encode_header v) read_header (v, 1).
Proof.
  intros Hv. exists (MAGIC ++ be_bytes 2 v ++ [x01] ++ [x00]).
  split_and!; [by rewrite !length_app, be_bytes_length| |].
  { repeat apply writes_bind; apply writes_extend. }
  unfold WIRE_VERSION_MIN, WIRE_VERSION in Hv.
  unfold read_header. eapply parses_bind; [apply (parses_bytes MAGIC)|].
  rewrite bool_decide_true by done. apply (parses_bind _ _ [] _ tt); [apply parses_require|].
  apply (parses_bind _ _ (be_bytes 2 v) _ v).
  { rewrite <- (from_be_be_small 2 v) at 2 by (simpl; lia). apply parses_be, be_bytes_length. }
  replace ((WIRE_VERSION_MIN <=? v) && (v <=? WIRE_VERSION)) with true
    by (unfold WIRE_VERSION_MIN, WIRE_VERSION; lia).
  apply (parses_bind _ _ [] _ tt); [apply parses_require|].
  apply (parses_bind _ _ [x01] [x00] 1 _ (parses_u8 x01)).
  eapply parses_bind_pure; [apply parses_u8|]. apply parses_ret.
Qed.

Lemma codec_id id : id_ok id → codec 1 (encode_u8_prefixed (bytes_of id)) read_id id.
Proof.
  intros [Ha Hl]. unfold MAX_RECORD_ID_LEN in Hl. unfold read_id.
  eapply codec_then; [apply codec_u8_prefixed; unfold slen in Hl; lia|].
  rewrite ascii_from_utf8 by done. eapply parses_bind_pure; [apply parses_ok_or|].
  unfold validate_wire_id, MAX_RECORD_ID_LEN. rewrite Ha.
  replace (128 <? slen id) with false by lia. by apply parses_pure.
Qed.

Lemma codec_parents l :
  Z.of_nat (length l) <= MAX_PARENTS → Forall id_ok l →
  codec 2 (encode_count (length l) ;; for_each (fun pid => encode_u8_prefixed (bytes_of pid)) l)
    read_parents l.
Proof.
  intros Hl Hids. apply codec_list; [|done|by vm_compute].
  eapply Forall_impl; [apply Hids|]. intros id Hid.
  eapply codec_weaken; [by apply codec_id|lia].
Qed.

Lemma codec_class c :
  codec 1 (extend [as_byte (class_as_u8 c)])
    (v ← read_u8; ok_or (class_from_u8 v) (EWire "invalid classification")) c.
Proof.
  eapply codec_then; [apply codec_byte; by destruct c|]. destruct c; apply parses_ok_or.
Qed.

Lemma codec_metadata_or_empty m :
  metadata_ok m → codec 2 (encode_metadata_or_empty m) decode_metadata_binary m.
Proof.
  intros H. destruct (codec_metadata m H) as (bs & ? & Hw & ?). exists bs.
  split_and!; [done| |done]. intros buf. unfold encode_metadata_or_empty. by rewrite Hw.
Qed.

Lemma codec_itc_and_refs itc refs :
  opt_ok U16_MAX itc → Z.of_nat (length refs) <= MAX_ZONE_REFS →
  Forall (fun z => Z.of_nat (length z) = 24) refs →
  codec 2 (encode_optional_u16 itc ;; encode_count (length refs) ;; for_each extend refs)
    read_itc_and_refs (itc, refs).
Proof.
  intros Hi Hn Hr. unfold read_itc_and_refs. eapply codec_bind; [by apply codec_optional_u16|].
  unfold MAX_ZONE_REFS in *.
  eapply codec_bind; [apply (codec_if_remaining 2), codec_count; unfold U16_MAX; lia|].
  replace (256 <? Z.of_nat (length refs)) with false by lia.
  apply codec_check; [done|]. rewrite Nat2Z.id. eapply codec_then; [|apply parses_ret].
  apply (codec_items _ _ refs []). eapply Forall_impl; [apply Hr|].
  intros z Hz. by apply codec_bytes.
Qed.

Lemma codec_algorithms v alg :
  alg = None ∨ alg = record_second_leg_algorithm v →
  codec 2 (extend [as_byte ALG_DILITHIUM3] ;; extend [as_byte (default 0 alg)])
    (read_algorithms v) (ALG_DILITHIUM3, alg).
Proof.
  intros Halg. exists [as_byte ALG_DILITHIUM3; as_byte (default 0 alg)].
  split_and!; [done|by apply (writes_bind _ _ [_] [_])|].
  unfold read_algorithms. apply (parses_bind _ _ [_] [_] _ _ (parses_u8 _)).
  eapply parses_bind_pure; [apply parses_u8|]. rewrite !Zbyte_as_byte.
  replace (ALG_DILITHIUM3 mod 256) with ALG_DILITHIUM3 by done.
  eapply parses_bind_pure; [apply parses_require|]. cbv zeta.
  destruct Halg as [->| ->]; [apply parses_ret|].
  unfold record_second_leg_algorithm.
  destruct (v <=? LEGACY_SECOND_LEG_MAX_RECORD_VERSION); [by apply parses_pure|].
  destruct (v <=? FIPS205_SECOND_LEG_MAX_RECORD_VERSION); by apply parses_pure.
Qed.

Lemma codec_network_id nid :
  is_ascii nid = true → slen nid <= MAX_NETWORK_ID_LEN →
  codec 2 (encode_u16_prefixed (bytes_of nid)) read_network_id nid.
Proof.
  intros Ha Hl. unfold MAX_NETWORK_ID_LEN, read_network_id in *. unfold slen in Hl.
  eapply codec_then; [apply codec_u16_prefixed; unfold U16_MAX; lia|].
  unfold MAX_NETWORK_ID_LEN. replace (64 <? Z.of_nat (length (bytes_of nid))) with false by lia.
  rewrite ascii_from_utf8 by done.
  eapply parses_bind_pure; [apply parses_require|].
  eapply parses_bind_pure; [apply parses_ok_or|]. rewrite Ha. by apply parses_pure.
Qed.

Section roundtrip.
Context `{Externals}.

Lemma zone_from_wire_app z s :
  slen z <= U16_MAX → utf8_valid (bytes_of z) = true →
  zone_from_wire_bytes (zone_to_wire_bytes z ++ s) = Some (zone_new z, 2 + slen z).
Proof.
  intros Hl Hu. unfold zone_to_wire_bytes, zone_from_wire_bytes, U16_MAX in *.
  assert (Hb : be_bytes 2 (slen z) = [as_byte (slen z / 256); as_byte (slen z)]) by done.
  assert (Hf : from_be [as_byte (slen z / 256); as_byte (slen z)] = slen z).
  { rewrite <- Hb. apply from_be_be_small. unfold slen in *. simpl. lia. }
  rewrite Hb, <- app_assoc. cbn [app]. cbv zeta. rewrite Hf.
  replace (Z.of_nat _ <? 2 + slen z) with false
    by (cbn [length]; rewrite length_app; unfold slen; lia).
  replace (Z.to_nat (slen z)) with (length (bytes_of z)) by (unfold slen; lia).
  by rewrite take_app_length, from_utf8_bytes_of by done.
Qed.

Lemma codec_zone z : zone_ok z → codec 1 (encode_zone z) read_zone (zone_new <$> z).
Proof.
  destruct z as [z|]; simpl.
  - intros [Hl Hu]. unfold read_zone.
    eapply codec_bind; [by apply (codec_byte 1)|]. cbn [Z.eqb Pos.eqb].
    exists (zone_to_wire_bytes z). split_and!; [apply Nat.le_0_l|apply writes_extend|].
    intros r s Hr E. pose proof (f_equal length E) as HL. rewrite length_app in HL.
    assert (Hw : Z.of_nat (length (zone_to_wire_bytes z)) = 2 + slen z).
    { unfold zone_to_wire_bytes, slen. rewrite length_app, be_bytes_length. lia. }
    destruct (reader_moved r (2 + slen z) Hr) as [Hr' R']; [unfold slen in *; lia|].
    exists (r <| wr_pos := wr_pos r + (2 + slen z) |>). split_and!; [|done|].
    + unfold gets, mbind, M_bind.
      assert (HB : remaining_bytes r = rest r).
      { unfold remaining_bytes. unfold reader_ok in Hr. by replace (wr_pos r <=? data_len r) with true by lia. }
      rewrite HB, E, zone_from_wire_app by done. unfold advance, modify, set.
      rewrite Z.min_r; [done|]. unfold reader_ok, data_len in *. simpl in Hr'. lia.
    + rewrite R', E, <- Hw, Nat2Z.id. by rewrite drop_app_length.
  - intros _. unfold read_zone. eapply codec_then; [by apply (codec_byte 0)|apply parses_ret].
Qed.

(** The second-version block of the encoder, grouped as the decoder reads it. *)
Definition write_v2 (r : WireRecord) : M Buf unit :=
  encode_optional_u16 (vr_itc_stamp r) ;;
  encode_count (length (vr_zone_refs r)) ;;
  for_each extend (vr_zone_refs r) ;;
  encode_optional_u16 (vr_creator_sphincs_pk r) ;;
  extend [as_byte (vr_sig_algorithm r)] ;;
  extend [as_byte (default 0 (vr_sphincs_algorithm r))].

Lemma write_v2_grouped r (e : M Buf unit) buf :
  (write_v2 r ;; e) buf =
  ((encode_optional_u16 (vr_itc_stamp r) ;; encode_count (length (vr_zone_refs r)) ;;
    for_each extend (vr_zone_refs r)) ;;
   encode_optional_u16 (vr_creator_sphincs_pk r) ;;
   (extend [as_byte (vr_sig_algorithm r)] ;;
    extend [as_byte (default 0 (vr_sphincs_algorithm r))]) ;; e) buf.
Proof.
  unfold write_v2, mbind, M_bind. destruct (encode_optional_u16 (vr_itc_stamp r) buf) as [[] b]; [|done|done].
  destruct (encode_count (length (vr_zone_refs r)) b) as [[] b1]; [|done|done].
  destruct (for_each extend (vr_zone_refs r) b1) as [[] b2]; [|done|done].
  by destruct (encode_optional_u16 (vr_creator_sphincs_pk r) b2) as [[] b3].
Qed.

Lemma codec_record r :
  wire_ok r → zone_ok (vr_zone r) → codec 0 (write_record r) read_record (renormalised r).
Proof.
  intros [] Hz. unfold write_record, read_record.
  assert (Hv : 4 <= vr_version r <= 8) by done.
  eapply codec_weaken; [|apply Nat.le_0_l].
  eapply codec_bind; [by apply codec_header|]. cbv zeta. cbn [fst].
  eapply codec_bind; [by apply codec_id|].
  eapply codec_bind; [by apply codec_bytes|].
  eapply codec_bind; [by apply codec_u16_prefixed|].
  eapply codec_bind; [apply (codec_be 8); simpl; lia|].
  eapply codec_ext; [intros; by rewrite <- seq_assoc|].
  eapply codec_bind; [by apply codec_parents|].
  eapply codec_bind; [apply codec_byte; by destruct (vr_classification r)|].
  replace (class_from_u8 (class_as_u8 (vr_classification r)))
    with (Some (vr_classification r)) by (by destruct (vr_classification r)).
  eapply codec_skip; [apply parses_ok_or|].
  eapply codec_bind; [by apply codec_metadata_or_empty|].
  eapply codec_bind; [by apply codec_optional_u32|].
  eapply codec_bind; [by apply codec_optional_u16|].
  eapply codec_bind; [eapply (codec_if_remaining 1), codec_weaken; [by apply codec_optional_u16|lia]|].
  replace (2 <=? vr_version r) with true by lia. replace (3 <=? vr_version r) with true by lia.
  eapply codec_ext; [intros; apply write_v2_grouped|].
  eapply codec_bind; [eapply (codec_if_remaining 1), codec_weaken; [by apply codec_itc_and_refs|lia]|].
  eapply codec_bind; [eapply (codec_if_remaining 1), codec_weaken; [by apply codec_optional_u16|lia]|].
  rewrite ok_sig_algorithm0.
  eapply codec_bind; [by apply (codec_if_remaining 2), codec_algorithms|]. cbn [fst snd].
  eapply codec_bind; [by apply (codec_if_remaining 1), codec_zone|].
  eapply codec_bind.
  { apply (codec_versioned _ 8); [intros _; apply (codec_be 8); simpl; lia|]. intros; bools. auto. }
  eapply codec_then.
  { destruct ok_network_id0.
    apply (codec_versioned _ 2); [intros _; by apply codec_network_id|]. intros; bools. auto. }
  rewrite ok_leg_signature0.
  replace (negb (is_present (vr_sphincs_signature r) && negb (is_present (vr_sphincs_signature r))))
    with true by (by destruct (is_present (vr_sphincs_signature r))).
  do 2 (eapply parses_bind_pure; [apply parses_require|]).
  rewrite <- ok_leg_signature0.
  replace (is_present (vr_sphincs_algorithm r) && negb (is_present (vr_creator_sphincs_pk r)))
    with false.
  { eapply parses_bind_pure; [apply parses_require|]. apply parses_pure. intros rd.
    rewrite <- ok_sig_algorithm0, <- ok_identity_hash0. done. }
  destruct (is_present (vr_sphincs_algorithm r)); [|done]. by rewrite ok_leg_key0.
Qed.

(** ** What the decoder yields *)

Lemma yields_header :
  yields read_header (fun h => WIRE_VERSION_MIN <= h.1 <= WIRE_VERSION).
Proof.
  unfold read_header. eapply yields_bind; [by apply yields_bytes|]. intros m _.
  eapply yields_bind; [apply yields_require|]. intros _ _.
  eapply yields_bind; [apply yields_be|]. intros v _.
  eapply yields_bind; [apply yields_require|]. intros [] Hv; cbv beta in Hv.
  eapply yields_bind; [apply yields_u8|]. intros t _.
  eapply yields_bind; [apply yields_u8|]. intros u _. apply yields_ret. simpl. lia.
Qed.

Lemma yields_id : yields read_id id_ok.
Proof.
  unfold read_id, validate_wire_id. eapply yields_bind; [apply yields_u8_prefixed|]. intros l _.
  eapply yields_bind; [apply yields_ok_or|]. intros s _.
  apply (yields_bind _ _ (fun _ => id_ok s)).
  - eapply yields_bind; [apply yields_require|]. intros [] Ha.
    eapply yields_mono; [apply yields_require|]. intros [] Hl; cbv beta in Hl. split; [done|lia].
  - intros [] Hs. by apply yields_ret.
Qed.

Lemma yields_parents :
  yields read_parents (fun l => Z.of_nat (length l) <= MAX_PARENTS ∧ Forall id_ok l).
Proof.
  unfold read_parents. eapply yields_bind; [apply yields_be|]. intros n Hn; cbv beta in Hn.
  eapply yields_bind; [apply yields_require|]. intros [] Hc; cbv beta in Hc.
  eapply yields_mono; [apply yields_items; [apply yields_id|constructor]|].
  intros l [Hl1 Hl2]. split; [|done]. simpl in Hl2. lia.
Qed.

Lemma yields_if_remaining {A} n (d : M WireReader A) absent P :
  yields d P → P absent → yields (if_remaining n d absent) P.
Proof.
  intros Hd Ha. unfold if_remaining. eapply yields_bind; [apply yields_gets|]. intros rem _.
  apply yields_if; intros _; [done|by apply yields_ret].
Qed.

Lemma yields_itc_and_refs :
  yields read_itc_and_refs (fun p => opt_ok U16_MAX p.1 ∧ Z.of_nat (length p.2) <= MAX_ZONE_REFS ∧
    Forall (fun z => Z.of_nat (length z) = 24) p.2).
Proof.
  unfold read_itc_and_refs. eapply yields_bind; [apply yields_optional_u16|]. intros itc Hi.
  eapply yields_bind; [apply yields_if_remaining; [apply yields_be|simpl; lia]|].
  intros n Hn; cbv beta in Hn.
  eapply yields_bind; [apply yields_require|]. intros [] Hc; cbv beta in Hc.
  eapply yields_bind; [apply yields_items; [by apply yields_bytes|constructor]|].
  intros l [Hl1 Hl2]. apply yields_ret. split_and!; [done| |done]. simpl in *. lia.
Qed.

Lemma yields_algorithms v :
  yields (read_algorithms v) (fun p => p.1 = ALG_DILITHIUM3 ∧
    (p.2 = None ∨ p.2 = record_second_leg_algorithm v)).
Proof.
  unfold read_algorithms. eapply yields_bind; [apply yields_u8|]. intros p _.
  eapply yields_bind; [apply yields_u8|]. intros s _.
  eapply yields_bind; [apply yields_require|]. intros [] Hp; cbv beta in Hp. bools. cbv zeta.
  apply yields_if; intros; [apply yields_ret; auto|].
  apply yields_if; intros; [|apply yields_throw]. bools. apply yields_ret. auto.
Qed.

Lemma zone_from_wire_Some data z n :
  zone_from_wire_bytes data = Some (z, n) →
  0 <= n <= Z.of_nat (length data) ∧ ∃ path, z = zone_new path.
Proof.
  unfold zone_from_wire_bytes. destruct data as [|b0 [|b1 tail]]; [done|done|]. cbv zeta.
  destruct (Z.ltb_spec (Z.of_nat (length (b0 :: b1 :: tail))) (2 + from_be [b0; b1])); [done|].
  destruct (from_utf8 _) as [path|]; [|done]. intros [= <- <-].
  pose proof (from_be_bounds [b0; b1]). split; [lia|eauto].
Qed.

Lemma yields_zone :
  yields read_zone (fun z => match z with Some z => ∃ path, z = zone_new path | None => True end).
Proof.
  unfold read_zone. eapply yields_bind; [apply yields_u8|]. intros flag _.
  apply yields_if; intros _; [|by apply yields_ret].
  intros r Hr. unfold gets, mbind, M_bind.
  destruct (zone_from_wire_bytes (remaining_bytes r)) as [[z n]|] eqn:E; [|done].
  apply zone_from_wire_Some in E as [Hn Hz].
  assert (HB : Z.of_nat (length (remaining_bytes r)) = data_len r - wr_pos r).
  { unfold remaining_bytes. unfold reader_ok in Hr. replace (wr_pos r <=? data_len r) with true by lia.
    by apply rest_length. }
  split; [|done]. unfold reader_ok, data_len in *. destruct r; simpl in *. lia.
Qed.

Lemma yields_network_id :
  yields read_network_id (fun s => is_ascii s = true ∧ slen s <= MAX_NETWORK_ID_LEN).
Proof.
  unfold read_network_id. eapply yields_bind; [apply yields_u16_prefixed|]. intros l _.
  eapply yields_bind; [apply yields_require|]. intros [] Hl; cbv beta in Hl.
  eapply yields_bind; [apply yields_ok_or|]. intros s Hs. apply from_utf8_Some in Hs as [Hs _].
  eapply yields_bind; [apply yields_require|]. intros [] Ha. apply yields_ret.
  split; [done|]. unfold slen. rewrite Hs. lia.
Qed.

(** A field that only some versions carry. *)
Lemma yields_versioned {A} (b : bool) n (d : M WireReader A) absent P :
  yields d P → P absent →
  yields (if b then if_remaining n d absent else mret absent) (fun a => P a ∧ (b = false → a = absent)).
Proof.
  intros Hd Ha. destruct b; [|by apply yields_ret].
  eapply yields_mono; [by apply yields_if_remaining|]. naive_solver.
Qed.

Lemma yields_record :
  yields read_record (fun r => wire_ok r ∧
    match vr_zone r with Some z => ∃ path, z = zone_new path | None => True end).
Proof.
  unfold read_record.
  eapply yields_bind; [apply yields_header|]. intros [v t] Hv; cbv beta in Hv. cbv zeta. cbn [fst] in *.
  eapply yields_bind; [apply yields_id|]. intros id Hid.
  eapply yields_bind; [by apply yields_bytes|]. intros ch Hch.
  eapply yields_bind; [apply yields_u16_prefixed|]. intros pk Hpk.
  eapply yields_bind; [apply yields_be|]. intros ts Hts.
  eapply yields_bind; [apply yields_parents|]. intros ps [Hps1 Hps2].
  eapply yields_bind; [apply yields_u8|]. intros cv _.
  eapply yields_bind; [apply yields_ok_or|]. intros c _.
  eapply yields_bind; [apply yields_metadata|]. intros md Hmd.
  eapply yields_bind; [apply yields_optional_u32|]. intros zk Hzk.
  eapply yields_bind; [apply yields_optional_u16|]. intros sig Hsig.
  eapply yields_bind; [by apply yields_if_remaining; [apply yields_optional_u16|]|]. intros ssig Hssig.
  eapply yields_bind;
    [apply yields_versioned; [apply yields_itc_and_refs|split_and!; [done|done|constructor]]|].
  intros [itc refs] [(Hi & Hr1 & Hr2) _]. cbn [fst snd] in *.
  eapply yields_bind; [by apply yields_if_remaining; [apply yields_optional_u16|]|]. intros spk Hspk.
  eapply yields_bind; [apply yields_if_remaining; [apply yields_algorithms|by split; [|left]]|].
  intros [a1 a2] [Ha1 Ha2]. cbn [fst snd] in *.
  eapply yields_bind; [by apply yields_versioned; [apply yields_zone|]|]. intros z [Hz _].
  eapply yields_bind; [by apply yields_versioned; [apply (yields_be 8)|]|]. intros nonce [Hn1 Hn2].
  eapply yields_bind; [by apply yields_versioned; [apply yields_network_id|]|]. intros nid [Hd1 Hd2].
  eapply yields_bind; [apply yields_require|]. intros [] H1; cbv beta in H1.
  eapply yields_bind; [apply yields_require|]. intros [] H2; cbv beta in H2.
  eapply yields_bind; [apply yields_require|]. intros [] H3; cbv beta in H3.
  apply yields_ret. split; [|done]. simpl in *. constructor; simpl; try done.
  - intros. apply Hn2. lia.
  - intros. apply Hd2. lia.
  - by destruct (is_present a2), (is_present ssig).
  - by destruct (is_present a2), (is_present spk).
Qed.

Lemma reader_new_ok data :
  Z.of_nat (length data) <= USIZE_MAX → reader_ok (reader_new data) ∧ rest (reader_new data) = data.
Proof. intros Hl. unfold reader_ok, reader_new, rest, data_len. simpl. split; [lia|done]. Qed.

Lemma record_codec_run r :
  wire_ok r → zone_ok (vr_zone r) →
  ∃ bs, to_bytes r = Ok bs ∧
        (Z.of_nat (length bs) <= USIZE_MAX → from_bytes bs = Ok (renormalised r)).
Proof.
  intros Hr Hz. destruct (codec_record r Hr Hz) as (bs & _ & Hw & Hp). exists bs. split.
  - unfold to_bytes. by rewrite (Hw []).
  - intros Hl. destruct (reader_new_ok bs Hl) as [Ho HR].
    destruct (Hp (reader_new bs) [] Ho) as (r' & E & _); [by rewrite app_nil_r|].
    unfold from_bytes. by rewrite E.
Qed.

Lemma from_bytes_yields data :
  Z.of_nat (length data) <= USIZE_MAX →
  match from_bytes data with
  | Ok r => wire_ok r ∧ match vr_zone r with Some z => ∃ path, z = zone_new path | None => True end
  | Err _ => True
  | Panic => False
  end.
Proof.
  intros Hl. destruct (reader_new_ok data Hl) as [Ho _]. pose proof (yields_record _ Ho) as HY.
  unfold from_bytes. destruct (read_record (reader_new data)) as [[r| |] r']; simpl; naive_solver.
Qed.

(** C4: the record codec round trips.  Every record within the limits of the
    wire format is encoded without a panic, and its bytes (when they fit a slice)
    decode to exactly that record, with its zone path normalised; so a record
    whose zone is in normal form, or that has none, comes back as it was. *)
Theorem record_roundtrip r :
  wire_ok r → zone_ok (vr_zone r) →
  ∃ bs, to_bytes r = Ok bs ∧
        (Z.of_nat (length bs) <= USIZE_MAX →
         from_bytes bs = Ok (renormalised r) ∧
         (zone_new <$> vr_zone r = vr_zone r → from_bytes bs = Ok r)).
Proof.
  intros Hr Hz. destruct (record_codec_run r Hr Hz) as (bs & Hw & Hp). exists bs.
  split; [done|]. intros Hl. rewrite (Hp Hl). split; [done|]. intros E.
  unfold renormalised. rewrite E. by destruct r.
Qed.

(** Decoding is total and yields only records the codec can carry.  On any
    bytes [from_bytes] returns or rejects, it never panics; a record it returns
    is within the limits of the wire format and its zone is a normalised path;
    and when that path fits its field, re-encoding the record gives bytes that
    decode to the record again, its zone path normalised once more. *)
Theorem from_bytes_reemits data :
  Z.of_nat (length data) <= USIZE_MAX →
  from_bytes data ≠ Panic ∧
  ∀ r, from_bytes data = Ok r →
    wire_ok r ∧
    (∀ z, vr_zone r = Some z → ∃ path, z = zone_new path) ∧
    (zone_ok (vr_zone r) →
     ∃ bs, to_bytes r = Ok bs ∧
           (Z.of_nat (length bs) <= USIZE_MAX → from_bytes bs = Ok (renormalised r))).
Proof.
  intros Hl. pose proof (from_bytes_yields data Hl) as HY.
  destruct (from_bytes data) as [r| |]; [|by split|done]. split; [done|].
  intros r' [= <-]. destruct HY as [Hw Hz]. split_and!; [done| |by apply record_codec_run].
  intros z E. by rewrite E in Hz.
Qed.
End roundtrip.

(** ** The signed bytes *)

(** Fields within the prefixes the preimage writes for them, at the versions
    that bind the network. *)
Record signable_ok `{Serializer} (r : WireRecord) : Prop := {
  so_version : 6 <= vr_version r < 2 ^ 16;
  so_network_id : slen (vr_network_id r) < 2 ^ 16;
  so_nonce : 0 <= vr_nonce r < 2 ^ 64;
  so_content_hash : length (vr_content_hash r) = 32%nat;
  so_timestamp : 0 <= vr_timestamp r < 2 ^ 64;
  so_parents : Z.of_nat (length (vr_parents r)) < 2 ^ 16;
  so_json : Z.of_nat (length (meta_json r)) < 2 ^ 32;
  so_zk : Z.of_nat (length (default [] (vr_zk_proof r))) < 2 ^ 32;
  so_alg : 0 <= vr_sig_algorithm r < 256;
  so_leg : 0 <= default 0 (vr_sphincs_algorithm r) < 256;
  so_leg_pk : Z.of_nat (length (default [] (vr_creator_sphincs_pk r))) < 2 ^ 16;
}.

(** The lengths the preimage does not write. *)
Definition undelimited (r : WireRecord) : nat * nat * list nat :=
  (length (bytes_of (vr_id r)), length (vr_creator_public_key r),
   length <$> (bytes_of <$> sorted_parents r)).

(** What the signature covers. *)
Definition signed_fields `{Serializer} (r : WireRecord) :=
  (vr_network_id r, vr_id r, vr_version r, vr_nonce r, vr_content_hash r,
   vr_creator_public_key r, vr_timestamp r, sorted_parents r, vr_classification r, meta_json r,
   default [] (vr_zk_proof r),
   if 8 <=? vr_version r then
     Some (vr_sig_algorithm r, default 0 (vr_sphincs_algorithm r),
           default [] (vr_creator_sphincs_pk r))
   else None).

Lemma as_byte_inj a b : 0 <= a < 256 → 0 <= b < 256 → as_byte a = as_byte b → a = b.
Proof.
  intros Ha Hb E. apply (f_equal Zbyte) in E. rewrite !Zbyte_as_byte, !Z.mod_small in E by done. done.
Qed.

(** Splits an equation of two concatenations after fields of known width. *)
Lemma app_be_inj w x y (l1 l2 : list byte) :
  0 <= x < 256 ^ Z.of_nat w → 0 <= y < 256 ^ Z.of_nat w →
  be_bytes w x ++ l1 = be_bytes w y ++ l2 → x = y ∧ l1 = l2.
Proof.
  intros Hx Hy E. apply app_inj_1 in E as [E ->]; [|by rewrite !be_bytes_length].
  split; [by eapply be_bytes_inj|done].
Qed.

Lemma app_prefixed_inj w (d1 d2 l1 l2 : list byte) :
  Z.of_nat (length d1) < 256 ^ Z.of_nat w → Z.of_nat (length d2) < 256 ^ Z.of_nat w →
  be_bytes w (Z.of_nat (length d1)) ++ d1 ++ l1 = be_bytes w (Z.of_nat (length d2)) ++ d2 ++ l2 →
  d1 = d2 ∧ l1 = l2.
Proof.
  intros H1 H2 E. apply app_be_inj in E as [E1 E2]; [|lia|lia].
  apply app_inj_1 in E2; [done|lia].
Qed.

Lemma concat_inj (p1 p2 : list (list byte)) l1 l2 :
  length <$> p1 = length <$> p2 → concat p1 ++ l1 = concat p2 ++ l2 → p1 = p2 ∧ l1 = l2.
Proof.
  revert p2. induction p1 as [|a p1 IH]; intros [|b p2]; csimpl; intros HL E; try done.
  simplify_eq HL. intros Hab HL'. rewrite <- !app_assoc in E.
  apply app_inj_1 in E as [-> E]; [|done]. by destruct (IH p2 HL' E) as [-> ->].
Qed.

Section signed.
Context `{Serializer}.

Definition leg_suffix (r : WireRecord) : list byte :=
  if 8 <=? vr_version r then
    [as_byte (vr_sig_algorithm r)] ++ [as_byte (default 0 (vr_sphincs_algorithm r))] ++
    be_bytes 2 (Z.of_nat (length (default [] (vr_creator_sphincs_pk r)))) ++
    default [] (vr_creator_sphincs_pk r) ++ []
  else [].

(** The preimage of the versions that bind the network, field by field. *)
Lemma signable_bytes_eq r :
  6 <= vr_version r →
  signable_bytes r =
  DOMAIN_TAG_RECORD_V1 ++
  be_bytes 2 (Z.of_nat (length (bytes_of (vr_network_id r)))) ++ bytes_of (vr_network_id r) ++
  bytes_of (vr_id r) ++ be_bytes 2 (vr_version r) ++ be_bytes 8 (vr_nonce r) ++
  vr_content_hash r ++ vr_creator_public_key r ++ be_bytes 8 (vr_timestamp r) ++
  be_bytes 2 (Z.of_nat (length (vr_parents r))) ++ concat (bytes_of <$> sorted_parents r) ++
  [as_byte (class_as_u8 (vr_classification r))] ++
  be_bytes 4 (Z.of_nat (length (meta_json r))) ++ meta_json r ++
  be_bytes 4 (Z.of_nat (length (default [] (vr_zk_proof r)))) ++ default [] (vr_zk_proof r) ++
  leg_suffix r.
Proof.
  intros Hv. unfold signable_bytes, signable_bytes_under, slen.
  replace (6 <=? vr_version r) with true by lia. replace (5 <=? vr_version r) with true by lia.
  assert (Hz : match vr_zk_proof r with
               | Some zk => be_bytes 4 (Z.of_nat (length zk)) ++ zk | None => be_bytes 4 0 end
             = be_bytes 4 (Z.of_nat (length (default [] (vr_zk_proof r)))) ++ default [] (vr_zk_proof r))
    by (by destruct (vr_zk_proof r)).
  rewrite Hz, <- !(app_assoc _ _ (_ ++ _)). unfold leg_suffix.
  destruct (8 <=? vr_version r); [|by rewrite <- !app_assoc].
  rewrite <- !app_assoc. by rewrite app_nil_r.
Qed.

Lemma class_byte_inj c1 c2 :
  as_byte (class_as_u8 c1) = as_byte (class_as_u8 c2) → c1 = c2.
Proof. by destruct c1, c2. Qed.

(** C20: the signature binds the record.  Two records at the versions that carry
    a network binding, with the same signed bytes, agree on the network, the id,
    version, nonce, content hash, key, timestamp, parents (as the sorted list),
    classification, metadata text and proof, and from version 8 on the algorithm
    bytes and the second key, provided only that the three lengths the preimage
    does not write agree: of the id, of the key, and of each parent id. *)
Theorem signable_binds r1 r2 :
  signable_ok r1 → signable_ok r2 → undelimited r1 = undelimited r2 →
  signable_bytes r1 = signable_bytes r2 → signed_fields r1 = signed_fields r2.
Proof.
  intros [] [] [= Hid Hpk Hps] E.
  rewrite !signable_bytes_eq in E by lia. unfold slen in *.
  apply app_inj_1 in E as [_ E]; [|done].
  apply app_prefixed_inj in E as [Hn E]; [|simpl; lia|simpl; lia]. apply bytes_of_inj in Hn.
  apply app_inj_1 in E as [Hi E]; [|done]. apply bytes_of_inj in Hi.
  apply app_be_inj in E as [Hv E]; [|simpl; lia|simpl; lia].
  apply app_be_inj in E as [Hno E]; [|simpl; lia|simpl; lia].
  apply app_inj_1 in E as [Hch E]; [|congruence].
  apply app_inj_1 in E as [Hk E]; [|done].
  apply app_be_inj in E as [Hts E]; [|simpl; lia|simpl; lia].
  apply app_be_inj in E as [_ E]; [|simpl; lia|simpl; lia].
  apply concat_inj in E as [Hpar E]; [|done].
  apply app_inj_1 in E as [Hcl E]; [|done]. injection Hcl as Hcl. apply class_byte_inj in Hcl.
  apply app_prefixed_inj in E as [Hj E]; [|simpl; lia|simpl; lia].
  apply app_prefixed_inj in E as [Hz E]; [|simpl; lia|simpl; lia].
  apply (list_fmap_eq_inj bytes_of) in Hpar; [|intros ??; apply bytes_of_inj].
  unfold signed_fields. rewrite <- Hv, Hn, Hi, Hno, Hch, Hk, Hts, Hpar, Hcl, Hj, Hz.
  unfold leg_suffix in E. rewrite <- Hv in E. destruct (8 <=? vr_version r1); [|done].
  apply app_inj_1 in E as [Ha E]; [|done]. injection Ha as Ha. apply as_byte_inj in Ha; [|done|done].
  apply app_inj_1 in E as [Hl E]; [|done]. injection Hl as Hl. apply as_byte_inj in Hl; [|done|done].
  apply app_prefixed_inj in E as [Hs _]; [|simpl; lia|simpl; lia]. by rewrite Ha, Hl, Hs.
Qed.
End signed.

(** ** Parents are not delimited *)

Section parents.
Context `{Serializer}.

(** The preimage writes the parent ids one after the other, without their
    lengths.  Whatever the rest of the record, the parents [ab, c] and [a, bc]
    give the same signed bytes, so one signature and one record hash serve two
    records that differ in their parents, and the decoder accepts both. *)
Theorem parents_not_delimited r :
  signable_bytes (r <| vr_parents := ["ab"; "c"]%string |>) =
  signable_bytes (r <| vr_parents := ["a"; "bc"]%string |>) ∧
  (wire_ok r → wire_ok (r <| vr_parents := ["ab"; "c"]%string |>) ∧
               wire_ok (r <| vr_parents := ["a"; "bc"]%string |>)).
Proof.
  split; [done|]. intros [].
  split; constructor; try done; simpl; by repeat constructor.
Qed.

(** ** The second signature *)

(** Removing the second signature never invalidates the first.  On a signed
    record [strip_sphincs] either leaves the signed bytes as they are and
    removes all three fields of the second leg, or, from version 8 on, refuses
    and leaves the record unchanged. *)
Theorem strip_keeps_signature r :
  is_Some (vr_signature r) →
  match strip_sphincs r with
  | (Ok _, r') =>
      signable_bytes r' = signable_bytes r ∧ vr_signature r' = vr_signature r ∧
      vr_sphincs_signature r' = None ∧ vr_creator_sphincs_pk r' = None ∧
      vr_sphincs_algorithm r' = None
  | (Err _, r') => r' = r ∧ 8 <= vr_version r
  | (Panic, _) => False
  end.
Proof.
  intros Hsig. unfold strip_sphincs, get, mbind, M_bind, require. cbv zeta.
  rewrite (bool_decide_true _ Hsig), andb_true_r.
  destruct (Z.leb_spec 8 (vr_version r)) as [Hv|Hv]; simpl.
  - destruct (bool_decide (is_Some (vr_sphincs_signature r))) eqn:E1; [done|].
    destruct (bool_decide (is_Some (vr_creator_sphincs_pk r))) eqn:E2; [done|].
    destruct (bool_decide (is_Some (vr_sphincs_algorithm r))) eqn:E3; [done|]. simpl.
    apply bool_decide_eq_false, eq_None_not_Some in E1, E2, E3.
    destruct r; simpl in *; subst. done.
  - split_and!; try done. unfold signable_bytes, signable_bytes_under. destruct r as [? v]; simpl in *.
    by replace (8 <=? v) with false by lia.
Qed.
End parents.

(** ** Slots *)

Lemma hex_digit_inj a b : (a < 16)%N → (b < 16)%N → hex_digit a = hex_digit b → a = b.
Proof.
  intros Ha Hb. assert (G : forallb (fun a => forallb (fun b =>
    implb (Ascii.eqb (hex_digit a) (hex_digit b)) (N.eqb a b)) (N.of_nat <$> seq 0 16))
    (N.of_nat <$> seq 0 16) = true) by (by vm_compute).
  assert (Hin : ∀ n, (n < 16)%N → In n (N.of_nat <$> seq 0 16)).
  { intros n Hn. apply list_elem_of_In, list_elem_of_fmap. exists (N.to_nat n).
    rewrite N2Nat.id, elem_of_seq. lia. }
  rewrite forallb_forall in G. specialize (G a (Hin a Ha)). rewrite forallb_forall in G.
  specialize (G b (Hin b Hb)). intros E. rewrite E, Ascii.eqb_refl in G. by apply N.eqb_eq in G.
Qed.

Lemma hex_encode_inj l1 l2 : hex_encode l1 = hex_encode l2 → l1 = l2.
Proof.
  revert l2. induction l1 as [|a l1 IH]; intros [|b l2]; cbn [hex_encode]; try done.
  intros E. injection E as E1 E2 E3. pose proof (Byte.to_N_bounded a). pose proof (Byte.to_N_bounded b).
  apply hex_digit_inj in E1; [|apply N.Div0.div_lt_upper_bound; lia|apply N.Div0.div_lt_upper_bound; lia].
  apply hex_digit_inj in E2; [|apply N.mod_lt; lia|apply N.mod_lt; lia].
  f_equal; [|by apply IH]. rewrite <- (byte_of_to_N a), <- (byte_of_to_N b). f_equal.
  rewrite (N.div_mod (Byte.to_N a) 16), (N.div_mod (Byte.to_N b) 16) by lia. congruence.
Qed.

Lemma string_app_inj a1 a2 b1 b2 :
  String.length a1 = String.length a2 →
  String.append a1 b1 = String.append a2 b2 → a1 = a2 ∧ b1 = b2.
Proof.
  revert a2. induction a1 as [|c a1 IH]; intros [|d a2] HL E; try done.
  simpl in *. injection HL as HL. injection E as -> E. by destruct (IH a2 HL E) as [-> ->].
Qed.

Section slots.
Context `{Externals}.

(** Slots are (account, nonce) pairs.  Two records that take part in slot
    exclusion share a slot key exactly when their creators' identity hashes and
    their nonces are equal; the zone plays no part. *)
Theorem slot_key_exact r1 r2 :
  0 <= vr_nonce r1 < 2 ^ 64 → 0 <= vr_nonce r2 < 2 ^ 64 →
  5 <= vr_version r1 → 5 <= vr_version r2 →
  slot_key r1 = slot_key r2 ↔
  sha3_256_hex (vr_creator_public_key r1) = sha3_256_hex (vr_creator_public_key r2) ∧
  vr_nonce r1 = vr_nonce r2.
Proof.
  intros Hn1 Hn2 Hv1 Hv2. unfold slot_key.
  replace (vr_version r1 <? 5) with false by lia. replace (vr_version r2 <? 5) with false by lia.
  split; [|by intros [-> ->]]. intros E. apply (inj Some) in E.
  apply string_app_inj in E as [E1 E2];
    [|unfold sha3_256_hex; by rewrite !hex_encode_length, !sha3_256_length].
  split; [done|]. apply (string_app_inj ":" ":") in E2 as [_ E2]; [|done].
  apply hex_encode_inj in E2.
  eapply (be_bytes_inj 8); [..|apply E2]; done.
Qed.
End slots.

(** ** Normalising a zone twice *)

Section zones.
Context `{Externals}.

(** Zone normalisation is not idempotent, and re-encoding exposes it.  The
    path is trimmed before its trailing slashes are removed, so [a /] becomes
    [a ], which becomes [a] the next time: a record accepted with the first path
    is re-emitted, by the node that accepted it, as a record that every other
    node decodes into another zone. *)
Theorem reemission_changes_zone :
  trim "a /" = "a /" → trim "a " = "a" → to_lowercase "a /" = "a /" → to_lowercase "a" = "a" →
  ∀ r, wire_ok r → vr_zone r = Some "a /"%string →
  ∃ bs r1, to_bytes r = Ok bs ∧
    (Z.of_nat (length bs) <= USIZE_MAX →
     from_bytes bs = Ok r1 ∧ vr_zone r1 = Some "a "%string ∧
     ∃ bs1 r2, to_bytes r1 = Ok bs1 ∧
       (Z.of_nat (length bs1) <= USIZE_MAX →
        from_bytes bs1 = Ok r2 ∧ vr_zone r2 = Some "a"%string)).
Proof.
  intros T1 T2 L1 L2 r Hr Hz.
  assert (N1 : zone_new "a /" = "a "%string) by (unfold zone_new; by rewrite T1, L1).
  assert (N2 : zone_new "a " = "a"%string) by (unfold zone_new; by rewrite T2, L2).
  destruct (record_codec_run r Hr) as (bs & Hw & Hp); [by rewrite Hz|].
  exists bs, (renormalised r). split; [done|]. intros Hl.
  assert (Z1 : vr_zone (renormalised r) = Some "a "%string).
  { unfold renormalised. simpl. rewrite Hz. simpl. by rewrite N1. }
  split_and!; [by apply Hp|done|].
  destruct (record_codec_run (renormalised r)) as (bs1 & Hw1 & Hp1).
  { destruct Hr. by constructor. }
  { by rewrite Z1. }
  exists bs1, (renormalised (renormalised r)). split; [done|]. intros Hl1.
  split; [by apply Hp1|].
  change (vr_zone (renormalised (renormalised r))) with (zone_new <$> vr_zone (renormalised r)).
  rewrite Z1. simpl. by rewrite N2.
Qed.
End zones.

(** ** Examples *)

Module RecordExamples.
#[local] Existing Instance toy_externals.

(** A record with nested metadata, a second signature and a zone. *)
Definition full_record : WireRecord :=
  mkWireRecord "rec-1" 8 (replicate 32 x01) [x02; x03] 12345 ["p1"; "p2"]%string Restricted
    [("a", VArray [VNull; VNumber (PosInt 5); VNumber (NegInt (-7))]);
     ("b", VObject [("x", VString "hi"); ("y", VBool true)])]%string
    (Some [x09]) (Some [x08]) None (Some [x11]) [replicate 24 x05] (Some [x07])
    1 (Some 4) (Some "zone/a"%string) None 99 "net".

Lemma full_record_ok : wire_ok full_record.
Proof.
  constructor; lazymatch goal with
  | |- metadata_ok _ => idtac
  | |- Forall _ _ => idtac
  | |- _ ∨ _ => idtac
  | |- _ => vm_compute; first [by repeat split | intros; discriminate]
  end.
  - by repeat (constructor; [by vm_compute|]).
  - split_and!; [by vm_compute| |].
    + by repeat constructor.
    + constructor; [|constructor; [|done]].
      * split; [by vm_compute|]. split; [by vm_compute|]. by repeat constructor.
      * split; [by vm_compute|]. split_and!; [by vm_compute|by repeat constructor|].
        by repeat (constructor; [by vm_compute|]).
  - by repeat constructor.
  - by right.
Qed.

Lemma record_roundtrip_witness :
  ∃ bs, to_bytes full_record = Ok bs ∧ from_bytes bs = Ok full_record.
Proof.
  destruct (record_roundtrip full_record full_record_ok) as (bs & Hw & Hp); [by vm_compute|].
  exists bs. split; [exact Hw|]. apply Hp; [|by vm_compute].
  vm_compute in Hw. injection Hw as <-. by vm_compute.
Defined.

(** Truncated input is rejected, not a panic; the full bytes are accepted. *)
Lemma from_bytes_reemits_witness :
  ∃ bs, to_bytes full_record = Ok bs ∧ wire_ok full_record ∧ from_bytes (take 20 bs) ≠ Panic.
Proof.
  pose (bs := match to_bytes full_record with Ok bs => bs | _ => [] end).
  exists bs. split; [by vm_compute|].
  assert (Hl : Z.of_nat (length bs) <= USIZE_MAX) by (by vm_compute).
  assert (Ht : Z.of_nat (length (take 20 bs)) <= USIZE_MAX) by (by vm_compute).
  split; [|by apply (from_bytes_reemits (take 20 bs) Ht)].
  apply (from_bytes_reemits bs Hl). by vm_compute.
Defined.

(** A serializer for evaluating examples: the keys, in order. *)
#[local] Instance toy_serializer : Serializer :=
  {| json_to_string m := Some (concat (bytes_of <$> m.*1)) |}.

Definition reordered : WireRecord := full_record <| vr_parents := ["p2"; "p1"]%string |>.

Lemma full_record_signable : signable_ok full_record ∧ signable_ok reordered.
Proof. split; constructor; vm_compute; first [by repeat split | done]. Qed.

(** The order of the parents is not signed; what is signed agrees. *)
Lemma signable_binds_witness : signed_fields full_record = signed_fields reordered.
Proof.
  destruct full_record_signable as [H1 H2].
  apply (signable_binds full_record reordered H1 H2); by vm_compute.
Defined.

Lemma parents_not_delimited_witness :
  wire_ok (full_record <| vr_parents := ["ab"; "c"]%string |>) ∧
  wire_ok (full_record <| vr_parents := ["a"; "bc"]%string |>).
Proof. apply (parents_not_delimited full_record), full_record_ok. Defined.

(** At version 8 the signed record keeps its leg; at version 7 it loses it. *)
Definition older : WireRecord :=
  mkWireRecord "rec-2" 7 (replicate 32 x01) [x02; x03] 12345 [] Public [] (Some [x09])
    (Some [x08]) None None [] (Some [x07]) 1 (Some 2) None None 4 "net".

Lemma strip_keeps_signature_witness :
  (strip_sphincs full_record).2 = full_record ∧
  signable_bytes (strip_sphincs older).2 = signable_bytes older.
Proof.
  split.
  - exact (proj1 (strip_keeps_signature full_record (mk_is_Some _ _ eq_refl))).
  - exact (proj1 (strip_keeps_signature older (mk_is_Some _ _ eq_refl))).
Defined.

Lemma slot_key_exact_witness :
  slot_key older = slot_key full_record ↔
  sha3_256_hex [x02; x03] = sha3_256_hex [x02; x03] ∧ 4 = 99.
Proof. apply (slot_key_exact older full_record); by vm_compute. Defined.

Module Blanks.
Fixpoint trim_end_blanks (s : string) : string :=
  match s with
  | EmptyString => EmptyString
  | String c s =>
      match trim_end_blanks s with
      | EmptyString => if Ascii.eqb c " "%char then EmptyString else String c EmptyString
      | s' => String c s'
      end
  end.
(** As the toy instance, with the blanks at the end trimmed. *)
Program Definition blank_externals : Externals := {|
  sha3_256 d := be_bytes 32 (toy_sum d);
  sig_verify m s pk := bool_decide (s = m ++ pk);
  trim s := trim_end_blanks s;
  to_lowercase s := s;
|}.
Next Obligation. intros d. generalize (toy_sum d). intros z. by vm_compute. Qed.

Definition blank_zone : WireRecord := full_record <| vr_zone := Some "a /"%string |>.
Lemma blank_zone_ok : wire_ok blank_zone.
Proof. destruct full_record_ok. by constructor. Qed.

Lemma reemission_changes_zone_witness :
  ∃ bs r1, to_bytes blank_zone = Ok bs ∧
    (Z.of_nat (length bs) <= USIZE_MAX →
     from_bytes (H := blank_externals) bs = Ok r1 ∧ vr_zone r1 = Some "a "%string ∧
     ∃ bs1 r2, to_bytes r1 = Ok bs1 ∧
       (Z.of_nat (length bs1) <= USIZE_MAX →
        from_bytes (H := blank_externals) bs1 = Ok r2 ∧ vr_zone r2 = Some "a"%string)).
Proof.
  apply (reemission_changes_zone (H := blank_externals)); try exact eq_refl.
  exact blank_zone_ok.
Defined.
End Blanks.
End RecordExamples.
