(* ===== verification/ZoneCommittee.v ===== *)
(** * Drawing a zone's committee

    src/network/zone_committee.rs: candidates ranked by a keyed hash divided by
    their stake, the [k] lowest drawn; the second algorithm with the VRF output
    in the key, its bootstrap and small-network branches; the candidate pool and
    the hash of a drawn committee. *)

From S2P Require Import Prelude Sorting F64 CrossZone Wire.
Open Scope Z_scope.

Definition COMMITTEE_DOMAIN : list byte := bytes_of "ELARA_ZONE_COMMITTEE_V1".
Definition HASH_DOMAIN : list byte := bytes_of "ELARA_COMMITTEE_HASH_V1".
Definition COMMITTEE_SMALL_NETWORK : nat := 10.

Record Candidate := mkCandidate { identity_hash : string; weight : Z }.

(** [x.to_le_bytes()] of a [u64]. *)
Definition le_bytes8 (x : Z) : list byte := rev (be_bytes 8 x).

Section selection.
Context `{Externals}.

Definition hash_key (buf : list byte) : Z := from_be (take 16 (sha3_256 buf)).

(** *** The first algorithm *)

(** [(key / weight, identity)], what the code sorts by. *)
Definition zone_key (zone_path : string) (epoch : Z) (c : Candidate) : Z :=
  hash_key (COMMITTEE_DOMAIN ++ bytes_of zone_path ++ le_bytes8 epoch ++ bytes_of (identity_hash c)).
Definition zone_rank (zone_path : string) (epoch : Z) (c : Candidate) : Z * string :=
  (zone_key zone_path epoch c / weight c, identity_hash c).

Definition select_zone_committee (zone_path : string) (epoch : Z) (eligible : list Candidate)
    (k : nat) : list string :=
  if bool_decide (k = 0%nat) || bool_decide (length eligible = 0%nat) then []
  else
    let keyed := filter (fun c => 0 < weight c) eligible in
    identity_hash <$> take k (stable_sort (by_key_leb (zone_rank zone_path epoch) rank_leb) keyed).

Definition is_in_committee (zone_path : string) (epoch : Z) (candidates : list Candidate) (k : nat)
    (id : string) : bool * option nat :=
  match list_find (fun m => m = id) (select_zone_committee zone_path epoch candidates k) with
  | Some (rank, _) => (true, Some rank)
  | None => (false, None)
  end.

(** *** The unified algorithm *)

Definition v2_key (vrf_output : list byte) (zone_path id : string) : Z :=
  hash_key (COMMITTEE_DOMAIN ++ vrf_output ++ bytes_of zone_path ++ bytes_of id).
Definition v2_rank (vrf_output : list byte) (zone_path : string) (e : string * Z) : Z * string :=
  (v2_key vrf_output zone_path e.1 / e.2, e.1).
Definition sort_by_id (l : list (string * Z)) : list (string * Z) :=
  stable_sort (by_key_leb fst String.leb) l.

Definition select_committee_v2 (vrf_output : list byte) (zone_path : string)
    (eligible : list (string * Z)) (k : nat) : list (string * Z) :=
  if bool_decide (k = 0%nat) || bool_decide (length eligible = 0%nat) then []
  else if bool_decide (length vrf_output = 0%nat) then take k (sort_by_id eligible)
  else
    let non_zero := filter (fun e => 0 < e.2) eligible in
    if bool_decide (length non_zero = 0%nat) then []
    else if bool_decide (length non_zero <= COMMITTEE_SMALL_NETWORK)%nat then sort_by_id non_zero
    else
      let keyed := stable_sort (by_key_leb (v2_rank vrf_output zone_path) rank_leb) non_zero in
      sort_by_id (take k keyed).

(** *** The pool and the committed hash *)

Definition assemble_candidates_with_fallback (registered : list string) (stake_of : string → Z)
    (fallback_weight : Z) : list Candidate :=
  stable_sort (by_key_leb identity_hash String.leb)
    (omap (fun id =>
       let w := stake_of id in
       if 0 <? w then Some (mkCandidate id w)
       else if 0 <? fallback_weight then Some (mkCandidate id fallback_weight)
       else None) registered).
Definition assemble_candidates (registered : list string) (stake_of : string → Z)
    : list Candidate :=
  assemble_candidates_with_fallback registered stake_of 0.

Definition committee_hash_from_members (members : list string) (epoch : Z) : hash :=
  match members with
  | [] => zero_hash
  | _ =>
      let sorted := stable_sort String.leb members in
      sha3_256 (HASH_DOMAIN ++ le_bytes8 epoch ++
                concat ((fun m => bytes_of m ++ bytes_of "|") <$> sorted))
  end.

(** ** Theorems *)

Lemma sorted_take_low {A} (R : relation A) l n x y :
  StronglySorted R l → x ∈ take n l → y ∈ drop n l → R x y.
Proof. rewrite <- (take_drop n l) at 1. apply StronglySorted_app_1_elem_of. Qed.

(** The drawn committee is the [k] best ranked staked candidates and nothing
    else.  It has [min k n] members for [n] candidates with stake, each one of
    them; every staked candidate that is left out ranks no better than every one
    drawn (by floored key over stake, then identity); and the draw does not
    depend on the order in which the candidates are listed. *)
Theorem zone_committee_lowest_ranks zone epoch eligible k :
  let staked := filter (fun c => 0 < weight c) eligible in
  ∃ drawn left,
    drawn ++ left ≡ₚ staked ∧
    select_zone_committee zone epoch eligible k = identity_hash <$> drawn ∧
    length drawn = Nat.min k (length staked) ∧
    (∀ c d, c ∈ drawn → d ∈ left →
       rank_leb (zone_rank zone epoch c) (zone_rank zone epoch d) = true) ∧
    ∀ eligible', eligible' ≡ₚ eligible →
      select_zone_committee zone epoch eligible' k = select_zone_committee zone epoch eligible k.
Proof.
  intros staked. set (key := zone_rank zone epoch).
  set (s := stable_sort (by_key_leb key rank_leb) staked).
  assert (HS : StronglySorted (sle rank_leb) (key <$> s)) by apply (by_key_sorted key rank_leb rank_leb_total).
  assert (Hsel : ∀ e, select_zone_committee zone epoch e k =
    identity_hash <$> take k (stable_sort (by_key_leb key rank_leb) (filter (fun c => 0 < weight c) e))).
  { intros e. unfold select_zone_committee.
    destruct (bool_decide (k = 0%nat)) eqn:E1; [apply bool_decide_eq_true in E1 as ->; done|].
    destruct (bool_decide (length e = 0%nat)) eqn:E2; [|done].
    apply bool_decide_eq_true, length_zero_iff_nil in E2 as ->. simpl. by rewrite take_nil. }
  exists (take k s), (drop k s). split_and!.
  - rewrite take_drop. apply stable_sort_perm.
  - apply Hsel.
  - rewrite length_take. unfold s. by rewrite stable_sort_length.
  - intros c d Hc Hd. apply (sorted_take_low (sle rank_leb) (key <$> s) k); [done|..].
    + rewrite <- fmap_take. by apply list_elem_of_fmap_2.
    + rewrite <- fmap_drop. by apply list_elem_of_fmap_2.
  - intros e' Hp. rewrite !Hsel.
    assert (HK : key <$> stable_sort (by_key_leb key rank_leb) (filter (fun c => 0 < weight c) e')
      = key <$> s) by (apply (by_key_sort_perm key rank_leb rank_leb_total); by rewrite Hp).
    change (snd ∘ key <$> take k (stable_sort (by_key_leb key rank_leb)
              (filter (fun c => 0 < weight c) e')) = snd ∘ key <$> take k s).
    rewrite !list_fmap_compose, !fmap_take. by rewrite HK.
Qed.

Lemma NoDup_fst_inj {A B} (l : list (A * B)) k a b : NoDup l.*1 → (k, a) ∈ l → (k, b) ∈ l → a = b.
Proof.
  induction l as [|[k' c] l IH]; intros HN Ha Hb; [by apply elem_of_nil in Ha|].
  csimpl in HN. apply NoDup_cons in HN as [Hk HN].
  assert (Hf : ∀ x, (k', x) ∈ l → False) by (intros x Hx; apply Hk, list_elem_of_fmap; by exists (k', x)).
  apply elem_of_cons in Ha as [Ha|Ha]; apply elem_of_cons in Hb as [Hb|Hb]; simplify_eq; naive_solver.
Qed.

Lemma sort_by_id_perm l l' : NoDup l.*1 → l ≡ₚ l' → sort_by_id l = sort_by_id l'.
Proof.
  intros HN Hp. apply (by_key_sort_inj fst String.leb string_leb_total); [|done].
  intros [i1 w1] [i2 w2] H1 H2. simpl. intros <-. f_equal. eapply NoDup_fst_inj; eassumption.
Qed.

Lemma filter_NoDup_fst (l : list (string * Z)) (P : string * Z → Prop) `{!∀ x, Decision (P x)} :
  NoDup l.*1 → NoDup (filter P l).*1.
Proof. intros HN. eapply sublist_NoDup; [exact HN|]. apply fmap_sublist, sublist_filter. Qed.

Lemma sort_by_id_sorted l : StronglySorted (sle String.leb) (sort_by_id l).*1.
Proof. apply (by_key_sorted fst String.leb string_leb_total). Qed.

Lemma filter_length_0 (e : list (string * Z)) : length e = 0%nat → filter (fun e => 0 < e.2) e = [].
Proof. by intros ->%length_zero_iff_nil. Qed.

Lemma committee_v2_perm vrf zone eligible eligible' k :
  NoDup eligible.*1 → eligible' ≡ₚ eligible →
  select_committee_v2 vrf zone eligible' k = select_committee_v2 vrf zone eligible k.
Proof.
  intros HN Hp. unfold select_committee_v2. cbv zeta.
  set (staked := filter (fun e => 0 < e.2) eligible).
  assert (Hs : NoDup staked.*1) by (by apply filter_NoDup_fst).
  assert (Hst : filter (fun e => 0 < e.2) eligible' ≡ₚ staked) by (by rewrite Hp).
  rewrite (Permutation_length Hp), (Permutation_length Hst).
  rewrite (sort_by_id_perm eligible eligible') by done.
  rewrite (sort_by_id_perm staked (filter (fun e => 0 < e.2) eligible')) by done.
  rewrite (by_key_sort_inj (v2_rank vrf zone) rank_leb rank_leb_total staked
             (filter (fun e => 0 < e.2) eligible')); [done| |done].
  intros [i1 w1] [i2 w2] H1 H2 [= _ <-]. f_equal. eapply NoDup_fst_inj; eassumption.
Qed.

(** The four ways the draw ends. *)
Lemma committee_v2_cases vrf zone eligible k :
  let staked := filter (fun e => 0 < e.2) eligible in
  let committee := select_committee_v2 vrf zone eligible k in
  (committee = [] ∧ (k = 0%nat ∨ staked = [] ∨ vrf = [])) ∨
  (vrf = [] ∧ committee = take k (sort_by_id eligible)) ∨
  ((length staked <= COMMITTEE_SMALL_NETWORK)%nat ∧ committee = sort_by_id staked) ∨
  ((COMMITTEE_SMALL_NETWORK < length staked)%nat ∧ ∃ members,
     members `sublist_of` stable_sort (by_key_leb (v2_rank vrf zone) rank_leb) staked ∧
     length members = Nat.min k (length staked) ∧ committee = sort_by_id members).
Proof.
  intros staked committee. unfold committee, select_committee_v2. fold staked. cbv zeta.
  destruct (decide (k = 0%nat)) as [Hk|Hk]; [left; rewrite (bool_decide_true _ Hk); by auto|].
  rewrite (bool_decide_false _ Hk).
  destruct (decide (length eligible = 0%nat)) as [He|He].
  { left. rewrite (bool_decide_true _ He). split; [done|]. right; left. by apply filter_length_0. }
  rewrite (bool_decide_false _ He). cbn [orb].
  destruct (decide (length vrf = 0%nat)) as [Hv|Hv].
  { right; left. rewrite (bool_decide_true _ Hv). split; [by apply length_zero_iff_nil|done]. }
  rewrite (bool_decide_false _ Hv).
  destruct (decide (length staked = 0%nat)) as [Hs|Hs].
  { left. rewrite (bool_decide_true _ Hs). split; [done|]. right; left. by apply length_zero_iff_nil. }
  rewrite (bool_decide_false _ Hs).
  destruct (decide (length staked <= COMMITTEE_SMALL_NETWORK)%nat) as [Hn|Hn].
  { right; right; left. by rewrite (bool_decide_true _ Hn). }
  right; right; right. rewrite (bool_decide_false _ Hn). split; [lia|].
  eexists. split_and!; [apply sublist_take| |done].
  by rewrite length_take, stable_sort_length.
Qed.

(** The unified draw is canonical.  For candidates with distinct identities
    the committee does not depend on the order of the list, is ordered by
    identity, and consists of candidates; once a VRF output exists it has stake
    behind every member, and takes every staked candidate of a small network and
    exactly [k] of them, or all, in a larger one. *)
Theorem committee_v2_canonical vrf zone eligible k :
  NoDup eligible.*1 →
  let committee := select_committee_v2 vrf zone eligible k in
  let staked := filter (fun e => 0 < e.2) eligible in
  (∀ eligible', eligible' ≡ₚ eligible → select_committee_v2 vrf zone eligible' k = committee) ∧
  StronglySorted (sle String.leb) committee.*1 ∧
  (∀ e, e ∈ committee → e ∈ eligible ∧ (vrf ≠ [] → 0 < e.2)) ∧
  (vrf ≠ [] → k ≠ 0%nat →
   length committee = if bool_decide (length staked <= COMMITTEE_SMALL_NETWORK)%nat
                      then length staked else Nat.min k (length staked)).
Proof.
  intros HN committee staked. split; [intros; by apply committee_v2_perm|].
  assert (Hin : ∀ e, e ∈ staked → e ∈ eligible ∧ (vrf ≠ [] → 0 < e.2)).
  { intros e. unfold staked. rewrite list_elem_of_filter. naive_solver. }
  destruct (committee_v2_cases vrf zone eligible k)
    as [[E Hc]|[[Hv E]|[[Hl E]|(Hl & ms & Hsub & Hlen & E)]]];
    unfold committee; rewrite E.
  - split_and!; [constructor|intros e He; by apply elem_of_nil in He|].
    intros Hv Hk. destruct Hc as [?|[Hs|?]]; [done| |done]. by rewrite (Hs : staked = []).
  - split_and!; [|intros e He|done].
    + rewrite fmap_take. pose proof (sort_by_id_sorted eligible) as HS.
      rewrite <- (take_drop k) in HS. by apply StronglySorted_app_1_l in HS.
    + eapply elem_of_sublist in He; [|apply sublist_take]. unfold sort_by_id in He.
      rewrite stable_sort_perm in He. naive_solver.
  - split_and!; [apply sort_by_id_sorted|intros e He|].
    + apply Hin. unfold sort_by_id in He. by rewrite stable_sort_perm in He.
    + intros _ _. rewrite bool_decide_true by done. apply stable_sort_length.
  - split_and!; [apply sort_by_id_sorted|intros e He|].
    + apply Hin. unfold sort_by_id in He. rewrite stable_sort_perm in He.
      eapply elem_of_sublist in He; [|exact Hsub]. by rewrite stable_sort_perm in He.
    + intros _ _. fold staked in Hl. rewrite bool_decide_false by lia. unfold sort_by_id.
      by rewrite stable_sort_length.
Qed.
End selection.

Module ZoneCommitteeExamples.
#[local] Existing Instance toy_externals.

Lemma committee_v2_canonical_witness :
  select_committee_v2 [x01] "z" [("b", 5); ("a", 7); ("c", 0)]%string 2 =
  [("a", 7); ("b", 5)]%string.
Proof.
  destruct (committee_v2_canonical [x01] "z" [("a", 7); ("b", 5); ("c", 0)]%string 2) as [H _].
  { refine (bool_decide_unpack _ _). by vm_compute. }
  rewrite (H [("b", 5); ("a", 7); ("c", 0)]%string); [by vm_compute|apply perm_swap].
Defined.
End ZoneCommitteeExamples.
