(* ===== verification/EpochCommittee.v ===== *)
(** * Epoch juries and committees

    src/network/consensus.rs: the jury of an epoch (two thirds plus one of the
    staked witnesses, by the VRF output), the stake-weighted committee of a zone,
    its membership test, and the indexed variant the epoch loop runs. *)

From S2P Require Import Prelude Sorting F64 CrossZone Wire ZoneCommittee.
Open Scope Z_scope.

Definition MIN_JURY_SIZE : nat := 3.
Definition MIN_SCOPED_ELIGIBLE : nat := MIN_JURY_SIZE.
Definition MAINNET_COMMITTEE_SIZE : nat := 7.
Definition SMALL_NETWORK_THRESHOLD : nat := 10.
Definition BOOTSTRAP_FALLBACK_CAP : nat := 64.

Section epoch.
Context `{Externals}.

(** [SHA3(vrf_output || zone || identity)]. *)
Definition vrf_score (vrf_output : list byte) (zone identity : string) : hash :=
  sha3_256 (vrf_output ++ bytes_of zone ++ bytes_of identity).

(** ** The jury *)

Definition jury_size (n : nat) : nat :=
  Nat.min n (Nat.max ((n * 2 + 2) / 3 + 1) MIN_JURY_SIZE).

Definition select_epoch_jury (vrf_output : list byte) (staked : list string) (zone : string)
    : list string :=
  if bool_decide (staked = []) then []
  else if bool_decide (vrf_output = []) then staked
  else
    let n := length staked in
    if bool_decide (n <= SMALL_NETWORK_THRESHOLD)%nat then staked
    else if bool_decide (n <= jury_size n)%nat then staked
    else take (jury_size n) (stable_sort (by_key_leb (vrf_score vrf_output zone) bytes_leb) staked).
Definition is_in_epoch_jury (vrf_output : list byte) (staked : list string) (zone witness : string)
    : bool :=
  if bool_decide (vrf_output = []) || bool_decide (staked = []) then true
  else bool_decide (witness ∈ select_epoch_jury vrf_output staked zone).

Definition select_epoch_jury_scoped (vrf_output : list byte) (staked : list string) (zone : string)
    (subscribers : gset string) : list string :=
  let eligible := filter (fun id => id ∈ subscribers) staked in
  if bool_decide (length eligible < MIN_SCOPED_ELIGIBLE)%nat
  then select_epoch_jury vrf_output staked zone
  else select_epoch_jury vrf_output eligible zone.
Definition is_in_epoch_jury_scoped (vrf_output : list byte) (staked : list string) (zone : string)
    (subscribers : gset string) (witness : string) : bool :=
  if bool_decide (vrf_output = []) || bool_decide (staked = []) then true
  else bool_decide (witness ∈ select_epoch_jury_scoped vrf_output staked zone subscribers).

(** ** The committee *)

(** [u128(score[..16]) / isqrt(stake).max(1)], then the identity. *)
Definition priority (vrf_output : list byte) (zone : string) (e : string * Z) : Z * string :=
  (from_be (take 16 (vrf_score vrf_output zone e.1)) / Z.max (Z.sqrt e.2) 1, e.1).
(** Stake first, largest before smallest, then the identity. *)
Definition richest (e : string * Z) : Z * string := (- e.2, e.1).
Definition top_stakers (staked_weighted : list (string * Z)) : list (string * Z) :=
  take BOOTSTRAP_FALLBACK_CAP (stable_sort (by_key_leb richest rank_leb) staked_weighted).

(** The draw from a pool, common to both variants. *)
Definition draw (vrf_output : list byte) (zone : string) (pool : list (string * Z))
    : list (string * Z) :=
  if bool_decide (length pool <= COMMITTEE_SMALL_NETWORK)%nat then sort_by_id pool
  else sort_by_id (take MAINNET_COMMITTEE_SIZE
         (stable_sort (by_key_leb (priority vrf_output zone) rank_leb) pool)).

Definition select_epoch_committee_scoped (vrf_output : list byte) (staked_weighted : list (string * Z))
    (zone : string) (subscribers : gset string) : list (string * Z) :=
  if bool_decide (staked_weighted = []) then []
  else if bool_decide (vrf_output = []) then staked_weighted
  else
    let eligible := filter (fun e => e.1 ∈ subscribers) staked_weighted in
    let pool :=
      if bool_decide (length eligible < MIN_SCOPED_ELIGIBLE)%nat then
        if bool_decide (length staked_weighted <= BOOTSTRAP_FALLBACK_CAP)%nat then staked_weighted
        else top_stakers staked_weighted
      else eligible in
    draw vrf_output zone pool.
Definition is_in_epoch_committee_scoped (vrf_output : list byte) (staked_weighted : list (string * Z))
    (zone : string) (subscribers : gset string) (witness : string) : bool :=
  if bool_decide (vrf_output = []) || bool_decide (staked_weighted = []) then true
  else bool_decide (witness ∈ (select_epoch_committee_scoped vrf_output staked_weighted zone subscribers).*1).

(** ** The indexed variant *)

Record CommitteeSelectionIndex := mkIndex {
  staked_index : gmap string Z;
  bootstrap_pool : list (string * Z);
}.
(** [collect] into a map: a later entry of the same identity replaces it. *)
Definition index_build (staked_weighted : list (string * Z)) : CommitteeSelectionIndex :=
  mkIndex (fold_left (fun m e => <[e.1 := e.2]> m) staked_weighted ∅) (top_stakers staked_weighted).
Definition staked_count (index : CommitteeSelectionIndex) : nat := size (staked_index index).

(** [subscribers] is the set in the order in which it is walked. *)
Definition select_epoch_committee_scoped_indexed (vrf_output : list byte)
    (index : CommitteeSelectionIndex) (zone : string) (subscribers : list string)
    : list (string * Z) :=
  if bool_decide (staked_index index = ∅) then []
  else if bool_decide (vrf_output = []) then sort_by_id (bootstrap_pool index)
  else
    let eligible := omap (fun id => stake ← staked_index index !! id; Some (id, stake)) subscribers in
    draw vrf_output zone
      (if bool_decide (length eligible < MIN_SCOPED_ELIGIBLE)%nat then bootstrap_pool index else eligible).
Definition is_in_epoch_committee_scoped_indexed (vrf_output : list byte)
    (index : CommitteeSelectionIndex) (zone : string) (subscribers : list string) (witness : string)
    : bool :=
  if bool_decide (vrf_output = []) || bool_decide (staked_index index = ∅) then true
  else bool_decide (witness ∈ (select_epoch_committee_scoped_indexed vrf_output index zone subscribers).*1).

(** ** The variants agree *)

Lemma draw_perm vrf zone l l' : NoDup l.*1 → l ≡ₚ l' → draw vrf zone l = draw vrf zone l'.
Proof.
  intros HN Hp. unfold draw. rewrite (Permutation_length Hp), (sort_by_id_perm l l') by done.
  rewrite (by_key_sort_inj (priority vrf zone) rank_leb rank_leb_total l l'); [done| |done].
  intros [i1 w1] [i2 w2] H1 H2 [= _ <-]. f_equal. eapply NoDup_fst_inj; eassumption.
Qed.

Lemma index_lookup l id stake :
  NoDup l.*1 → staked_index (index_build l) !! id = Some stake ↔ (id, stake) ∈ l.
Proof.
  cbn. intros HN. cut (∀ m : gmap string Z, (∀ k, k ∈ l.*1 → m !! k = None) →
    fold_left (fun m e => <[e.1 := e.2]> m) l m !! id = Some stake ↔ (id, stake) ∈ l ∨ m !! id = Some stake).
  { intros HC. rewrite HC by (intros; apply lookup_empty). rewrite lookup_empty. naive_solver. }
  induction l as [|[k w] l IH]; intros m Hm; cbn [fold_left].
  { split; [by right|]. by intros [?%elem_of_nil|]. }
  csimpl in *. apply NoDup_cons in HN as [Hk HN]. rewrite IH; [|done|].
  - rewrite elem_of_cons, lookup_insert_Some. split.
    + intros [Hin|[[<- <-]|[Hne Hl]]]; [tauto|tauto|tauto].
    + intros [[[= -> ->]|Hin]|Hl]; [right; tauto|by left|]. right. right. split; [|done].
      intros ->. rewrite Hm in Hl; [done|by left].
  - intros k' Hk'. rewrite lookup_insert_ne by (intros ->; done). apply Hm. by right.
Qed.

Lemma top_stakers_all l : (length l <= BOOTSTRAP_FALLBACK_CAP)%nat → top_stakers l ≡ₚ l.
Proof.
  intros Hl. unfold top_stakers. rewrite take_ge by (by rewrite stable_sort_length). apply stable_sort_perm.
Qed.
Lemma top_stakers_NoDup l : NoDup l.*1 → NoDup (top_stakers l).*1.
Proof.
  intros HN. unfold top_stakers. rewrite fmap_take. eapply sublist_NoDup; [|apply sublist_take].
  by rewrite stable_sort_perm.
Qed.

(** The indexed committee draw is the reference draw.  For stakers listed
    once each, and once the epoch has a VRF output, the variant that looks
    subscribers up in the index built once per epoch returns exactly the
    committee of the variant that filters the whole list of stakers, whatever
    the order in which the set of subscribers is walked and the stakers are
    listed; so every node of an epoch draws the same committee. *)
Theorem indexed_draw_agrees vrf staked staked' zone subs walk :
  NoDup staked.*1 → staked' ≡ₚ staked → vrf ≠ [] → NoDup walk → (∀ id, id ∈ walk ↔ id ∈ subs) →
  select_epoch_committee_scoped_indexed vrf (index_build staked') zone walk =
  select_epoch_committee_scoped vrf staked zone subs.
Proof.
  intros HN Hp Hv HW HS. assert (HN' : NoDup staked'.*1) by (by rewrite Hp).
  unfold select_epoch_committee_scoped_indexed, select_epoch_committee_scoped.
  destruct (decide (staked = [])) as [->|Hne].
  { apply Permutation_nil_r in Hp as ->. rewrite !bool_decide_true by done. done. }
  assert (Hidx : staked_index (index_build staked') ≠ ∅).
  { destruct staked as [|[i w] l]; [done|]. intros E.
    assert (Hl : staked_index (index_build staked') !! i = Some w) by (apply index_lookup; [done|]; rewrite Hp; by left).
    by rewrite E, lookup_empty in Hl. }
  rewrite !(bool_decide_false (staked_index _ = ∅)), !(bool_decide_false (staked = [])),
    !(bool_decide_false (vrf = [])) by done. cbv zeta.
  set (el' := omap _ walk). set (el := filter _ staked).
  assert (HE : el' ≡ₚ el).
  { apply NoDup_Permutation.
    - unfold el'. apply (NoDup_fmap_1 fst). clear HS. induction walk as [|i walk IH]; [constructor|].
      apply NoDup_cons in HW as [Hi HW]. cbn [omap list_omap].
      destruct (staked_index (index_build staked') !! i) as [w|]; csimpl; [|by apply IH].
      constructor; [|by apply IH]. intros Hin. apply Hi.
      apply list_elem_of_fmap in Hin as ([j x] & -> & (j' & Hj & Hx)%list_elem_of_omap). cbn in *.
      by destruct (_ !! j'); simplify_eq/=.
    - eapply NoDup_fmap_1, filter_NoDup_fst, HN.
    - intros [i w]. unfold el', el. rewrite list_elem_of_omap, list_elem_of_filter. cbn [fst]. split.
      + intros (j & Hj & Hx). destruct (staked_index (index_build staked') !! j) as [x|] eqn:E; simplify_eq/=.
        apply index_lookup in E; [|done]. rewrite Hp in E. split; [by apply HS|done].
      + intros [Hi Hin]. exists i. split; [by apply HS|].
        assert (E : staked_index (index_build staked') !! i = Some w) by (apply index_lookup; [done|]; by rewrite Hp).
        by rewrite E. }
  rewrite (Permutation_length HE).
  assert (HNe : NoDup el.*1) by (by apply filter_NoDup_fst).
  case_bool_decide; [|by symmetry; apply draw_perm].
  change (bootstrap_pool (index_build staked')) with (top_stakers staked').
  assert (HT : top_stakers staked' = top_stakers staked).
  { unfold top_stakers. f_equal. apply (by_key_sort_inj richest rank_leb rank_leb_total); [|done].
    intros [i1 w1] [i2 w2] _ _ [= ? <-]. f_equal. lia. }
  rewrite HT. case_bool_decide as Hc; [|done]. apply draw_perm; [by apply top_stakers_NoDup|].
  by apply top_stakers_all.
Qed.
End epoch.

Module EpochCommitteeExamples.
#[local] Existing Instance toy_externals.
Definition stakers : list (string * Z) :=
  [("a", 9); ("b", 4); ("c", 1); ("d", 16); ("e", 25); ("f", 4); ("g", 1); ("h", 2); ("i", 3); ("j", 5);
   ("k", 6); ("l", 7)]%string.

Lemma indexed_draw_agrees_witness :
  let subs := ["l"; "a"; "k"; "b"; "j"; "c"; "i"; "d"; "h"; "e"; "g"; "f"]%string in
  length (select_epoch_committee_scoped_indexed [x01] (index_build (reverse stakers)) "z" subs) = 7%nat ∧
  select_epoch_committee_scoped_indexed [x01] (index_build (reverse stakers)) "z" subs =
  select_epoch_committee_scoped [x01] stakers "z" (list_to_set subs).
Proof.
  cbv zeta. split; [by vm_compute|].
  apply (indexed_draw_agrees [x01] stakers (reverse stakers) "z"
    (list_to_set ["l"; "a"; "k"; "b"; "j"; "c"; "i"; "d"; "h"; "e"; "g"; "f"])%string).
  - refine (bool_decide_unpack _ _). by vm_compute.
  - apply reverse_Permutation.
  - done.
  - refine (bool_decide_unpack _ _). by vm_compute.
  - intros id. by rewrite elem_of_list_to_set.
Defined.

(** Before the first VRF output the two variants differ: the reference draw is
    everyone in the order listed, the indexed one the 64 largest by identity. *)
Theorem bootstrap_draws_differ :
  select_epoch_committee_scoped_indexed [] (index_build (reverse stakers)) "z" [] ≠
  select_epoch_committee_scoped [] (reverse stakers) "z" ∅.
Proof. by vm_compute. Qed.
End EpochCommitteeExamples.
