(* ===== verification/Awc.v ===== *)
(** * Settlement

    src/network/consensus.rs, the part of the consensus engine that decides: its
    state, the denominator of a zone with the decay of absent stake, raw and
    diversity-weighted settlement in fixed point, witness clusters, and the
    settlement of seals.  The floating-point mirrors that only feed displays,
    latency histograms and counters for metrics are left out. *)

From S2P Require Import Prelude Sorting F64 CrossZone Records Wire RecordCodec.
Open Scope Z_scope.

(** ** Data *)

Definition CONFIRMED_MIN_WITNESSES : nat := 3.
Definition CONFIRMED_MIN_CLUSTERS : nat := 3.
Definition ATTESTED_MIN_WITNESSES : nat := 1.
Definition TIMING_CLUSTER_THRESHOLD_SECS : f64 := f64_lit 1 2.
Definition MIN_GEO_BUCKETS : Z := 2.
Definition GAMMA_FULL_WITNESSES : Z := 12.
Definition SETTLEMENT_Q : Z := 1000000000.
Definition ALPHA_Q : Z := 500000000.
Definition BETA_Q : Z := 300000000.
Definition GAMMA_Q : Z := 200000000.
Definition UNKNOWN_ASN : Z := 0.

Record WitnessProfile := mkProfile { organization : string; subnet : string; geo_zone : string }.
Record DerivedWitnessGeo := mkGeo { ip_prefix16 : Z * Z; asn : Z }.

Record Attestation := mkAtt {
  att_record_id : string;
  att_witness : string;
  att_stake : Z;
  att_timestamp : f64;
}.
Record SealAttestation := mkSealAtt {
  sa_seal_id : string;
  sa_zone : string;
  sa_epoch : Z;
  sa_witness : string;
  sa_stake : Z;
  sa_timestamp : f64;
}.

Inductive ConfirmationLevel := Pending | Sealed | Finalized | Anchored.
#[global] Instance ConfirmationLevel_eq_dec : EqDecision ConfirmationLevel.
Proof. solve_decision. Defined.
Definition level_as_u8 (l : ConfirmationLevel) : Z :=
  match l with Pending => 0 | Sealed => 1 | Finalized => 2 | Anchored => 3 end.
Definition level_from_u8 (v : Z) : ConfirmationLevel :=
  if v =? 1 then Sealed else if v =? 2 then Finalized else if v =? 3 then Anchored else Pending.
Definition level_name (l : ConfirmationLevel) : string :=
  match l with Pending => "pending" | Sealed => "sealed" | Finalized => "finalized" | Anchored => "anchored" end.
Definition level_from_name (s : string) : ConfirmationLevel :=
  if bool_decide (s = "sealed" ∨ s = "attested")%string then Sealed
  else if bool_decide (s = "finalized" ∨ s = "confirmed")%string then Finalized
  else if bool_decide (s = "anchored")%string then Anchored else Pending.
(** [Finalized] or [Anchored]. *)
Definition is_final (l : option ConfirmationLevel) : bool :=
  match l with Some Finalized | Some Anchored => true | _ => false end.

Record AWCConsensus := mkAwc {
  attestations : gmap string (list Attestation);
  zone_stakes : gmap string Z;
  profiles : gmap string WitnessProfile;
  derived_geo : gmap string DerivedWitnessGeo;
  confirmation_levels : gmap string ConfirmationLevel;
  anchored : gset string;
  seal_attestations : gmap string (list SealAttestation);
  seal_record_ids : gmap string (list string);
  unresolved_seal_members : gmap string string;
  seal_epoch : gmap string (Z * string);
  record_to_seal : gmap string string;
  seal_finalized_at : gmap string f64;
  global_seal_stuck_zone : gmap string string;
  creator_stakes : gmap string Z;
  creator_identity : gmap string string;
  rotation_zone_overrides : gmap string string;
  self_attestations_rejected : Z;
  cross_zone_parents : gmap string (list string);
  committee_stakes : gmap string Z;
  committee_members : gmap string (gset string);
  liveness_decay_enabled : bool;
  liveness_window_epochs : Z;
  liveness_floor_divisor : Z;
  chain_tip_epoch : Z;
  staker_stakes : gmap string Z;
  staker_last_active : gmap string Z;
  finalization_queue : list string;
  newly_sealed_queue : list (string * Z);
}.
Definition eta_AWCConsensus (s : AWCConsensus) := mkAwc (attestations s) (zone_stakes s) (profiles s)
  (derived_geo s) (confirmation_levels s) (anchored s) (seal_attestations s) (seal_record_ids s)
  (unresolved_seal_members s) (seal_epoch s) (record_to_seal s) (seal_finalized_at s)
  (global_seal_stuck_zone s) (creator_stakes s) (creator_identity s) (rotation_zone_overrides s)
  (self_attestations_rejected s) (cross_zone_parents s) (committee_stakes s) (committee_members s)
  (liveness_decay_enabled s) (liveness_window_epochs s) (liveness_floor_divisor s) (chain_tip_epoch s)
  (staker_stakes s) (staker_last_active s) (finalization_queue s) (newly_sealed_queue s).
#[global] Instance set_awc_attestations : Setter attestations.
Proof. derive_setter eta_AWCConsensus. Defined.
#[global] Instance set_awc_zone_stakes : Setter zone_stakes.
Proof. derive_setter eta_AWCConsensus. Defined.
#[global] Instance set_awc_profiles : Setter profiles.
Proof. derive_setter eta_AWCConsensus. Defined.
#[global] Instance set_awc_derived_geo : Setter derived_geo.
Proof. derive_setter eta_AWCConsensus. Defined.
#[global] Instance set_awc_confirmation_levels : Setter confirmation_levels.
Proof. derive_setter eta_AWCConsensus. Defined.
#[global] Instance set_awc_anchored : Setter anchored.
Proof. derive_setter eta_AWCConsensus. Defined.
#[global] Instance set_awc_seal_attestations : Setter seal_attestations.
Proof. derive_setter eta_AWCConsensus. Defined.
#[global] Instance set_awc_seal_record_ids : Setter seal_record_ids.
Proof. derive_setter eta_AWCConsensus. Defined.
#[global] Instance set_awc_unresolved_seal_members : Setter unresolved_seal_members.
Proof. derive_setter eta_AWCConsensus. Defined.
#[global] Instance set_awc_seal_epoch : Setter seal_epoch.
Proof. derive_setter eta_AWCConsensus. Defined.
#[global] Instance set_awc_record_to_seal : Setter record_to_seal.
Proof. derive_setter eta_AWCConsensus. Defined.
#[global] Instance set_awc_seal_finalized_at : Setter seal_finalized_at.
Proof. derive_setter eta_AWCConsensus. Defined.
#[global] Instance set_awc_global_seal_stuck_zone : Setter global_seal_stuck_zone.
Proof. derive_setter eta_AWCConsensus. Defined.
#[global] Instance set_awc_creator_stakes : Setter creator_stakes.
Proof. derive_setter eta_AWCConsensus. Defined.
#[global] Instance set_awc_creator_identity : Setter creator_identity.
Proof. derive_setter eta_AWCConsensus. Defined.
#[global] Instance set_awc_rotation_zone_overrides : Setter rotation_zone_overrides.
Proof. derive_setter eta_AWCConsensus. Defined.
#[global] Instance set_awc_self_attestations_rejected : Setter self_attestations_rejected.
Proof. derive_setter eta_AWCConsensus. Defined.
#[global] Instance set_awc_cross_zone_parents : Setter cross_zone_parents.
Proof. derive_setter eta_AWCConsensus. Defined.
#[global] Instance set_awc_committee_stakes : Setter committee_stakes.
Proof. derive_setter eta_AWCConsensus. Defined.
#[global] Instance set_awc_committee_members : Setter committee_members.
Proof. derive_setter eta_AWCConsensus. Defined.
#[global] Instance set_awc_liveness_decay_enabled : Setter liveness_decay_enabled.
Proof. derive_setter eta_AWCConsensus. Defined.
#[global] Instance set_awc_liveness_window_epochs : Setter liveness_window_epochs.
Proof. derive_setter eta_AWCConsensus. Defined.
#[global] Instance set_awc_liveness_floor_divisor : Setter liveness_floor_divisor.
Proof. derive_setter eta_AWCConsensus. Defined.
#[global] Instance set_awc_chain_tip_epoch : Setter chain_tip_epoch.
Proof. derive_setter eta_AWCConsensus. Defined.
#[global] Instance set_awc_staker_stakes : Setter staker_stakes.
Proof. derive_setter eta_AWCConsensus. Defined.
#[global] Instance set_awc_staker_last_active : Setter staker_last_active.
Proof. derive_setter eta_AWCConsensus. Defined.
#[global] Instance set_awc_finalization_queue : Setter finalization_queue.
Proof. derive_setter eta_AWCConsensus. Defined.
#[global] Instance set_awc_newly_sealed_queue : Setter newly_sealed_queue.
Proof. derive_setter eta_AWCConsensus. Defined.

Definition awc_new : AWCConsensus :=
  mkAwc ∅ ∅ ∅ ∅ ∅ ∅ ∅ ∅ ∅ ∅ ∅ ∅ ∅ ∅ ∅ ∅ 0 ∅ ∅ ∅ false 720 10 0 ∅ ∅ [] [].

(** [u64] and [u128] sums: [Iterator::sum] panics on overflow, [saturating_*]
    stops at the maximum. *)
Fixpoint u64_sum (l : list Z) (acc : Z) : outcome Z :=
  match l with
  | [] => Ok acc
  | x :: l => if acc + x <=? U64.MAX then u64_sum l (acc + x) else Panic
  end.
Definition sat_mul64 (a b : Z) : Z := Z.min U64.MAX (a * b).
Definition sat128 (x : Z) : Z := Z.min U64.U128_MAX x.

(** ** The denominator *)

Definition live_staked (s : AWCConsensus) : outcome Z :=
  let cutoff := Z.max (chain_tip_epoch s - liveness_window_epochs s) 0 in
  u64_sum ((fun kv : string * Z =>
    match staker_last_active s !! kv.1 with
    | Some seen => if cutoff <=? seen then kv.2 else 0
    | None => 0
    end) <$> map_to_list (staker_stakes s)) 0.

Definition settlement_denominator (s : AWCConsensus) (zone : string) : outcome Z :=
  let committee := default 0 (committee_stakes s !! zone) in
  if 0 <? committee then Ok committee
  else
    let base := default 0 (zone_stakes s !! zone) in
    if negb (liveness_decay_enabled s) || (base =? 0) then Ok base
    else
      live ← live_staked s;
      if base <=? live then Ok base
      else
        let fork_safe_floor := sat_mul64 base 3 / 4 + 1 in
        let configured_floor := base / Z.max (liveness_floor_divisor s) 1 in
        let floor := Z.min (Z.max configured_floor fork_safe_floor) base in
        Ok (Z.max live floor).

Definition creator_stake_excluded_from_denominator (s : AWCConsensus) (record_id zone : string) : Z :=
  let creator_stake := default 0 (creator_stakes s !! record_id) in
  if creator_stake =? 0 then 0
  else match committee_members s !! zone with
       | Some members =>
           if bool_decide (members = ∅) then creator_stake
           else match creator_identity s !! record_id with
                | Some cid => if bool_decide (cid ∈ members) then creator_stake else 0
                | None => 0
                end
       | None => creator_stake
       end.

(** ** Correlation and effective stake *)

Definition gamma_effective_scaled_q (witness_count bucket_count : Z) : Z :=
  if bucket_count <? MIN_GEO_BUCKETS then 0
  else if GAMMA_FULL_WITNESSES <=? witness_count then GAMMA_Q
  else if witness_count <=? MIN_GEO_BUCKETS then 0
  else
    let numer := GAMMA_Q * (witness_count - MIN_GEO_BUCKETS) in
    let denom := GAMMA_FULL_WITNESSES - MIN_GEO_BUCKETS in
    (numer + denom / 2) / denom.

(** The bucket of a witness: its declared zone, or the observed ASN. *)
Definition geo_bucket (s : AWCConsensus) (w : string) : option (string + Z) :=
  let by_asn := match derived_geo s !! w with
                | Some g => if asn g =? UNKNOWN_ASN then None else Some (inr (asn g))
                | None => None
                end in
  match profiles s !! w with
  | Some p => if bool_decide (geo_zone p = "")%string then by_asn else Some (inl (geo_zone p))
  | None => by_asn
  end.
Definition bucket_count (s : AWCConsensus) (witness_set : list string) : Z :=
  Z.of_nat (size (list_to_set (omap (geo_bucket s) witness_set) : gset (string + Z))).
Definition gamma_effective_q (s : AWCConsensus) (witness_set : list string) : Z :=
  gamma_effective_scaled_q (Z.of_nat (length witness_set)) (bucket_count s witness_set).

Definition correlation_weighted_q (s : AWCConsensus) (a b : string) (gamma_q : Z) : Z :=
  match profiles s !! a, profiles s !! b with
  | Some pa, Some pb =>
      let geo f := match derived_geo s !! a, derived_geo s !! b with
                   | Some ga, Some gb => f ga gb
                   | _, _ => false
                   end in
      let same_org := bool_decide (organization pa = organization pb) in
      let subnet_self := negb (bool_decide (subnet pa = "")%string) && bool_decide (subnet pa = subnet pb) in
      let subnet_derived := geo (fun ga gb =>
        negb (bool_decide (ip_prefix16 ga = (0, 0))) && bool_decide (ip_prefix16 ga = ip_prefix16 gb)) in
      let zone_self := negb (bool_decide (geo_zone pa = "")%string) && bool_decide (geo_zone pa = geo_zone pb) in
      let zone_derived := geo (fun ga gb => negb (asn ga =? UNKNOWN_ASN) && (asn ga =? asn gb)) in
      (if same_org then ALPHA_Q else 0) + (if subnet_self || subnet_derived then BETA_Q else 0) +
      (if zone_self || zone_derived then gamma_q else 0)
  | _, _ => ALPHA_Q + BETA_Q
  end.

Definition independence_q (s : AWCConsensus) (w : string) (witness_set : list string) (gamma_q : Z) : Z :=
  let corr_sum_q := fold_left (fun acc m =>
    if bool_decide (m = w) then acc else sat128 (acc + correlation_weighted_q s w m gamma_q)) witness_set 0 in
  (SETTLEMENT_Q * SETTLEMENT_Q) / (SETTLEMENT_Q + corr_sum_q).

Definition effective_stake_q (s : AWCConsensus) (witnesses : list (string * Z)) : Z :=
  if bool_decide (witnesses = []) then 0
  else
    let witness_set := witnesses.*1 in
    let gamma_q := gamma_effective_q s witness_set in
    fold_left (fun eff '(w, stake) => sat128 (eff + sat128 (stake * independence_q s w witness_set gamma_q)))
      (stable_sort (by_key_leb fst String.leb) witnesses) 0.

Definition diverse_threshold_met_q (eff_q eligible_stake : Z) : bool :=
  sat128 (sat128 (eligible_stake * 2) * SETTLEMENT_Q) <=? sat128 (eff_q * 3).

(** ** Clusters *)

Section union_find.
Notation Parent := (list nat).

(** [find]: the root, and the array after path compression. *)
Fixpoint find_root (fuel : nat) (parent : Parent) (i : nat) : option nat :=
  match fuel, parent !! i with
  | S fuel, Some p => if decide (p = i) then Some i else find_root fuel parent p
  | _, _ => None
  end.
Fixpoint compress (fuel : nat) (root curr : nat) (parent : Parent) : option Parent :=
  if decide (curr = root) then Some parent
  else match fuel, parent !! curr with
       | S fuel, Some next => compress fuel root next (<[curr := root]> parent)
       | _, _ => None
       end.
Definition find (parent : Parent) (i : nat) : option (nat * Parent) :=
  root ← find_root (length parent) parent i;
  parent ← compress (length parent) root i parent;
  Some (root, parent).
Definition union (parent : Parent) (a b : nat) : option Parent :=
  '(ra, parent) ← find parent a;
  '(rb, parent) ← find parent b;
  Some (if decide (ra = rb) then parent else <[rb := ra]> parent).

(** [for i in 0..n { for j in (i + 1)..n { if link { union } } }]. *)
Definition pairs (n : nat) : list (nat * nat) :=
  i ← seq 0 n; (fun j => (i, j)) <$> seq (S i) (n - S i).
Definition merge_pass (link : nat → nat → bool) (l : list (nat * nat)) (parent : Parent) : option Parent :=
  fold_left (fun o '(i, j) => parent ← o; if link i j then union parent i j else Some parent) l (Some parent).
Fixpoint roots (parent : Parent) (l : list nat) (acc : gset nat) : option (gset nat) :=
  match l with
  | [] => Some acc
  | i :: l => '(r, parent) ← find parent i; roots parent l ({[r]} ∪ acc)
  end.
End union_find.

Definition same_profile (s : AWCConsensus) (a b : Attestation) : bool :=
  match profiles s !! att_witness a, profiles s !! att_witness b with
  | Some pa, Some pb => bool_decide (organization pa = organization pb) && bool_decide (subnet pa = subnet pb)
  | _, _ => false
  end.
Definition same_time (a b : Attestation) : bool :=
  f64_leb (f64_abs (f64_sub (att_timestamp a) (att_timestamp b))) TIMING_CLUSTER_THRESHOLD_SECS.
Definition at_index (f : Attestation → Attestation → bool) (atts : list Attestation) (i j : nat) : bool :=
  match atts !! i, atts !! j with Some a, Some b => f a b | _, _ => false end.

Definition count_distinct_clusters (s : AWCConsensus) (atts : list Attestation) : option nat :=
  let n := length atts in
  parent ← merge_pass (at_index (same_profile s) atts) (pairs n) (seq 0 n);
  parent ← merge_pass (at_index same_time atts) (pairs n) parent;
  rs ← roots parent (seq 0 n) ∅;
  Some (size rs).

(** ** Settlement *)

Section settlement.
Context `{Externals}.
(** The global zone count. *)
Context (zone_count : Z).

Definition settlement_zone_for (s : AWCConsensus) (record_id : string) : string :=
  match rotation_zone_overrides s !! record_id with
  | Some lineage_id => zone_for_record_dynamic lineage_id zone_count
  | None => zone_for_record_dynamic record_id zone_count
  end.

Definition eligible_stake (s : AWCConsensus) (record_id : string) : outcome Z :=
  let zone := settlement_zone_for s record_id in
  total ← settlement_denominator s zone;
  Ok (Z.max (total - creator_stake_excluded_from_denominator s record_id zone) 0).

Definition is_settled (s : AWCConsensus) (record_id : string) : outcome bool :=
  eligible ← eligible_stake s record_id;
  if eligible =? 0 then Ok false
  else
    attesting ← u64_sum (att_stake <$> default [] (attestations s !! record_id)) 0;
    Ok (sat_mul64 eligible 2 <=? sat_mul64 attesting 3).

Definition is_settled_diverse (s : AWCConsensus) (record_id : string) : outcome bool :=
  eligible ← eligible_stake s record_id;
  if eligible =? 0 then Ok false
  else match attestations s !! record_id with
       | None | Some [] => Ok false
       | Some atts =>
           let witnesses := (fun a => (att_witness a, att_stake a)) <$> atts in
           Ok (diverse_threshold_met_q (effective_stake_q s witnesses) eligible)
       end.

(** Equal stakes: how many of the other validators may be offline. *)
Definition self_submit_settlement_fault_tolerance (n_validators : Z) : Z :=
  if n_validators <? 2 then 0
  else
    let non_creator_pool := n_validators - 1 in
    non_creator_pool - (2 * non_creator_pool + 2) / 3.

Definition cross_zone_parents_finalized (s : AWCConsensus) (record_id : string) : bool :=
  match cross_zone_parents s !! record_id with
  | None | Some [] => false
  | Some parents => forallb (fun pid => is_final (confirmation_levels s !! pid)) parents
  end.

(** ** Seals *)

Definition seal_witnesses (atts : list SealAttestation) : list (string * Z) :=
  (fun a => (sa_witness a, sa_stake a)) <$> atts.

Definition is_global_seal_settled (s : AWCConsensus) (seal_id stuck_zone : string) : bool :=
  match seal_attestations s !! seal_id with
  | None | Some [] => false
  | Some atts =>
      let denominator := foldr Z.max 0
        ((filter (fun kv : string * Z => kv.1 ≠ stuck_zone) (map_to_list (zone_stakes s))).*2) in
      let non_stuck := filter (fun a => sa_zone a ≠ stuck_zone) atts in
      if denominator =? 0 then false
      else if bool_decide (non_stuck = []) then false
      else diverse_threshold_met_q (effective_stake_q s (seal_witnesses non_stuck)) denominator
  end.
Definition is_seal_settled (s : AWCConsensus) (seal_id : string) : outcome bool :=
  match global_seal_stuck_zone s !! seal_id with
  | Some stuck_zone => Ok (is_global_seal_settled s seal_id stuck_zone)
  | None =>
      match seal_attestations s !! seal_id with
      | None | Some [] => Ok false
      | Some ((a :: _) as atts) =>
          total ← settlement_denominator s (sa_zone a);
          let eligible := Z.max (total - default 0 (creator_stakes s !! seal_id)) 0 in
          if eligible =? 0 then Ok false
          else Ok (diverse_threshold_met_q (effective_stake_q s (seal_witnesses atts)) eligible)
      end
  end.
Definition attestation_weight_for_seal (s : AWCConsensus) (seal_id : string) : Z :=
  match seal_attestations s !! seal_id with
  | None | Some [] => 0
  | Some atts => Z.min (effective_stake_q s (seal_witnesses atts) / SETTLEMENT_Q) U64.MAX
  end.
Definition layered_confirmation (s : AWCConsensus) (record_id : string) : outcome ConfirmationLevel :=
  match record_to_seal s !! record_id with
  | Some seal_id =>
      settled ← is_seal_settled s seal_id;
      Ok (if (settled : bool) then
            if bool_decide (record_id ∈ anchored s) then Anchored else Finalized
          else Sealed)
  | None => Ok (default Pending (confirmation_levels s !! record_id))
  end.
End settlement.
