(* ===== verification/AwcOps.v ===== *)
(** * The consensus engine

    src/network/consensus.rs, the operations on the state of [Awc]: attestations of
    records and of seals, confirmation levels and their cascade over cross-zone
    parents, creators, committees, stakes, pruning and eviction. *)

From S2P Require Import Prelude Sorting F64 CrossZone Records Wire RecordCodec Awc.
Open Scope Z_scope.

Definition MAX_ATTESTATION_RECORDS : nat := Z.to_nat 50000.
Definition MAX_SEAL_ATTESTATIONS : nat := Z.to_nat 5000.
Definition MAX_FINALIZATION_QUEUE : nat := Z.to_nat 65536.
Definition MAX_SEALED_QUEUE : nat := Z.to_nat 65536.
Definition MAX_UNRESOLVED_SEAL_MEMBERS : nat := Z.to_nat 100000.
Definition CHALLENGE_WINDOW_SECS : f64 := f64_of_Z 86400.

Notation awc := (M AWCConsensus).

Definition or_panic {A} (o : option A) : awc A := match o with Some a => mret a | None => panic end.
Definition ask {A} (f : AWCConsensus → outcome A) : awc A := s ← get; lift (f s).

(** ** Queues and levels *)

Definition enqueue_finalized (record_id : string) : awc unit :=
  modify (fun s => if bool_decide (MAX_FINALIZATION_QUEUE <= length (finalization_queue s))%nat then s
                   else s <| finalization_queue ::= fun q => q ++ [record_id] |>).
Definition drain_newly_finalized : awc (list string) :=
  q ← gets finalization_queue; modify (fun s => s <| finalization_queue := [] |>);; mret q.
Definition enqueue_sealed (record_id : string) (witness_count : Z) : awc unit :=
  modify (fun s => if bool_decide (MAX_SEALED_QUEUE <= length (newly_sealed_queue s))%nat then s
                   else s <| newly_sealed_queue ::= fun q => q ++ [(record_id, witness_count)] |>).
Definition drain_newly_sealed : awc (list (string * Z)) :=
  q ← gets newly_sealed_queue; modify (fun s => s <| newly_sealed_queue := [] |>);; mret q.

Definition put_level (record_id : string) (level : ConfirmationLevel) : awc unit :=
  modify (fun s => s <| confirmation_levels ::= insert record_id level |>).
Definition confirmation_level (s : AWCConsensus) (record_id : string) : ConfirmationLevel :=
  default Pending (confirmation_levels s !! record_id).
Definition sealed_or_higher (l : option ConfirmationLevel) : bool :=
  match l with Some Sealed | Some Finalized | Some Anchored => true | _ => false end.

(** Few organizations, or none registered. *)
Definition small_network (s : AWCConsensus) : bool :=
  bool_decide (profiles s = ∅) ||
  bool_decide (size (list_to_set ((fun kv : string * WitnessProfile => organization kv.2) <$>
                 map_to_list (profiles s)) : gset string) < 3)%nat.

Section ops.
Context `{HE : Externals, HO : StringOrder}.
Context (zone_count : Z).

(** What the attestations of a record amount to. *)
Definition evaluate (record_id : string) (atts : list Attestation) : awc ConfirmationLevel :=
  clusters ← gets (fun s => count_distinct_clusters s atts);
  clusters ← or_panic clusters;
  diverse ← ask (fun s => is_settled_diverse zone_count s record_id);
  raw ← ask (fun s => is_settled zone_count s record_id);
  s ← get;
  let settlement_ok := diverse || (raw && small_network s) in
  let min_clusters := if cross_zone_parents_finalized s record_id then 1%nat else CONFIRMED_MIN_CLUSTERS in
  mret (if bool_decide (CONFIRMED_MIN_WITNESSES <= length atts)%nat &&
           bool_decide (min_clusters <= clusters)%nat && settlement_ok then Finalized
        else if bool_decide (ATTESTED_MIN_WITNESSES <= length atts)%nat then Sealed else Pending).

(** The records that name [record_id] as a cross-zone parent. *)
Definition children_of (record_id : string) (s : AWCConsensus) : list string :=
  (filter (fun kv : string * list string => record_id ∈ kv.2) (walk (cross_zone_parents s))).*1.

(** [fuel] bounds the depth of the recursion. *)
Fixpoint recompute_confirmation (fuel : nat) (record_id : string) (suppress_events : bool) : awc unit :=
  match fuel with
  | O => panic
  | S fuel =>
      s ← get;
      match attestations s !! record_id with
      | None | Some [] => put_level record_id Pending
      | Some atts =>
          if bool_decide (record_id ∈ anchored s) then put_level record_id Anchored
          else
            level ← evaluate record_id atts;
            let old := confirmation_levels s !! record_id in
            put_level record_id level;;
            when (sealed_or_higher (Some level) && negb (sealed_or_higher old) && negb suppress_events)
              (enqueue_sealed record_id (Z.of_nat (length atts)));;
            if is_final (Some level) && negb (is_final old) then
              when (negb suppress_events) (enqueue_finalized record_id);;
              for_each (fun child => recompute_confirmation fuel child suppress_events)
                (children_of record_id s)
            else mret tt
      end
  end.

(** ** Eviction *)

Definition newest (timestamps : list f64) : f64 := fold_left f64_max timestamps f64_0.
(** Fewest attestations first, then the oldest. *)
Definition evict_leb (x y : string * list Attestation) : bool :=
  let key kv := (length kv.2, newest (att_timestamp <$> kv.2)) in
  bool_decide ((key x).1 < (key y).1)%nat ||
  (bool_decide ((key x).1 = (key y).1) && f64_leb (key x).2 (key y).2).
Definition evict_record (rid : string) (s : AWCConsensus) : AWCConsensus :=
  s <| attestations ::= delete rid |> <| confirmation_levels ::= delete rid |>
    <| creator_stakes ::= delete rid |> <| creator_identity ::= delete rid |>
    <| cross_zone_parents ::= delete rid |>.
Definition evict_oldest_attestations (count : nat) (s : AWCConsensus) : AWCConsensus :=
  fold_left (fun s kv => evict_record kv.1 s) (take count (stable_sort evict_leb (walk (attestations s)))) s.

Definition evict_seal (sid : string) (s : AWCConsensus) : AWCConsensus :=
  let members := default [] (seal_record_ids s !! sid) in
  s <| seal_attestations ::= delete sid |> <| seal_record_ids ::= delete sid |>
    <| record_to_seal ::= fun m => fold_left (fun m rid => delete rid m) members m |>
    <| seal_epoch ::= delete sid |> <| seal_finalized_at ::= delete sid |>
    <| global_seal_stuck_zone ::= delete sid |>.
Definition seal_age_leb (x y : string * list SealAttestation) : bool :=
  f64_leb (newest (sa_timestamp <$> x.2)) (newest (sa_timestamp <$> y.2)).
Definition evict_oldest_seal_attestations (count : nat) (s : AWCConsensus) : AWCConsensus :=
  fold_left (fun s kv => evict_seal kv.1 s) (take count (stable_sort seal_age_leb (walk (seal_attestations s)))) s.

(** ** Attestations of records *)

Definition is_creator (record_id witness : string) (s : AWCConsensus) : bool :=
  bool_decide (creator_identity s !! record_id = Some witness).
Definition reject_self (n : Z) (s : AWCConsensus) : AWCConsensus :=
  s <| self_attestations_rejected ::= fun c => U64.sat_add c n |>.
Definition has_witness (w : string) (atts : list Attestation) : bool :=
  bool_decide (w ∈ att_witness <$> atts).
(** [find] the witness and refresh its stake. *)
Definition refresh_stake (w : string) (stake : Z) (atts : list Attestation) : list Attestation :=
  match list_find (fun a => att_witness a = w) atts with
  | Some (i, a) => <[i := mkAtt (att_record_id a) (att_witness a) stake (att_timestamp a)]> atts
  | None => atts
  end.
Definition make_room (s : AWCConsensus) : AWCConsensus :=
  if bool_decide (MAX_ATTESTATION_RECORDS <= size (attestations s))%nat
  then evict_oldest_attestations (MAX_ATTESTATION_RECORDS / 10) s else s.
Definition stamp_active (w : string) (s : AWCConsensus) : AWCConsensus :=
  let seen := default 0 (staker_last_active s !! w) in
  s <| staker_last_active ::= insert w (if seen <? chain_tip_epoch s then chain_tip_epoch s else seen) |>.
Definition push_attestation (a : Attestation) (s : AWCConsensus) : AWCConsensus :=
  s <| attestations ::= insert (att_record_id a) (default [] (attestations s !! att_record_id a) ++ [a]) |>.

Definition add_attestation (fuel : nat) (a : Attestation) : awc unit :=
  modify make_room;;
  s ← get;
  let rid := att_record_id a in
  if is_creator rid (att_witness a) s then modify (reject_self 1)
  else
    let atts := default [] (attestations s !! rid) in
    if has_witness (att_witness a) atts then
      modify (fun s => s <| attestations ::= insert rid (refresh_stake (att_witness a) (att_stake a) atts) |>)
    else
      modify (stamp_active (att_witness a));;
      modify (push_attestation a);;
      recompute_confirmation fuel rid false.

(** One attestation of a bulk load, and the records to recompute. *)
Definition load_attestation (rids : gset string) (a : Attestation) : awc (gset string) :=
  modify make_room;;
  s ← get;
  let rid := att_record_id a in
  if is_creator rid (att_witness a) s then modify (reject_self 1);; mret rids
  else
    let atts := default [] (attestations s !! rid) in
    if has_witness (att_witness a) atts then mret rids
    else
      modify (fun s => s <| staker_last_active ::=
        insert (att_witness a) (default (chain_tip_epoch s) (staker_last_active s !! att_witness a)) |>);;
      modify (push_attestation a);;
      mret ({[rid]} ∪ rids).
Fixpoint load_all (l : list Attestation) (rids : gset string) : awc (gset string) :=
  match l with [] => mret rids | a :: l => rids ← load_attestation rids a; load_all l rids end.
Definition bulk_load_attestations (fuel : nat) (l : list Attestation) : awc Z :=
  rids ← load_all l ∅;
  for_each (fun rid => recompute_confirmation fuel rid true) (walk (gset_to_gmap tt rids)).*1;;
  mret (Z.of_nat (size rids)).

(** ** Creators *)

Definition purge_creator_self_attestations (fuel : nat) (record_id creator : string) : awc unit :=
  s ← get;
  let atts := default [] (attestations s !! record_id) in
  let satts := default [] (seal_attestations s !! record_id) in
  let kept := filter (fun a => att_witness a ≠ creator) atts in
  let skept := filter (fun a => sa_witness a ≠ creator) satts in
  let purged := Z.of_nat (length atts - length kept + (length satts - length skept)) in
  modify (fun s =>
    s <| attestations ::= alter (const kept) record_id |>
      <| seal_attestations ::= alter (const skept) record_id |>);;
  when (0 <? purged)
    (modify (reject_self purged);; recompute_confirmation fuel record_id false).

Definition register_creator_stake (fuel : nat) (record_id creator : string) (stake : Z) : awc unit :=
  known ← gets (fun s => creator_identity s !! record_id);
  modify (fun s => s <| creator_identity ::= insert record_id creator |>
    <| creator_stakes ::= (if 0 <? stake then insert record_id stake else delete record_id) |>);;
  match known with
  | None => purge_creator_self_attestations fuel record_id creator
  | Some _ => mret tt
  end.

(** ** Forced levels *)

Definition anchor_record (record_id : string) (s : AWCConsensus) : AWCConsensus :=
  let s := s <| anchored ::= fun a => {[record_id]} ∪ a |> in
  if is_final (confirmation_levels s !! record_id)
  then s <| confirmation_levels ::= insert record_id Anchored |> else s.
Definition anchor_records (record_ids : list string) (s : AWCConsensus) : AWCConsensus :=
  fold_left (fun s rid => anchor_record rid s) record_ids s.

Definition force_finalized (fuel : nat) (record_id : string) : awc bool :=
  s ← get;
  if is_final (confirmation_levels s !! record_id) then mret false
  else
    put_level record_id Finalized;;
    enqueue_finalized record_id;;
    for_each (fun child => recompute_confirmation fuel child false) (children_of record_id s);;
    mret true.

(** The only caller of [force_finalized] outside the engine: the refeed of
    src/src/network/gossip.rs, after the attestations of a batch were added. *)
Definition force_if_settled (fuel : nat) (record_id : string) : awc bool :=
  settled ← ask (fun s => is_settled zone_count s record_id);
  if settled : bool then force_finalized fuel record_id else mret false.

(** The tracked records that pass [is_settled] and are not final yet. *)
Fixpoint settled_among (s : AWCConsensus) (rids : list string) : outcome (list string) :=
  match rids with
  | [] => Ok []
  | rid :: rids =>
      settled ← is_settled zone_count s rid;
      rest ← settled_among s rids;
      Ok (if (settled : bool) && negb (is_final (confirmation_levels s !! rid)) then rid :: rest else rest)
  end.
Definition force_finalize_settled (fuel : nat) : awc (list string) :=
  rids ← ask (fun s => settled_among s (walk (attestations s)).*1);
  for_each (fun rid => force_finalized fuel rid;; mret tt) rids;;
  mret rids.

(** ** Attestations of seals *)

Fixpoint promote_seal_members (record_ids : list string) : awc (list string) :=
  match record_ids with
  | [] => mret []
  | rid :: record_ids =>
      s ← get;
      if is_final (confirmation_levels s !! rid) then promote_seal_members record_ids
      else
        put_level rid Finalized;;
        enqueue_finalized rid;;
        rest ← promote_seal_members record_ids;
        mret (rid :: rest)
  end.

(** [now] is the local clock. *)
Definition add_seal_attestation (now : f64) (a : SealAttestation) : awc (list string) :=
  modify (fun s => if bool_decide (MAX_SEAL_ATTESTATIONS <= size (seal_attestations s))%nat
                   then evict_oldest_seal_attestations (MAX_SEAL_ATTESTATIONS / 10) s else s);;
  s ← get;
  let sid := sa_seal_id a in
  if is_creator sid (sa_witness a) s then modify (reject_self 1);; mret []
  else
    let atts := default [] (seal_attestations s !! sid) in
    if bool_decide (sa_witness a ∈ sa_witness <$> atts) then mret []
    else
      modify (fun s => s <| seal_attestations ::= insert sid (atts ++ [a]) |>);;
      settled ← ask (fun s => is_seal_settled s sid);
      if (settled : bool) then
        modify (fun s => match seal_finalized_at s !! sid with
                         | Some _ => s
                         | None => s <| seal_finalized_at ::= insert sid now |>
                         end);;
        match seal_record_ids s !! sid with
        | Some record_ids => promote_seal_members record_ids
        | None => mret []
        end
      else mret [].

(** A member is sealed at least, and points to its seal. *)
Definition register_member (seal_id : string) (s : AWCConsensus) (rid : string) : AWCConsensus :=
  let s := if sealed_or_higher (confirmation_levels s !! rid) then s
           else s <| confirmation_levels ::= insert rid Sealed |> in
  s <| record_to_seal ::= insert rid seal_id |>.
Definition register_seal_records (seal_id : string) (record_ids : list string) : awc (list string) :=
  modify (fun s => fold_left (register_member seal_id) record_ids s
                   <| seal_record_ids ::= insert seal_id record_ids |>);;
  settled ← ask (fun s => is_seal_settled s seal_id);
  if (settled : bool) then promote_seal_members record_ids else mret [].

Fixpoint register_unresolved_seal_members (seal_id : string) (hashes : list string) (s : AWCConsensus)
    : AWCConsensus :=
  match hashes with
  | [] => s
  | h :: hashes =>
      if bool_decide (MAX_UNRESOLVED_SEAL_MEMBERS <= size (unresolved_seal_members s))%nat then s
      else register_unresolved_seal_members seal_id hashes
             (s <| unresolved_seal_members ::= insert h seal_id |>)
  end.
Definition resolve_late_seal_member (record_hash record_id : string) : awc (list string) :=
  sid ← gets (fun s => unresolved_seal_members s !! record_hash);
  modify (fun s => s <| unresolved_seal_members ::= delete record_hash |>);;
  match sid with
  | None => mret []
  | Some sid =>
      ids ← gets (fun s => seal_record_ids s !! sid);
      match ids with
      | None => mret []
      | Some ids =>
          modify (fun s => register_member sid s record_id
            <| seal_record_ids ::= insert sid (if bool_decide (record_id ∈ ids) then ids else ids ++ [record_id]) |>);;
          settled ← ask (fun s => is_seal_settled s sid);
          if (settled : bool) then promote_seal_members [record_id] else mret []
      end
  end.

(** The seals whose challenge window has passed. *)
Definition anchor_member (acc : list string * AWCConsensus) (rid : string) : list string * AWCConsensus :=
  if bool_decide (rid ∈ anchored acc.2) then acc
  else (acc.1 ++ [rid], acc.2 <| anchored ::= fun a => {[rid]} ∪ a |>
                              <| confirmation_levels ::= insert rid Anchored |>).
Definition anchor_seal (acc : list string * AWCConsensus) (sid : string) : list string * AWCConsensus :=
  let acc := fold_left anchor_member (default [] (seal_record_ids acc.2 !! sid)) acc in
  (acc.1, acc.2 <| seal_finalized_at ::= delete sid |>).
Definition promote_anchored (now : f64) : awc (nat * list string) :=
  s ← get;
  let seals := (filter (fun kv : string * f64 => f64_geb (f64_sub now kv.2) CHALLENGE_WINDOW_SECS = true)
                  (walk (seal_finalized_at s))).*1 in
  let res := fold_left anchor_seal seals ([], s) in
  modify (const res.2);;
  mret (length seals, res.1).
End ops.

(** ** Registrations *)

Definition register_zone_stake (zone : string) (stake : Z) : awc unit :=
  old ← gets (fun s => default 0 (zone_stakes s !! zone));
  total ← add_u64 old stake;
  modify (fun s => s <| zone_stakes ::= insert zone total |>).
Definition register_profile (w : string) (p : WitnessProfile) (s : AWCConsensus) : AWCConsensus :=
  s <| profiles ::= insert w p |>.
Definition register_derived_geo (w : string) (g : DerivedWitnessGeo) (s : AWCConsensus) : AWCConsensus :=
  s <| derived_geo ::= insert w g |>.
Definition register_cross_zone_parents (rid : string) (parents : list string) (s : AWCConsensus)
    : AWCConsensus :=
  if bool_decide (parents = []) then s else s <| cross_zone_parents ::= insert rid parents |>.
Definition register_epoch_committee (zone : string) (members : list (string * Z)) : awc unit :=
  if bool_decide (members = []) then
    modify (fun s => s <| committee_stakes ::= delete zone |> <| committee_members ::= delete zone |>)
  else
    total ← lift (u64_sum members.*2 0);
    modify (fun s => s <| committee_stakes ::= insert zone total |>
                       <| committee_members ::= insert zone (list_to_set members.*1) |>).
Definition configure_liveness (enabled : bool) (window divisor : Z) (s : AWCConsensus) : AWCConsensus :=
  s <| liveness_decay_enabled := enabled |> <| liveness_window_epochs := Z.max window 1 |>
    <| liveness_floor_divisor := Z.max divisor 1 |>.
Definition note_chain_tip (epoch : Z) (s : AWCConsensus) : AWCConsensus :=
  if chain_tip_epoch s <? epoch then s <| chain_tip_epoch := epoch |> else s.
Definition insert_rotation_zone_override (rid lineage : string) (s : AWCConsensus) : AWCConsensus :=
  s <| rotation_zone_overrides ::= insert rid lineage |>.
Definition register_seal_epoch (sid : string) (epoch : Z) (zone : string) (s : AWCConsensus) : AWCConsensus :=
  match seal_epoch s !! sid with
  | Some _ => s
  | None => s <| seal_epoch ::= insert sid (epoch, zone) |>
  end.
Definition register_global_seal (sid stuck_zone : string) (s : AWCConsensus) : AWCConsensus :=
  s <| global_seal_stuck_zone ::= insert sid stuck_zone |>.

(** ** Pruning *)

Definition keep {A} (P : string → bool) (m : gmap string A) : gmap string A :=
  filter (fun kv => P kv.1 = true) m.
Definition prune_where (is_finalized : string → bool) (s : AWCConsensus) : AWCConsensus :=
  let k {A} := keep (A := A) (fun rid => negb (is_finalized rid)) in
  s <| attestations ::= k |> <| confirmation_levels ::= k |>
    <| anchored ::= filter (fun rid => is_finalized rid = false) |>
    <| creator_stakes ::= k |> <| creator_identity ::= k |>
    <| rotation_zone_overrides ::= k |> <| cross_zone_parents ::= k |>.
Definition forget_record (rid : string) (s : AWCConsensus) : AWCConsensus :=
  let s := s <| attestations ::= delete rid |> <| confirmation_levels ::= delete rid |>
             <| anchored ::= fun a => a ∖ {[rid]} |> <| creator_stakes ::= delete rid |>
             <| creator_identity ::= delete rid |> <| rotation_zone_overrides ::= delete rid |>
             <| cross_zone_parents ::= delete rid |> in
  match record_to_seal s !! rid with
  | Some sid => s <| record_to_seal ::= delete rid |>
                  <| seal_record_ids ::= alter (filter (fun r => r ≠ rid)) sid |>
  | None => s
  end.

(** Drops the seals that fail [P], with the pointers of their members. *)
Definition unlink_members (gone : list (string * list string)) (m : gmap string string) : gmap string string :=
  fold_left (fun m (kv : string * list string) => fold_left (fun m rid => delete rid m) kv.2 m) gone m.
Definition prune_anchored_seals_where (is_anchored : string → bool) (s : AWCConsensus) : AWCConsensus :=
  let k {A} := keep (A := A) (fun sid => negb (is_anchored sid)) in
  let gone := filter (fun kv : string * list string => is_anchored kv.1 = true) (map_to_list (seal_record_ids s)) in
  let s := s <| record_to_seal ::= unlink_members gone |>
             <| seal_attestations ::= k |> <| seal_record_ids ::= k |> <| seal_finalized_at ::= k |>
             <| global_seal_stuck_zone ::= k |> in
  s <| unresolved_seal_members ::= filter (fun kv : string * string => is_Some (seal_record_ids s !! kv.2)) |>.
Definition prune_older_than (cutoff : f64) (s : AWCConsensus) : AWCConsensus :=
  let n := size (attestations s) in
  let s := s <| attestations ::= filter (fun kv : string * list Attestation =>
                  existsb (fun a => f64_geb (att_timestamp a) cutoff) kv.2 = true) |> in
  let live rid := bool_decide (is_Some (attestations s !! rid)) in
  let s := if bool_decide (size (attestations s) < n)%nat
           then s <| confirmation_levels ::= keep live |> <| cross_zone_parents ::= keep live |>
                  <| anchored ::= filter (fun rid => live rid = true) |>
           else s in
  let s := s <| creator_identity ::= keep live |> <| creator_stakes ::= keep live |>
             <| rotation_zone_overrides ::= keep live |> in
  let s := s <| seal_attestations ::= filter (fun kv : string * list SealAttestation =>
                  existsb (fun a => f64_geb (sa_timestamp a) cutoff) kv.2 = true) |> in
  let slive sid := bool_decide (is_Some (seal_attestations s !! sid)) in
  let gone := filter (fun kv : string * list string => slive kv.1 = false) (map_to_list (seal_record_ids s)) in
  let s := s <| record_to_seal ::= unlink_members gone |>
             <| seal_record_ids ::= keep slive |> <| seal_epoch ::= keep slive |>
             <| seal_finalized_at ::= keep slive |> <| global_seal_stuck_zone ::= keep slive |> in
  s <| unresolved_seal_members ::= filter (fun kv : string * string => is_Some (seal_record_ids s !! kv.2)) |>.
