(* ===== verification/AwcSettle.v ===== *)
(** * Settlement: determinism, the two-thirds rule, fork safety *)

From S2P Require Import Prelude Sorting F64 CrossZone Records Wire RecordCodec Awc.
Open Scope Z_scope.

(** ** Sums *)

Lemma u64_sum_spec l acc :
  Forall (fun x => 0 <= x) l → 0 <= acc <= U64.MAX →
  u64_sum l acc = if acc + zsum l <=? U64.MAX then Ok (acc + zsum l) else Panic.
Proof.
  intros Hl. revert acc. induction Hl as [|x l Hx Hl IH]; intros acc Ha; cbn [u64_sum zsum foldr].
  { rewrite Z.add_0_r. by rewrite (proj2 (Z.leb_le _ _)) by lia. }
  pose proof (zsum_nonneg l Hl). fold (zsum l). destruct (Z.leb_spec (acc + x) U64.MAX).
  - rewrite IH by lia. by rewrite <- Z.add_assoc.
  - by rewrite (proj2 (Z.leb_gt _ _)) by lia.
Qed.
Lemma u64_sum_perm l l' :
  Forall (fun x => 0 <= x) l → l ≡ₚ l' → u64_sum l 0 = u64_sum l' 0.
Proof.
  intros Hl Hp. assert (Hl' : Forall (fun x => 0 <= x) l') by (by rewrite <- Hp).
  assert (0 <= 0 <= U64.MAX) by done.
  rewrite !u64_sum_spec by done. by rewrite (zsum_perm l l') by done.
Qed.

Lemma sat128_bounds x : 0 <= x → 0 <= sat128 x <= U64.U128_MAX.
Proof. unfold sat128, U64.U128_MAX. lia. Qed.
Lemma sat128_small x : x <= U64.U128_MAX → sat128 x = x.
Proof. unfold sat128. lia. Qed.

(** A saturating sum of non-negative terms is the saturated sum. *)
Lemma fold_sat {A} (f : A → Z) l acc :
  (∀ x, x ∈ l → 0 <= f x) → 0 <= acc <= U64.U128_MAX →
  fold_left (fun acc x => sat128 (acc + f x)) l acc = sat128 (acc + zsum (f <$> l)).
Proof.
  revert acc. induction l as [|x l IH]; intros acc Hf Ha; cbn [fold_left].
  { csimpl. rewrite Z.add_0_r. symmetry. apply sat128_small. lia. }
  assert (0 <= f x) by (apply Hf; by left).
  assert (0 <= zsum (f <$> l)).
  { apply zsum_nonneg. apply Forall_fmap, Forall_forall. intros y Hy. apply Hf. by right. }
  rewrite IH; [|intros; apply Hf; by right|apply sat128_bounds; lia].
  csimpl. fold (zsum (f <$> l)). unfold sat128. lia.
Qed.

(** ** Effective stake *)

Lemma correlation_nonneg s a b g : 0 <= g → 0 <= correlation_weighted_q s a b g.
Proof.
  intros Hg. unfold correlation_weighted_q, ALPHA_Q, BETA_Q. repeat case_match; lia.
Qed.
Lemma gamma_bounds s ws : 0 <= gamma_effective_q s ws <= GAMMA_Q.
Proof.
  unfold gamma_effective_q, gamma_effective_scaled_q, GAMMA_Q, MIN_GEO_BUCKETS, GAMMA_FULL_WITNESSES.
  set (n := Z.of_nat (length ws)). destruct (bucket_count s ws <? 2); [lia|].
  destruct (Z.leb_spec 12 n); [lia|]. destruct (Z.leb_spec n 2); [lia|]. cbv zeta. clearbody n.
  change (12 - 2) with 10. change (10 / 2) with 5.
  split; [apply Z.div_pos; lia|]. apply Z.div_le_upper_bound; lia.
Qed.
Lemma corr_sum_eq s w ws g :
  0 <= g →
  fold_left (fun acc m => if bool_decide (m = w) then acc else sat128 (acc + correlation_weighted_q s w m g)) ws 0 =
  sat128 (zsum ((fun m => if bool_decide (m = w) then 0 else correlation_weighted_q s w m g) <$> ws)).
Proof.
  intros Hg. set (f := fun m => if bool_decide (m = w) then 0 else correlation_weighted_q s w m g).
  assert (Hf : ∀ m, 0 <= f m) by (intros m; unfold f; case_bool_decide; [lia|by apply correlation_nonneg]).
  transitivity (fold_left (fun acc m => sat128 (acc + f m)) ws 0).
  - assert (HC : ∀ acc, 0 <= acc <= U64.U128_MAX →
      fold_left (fun acc m => if bool_decide (m = w) then acc
        else sat128 (acc + correlation_weighted_q s w m g)) ws acc =
      fold_left (fun acc m => sat128 (acc + f m)) ws acc); [|by apply HC].
    induction ws as [|m ws IH]; intros acc Ha; cbn [fold_left]; [done|]. unfold f at 2. case_bool_decide.
    + rewrite Z.add_0_r, sat128_small by lia. by apply IH.
    + apply IH, sat128_bounds. pose proof (correlation_nonneg s w m g Hg). lia.
  - rewrite fold_sat; [by rewrite Z.add_0_l|by intros; apply Hf|done].
Qed.

Lemma independence_bounds s w ws g : 0 <= g → 0 <= independence_q s w ws g <= SETTLEMENT_Q.
Proof.
  intros Hg. unfold independence_q. rewrite corr_sum_eq by done.
  assert (HS : 0 <= sat128 (zsum ((fun m => if bool_decide (m = w) then 0 else correlation_weighted_q s w m g) <$> ws))).
  { apply sat128_bounds, zsum_nonneg, Forall_fmap, Forall_forall. intros m _. simpl.
    case_bool_decide; [lia|by apply correlation_nonneg]. }
  unfold SETTLEMENT_Q in *. split; [apply Z.div_pos; lia|]. apply Z.div_le_upper_bound; [lia|]. nia.
Qed.
Lemma independence_perm s w ws ws' g : 0 <= g → ws ≡ₚ ws' → independence_q s w ws g = independence_q s w ws' g.
Proof.
  intros Hg Hp. unfold independence_q. rewrite !corr_sum_eq by done. do 3 f_equal.
  apply zsum_perm. by rewrite Hp.
Qed.
Lemma gamma_perm s ws ws' : ws ≡ₚ ws' → gamma_effective_q s ws = gamma_effective_q s ws'.
Proof.
  intros Hp. unfold gamma_effective_q, bucket_count. rewrite (Permutation_length Hp).
  assert (HE : (list_to_set (omap (geo_bucket s) ws) : gset (string + Z)) = list_to_set (omap (geo_bucket s) ws')).
  { apply set_eq. intros x. rewrite !elem_of_list_to_set, !list_elem_of_omap. by setoid_rewrite Hp. }
  by rewrite HE.
Qed.

Definition stakes_nonneg (ws : list (string * Z)) : Prop := Forall (fun w => 0 <= w.2) ws.

(** The effective stake is the saturated sum of the discounted stakes. *)
Lemma effective_sum s ws :
  stakes_nonneg ws →
  effective_stake_q s ws =
  sat128 (zsum ((fun w => sat128 (w.2 * independence_q s w.1 ws.*1 (gamma_effective_q s ws.*1))) <$> ws)).
Proof.
  intros Hn. unfold effective_stake_q. case_bool_decide as E; [by subst|]. cbv zeta.
  set (g := gamma_effective_q s ws.*1). pose proof (gamma_bounds s ws.*1) as Hg.
  set (f := fun w : string * Z => sat128 (w.2 * independence_q s w.1 ws.*1 g)).
  assert (Hf : ∀ w, w ∈ stable_sort (by_key_leb fst String.leb) ws → 0 <= f w).
  { intros w Hw. rewrite stable_sort_perm in Hw. unfold stakes_nonneg in Hn. rewrite Forall_forall in Hn.
    unfold f. apply sat128_bounds. pose proof (independence_bounds s w.1 ws.*1 g (proj1 Hg)).
    pose proof (Hn w Hw). nia. }
  transitivity (fold_left (fun eff w => sat128 (eff + f w)) (stable_sort (by_key_leb fst String.leb) ws) 0).
  { generalize (stable_sort (by_key_leb fst String.leb) ws). intros l. generalize 0.
    induction l as [|[w st] l IH]; intros acc; [done|]. cbn [fold_left]. apply IH. }
  rewrite fold_sat by done. rewrite Z.add_0_l. f_equal. apply zsum_perm. by rewrite stable_sort_perm.
Qed.

Lemma effective_perm s ws ws' :
  stakes_nonneg ws → ws ≡ₚ ws' → effective_stake_q s ws = effective_stake_q s ws'.
Proof.
  intros Hn Hp. assert (Hn' : stakes_nonneg ws') by (unfold stakes_nonneg; by rewrite <- Hp).
  rewrite !effective_sum by done. f_equal.
  assert (Hk : ws.*1 ≡ₚ ws'.*1) by (by rewrite Hp). rewrite (gamma_perm s ws.*1 ws'.*1 Hk).
  set (g := gamma_effective_q s ws'.*1). pose proof (gamma_bounds s ws'.*1) as Hg.
  transitivity (zsum ((fun w => sat128 (w.2 * independence_q s w.1 ws'.*1 g)) <$> ws)).
  - f_equal. apply list_fmap_ext. intros _ w _. do 2 f_equal. apply independence_perm; [apply Hg|done].
  - apply zsum_perm. by rewrite Hp.
Qed.

(** Discounting never adds stake. *)
Lemma effective_le_raw s ws :
  stakes_nonneg ws → effective_stake_q s ws <= zsum ws.*2 * SETTLEMENT_Q.
Proof.
  intros Hn. rewrite effective_sum by done. set (g := gamma_effective_q s ws.*1).
  pose proof (gamma_bounds s ws.*1) as Hg.
  assert (HC : ∀ l, stakes_nonneg l →
    zsum ((fun w => sat128 (w.2 * independence_q s w.1 ws.*1 g)) <$> l) <= zsum l.*2 * SETTLEMENT_Q).
  { induction 1 as [|w l Hw Hl IH]; [done|]. csimpl.
    pose proof (independence_bounds s w.1 ws.*1 g (proj1 Hg)). unfold sat128 in *. nia. }
  etrans; [|by apply HC]. unfold sat128. lia.
Qed.
Lemma effective_nonneg s ws : stakes_nonneg ws → 0 <= effective_stake_q s ws.
Proof.
  intros Hn. rewrite effective_sum by done. apply sat128_bounds, zsum_nonneg, Forall_fmap, Forall_forall.
  intros w Hw. simpl. apply sat128_bounds. unfold stakes_nonneg in Hn. rewrite Forall_forall in Hn.
  pose proof (independence_bounds s w.1 ws.*1 _ (proj1 (gamma_bounds s ws.*1))). pose proof (Hn w Hw). nia.
Qed.

(** ** The verdicts *)

Section verdicts.
Context `{Externals}.
Context (zone_count : Z).

Definition votes (s : AWCConsensus) (rid : string) : list (string * Z) :=
  (fun a => (att_witness a, att_stake a)) <$> default [] (attestations s !! rid).
Definition attesting (s : AWCConsensus) (rid : string) : Z := zsum (votes s rid).*2.

Lemma is_settled_eq s rid :
  is_settled zone_count s rid =
  (eligible ← eligible_stake zone_count s rid;
   if eligible =? 0 then Ok false
   else total ← u64_sum (votes s rid).*2 0; Ok (sat_mul64 eligible 2 <=? sat_mul64 total 3)).
Proof. unfold is_settled, votes. by rewrite <- list_fmap_compose. Qed.
Lemma is_settled_diverse_eq s rid :
  is_settled_diverse zone_count s rid =
  (eligible ← eligible_stake zone_count s rid;
   Ok (if eligible =? 0 then false
       else match votes s rid with [] => false
            | _ => diverse_threshold_met_q (effective_stake_q s (votes s rid)) eligible end)).
Proof.
  unfold is_settled_diverse, votes. destruct (eligible_stake zone_count s rid) as [el|e|]; [|done..].
  cbn [mbind outcome_bind]. destruct (el =? 0); [done|]. by destruct (attestations s !! rid) as [[|a l]|].
Qed.

(** The verdict on a record does not depend on the order of its attestations.
    Two nodes with the same view of stakes, profiles and creators, that have the
    same attestations of a record in different orders, agree on whether it is
    settled, by raw stake and by diversity-weighted stake. *)
Theorem settlement_order_independent s atts rid :
  stakes_nonneg (votes s rid) → default [] (attestations s !! rid) ≡ₚ default [] (atts !! rid) →
  is_settled zone_count (s <| attestations := atts |>) rid = is_settled zone_count s rid ∧
  is_settled_diverse zone_count (s <| attestations := atts |>) rid = is_settled_diverse zone_count s rid.
Proof.
  intros Hn Hp. set (s' := s <| attestations := atts |>).
  assert (Hv : votes s rid ≡ₚ votes s' rid) by (unfold votes; by rewrite Hp).
  assert (HE : eligible_stake zone_count s' rid = eligible_stake zone_count s rid) by done.
  rewrite !is_settled_eq, !is_settled_diverse_eq, HE. split.
  - rewrite (u64_sum_perm (votes s rid).*2 (votes s' rid).*2); [done| |by rewrite Hv].
    unfold stakes_nonneg in Hn. by rewrite Forall_fmap.
  - destruct (eligible_stake zone_count s rid) as [el|e|]; [|done..]. cbn [mbind outcome_bind].
    assert (HF : effective_stake_q s' (votes s' rid) = effective_stake_q s (votes s rid)).
    { symmetry. etrans; [by apply effective_perm|done]. }
    rewrite HF. destruct (votes s rid) as [|v l] eqn:Ev, (votes s' rid) as [|v' l'] eqn:Ev'; try done.
    + by apply Permutation_nil_cons in Hv.
    + symmetry in Hv. by apply Permutation_nil_cons in Hv.
Qed.

Lemma eligible_nonneg s rid el : eligible_stake zone_count s rid = Ok el → 0 <= el.
Proof.
  unfold eligible_stake. destruct (settlement_denominator _ _); [|done..]. intros [= <-]. lia.
Qed.
Lemma diverse_two_thirds s rid el :
  stakes_nonneg (votes s rid) → eligible_stake zone_count s rid = Ok el → el <= U64.MAX →
  is_settled_diverse zone_count s rid = Ok true → 2 * el <= 3 * attesting s rid ∧ 0 < el.
Proof.
  intros Hn He Hel. pose proof (eligible_nonneg s rid el He). rewrite is_settled_diverse_eq, He.
  cbn [mbind outcome_bind]. destruct (Z.eqb_spec el 0); [done|].
  pose proof (effective_le_raw s (votes s rid) Hn) as HR.
  pose proof (effective_nonneg s (votes s rid) Hn) as HP. unfold attesting.
  destruct (votes s rid) as [|v l] eqn:Ev; [done|]. rewrite <- Ev in *. intros [= HT].
  unfold diverse_threshold_met_q in HT. apply Z.leb_le in HT.
  assert (HT' : el * 2 * SETTLEMENT_Q <= effective_stake_q s (votes s rid) * 3).
  { unfold sat128, SETTLEMENT_Q, U64.U128_MAX, U64.MAX in *. lia. }
  split; [|lia]. unfold SETTLEMENT_Q in *. nia.
Qed.

(** Diversity-weighted settlement is the stronger check.  Whenever the
    discounted stake of a record's witnesses reaches two thirds of the eligible
    stake, their raw stake does too, and unless the raw sum overflows (which the
    code answers with a panic) the record is settled by raw stake; the discount
    never turns a minority into a quorum. *)
Theorem diverse_settlement_stronger s rid el :
  stakes_nonneg (votes s rid) → eligible_stake zone_count s rid = Ok el → el <= U64.MAX →
  is_settled_diverse zone_count s rid = Ok true →
  2 * el <= 3 * attesting s rid ∧
  (attesting s rid <= U64.MAX → is_settled zone_count s rid = Ok true).
Proof.
  intros Hn He Hel HD. destruct (diverse_two_thirds s rid el Hn He Hel HD) as [H23 Hpos].
  split; [done|]. intros Hm. rewrite is_settled_eq, He. cbn [mbind outcome_bind].
  destruct (Z.eqb_spec el 0); [lia|]. unfold attesting in *.
  rewrite u64_sum_spec; [|unfold stakes_nonneg in Hn; by rewrite Forall_fmap|done].
  rewrite Z.add_0_l, (proj2 (Z.leb_le _ _) Hm). cbn [mbind outcome_bind]. f_equal.
  apply Z.leb_le. unfold sat_mul64. lia.
Qed.

(** ** Fork safety *)

(** Without a committee the denominator stays above three quarters of the
    zone's stake, and is that stake when decay is off. *)
Lemma denominator_floor s zone d :
  default 0 (committee_stakes s !! zone) <= 0 → settlement_denominator s zone = Ok d →
  let base := default 0 (zone_stakes s !! zone) in
  0 < base → 3 * base <= U64.MAX →
  3 * base < 4 * d ∧ d <= base ∧ (liveness_decay_enabled s = false → d = base).
Proof.
  intros Hc. unfold settlement_denominator. destruct (Z.ltb_spec 0 (default 0 (committee_stakes s !! zone))); [lia|].
  set (base := default 0 (zone_stakes s !! zone)). cbv zeta. intros Hd Hb Hm. revert Hd.
  destruct (liveness_decay_enabled s); cbn [negb orb]; [|intros [= <-]; split_and!; lia || done].
  destruct (Z.eqb_spec base 0); [lia|]. destruct (live_staked s) as [live|e|]; [|done..]. cbn [mbind outcome_bind].
  destruct (Z.leb_spec base live); intros [= <-]; [split_and!; lia || done|]. split_and!; [|lia|done].
  unfold sat_mul64. replace (Z.min U64.MAX (base * 3)) with (base * 3) by lia.
  pose proof (Z.div_mod (base * 3) 4 ltac:(lia)). pose proof (Z.mod_pos_bound (base * 3) 4 ltac:(lia)). lia.
Qed.

Definition settles (s : AWCConsensus) (rid : string) : Prop :=
  is_settled zone_count s rid = Ok true ∨ is_settled_diverse zone_count s rid = Ok true.

(** The stake a zone's quorums are measured against: the committee's when one is
    registered, otherwise the zone's. *)
Definition quorum_base (s : AWCConsensus) (zone : string) : Z :=
  let committee := default 0 (committee_stakes s !! zone) in
  if 0 <? committee then committee else default 0 (zone_stakes s !! zone).
Lemma denominator_base s zone d :
  settlement_denominator s zone = Ok d →
  0 < quorum_base s zone → 3 * quorum_base s zone <= U64.MAX →
  3 * quorum_base s zone < 4 * d ∧ d <= quorum_base s zone ∧
  (liveness_decay_enabled s = false → d = quorum_base s zone).
Proof.
  intros Hd. unfold quorum_base. cbv zeta. destruct (Z.ltb_spec 0 (default 0 (committee_stakes s !! zone))) as [Hc|Hc].
  - unfold settlement_denominator in Hd. rewrite (proj2 (Z.ltb_lt _ _) Hc) in Hd. injection Hd as <-.
    intros. split_and!; [lia|lia|done].
  - by apply denominator_floor.
Qed.

(** The setting of a record: the stake its quorum is measured against, and the
    creator's stake that is taken out of it. *)
Record in_zone (s : AWCConsensus) (rid : string) (base c : Z) : Prop := {
  iz_votes : stakes_nonneg (votes s rid);
  iz_base : quorum_base s (settlement_zone_for zone_count s rid) = base;
  iz_creator : creator_stake_excluded_from_denominator s rid (settlement_zone_for zone_count s rid) = c;
}.

Lemma settles_two_thirds s rid base c :
  in_zone s rid base c → 0 <= c → 0 < base → 3 * base <= U64.MAX → settles s rid →
  ∃ d, 3 * base < 4 * d ∧ (liveness_decay_enabled s = false → d = base) ∧ c < d ∧
       2 * (d - c) <= 3 * attesting s rid.
Proof.
  intros [Hn Hz Hc] Hc0 Hb Hm HS. unfold settles in HS.
  assert (HE : ∃ d, settlement_denominator s (settlement_zone_for zone_count s rid) = Ok d ∧
    eligible_stake zone_count s rid = Ok (Z.max (d - c) 0)).
  { rewrite is_settled_eq, is_settled_diverse_eq in HS. unfold eligible_stake in *. rewrite Hc in *.
    destruct (settlement_denominator _ _) as [d|e|]; [by exists d|by destruct HS..]. }
  destruct HE as (d & Hd & HE). destruct (denominator_base s _ d Hd) as (H1 & H2 & H3); [by subst..|].
  rewrite Hz in *. exists d.
  assert (HT : 2 * Z.max (d - c) 0 <= 3 * attesting s rid ∧ 0 < Z.max (d - c) 0).
  { destruct HS as [HS|HS].
    - rewrite is_settled_eq, HE in HS. cbn [mbind outcome_bind] in HS.
      destruct (Z.eqb_spec (Z.max (d - c) 0) 0); [done|].
      rewrite u64_sum_spec in HS; [|unfold stakes_nonneg in Hn; by rewrite Forall_fmap|done].
      rewrite Z.add_0_l in HS. destruct (zsum _ <=? _); [|done]. cbn [mbind outcome_bind] in HS.
      injection HS as HS. apply Z.leb_le in HS. unfold sat_mul64, attesting in *. lia.
    - apply diverse_two_thirds with (el := Z.max (d - c) 0) in HS; [done|done|done|lia]. }
  split_and!; [done|done|lia|lia].
Qed.

(** C10: two disjoint halves of the network never both settle.  Take two nodes'
    views of a zone and two records of one creator, measured against the same
    stake: the registered committee's, or the zone's when there is no committee.
    If the stakes of the witnesses that attested the two records, committee
    members or not, together do not exceed that stake less the creator's, and
    three times the stake fits 64 bits, and the creator has no stake or the decay
    of absent stake is off in both views, then the records are not both settled,
    neither by raw nor by diversity-weighted stake; with decay on, each view may
    have lost sight of any set of stakers.  The bound on the attesting stake holds
    for disjoint witnesses of a zone without a committee; witnesses outside a
    committee are counted on top of it ([committee_double_settlement]). *)
Theorem disjoint_quorums_exclude s1 s2 r1 r2 base c :
  in_zone s1 r1 base c → in_zone s2 r2 base c → 0 <= c < base → 3 * base <= U64.MAX →
  attesting s1 r1 + attesting s2 r2 <= base - c →
  c = 0 ∨ (liveness_decay_enabled s1 = false ∧ liveness_decay_enabled s2 = false) →
  ¬ (settles s1 r1 ∧ settles s2 r2).
Proof.
  intros H1 H2 Hc Hm Hsum Hcase [HS1 HS2].
  destruct (settles_two_thirds s1 r1 base c H1) as (d1 & A1 & B1 & _ & D1); [lia..|done|].
  destruct (settles_two_thirds s2 r2 base c H2) as (d2 & A2 & B2 & _ & D2); [lia..|done|].
  destruct Hcase as [->|[E1 E2]]; [lia|]. rewrite (B1 E1) in D1. rewrite (B2 E2) in D2. lia.
Qed.
End verdicts.

(** ** Examples *)

Module SettleExamples.
#[export] Existing Instance toy_externals.

(** A zone of 1000, split between two witnesses of 498 and a creator of 4. *)
Definition zone_of_1000 (decay : bool) (creator_stake : Z) (rid witness : string) : AWCConsensus :=
  awc_new <| zone_stakes := {[ "0" := 1000 ]} |>
          <| liveness_decay_enabled := decay |>
          <| staker_stakes := {[ "alice" := 498; "bob" := 498; "carol" := 4 ]} |>
          <| staker_last_active := {[ witness := 5 ]} |>
          <| creator_identity := {[ rid := "carol" ]} |>
          <| creator_stakes := {[ rid := creator_stake ]} |>
          <| attestations := {[ rid := [mkAtt rid witness 498 f64_0] ]} |>.

(** Decay and the exclusion of the creator's stake together break the fork
    guard.  The floor of three quarters is taken before the creator's stake is
    subtracted, so with a staked creator the quorum falls to half of what is
    left: two halves of the network that share no witness settle two records of
    the same creator. *)
Theorem decay_double_settlement :
  let s1 := zone_of_1000 true 4 "r1" "alice" in
  let s2 := zone_of_1000 true 4 "r2" "bob" in
  in_zone 1 s1 "r1" 1000 4 ∧ in_zone 1 s2 "r2" 1000 4 ∧
  attesting s1 "r1" + attesting s2 "r2" <= 1000 - 4 ∧ settles 1 s1 "r1" ∧ settles 1 s2 "r2".
Proof.
  cbv zeta. split_and!; [split|split|by vm_compute|left|left]; try by vm_compute.
  all: apply Forall_forall; intros w Hw; vm_compute in Hw; apply list_elem_of_singleton in Hw as ->; done.
Qed.

(** A small committee breaks the guard.  Attestations of witnesses outside the
    committee count in full, so two disjoint halves of the zone settle two records
    against the committee's stake, while their stakes together are within the
    zone's. *)
Definition small_committee (rid witness : string) : AWCConsensus :=
  zone_of_1000 false 0 rid witness <| committee_stakes := {[ "0" := 4 ]} |>
    <| committee_members := {[ "0" := {[ "carol" ]} ]} |>.
Theorem committee_double_settlement :
  let s1 := small_committee "r1" "alice" in
  let s2 := small_committee "r2" "bob" in
  attesting s1 "r1" + attesting s2 "r2" <= default 0 (zone_stakes s1 !! "0") ∧
  is_settled 1 s1 "r1" = Ok true ∧ is_settled 1 s2 "r2" = Ok true.
Proof. by vm_compute. Qed.

Lemma alone_in_zone decay rid w :
  (rid = "r1" ∧ w = "alice") ∨ (rid = "r2" ∧ w = "bob") → in_zone 1 (zone_of_1000 decay 0 rid w) rid 1000 0.
Proof.
  intros [[-> ->]|[-> ->]]; (split; [|by vm_compute..]);
    apply Forall_forall; intros v Hv; vm_compute in Hv; apply list_elem_of_singleton in Hv as ->; done.
Qed.
Lemma disjoint_quorums_exclude_witness :
  ¬ (settles 1 (zone_of_1000 true 0 "r1" "alice") "r1" ∧ settles 1 (zone_of_1000 true 0 "r2" "bob") "r2").
Proof.
  apply (disjoint_quorums_exclude 1 _ _ "r1" "r2" 1000 0).
  - apply alone_in_zone. by left.
  - apply alone_in_zone. by right.
  - lia.
  - unfold U64.MAX. lia.
  - by vm_compute.
  - by left.
Defined.

(** Three witnesses of three organizations, in two orders. *)
Definition three (l : list Attestation) : AWCConsensus :=
  awc_new <| zone_stakes := {[ "0" := 30 ]} |>
    <| profiles := {[ "a" := mkProfile "x" "1" "eu"; "b" := mkProfile "y" "2" "us"; "c" := mkProfile "z" "3" "as" ]} |>
    <| attestations := {[ "r" := l ]} |>.
Definition atts : list Attestation := (fun w => mkAtt "r" w 10 f64_0) <$> ["a"; "b"; "c"].

Lemma three_votes : stakes_nonneg (votes (three atts) "r").
Proof. unfold stakes_nonneg. vm_compute. repeat constructor; done. Qed.
Lemma settlement_order_independent_witness :
  is_settled_diverse 1 (three (reverse atts)) "r" = is_settled_diverse 1 (three atts) "r".
Proof.
  apply (settlement_order_independent 1 (three atts) {[ "r" := reverse atts ]} "r" three_votes).
  change (atts ≡ₚ reverse atts). symmetry. apply reverse_Permutation.
Defined.
Lemma diverse_settlement_stronger_witness : is_settled 1 (three atts) "r" = Ok true.
Proof.
  apply (diverse_settlement_stronger 1 (three atts) "r" 30 three_votes); by vm_compute.
Defined.
End SettleExamples.
