(* ===== verification/AwcCluster.v ===== *)
(** * Witness clusters: the union-find computes connected components *)

From stdpp Require Import relations.
From S2P Require Import Prelude Sorting F64 CrossZone Records Wire RecordCodec Awc.

Open Scope nat_scope.

Notation Parent := (list nat).

(** ** Forests *)

(** From [i] the root [r] is [k] steps away. *)
Inductive path (p : Parent) : nat → nat → nat → Prop :=
  | path_root r : p !! r = Some r → path p r 0 r
  | path_step i j k r : p !! i = Some j → i ≠ j → path p j k r → path p i (S k) r.
Definition root_of (p : Parent) (i r : nat) : Prop := ∃ k, path p i k r.

Lemma path_unique p i k r k' r' : path p i k r → path p i k' r' → k = k' ∧ r = r'.
Proof.
  intros H. revert k'. induction H as [r H|i j k r Hi Hne H IH]; intros k' H'; inversion H'; simplify_eq; try done.
  destruct (IH k0); [done|]. by subst.
Qed.
Lemma path_end p i k r : path p i k r → p !! r = Some r.
Proof. by induction 1. Qed.
Lemma path_start p i k r : path p i k r → i < length p.
Proof. intros H. apply lookup_lt_is_Some. by inversion H; eexists. Qed.
Lemma root_unique p i r r' : root_of p i r → root_of p i r' → r = r'.
Proof. intros [k H] [k' H']. by destruct (path_unique p i k r k' r' H H'). Qed.

(** The nodes of a path are all different, so a path is shorter than the array. *)
Lemma path_nodes p i k r :
  path p i k r → ∃ l, length l = S k ∧ NoDup l ∧ ∀ x, x ∈ l → ∃ m, m <= k ∧ path p x m r.
Proof.
  induction 1 as [r H|i j k r Hi Hne H (l & Hl & HN & Hx)].
  - exists [r]. split_and!; [done|apply NoDup_singleton|]. intros x ->%list_elem_of_singleton.
    exists 0. split; [done|by constructor].
  - exists (i :: l). assert (HP : path p i (S k) r) by (by econstructor).
    split_and!; [by rewrite <- Hl| |].
    + constructor; [|done]. intros Hin. destruct (Hx i Hin) as (m & Hm & Hp).
      destruct (path_unique p i m r (S k) r Hp HP). lia.
    + intros x [->|Hin]%elem_of_cons; [by exists (S k)|]. destruct (Hx x Hin) as (m & ? & ?). exists m. split; [lia|done].
Qed.
Lemma path_short p i k r : path p i k r → k < length p.
Proof.
  intros H. destruct (path_nodes p i k r H) as (l & Hl & HN & Hx). rewrite <- Nat.le_succ_l, <- Hl.
  rewrite <- (length_seq (length p) 0). apply submseteq_length, NoDup_submseteq; [done|].
  intros x (m & _ & Hp)%Hx. apply elem_of_seq. pose proof (path_start p x m r Hp). lia.
Qed.

Lemma find_root_path p i k r fuel : path p i k r → k < fuel → find_root fuel p i = Some r.
Proof.
  intros H. revert fuel. induction H as [r H|i j k r Hi Hne H IH]; intros [|fuel] Hf; [lia| |lia|]; simpl.
  - rewrite H. by rewrite decide_True.
  - rewrite Hi, decide_False by done. apply IH. lia.
Qed.

(** ** Path compression *)

Lemma shortcut p c m root :
  path p c (S m) root →
  ∀ i k r, path p i k r → ∃ k', k' <= k ∧ path (<[c := root]> p) i k' r.
Proof.
  intros Hc. inversion Hc as [|? cj ? ? Hcj Hne Hrest]; subst.
  assert (Hlen : c < length p) by (by eapply path_start).
  assert (Hroot : p !! root = Some root) by (by eapply path_end).
  assert (Hcr : c ≠ root) by (intros ->; rewrite Hroot in Hcj; by simplify_eq).
  assert (Hroot' : path (<[c := root]> p) root 0 root) by (constructor; by rewrite list_lookup_insert_ne).
  induction 1 as [r H|i j k r Hi Hij H IH].
  - exists 0. split; [done|]. constructor. rewrite list_lookup_insert_ne; [done|]. intros ->.
    rewrite H in Hcj. by simplify_eq.
  - destruct (decide (i = c)) as [->|Hic].
    + exists 1. split; [lia|]. assert (HP : path p c (S k) r) by (by econstructor).
      destruct (path_unique p c _ _ _ _ Hc HP) as [_ <-].
      econstructor; [by apply list_lookup_insert_eq|done|done].
    + destruct IH as (k' & Hk & HP). exists (S k'). split; [lia|].
      econstructor; [by rewrite list_lookup_insert_ne|done|done].
Qed.

(** Same roots for every node. *)
Definition same_roots (p p' : Parent) : Prop := length p' = length p ∧ ∀ i r, root_of p i r → root_of p' i r.
Lemma same_roots_refl p : same_roots p p.
Proof. done. Qed.
Lemma same_roots_trans p p' p'' : same_roots p p' → same_roots p' p'' → same_roots p p''.
Proof. intros [L R] [L' R']. split; [congruence|auto]. Qed.

Lemma compress_ok fuel root curr p k :
  path p curr k root → k <= fuel → ∃ p', compress fuel root curr p = Some p' ∧ same_roots p p'.
Proof.
  revert curr p k. induction fuel as [|fuel IH]; intros curr p k H Hk; simpl.
  - assert (k = 0) as -> by lia. inversion H; subst. rewrite decide_True by done. by exists p.
  - destruct (decide (curr = root)) as [->|Hne]; [by exists p|].
    inversion H as [|? j k0 ? Hj Hcj Hrest]; subst; [done|]. rewrite Hj.
    destruct (shortcut p curr k0 root H j k0 root Hrest) as (k' & Hk' & HP).
    destruct (IH j (<[curr := root]> p) k' HP ltac:(lia)) as (p' & HC & HS).
    exists p'. split; [done|]. eapply same_roots_trans; [|exact HS]. split; [apply length_insert|].
    intros i r [m Hm]. destruct (shortcut p curr k0 root H i m r Hm) as (m' & _ & ?). by exists m'.
Qed.
Lemma find_ok p i r : root_of p i r → ∃ p', find p i = Some (r, p') ∧ same_roots p p'.
Proof.
  intros [k H]. pose proof (path_short p i k r H). unfold find.
  rewrite (find_root_path p i k r) by done. simpl.
  destruct (compress_ok (length p) r i p k H ltac:(lia)) as (p' & -> & HS). by exists p'.
Qed.

(** ** Merging *)

Lemma link_roots p ra rb :
  p !! ra = Some ra → p !! rb = Some rb → ra ≠ rb →
  ∀ i r, root_of p i r → root_of (<[rb := ra]> p) i (if decide (r = rb) then ra else r).
Proof.
  intros Ha Hb Hne i r [k H]. assert (rb < length p) by (apply lookup_lt_is_Some; by eexists).
  induction H as [r H|i j k r Hi Hij H IH].
  - destruct (decide (r = rb)) as [->|Hr].
    + exists 1. econstructor; [by apply list_lookup_insert_eq|congruence|]. constructor. by rewrite list_lookup_insert_ne.
    + exists 0. constructor. by rewrite list_lookup_insert_ne.
  - destruct IH as [k' IH]. exists (S k'). econstructor; [|exact Hij|exact IH].
    rewrite list_lookup_insert_ne; [done|]. intros ->. rewrite Hi in Hb. by simplify_eq.
Qed.

Definition connected (l : list (nat * nat)) : relation nat := rtsc (fun i j => (i, j) ∈ l).

(** One more link joins the components of its ends. *)
Lemma connected_cons a b l i j :
  connected ((a, b) :: l) i j ↔
  connected l i j ∨ (connected l i a ∧ connected l b j) ∨ (connected l i b ∧ connected l a j).
Proof.
  unfold connected. split.
  - assert (HS : ∀ x y, sc (fun i j => (i, j) ∈ (a, b) :: l) x y →
      sc (fun i j => (i, j) ∈ l) x y ∨ (x = a ∧ y = b) ∨ (x = b ∧ y = a)).
    { intros x y [H|H]; apply elem_of_cons in H as [[= -> ->]|H]; auto; left; [by left|by right]. }
    induction 1 as [x|x y z Hxy _ IH]; [left; apply rtc_refl|]. destruct (HS x y Hxy) as [Hl|[[-> ->]|[-> ->]]].
    + assert (Hx : rtsc (fun i j => (i, j) ∈ l) x y) by (by apply rtc_once).
      destruct IH as [IH|[[H1 H2]|[H1 H2]]].
      * left. by etrans.
      * right; left. split; [by etrans|done].
      * right; right. split; [by etrans|done].
    + destruct IH as [IH|[[H1 H2]|[H1 H2]]].
      * right; left. split; [done|done].
      * right; left. split; [done|done].
      * left. done.
    + destruct IH as [IH|[[H1 H2]|[H1 H2]]].
      * right; right. split; [done|done].
      * left. done.
      * right; right. split; [done|done].
  - assert (Hsub : ∀ x y, rtsc (fun i j => (i, j) ∈ l) x y → rtsc (fun i j => (i, j) ∈ (a, b) :: l) x y).
    { induction 1 as [|x y z [H|H] _ IH]; [done|..]; (etrans; [apply rtc_once|exact IH]).
      - left. by right.
      - right. by right. }
    assert (Hab : rtsc (fun i j => (i, j) ∈ (a, b) :: l) a b) by (apply rtc_once; left; by left).
    assert (Hba : rtsc (fun i j => (i, j) ∈ (a, b) :: l) b a) by (apply rtc_once; right; by left).
    intros [H|[[H1 H2]|[H1 H2]]]; [by apply Hsub|..].
    + etrans; [by apply Hsub|]. etrans; [exact Hab|by apply Hsub].
    + etrans; [by apply Hsub|]. etrans; [exact Hba|by apply Hsub].
Qed.

(** The array stands for the components of the links made so far. *)
Record stands_for (n : nat) (l : list (nat * nat)) (p : Parent) : Prop := {
  sf_len : length p = n;
  sf_total : ∀ i, i < n → ∃ r, root_of p i r ∧ r < n;
  sf_same : ∀ i j r r', i < n → j < n → root_of p i r → root_of p j r' → r = r' ↔ connected l i j;
}.

Lemma same_roots_iff n l p p' i r :
  stands_for n l p → same_roots p p' → i < n → root_of p' i r ↔ root_of p i r.
Proof.
  intros [_ HT _] [_ HR] Hi. split; [|apply HR]. intros H. destruct (HT i Hi) as (r0 & H0 & _).
  by rewrite (root_unique p' i r r0 H (HR i r0 H0)).
Qed.
Lemma stands_same n l p p' : stands_for n l p → same_roots p p' → stands_for n l p'.
Proof.
  intros HS Hp. pose proof HS as [HL HT HE]. constructor; [by rewrite (proj1 Hp)| |].
  - intros i Hi. destruct (HT i Hi) as (r & Hr & Hn). exists r. split; [by apply (proj2 Hp)|done].
  - intros i j r r' Hi Hj. rewrite (same_roots_iff n l p p' i r), (same_roots_iff n l p p' j r') by done. by apply HE.
Qed.
Lemma stands_root n l p i r : stands_for n l p → i < n → root_of p i r → r < n ∧ p !! r = Some r.
Proof.
  intros [_ HT _] Hi Hr. destruct (HT i Hi) as (r0 & H0 & Hn). rewrite (root_unique p i r r0 Hr H0).
  split; [done|]. destruct H0 as [k H0]. by eapply path_end.
Qed.

(** Redirecting the root [rb] to [ra] identifies exactly their two classes. *)
Lemma link_classes (ra rb x y : nat) :
  ra ≠ rb →
  (if decide (x = rb) then ra else x) = (if decide (y = rb) then ra else y) ↔
  x = y ∨ (x = ra ∧ rb = y) ∨ (x = rb ∧ ra = y).
Proof. intros Hne. repeat case_decide; lia. Qed.

Lemma union_ok n l p a b :
  stands_for n l p → a < n → b < n → ∃ p', union p a b = Some p' ∧ stands_for n ((a, b) :: l) p'.
Proof.
  intros HS Ha Hb. destruct (sf_total n l p HS a Ha) as (ra & Hra & _).
  destruct (find_ok p a ra Hra) as (p1 & F1 & S1). pose proof (stands_same n l p p1 HS S1) as HS1.
  destruct (sf_total n l p1 HS1 b Hb) as (rb & Hrb & _).
  destruct (find_ok p1 b rb Hrb) as (p2 & F2 & S2). pose proof (stands_same n l p1 p2 HS1 S2) as HS2.
  unfold union. rewrite F1. simpl. rewrite F2. simpl.
  assert (Hra2 : root_of p2 a ra) by (by apply S2, S1). assert (Hrb2 : root_of p2 b rb) by (by apply S2).
  eexists. split; [done|]. destruct (decide (ra = rb)) as [E|Hne].
  - assert (Hab : connected l a b) by (by eapply (sf_same n l p2 HS2 a b ra rb)).
    assert (Hba : connected l b a) by (by eapply (sf_same n l p2 HS2 b a rb ra)).
    constructor; [apply HS2|apply HS2|]. intros i j r r' Hi Hj Hr Hr'. rewrite connected_cons.
    rewrite (sf_same n l p2 HS2 i j r r') by done. split; [by left|].
    intros [H|[[H1 H2]|[H1 H2]]]; [done|by repeat (etrans; [eassumption|])..].
  - destruct (stands_root n l p2 a ra HS2 Ha Hra2) as [Hran Hraa], (stands_root n l p2 b rb HS2 Hb Hrb2) as [Hrbn Hrbb].
    pose proof (link_roots p2 ra rb Hraa Hrbb Hne) as HL.
    assert (HT : ∀ i, i < n → ∃ r, root_of p2 i r ∧ r < n) by apply HS2.
    constructor; [by rewrite length_insert, (sf_len n l p2 HS2)| |].
    + intros i Hi. destruct (HT i Hi) as (r & Hr & Hn). eexists. split; [by apply HL|]. by destruct (decide (r = rb)).
    + intros i j r r' Hi Hj Hr Hr'. destruct (HT i Hi) as (x & Hx & _), (HT j Hj) as (y & Hy & _).
      rewrite (root_unique _ i r _ Hr (HL i x Hx)), (root_unique _ j r' _ Hr' (HL j y Hy)), connected_cons.
      rewrite <- (sf_same n l p2 HS2 i j x y), <- (sf_same n l p2 HS2 i a x ra), <- (sf_same n l p2 HS2 b j rb y),
        <- (sf_same n l p2 HS2 i b x rb), <- (sf_same n l p2 HS2 a j ra y) by done.
      apply link_classes, Hne.
Qed.

Lemma stands_init n : stands_for n [] (seq 0 n).
Proof.
  assert (HR : ∀ i, i < n → root_of (seq 0 n) i i).
  { intros i Hi. exists 0. constructor. by rewrite lookup_seq_lt by lia. }
  constructor; [apply length_seq|by eauto|]. intros i j r r' Hi Hj Hr Hr'.
  rewrite (root_unique _ i r i Hr (HR i Hi)), (root_unique _ j r' j Hr' (HR j Hj)).
  split; [intros ->; apply rtc_refl|]. induction 1 as [|x y z [Hx|Hx] _ IH]; [done|by apply elem_of_nil in Hx..].
Qed.

Lemma pairs_bounds n i j : (i, j) ∈ pairs n ↔ i < j < n.
Proof.
  unfold pairs. rewrite list_elem_of_bind. setoid_rewrite elem_of_seq. split.
  - intros (x & Hin & Hx). apply list_elem_of_fmap in Hin as (y & [= -> ->] & Hy%elem_of_seq). lia.
  - intros Hij. exists i. split; [|lia]. apply list_elem_of_fmap. exists j. split; [done|]. apply elem_of_seq. lia.
Qed.

(** A pass adds exactly its links. *)
Lemma merge_pass_ok n link l done_ p :
  stands_for n done_ p → (∀ i j, (i, j) ∈ l → i < n ∧ j < n) →
  ∃ p' links, merge_pass link l p = Some p' ∧ stands_for n links p' ∧
    ∀ i j, (i, j) ∈ links ↔ (i, j) ∈ done_ ∨ ((i, j) ∈ l ∧ link i j = true).
Proof.
  revert done_ p. induction l as [|[a b] l IH]; intros done_ p HS Hl.
  { exists p, done_. split_and!; [done|done|]. intros i j. rewrite elem_of_nil. tauto. }
  destruct (Hl a b (list_elem_of_here _ _)) as [Ha Hb].
  assert (Hl' : ∀ i j, (i, j) ∈ l → i < n ∧ j < n) by (intros i j Hij; apply Hl; by right).
  unfold merge_pass. cbn [fold_left]. fold (merge_pass link l). simpl.
  destruct (link a b) eqn:E.
  - destruct (union_ok n done_ p a b HS Ha Hb) as (p1 & HU & HS1). rewrite HU.
    destruct (IH ((a, b) :: done_) p1 HS1 Hl') as (p' & links & HM & HS' & HL). exists p', links.
    split_and!; [done|done|]. intros i j. rewrite HL, !elem_of_cons. split.
    + intros [[[= -> ->]|H]|[H1 H2]]; auto.
    + intros [H|[[[= -> ->]|H1] H2]]; auto.
  - destruct (IH done_ p HS Hl') as (p' & links & HM & HS' & HL). exists p', links.
    split_and!; [done|done|]. intros i j. rewrite HL, elem_of_cons. split.
    + intros [H|[H1 H2]]; auto.
    + intros [H|[[[= -> ->]|H1] H2]]; [auto|congruence|auto].
Qed.

Lemma roots_ok n links p label idx acc :
  stands_for n links p → (∀ i, i ∈ idx → i < n) → (∀ i, i < n → root_of p i (label i)) →
  roots p idx acc = Some (list_to_set (label <$> idx) ∪ acc).
Proof.
  revert p acc. induction idx as [|i idx IH]; intros p acc HS Hi HL; cbn [roots]; [f_equal; set_solver|].
  assert (Hin : i < n) by (apply Hi; by left).
  destruct (find_ok p i (label i) (HL i Hin)) as (p' & -> & HR). simpl.
  rewrite (IH p'); [f_equal; csimpl; set_solver|by eapply stands_same| |].
  - intros j Hj. apply Hi. by right.
  - intros j Hj. apply HR, HL, Hj.
Qed.

(** ** The count *)

(** Two attestations are linked when their witnesses declare the same
    organization and subnet, or when they came within half a second. *)
Definition linked (s : AWCConsensus) (atts : list Attestation) (i j : nat) : Prop :=
  i < j < length atts ∧
  (at_index (same_profile s) atts i j = true ∨ at_index same_time atts i j = true).

Lemma cluster_labels s atts :
  ∃ label : nat → nat,
    (∀ i j, i < length atts → j < length atts → label i = label j ↔ rtsc (linked s atts) i j) ∧
    count_distinct_clusters s atts =
      Some (size (list_to_set (label <$> seq 0 (length atts)) : gset nat)).
Proof.
  set (n := length atts). unfold count_distinct_clusters. fold n.
  assert (HB : ∀ i j, (i, j) ∈ pairs n → i < n ∧ j < n) by (intros i j Hij%pairs_bounds; lia).
  destruct (merge_pass_ok n (at_index (same_profile s) atts) (pairs n) [] _ (stands_init n) HB)
    as (p1 & l1 & M1 & S1 & L1).
  destruct (merge_pass_ok n (at_index same_time atts) (pairs n) l1 p1 S1 HB) as (p2 & l2 & M2 & S2 & L2).
  set (label := fun i => default 0 (find_root n p2 i)).
  assert (HL : ∀ i, i < n → root_of p2 i (label i)).
  { intros i Hi. destruct (sf_total n l2 p2 S2 i Hi) as (r & [k Hr] & _). unfold label.
    pose proof (path_short p2 i k r Hr). rewrite (sf_len n l2 p2 S2) in *.
    rewrite (find_root_path p2 i k r) by done. by exists k. }
  exists label. split.
  - intros i j Hi Hj. rewrite (sf_same n l2 p2 S2 i j) by auto. unfold connected.
    assert (HE : ∀ x y, (x, y) ∈ l2 ↔ linked s atts x y).
    { intros x y. rewrite L2, L1, elem_of_nil, pairs_bounds. unfold linked. fold n. tauto. }
    assert (HC : ∀ R1 R2 : relation nat, (∀ x y, R1 x y → R2 x y) → ∀ x y, rtsc R1 x y → rtsc R2 x y).
    { intros R1 R2 HR x y. induction 1 as [|x y z [H|H] _ IH]; [apply rtc_refl|..];
        (etrans; [apply rtc_once|exact IH]); [left|right]; by apply HR. }
    split; apply HC; intros x y; apply HE.
  - rewrite M1. simpl. rewrite M2. simpl.
    rewrite (roots_ok n l2 p2 label); [|done|intros i Hi%elem_of_seq; lia|done]. simpl. do 2 f_equal. set_solver.
Qed.

(** The count is defined on every list. *)
Lemma clusters_total s atts : ∃ n, count_distinct_clusters s atts = Some n.
Proof. destruct (cluster_labels s atts) as (label & _ & ->). by eexists. Qed.

(** C27: the cluster count is the number of connected components.  The two passes of
    the union-find, with path compression, never run out of range or loop, and
    the number they return is the number of classes of the relation "joined by a
    chain of links", where two attestations are linked when their witnesses
    declare the same organization and subnet or attested within half a
    second. *)
Theorem clusters_are_components s atts :
  ∃ label : nat → nat,
    (∀ i j, i < length atts → j < length atts → label i = label j ↔ rtsc (linked s atts) i j) ∧
    count_distinct_clusters s atts =
      Some (size (list_to_set (label <$> seq 0 (length atts)) : gset nat)).
Proof. apply cluster_labels. Qed.
