(* ===== verification/AwcProps.v ===== *)
(** * The consensus engine over its operations

    The operations of [AwcOps] as events, and what holds of every history of
    them: each witness is counted once and never for its own record, a record
    becomes final only for one of a few reasons, and the cascade over cross-zone
    parents ends. *)

From S2P Require Import Prelude Sorting F64 CrossZone Records Wire RecordCodec Awc AwcOps.
Open Scope Z_scope.

(** ** Events *)

Inductive AwcEvent :=
  | EAttest (a : Attestation)
  | ELoad (l : list Attestation)
  | ECreator (record_id creator : string) (stake : Z)
  | EAnchor (record_ids : list string)
  | EForce (record_id : string)
  | EForceSettled
  | ESealAttest (now : f64) (a : SealAttestation)
  | ESealRecords (seal_id : string) (record_ids : list string)
  | EUnresolved (seal_id : string) (hashes : list string)
  | ELateMember (record_hash record_id : string)
  | EPromoteAnchored (now : f64)
  | EZoneStake (zone : string) (stake : Z)
  | EProfile (w : string) (p : WitnessProfile)
  | EGeo (w : string) (g : DerivedWitnessGeo)
  | EParents (rid : string) (parents : list string)
  | ECommittee (zone : string) (members : list (string * Z))
  | ELiveness (enabled : bool) (window divisor : Z)
  | ETip (epoch : Z)
  | EOverride (rid lineage : string)
  | ESealEpoch (sid : string) (epoch : Z) (zone : string)
  | EGlobalSeal (sid stuck_zone : string)
  | EDrain
  | EPrune (is_finalized : string → bool)
  | EPruneOlder (cutoff : f64)
  | EForget (rid : string)
  | EPruneSeals (is_anchored : string → bool).

Section handle.
Context `{HE : Externals, HO : StringOrder}.
Context (zone_count : Z) (fuel : nat).

Definition handle (e : AwcEvent) : awc unit :=
  match e with
  | EAttest a => add_attestation zone_count fuel a
  | ELoad l => bulk_load_attestations zone_count fuel l;; mret tt
  | ECreator rid c stake => register_creator_stake zone_count fuel rid c stake
  | EAnchor rids => modify (anchor_records rids)
  | EForce rid => force_if_settled zone_count fuel rid;; mret tt
  | EForceSettled => force_finalize_settled zone_count fuel;; mret tt
  | ESealAttest now a => add_seal_attestation now a;; mret tt
  | ESealRecords sid rids => register_seal_records sid rids;; mret tt
  | EUnresolved sid hashes => modify (register_unresolved_seal_members sid hashes)
  | ELateMember h rid => resolve_late_seal_member h rid;; mret tt
  | EPromoteAnchored now => promote_anchored now;; mret tt
  | EZoneStake zone stake => register_zone_stake zone stake
  | EProfile w p => modify (register_profile w p)
  | EGeo w g => modify (register_derived_geo w g)
  | EParents rid parents => modify (register_cross_zone_parents rid parents)
  | ECommittee zone members => register_epoch_committee zone members
  | ELiveness enabled window divisor => modify (configure_liveness enabled window divisor)
  | ETip epoch => modify (note_chain_tip epoch)
  | EOverride rid lineage => modify (insert_rotation_zone_override rid lineage)
  | ESealEpoch sid epoch zone => modify (register_seal_epoch sid epoch zone)
  | EGlobalSeal sid stuck => modify (register_global_seal sid stuck)
  | EDrain => drain_newly_finalized;; drain_newly_sealed;; mret tt
  | EPrune f => modify (prune_where f)
  | EPruneOlder cutoff => modify (prune_older_than cutoff)
  | EForget rid => modify (forget_record rid)
  | EPruneSeals f => modify (prune_anchored_seals_where f)
  end.
(** A history that no panic ended. *)
Definition history (l : list AwcEvent) : awc unit := for_each handle l.
End handle.

(** ** Tallies *)

Section tallies.
Context {A : Type} (subject witness : A → string).

(** Under each key, attestations of that key by different witnesses, none of
    them its creator. *)
Definition tallies (creators : gmap string string) (m : gmap string (list A)) : Prop :=
  ∀ k l, m !! k = Some l →
    NoDup (witness <$> l) ∧ Forall (fun a => subject a = k) l ∧
    ∀ c, creators !! k = Some c → c ∉ witness <$> l.

Lemma tallies_shrink cr cr' m m' : cr' ⊆ cr → m' ⊆ m → tallies cr m → tallies cr' m'.
Proof.
  intros Hc Hm H k l Hl. destruct (H k l (lookup_weaken _ _ _ _ Hl Hm)) as (? & ? & HC).
  split_and!; [done|done|]. intros c Hk. by apply HC, (lookup_weaken cr').
Qed.
Lemma tallies_default cr m k :
  tallies cr m →
  NoDup (witness <$> default [] (m !! k)) ∧ Forall (fun a => subject a = k) (default [] (m !! k)) ∧
  ∀ c, cr !! k = Some c → c ∉ witness <$> default [] (m !! k).
Proof.
  intros H. destruct (m !! k) as [l|] eqn:E; [by apply H|]. simpl.
  split_and!; [constructor|constructor|]. intros c _ Hin. by apply elem_of_nil in Hin.
Qed.
(** A list with the same subjects and witnesses may stand in for another. *)
Lemma tallies_same cr m k l :
  tallies cr m → witness <$> l = witness <$> default [] (m !! k) →
  subject <$> l = subject <$> default [] (m !! k) → tallies cr (<[k := l]> m).
Proof.
  intros H Hw Hs k' l0 [[<- <-]|[_ Hl]]%lookup_insert_Some; [|by apply H]. rewrite Hw.
  destruct (tallies_default cr m k H) as (HN & HF & HC). split_and!; [done| |done].
  apply (Forall_fmap subject (fun x => x = k)). rewrite Hs. by apply Forall_fmap.
Qed.
Lemma tallies_push cr m a :
  tallies cr m → witness a ∉ witness <$> default [] (m !! subject a) →
  cr !! subject a ≠ Some (witness a) →
  tallies cr (<[subject a := default [] (m !! subject a) ++ [a]]> m).
Proof.
  intros H Hn Hc. destruct (tallies_default cr m (subject a) H) as (HN & HF & HC).
  intros k l [[<- <-]|[_ Hl]]%lookup_insert_Some; [|by apply H].
  rewrite fmap_app. csimpl. split_and!.
  - apply NoDup_app. split_and!; [done| |by apply NoDup_singleton].
    intros w Hw Hw'. apply list_elem_of_singleton in Hw' as ->. done.
  - apply Forall_app. split; [done|]. by constructor.
  - intros c Hk Hin. apply elem_of_app in Hin as [Hin|Hin]; [by apply (HC c)|].
    apply list_elem_of_singleton in Hin as ->. done.
Qed.
(** A creator that becomes known is struck from its own list. *)
Lemma tallies_creator cr m k c :
  tallies cr m → tallies (<[k := c]> cr) (alter (const (filter (fun a => witness a ≠ c) (default [] (m !! k)))) k m).
Proof.
  intros H k' l Hl. destruct (decide (k = k')) as [<-|Hk].
  - rewrite lookup_alter_eq in Hl. destruct (m !! k) as [l0|] eqn:E; [|done]. simpl in Hl. simplify_eq.
    destruct (H k l0 E) as (HN & HF & _). split_and!.
    + eapply sublist_NoDup; [exact HN|]. apply fmap_sublist, sublist_filter.
    + rewrite Forall_forall in *. intros a [_ Ha]%list_elem_of_filter. by apply HF.
    + intros c'. rewrite lookup_insert_eq. intros [= <-] Hin.
      apply list_elem_of_fmap in Hin as (a & -> & Ha). by apply list_elem_of_filter in Ha as [Ha _].
  - rewrite lookup_alter_ne in Hl by done. destruct (H k' l Hl) as (HN & HF & HC).
    split_and!; [done|done|]. intros c'. rewrite lookup_insert_ne by done. apply HC.
Qed.
End tallies.

(** ** What the cascade leaves alone *)

(** Only levels and queues differ. *)
Definition relevel (s s' : AWCConsensus) : Prop := ∃ levels finalized sealed,
  s' = s <| confirmation_levels := levels |> <| finalization_queue := finalized |>
         <| newly_sealed_queue := sealed |>.
#[export] Instance relevel_refl : Reflexive relevel.
Proof. intros s. exists (confirmation_levels s), (finalization_queue s), (newly_sealed_queue s). by destruct s. Qed.
#[export] Instance relevel_trans : Transitive relevel.
Proof. intros s1 s2 s3 (l & f & q & ->) (l' & f' & q' & ->). by exists l', f', q'. Qed.

Lemma relevel_put s rid level : relevel s (s <| confirmation_levels ::= insert rid level |>).
Proof. exists (<[rid := level]> (confirmation_levels s)), (finalization_queue s), (newly_sealed_queue s). by destruct s. Qed.
Lemma relevel_finalized s f : relevel s (s <| finalization_queue ::= f |>).
Proof. exists (confirmation_levels s), (f (finalization_queue s)), (newly_sealed_queue s). by destruct s. Qed.
Lemma relevel_sealed s f : relevel s (s <| newly_sealed_queue ::= f |>).
Proof. exists (confirmation_levels s), (finalization_queue s), (f (newly_sealed_queue s)). by destruct s. Qed.
#[export] Hint Resolve relevel_put relevel_finalized relevel_sealed : elara.

Section cascade.
Context `{HE : Externals, HO : StringOrder}.
Context (zone_count : Z).

(** What a record's attestations must show whatever its parents: three of them,
    settled by diverse stake, or by raw stake in a small network. *)
Definition supported (s : AWCConsensus) (rid : string) (clusters : nat) : Prop :=
  ∃ atts, attestations s !! rid = Some atts ∧ (3 <= length atts)%nat ∧
    count_distinct_clusters s atts = Some clusters ∧
    (is_settled_diverse zone_count s rid = Ok true ∨
     (is_settled zone_count s rid = Ok true ∧ small_network s = true)).
Definition level_final (s : AWCConsensus) (rid : string) : Prop := is_final (confirmation_levels s !! rid) = true.
(** Every final record of [s'] was final before, or has a reason. *)
Definition edges (reason : string → Prop) (s s' : AWCConsensus) : Prop :=
  ∀ r, level_final s' r → level_final s r ∨ reason r.
(** How a record may be final, given the records [F] that are: it is one of them
    or anchored, or its attestations carry it over the bar, from three clusters,
    or from one when all its parents in other zones have become final so. *)
Inductive earned (F : string → Prop) (s : AWCConsensus) (r : string) : Prop :=
  | earned_base : F r → earned F s r
  | earned_anchor : r ∈ anchored s → earned F s r
  | earned_clusters n : supported s r n → (3 <= n)%nat → earned F s r
  | earned_parents n p ps :
      supported s r n → (1 <= n)%nat → cross_zone_parents s !! r = Some (p :: ps) →
      (∀ q, q ∈ p :: ps → earned F s q) → earned F s r.
Lemma earned_bind (F F' : string → Prop) s r :
  earned F s r → (∀ q, F q → earned F' s q) → earned F' s r.
Proof.
  intros H HF. induction H as [r H|r H|r n H Hn|r n p ps H Hn Hp _ IH]; [by apply HF|by apply earned_anchor| |].
  - by apply (earned_clusters _ _ _ n).
  - by apply (earned_parents _ _ _ n p ps).
Qed.

Lemma edges_refl P s : edges P s s.
Proof. intros r H. by left. Qed.
Lemma edges_trans P s1 s2 s3 : edges P s1 s2 → edges P s2 s3 → edges P s1 s3.
Proof. intros H1 H2 r H. destruct (H2 r H) as [H'|H']; [by apply H1|by right]. Qed.
Lemma edges_mono (P P' : string → Prop) s s' : (∀ r, P r → P' r) → edges P s s' → edges P' s s'.
Proof. intros HP H r Hr. destruct (H r Hr); auto. Qed.
Lemma edges_put (P : string → Prop) s rid level :
  (is_final (Some level) = true → P rid) → edges P s (s <| confirmation_levels ::= insert rid level |>).
Proof.
  intros HP r. unfold level_final. simpl. destruct (decide (rid = r)) as [<-|Hr].
  - rewrite lookup_insert_eq. auto.
  - rewrite lookup_insert_ne by done. auto.
Qed.
Lemma edges_same_levels P s s' : confirmation_levels s' = confirmation_levels s → edges P s s'.
Proof. intros E r. unfold level_final. rewrite E. auto. Qed.

Lemma earned_relevel F s s' r : relevel s s' → earned F s' r → earned F s r.
Proof.
  intros (l & f & q & ->) H. induction H as [r H|r H|r n H Hn|r n p ps H Hn Hp _ IH].
  - by apply earned_base.
  - by apply earned_anchor.
  - by apply (earned_clusters _ _ _ n).
  - by apply (earned_parents _ _ _ n p ps).
Qed.

(** What an evaluation that says [Finalized] has checked. *)
Lemma evaluate_justified s rid atts :
  attestations s !! rid = Some atts →
  wp (evaluate zone_count rid atts) (fun o s' => s' = s ∧ (o = Ok Finalized → earned (level_final s) s rid) ∧ o ≠ Ok Anchored) s.
Proof.
  intros Ha. unfold evaluate, ask. repeat wp_step.
  destruct (count_distinct_clusters s atts) as [n|] eqn:Ec; [|by split_and!].
  apply wp_ret. wp_step. wp_step. wp_step. apply wp_lift.
  destruct (is_settled_diverse zone_count s rid) as [d|e|] eqn:Ed; [|by split_and!..].
  repeat wp_step. apply wp_lift. destruct (is_settled zone_count s rid) as [b|e|] eqn:Eb; [|by split_and!..].
  repeat wp_step. split_and!; [done| |by repeat case_match].
  match goal with |- context [if ?b then Finalized else _] => destruct b eqn:E end; [intros _|intros [= ?]; by repeat case_match]. bools.
  unfold CONFIRMED_MIN_WITNESSES in *. assert (Hs : supported s rid n).
  { exists atts. split_and!; [done|done|done|]. destruct d; [by left|right]. cbn [orb] in *. bools. by subst b. }
  destruct (cross_zone_parents_finalized s rid) eqn:Ex; [|by apply (earned_clusters _ _ _ n)].
  unfold cross_zone_parents_finalized in Ex. destruct (cross_zone_parents s !! rid) as [[|p ps]|] eqn:Ep; [done| |done].
  apply (earned_parents _ _ _ n p ps); [done|done|done|]. intros q Hq. apply earned_base.
  rewrite forallb_forall in Ex. by apply Ex, list_elem_of_In.
Qed.

Lemma wp_put_level Q s rid level :
  Q (Ok tt) (s <| confirmation_levels ::= insert rid level |>) → wp (put_level rid level) Q s.
Proof. done. Qed.
(** Levels and queues alone have changed, and every final record has earned it,
    the records [F] being final. *)
Definition owed (F : string → Prop) (s s' : AWCConsensus) : Prop :=
  relevel s s' ∧ ∀ r, level_final s' r → earned F s r.
(** The cascade finalizes only what earns it from what was final. *)
Definition cascaded (s s' : AWCConsensus) : Prop := owed (level_final s) s s'.
#[export] Instance cascaded_refl : Reflexive cascaded.
Proof. intros s. split; [done|]. by apply earned_base. Qed.
Lemma owed_trans F s s1 s2 : owed F s s1 → cascaded s1 s2 → owed F s s2.
Proof.
  intros [H1 E1] [H2 E2]. split; [by etrans|]. intros r Hr.
  eapply earned_bind; [|exact E1]. by apply (earned_relevel _ s s1), E2.
Qed.
#[export] Instance cascaded_trans : Transitive cascaded.
Proof. intros s1 s2 s3. apply owed_trans. Qed.
Lemma cascaded_same_levels s s' :
  relevel s s' → confirmation_levels s' = confirmation_levels s → cascaded s s'.
Proof. intros HR HL. split; [done|]. intros r Hr. apply earned_base. unfold level_final in *. by rewrite <- HL. Qed.
Lemma owed_put F s s1 rid level :
  owed F s s1 → (is_final (Some level) = true → earned F s rid) →
  owed F s (s1 <| confirmation_levels ::= insert rid level |>).
Proof.
  intros [HR HE'] H. split; [etrans; [exact HR|apply relevel_put]|]. intros r.
  unfold level_final. simpl. destruct (decide (rid = r)) as [<-|Hr].
  - rewrite lookup_insert_eq. auto.
  - rewrite lookup_insert_ne by done. apply HE'.
Qed.
Lemma cascaded_put s rid level :
  (is_final (Some level) = true → earned (level_final s) s rid) →
  cascaded s (s <| confirmation_levels ::= insert rid level |>).
Proof. apply owed_put, cascaded_refl. Qed.

(** A step that always succeeds and leaves the levels alone. *)
Definition quiet (m : awc unit) : Prop :=
  ∀ s, wp m (fun o s' => o = Ok tt ∧ relevel s s' ∧ confirmation_levels s' = confirmation_levels s) s.
Lemma enqueue_finalized_quiet rid : quiet (enqueue_finalized rid).
Proof. intros s. unfold enqueue_finalized. wp_step. case_bool_decide; split_and!; auto with elara; reflexivity. Qed.
Lemma enqueue_sealed_quiet rid n : quiet (enqueue_sealed rid n).
Proof. intros s. unfold enqueue_sealed. wp_step. case_bool_decide; split_and!; auto with elara; reflexivity. Qed.
Lemma wp_quiet b m (Q : outcome unit → AWCConsensus → Prop) s0 s :
  cascaded s0 s → quiet m → (∀ s', cascaded s0 s' → Q (Ok tt) s') → wp (when b m) Q s.
Proof.
  intros Hc Hm HQ. apply wp_when; intros _; [|by apply HQ].
  eapply wp_mono; [apply Hm|]. intros o s' (-> & HR & HL). apply HQ. etrans; [exact Hc|].
  by apply cascaded_same_levels.
Qed.

Lemma recompute_cascaded fuel rid suppress s :
  wp (recompute_confirmation zone_count fuel rid suppress) (fun _ s' => cascaded s s') s.
Proof.
  revert rid s. induction fuel as [|fuel IH]; intros rid s; cbn [recompute_confirmation]; [apply (cascaded_refl s)|].
  wp_step. wp_step. destruct (attestations s !! rid) as [[|a atts]|] eqn:Ha.
  1, 3: by apply wp_put_level, cascaded_put.
  wp_step; bools; [apply wp_put_level, cascaded_put; intros _; by apply earned_anchor|].
  wp_step. eapply wp_mono; [by apply evaluate_justified|].
  intros [level|e|] s1 (-> & HJ & HA); [|reflexivity..].
  wp_step. apply wp_put_level. wp_step. eapply wp_quiet.
  { apply cascaded_put. intros Hf. apply HJ. destruct level; [done..|by destruct HA]. }
  { apply enqueue_sealed_quiet. }
  intros s2 H2. wp_step; [|by apply wp_ret]. wp_step. eapply wp_quiet; [exact H2|apply enqueue_finalized_quiet|].
  intros s3 H3. apply (wp_for_each _ _ (fun _ s' => cascaded s s')); [done|done|].
  intros child l' s' Hs'. eapply wp_mono; [apply IH|]. intros [] s'' Hs''; by etrans.
Qed.

Lemma children_cascaded fuel suppress l s :
  wp (for_each (fun child => recompute_confirmation zone_count fuel child suppress) l) (fun _ s' => cascaded s s') s.
Proof.
  apply (wp_for_each _ _ (fun _ s' => cascaded s s')); [reflexivity|done|].
  intros child l' s' Hs'. eapply wp_mono; [apply recompute_cascaded|]. intros [] s'' Hs''; by etrans.
Qed.
End cascade.

(** ** Each witness once, and never for its own record *)

Section counted.
Context `{HE : Externals, HO : StringOrder}.
Context (zone_count : Z) (fuel : nat).
(** The signer of each record, which does not change. *)
Context (creator_of : string → string).

Record Counted (s : AWCConsensus) : Prop := {
  counted_records : tallies att_record_id att_witness (creator_identity s) (attestations s);
  counted_seals : tallies sa_seal_id sa_witness (creator_identity s) (seal_attestations s);
  counted_creators : ∀ rid c, creator_identity s !! rid = Some c → c = creator_of rid;
}.

Lemma Counted_new : Counted awc_new.
Proof. by constructor. Qed.
Lemma Counted_shrink s s' :
  creator_identity s' ⊆ creator_identity s → attestations s' ⊆ attestations s →
  seal_attestations s' ⊆ seal_attestations s → Counted s → Counted s'.
Proof.
  intros Hc Ha Hs [H1 H2 H3]. constructor; [by eapply tallies_shrink..|].
  intros rid c Hrid. apply H3. by eapply lookup_weaken.
Qed.
Lemma Counted_relevel s s' : relevel s s' → Counted s → Counted s'.
Proof. intros (l & f & q & ->). by apply Counted_shrink. Qed.
Lemma Counted_same s s' :
  creator_identity s' = creator_identity s → attestations s' = attestations s →
  seal_attestations s' = seal_attestations s → Counted s → Counted s'.
Proof. intros E1 E2 E3. apply Counted_shrink; by rewrite ?E1, ?E2, ?E3. Qed.

(** The attestations and the creators are untouched. *)
Ltac counted_same :=
  match goal with H : Counted ?s |- _ => apply (Counted_same s); [reflexivity..|exact H] end.

Definition counts {A} (m : awc A) : Prop := ∀ s, Counted s → wp m (fun _ s' => Counted s') s.

Lemma counts_ret {A} (a : A) : counts (mret a).
Proof. by intros s H. Qed.
Lemma counts_bind {A B} (m : awc A) (f : A → awc B) : counts m → (∀ a, counts (f a)) → counts (m ≫= f).
Proof.
  intros Hm Hf s H. apply wp_bind. eapply wp_mono; [by apply Hm|].
  intros [a|e|] s' Hs'; [by apply Hf|done..].
Qed.
Lemma counts_read {A} (m : awc A) : (∀ s, wp m (fun _ s' => s' = s) s) → counts m.
Proof. intros Hm s H. eapply wp_mono; [apply Hm|]. by intros o s' ->. Qed.
Lemma counts_for_each {A} (f : A → awc unit) l : (∀ x, counts (f x)) → counts (for_each f l).
Proof.
  intros Hf s H. apply (wp_for_each _ _ (fun _ s' => Counted s')); [done|done|].
  intros x l' s' Hs'. eapply wp_mono; [by apply Hf|]. by intros [].
Qed.
Lemma counts_modify f : (∀ s, Counted s → Counted (f s)) → counts (modify f).
Proof. intros Hf s H. apply wp_modify. by apply Hf. Qed.
Lemma counts_recompute rid suppress : counts (recompute_confirmation zone_count fuel rid suppress).
Proof.
  intros s H. eapply wp_mono; [apply recompute_cascaded|]. intros o s' [HR _]. by eapply Counted_relevel.
Qed.
Lemma counts_ask {A} (f : AWCConsensus → outcome A) : counts (ask f).
Proof. apply counts_read. intros s. unfold ask. wp_step. wp_step. by apply wp_lift. Qed.

Lemma delete_list_subseteq {A V} (key : A → string) (l : list A) (m : gmap string V) :
  fold_left (fun m x => delete (key x) m) l m ⊆ m.
Proof.
  revert m. induction l as [|x l IH]; intros m; [done|]. cbn [fold_left]. etrans; [apply IH|apply delete_subseteq].
Qed.
Lemma Counted_evict l s : Counted s → Counted (fold_left (fun s (kv : string * list Attestation) => evict_record kv.1 s) l s).
Proof.
  revert s. induction l as [|kv l IH]; intros s H; [done|]. apply IH.
  eapply Counted_shrink; [..|exact H]; simpl; try apply delete_subseteq; done.
Qed.
Lemma Counted_evict_seals l s : Counted s → Counted (fold_left (fun s (kv : string * list SealAttestation) => evict_seal kv.1 s) l s).
Proof.
  revert s. induction l as [|kv l IH]; intros s H; [done|]. apply IH.
  eapply Counted_shrink; [..|exact H]; simpl; try apply delete_subseteq; done.
Qed.
Lemma Counted_evict_oldest n s : Counted s → Counted (evict_oldest_attestations n s).
Proof. unfold evict_oldest_attestations. apply Counted_evict. Qed.
Lemma Counted_evict_oldest_seals n s : Counted s → Counted (evict_oldest_seal_attestations n s).
Proof. unfold evict_oldest_seal_attestations. apply Counted_evict_seals. Qed.
Lemma Counted_make_room s : Counted s → Counted (make_room s).
Proof. intros H. unfold make_room. case_bool_decide; [by apply Counted_evict_oldest|done]. Qed.

Lemma is_creator_false rid w s : is_creator rid w s = false → creator_identity s !! rid ≠ Some w.
Proof. intros H. by apply bool_decide_eq_false in H. Qed.
Lemma Counted_push a s :
  Counted s → is_creator (att_record_id a) (att_witness a) s = false →
  has_witness (att_witness a) (default [] (attestations s !! att_record_id a)) = false →
  Counted (push_attestation a s).
Proof.
  intros [H1 H2 H3] Hc Hw%bool_decide_eq_false. constructor; [|exact H2|exact H3].
  apply (tallies_push att_record_id att_witness); [done|done|by apply is_creator_false].
Qed.
Lemma refresh_same w stake atts :
  att_witness <$> refresh_stake w stake atts = att_witness <$> atts ∧
  att_record_id <$> refresh_stake w stake atts = att_record_id <$> atts.
Proof.
  unfold refresh_stake. destruct (list_find _ atts) as [[i a]|] eqn:E; [|done].
  apply list_find_Some in E as (Hi & _ & _). rewrite !list_fmap_insert. simpl.
  split; apply list_insert_id; by rewrite list_lookup_fmap, Hi.
Qed.

(** Continue after [f] from any state that satisfies [R]. *)
Lemma wp_modify_into {B} (R : AWCConsensus → Prop) f (k : awc B) Q s :
  R (f s) → (∀ s', R s' → wp k Q s') → wp (modify f;; k) Q s.
Proof. intros H HQ. apply wp_bind, wp_modify. by apply HQ. Qed.

Lemma counts_add_attestation a : counts (add_attestation zone_count fuel a).
Proof.
  intros s H. unfold add_attestation. eapply wp_modify_into; [apply Counted_make_room, H|].
  clear s H. intros r H. wp_step. wp_step. cbv zeta. wp_step; [wp_step; counted_same|].
  wp_step; [wp_step|].
  - destruct (refresh_same (att_witness a) (att_stake a) (default [] (attestations r !! att_record_id a))) as [Hw Hr].
    destruct H as [HA HB HC]. constructor; [by apply tallies_same|exact HB|exact HC].
  - wp_step. wp_step. wp_step. wp_step. apply counts_recompute, Counted_push; [|done..].
    counted_same.
Qed.
Lemma counts_load rids a : counts (load_attestation rids a).
Proof.
  intros s H. unfold load_attestation. eapply wp_modify_into; [apply Counted_make_room, H|].
  clear s H. intros r H. wp_step. wp_step. cbv zeta. wp_step; [repeat wp_step; counted_same|].
  wp_step; [by wp_step|]. do 5 wp_step. apply Counted_push; [|done..]. counted_same.
Qed.
Lemma counts_load_all l rids : counts (load_all l rids).
Proof.
  revert rids. induction l as [|a l IH]; intros rids; [apply counts_ret|]. apply counts_bind; [apply counts_load|apply IH].
Qed.
Lemma counts_bulk_load l : counts (bulk_load_attestations zone_count fuel l).
Proof.
  apply counts_bind; [apply counts_load_all|]. intros rids. apply counts_bind; [|intros; apply counts_ret].
  apply counts_for_each. intros rid. apply counts_recompute.
Qed.

(** The creator a record is registered under is its signer. *)
Lemma counts_register_creator rid stake :
  counts (register_creator_stake zone_count fuel rid (creator_of rid) stake).
Proof.
  intros s H. unfold register_creator_stake. wp_step. wp_step. wp_step. wp_step. destruct H as [H1 H2 H3].
  assert (HK : ∀ rid' c, <[rid := creator_of rid]> (creator_identity s) !! rid' = Some c → c = creator_of rid').
  { intros rid' c [[<- <-]|[_ Hl]]%lookup_insert_Some; [done|by apply H3]. }
  destruct (creator_identity s !! rid) as [c|] eqn:E.
  - apply wp_ret. rewrite (H3 rid c E) in E. constructor; simpl; [..|exact HK]; by rewrite insert_id.
  - unfold purge_creator_self_attestations. do 4 wp_step.
    match goal with |- wp _ _ ?x => set (s' := x) end. assert (HC : Counted s').
    { constructor; [by apply tallies_creator|by apply tallies_creator|exact HK]. }
    clearbody s'. wp_step.
    + repeat wp_step. apply counts_recompute. counted_same.
    + exact HC.
Qed.

Lemma counts_put_level rid level : counts (put_level rid level).
Proof. apply counts_modify. intros s. by apply Counted_same. Qed.
Lemma counts_quiet m : quiet m → counts m.
Proof. intros Hm s H. eapply wp_mono; [apply Hm|]. intros o s' (_ & HR & _). by eapply Counted_relevel. Qed.
Lemma counts_get {A} (f : AWCConsensus → awc A) : (∀ s0, counts (f s0)) → counts (s ← get; f s).
Proof. intros Hf. apply counts_bind; [by apply counts_read|exact Hf]. Qed.
Lemma counts_if {A} (b : bool) (m1 m2 : awc A) : counts m1 → counts m2 → counts (if b then m1 else m2).
Proof. by destruct b. Qed.
Lemma counts_force rid : counts (force_finalized zone_count fuel rid).
Proof.
  apply counts_get. intros s0. apply counts_if; [apply counts_ret|].
  apply counts_bind; [apply counts_put_level|intros _].
  apply counts_bind; [apply counts_quiet, enqueue_finalized_quiet|intros _].
  apply counts_bind; [|intros; apply counts_ret]. apply counts_for_each. intros c. apply counts_recompute.
Qed.
Lemma counts_force_if_settled rid : counts (force_if_settled zone_count fuel rid).
Proof.
  apply counts_bind; [apply counts_ask|]. intros b. apply counts_if; [apply counts_force|apply counts_ret].
Qed.
Lemma counts_force_settled : counts (force_finalize_settled zone_count fuel).
Proof.
  apply counts_bind; [apply counts_ask|]. intros rids. apply counts_bind; [|intros; apply counts_ret].
  apply counts_for_each. intros rid. apply counts_bind; [apply counts_force|intros; apply counts_ret].
Qed.
Lemma counts_promote l : counts (promote_seal_members l).
Proof.
  induction l as [|rid l IH]; [apply counts_ret|]. apply counts_get. intros s0. apply counts_if; [exact IH|].
  apply counts_bind; [apply counts_put_level|intros _].
  apply counts_bind; [apply counts_quiet, enqueue_finalized_quiet|intros _].
  apply counts_bind; [exact IH|intros; apply counts_ret].
Qed.
Lemma Counted_push_seal a s :
  Counted s → is_creator (sa_seal_id a) (sa_witness a) s = false →
  sa_witness a ∉ sa_witness <$> default [] (seal_attestations s !! sa_seal_id a) →
  Counted (s <| seal_attestations ::= insert (sa_seal_id a) (default [] (seal_attestations s !! sa_seal_id a) ++ [a]) |>).
Proof.
  intros [H1 H2 H3] Hc Hw. constructor; [exact H1| |exact H3].
  apply (tallies_push sa_seal_id sa_witness); [done|done|by apply is_creator_false].
Qed.
Lemma counts_seal_attest now a : counts (add_seal_attestation now a).
Proof.
  intros s H. unfold add_seal_attestation. eapply (wp_modify_into Counted).
  { case_bool_decide; [by apply Counted_evict_oldest_seals|done]. }
  clear s H. intros r HR. wp_step. wp_step. cbv zeta. wp_step; [repeat wp_step; counted_same|].
  wp_step; [by wp_step|]. wp_step. wp_step. bools.
  match goal with |- wp _ _ ?x => assert (H1 : Counted x) by (by apply Counted_push_seal); revert H1; generalize x end.
  apply counts_bind; [apply counts_ask|]. intros settled. apply counts_if; [|apply counts_ret].
  apply counts_bind; [apply counts_modify; intros s1 H1; destruct (seal_finalized_at s1 !! sa_seal_id a); [done|counted_same]|].
  intros _. destruct (seal_record_ids r !! sa_seal_id a); [apply counts_promote|apply counts_ret].
Qed.
Lemma Counted_member sid s rid : Counted s → Counted (register_member sid s rid).
Proof. intros H. unfold register_member. destruct (sealed_or_higher _); counted_same. Qed.
Lemma counts_seal_records sid rids : counts (register_seal_records sid rids).
Proof.
  apply counts_bind.
  - apply counts_modify. intros s H. assert (HF : Counted (fold_left (register_member sid) rids s)).
    { revert s H. induction rids as [|rid rids IH]; intros s H; [done|]. by apply IH, Counted_member. }
    counted_same.
  - intros _. apply counts_bind; [apply counts_ask|]. intros b. apply counts_if; [apply counts_promote|apply counts_ret].
Qed.
Lemma counts_late h rid : counts (resolve_late_seal_member h rid).
Proof.
  apply counts_bind; [by apply counts_read|]. intros [sid|].
  2: { apply counts_bind; [|intros; apply counts_ret]. apply counts_modify. intros s H. counted_same. }
  apply counts_bind; [apply counts_modify; intros s H; counted_same|]. intros _.
  apply counts_bind; [by apply counts_read|]. intros [ids|]; [|apply counts_ret].
  apply counts_bind; [apply counts_modify; intros s H; pose proof (Counted_member sid s rid H); counted_same|]. intros _.
  apply counts_bind; [apply counts_ask|]. intros b. apply counts_if; [apply counts_promote|apply counts_ret].
Qed.
Lemma Counted_anchor_seals seals acc : Counted acc.2 → Counted (fold_left anchor_seal seals acc).2.
Proof.
  revert acc. induction seals as [|sid seals IH]; intros acc H; [done|]. apply IH. unfold anchor_seal.
  generalize (default [] (seal_record_ids acc.2 !! sid)). intros members. cbv zeta.
  assert (HM : Counted (fold_left anchor_member members acc).2); [|counted_same].
  revert acc H. induction members as [|rid members IHm]; intros acc H; [done|]. apply IHm.
  unfold anchor_member. case_bool_decide; [done|]. cbn [snd]. counted_same.
Qed.
Lemma counts_anchored now : counts (promote_anchored now).
Proof.
  intros s H. unfold promote_anchored. repeat wp_step. apply Counted_anchor_seals, H.
Qed.
Lemma Counted_anchor_records rids s : Counted s → Counted (anchor_records rids s).
Proof.
  revert s. induction rids as [|rid rids IH]; intros s H; [done|]. apply IH. unfold anchor_record.
  cbv zeta. destruct (is_final _); counted_same.
Qed.
Lemma Counted_unresolved sid hashes s : Counted s → Counted (register_unresolved_seal_members sid hashes s).
Proof.
  revert s. induction hashes as [|h hashes IH]; intros s H; [done|]. cbn [register_unresolved_seal_members].
  case_bool_decide; [done|]. apply IH. counted_same.
Qed.
Lemma Counted_older cutoff s : Counted s → Counted (prune_older_than cutoff s).
Proof.
  unfold prune_older_than, keep. cbv zeta. apply Counted_shrink; case_bool_decide; apply map_filter_subseteq.
Qed.
Lemma Counted_forget rid s : Counted s → Counted (forget_record rid s).
Proof.
  apply Counted_shrink; unfold forget_record; cbv zeta;
    destruct (record_to_seal _ !! rid); simpl; first [apply delete_subseteq|done].
Qed.
Lemma counts_zone_stake zone stake : counts (register_zone_stake zone stake).
Proof. intros s H. unfold register_zone_stake. repeat wp_step; [counted_same|done]. Qed.
Lemma counts_committee zone members : counts (register_epoch_committee zone members).
Proof.
  intros s H. unfold register_epoch_committee. wp_step; [wp_step; counted_same|].
  wp_step. apply wp_lift. destruct (u64_sum _ _); [|done..]. wp_step. counted_same.
Qed.

Definition signer_named (e : AwcEvent) : Prop :=
  match e with ECreator rid c _ => c = creator_of rid | _ => True end.
Lemma counts_handle e : signer_named e → counts (handle zone_count fuel e).
Proof.
  assert (HT : ∀ {A} (m : awc A), counts m → counts (m;; mret tt)).
  { intros A m Hm. apply counts_bind; [done|intros; apply counts_ret]. }
  destruct e; cbn [handle signer_named]; intros He.
  - apply counts_add_attestation.
  - apply HT, counts_bulk_load.
  - rewrite He. apply counts_register_creator.
  - apply counts_modify, Counted_anchor_records.
  - apply HT, counts_force_if_settled.
  - apply HT, counts_force_settled.
  - apply HT, counts_seal_attest.
  - apply HT, counts_seal_records.
  - apply counts_modify, Counted_unresolved.
  - apply HT, counts_late.
  - apply HT, counts_anchored.
  - apply counts_zone_stake.
  - apply counts_modify. intros s H. counted_same.
  - apply counts_modify. intros s H. counted_same.
  - apply counts_modify. intros s H. unfold register_cross_zone_parents. case_bool_decide; counted_same.
  - apply counts_committee.
  - apply counts_modify. intros s H. counted_same.
  - apply counts_modify. intros s H. unfold note_chain_tip. case_match; counted_same.
  - apply counts_modify. intros s H. counted_same.
  - apply counts_modify. intros s H. unfold register_seal_epoch. case_match; counted_same.
  - apply counts_modify. intros s H. counted_same.
  - intros s H. unfold drain_newly_finalized, drain_newly_sealed. repeat wp_step. counted_same.
  - apply counts_modify. intros s. by apply Counted_shrink; [apply map_filter_subseteq..|].
  - apply counts_modify, Counted_older.
  - apply counts_modify, Counted_forget.
  - apply counts_modify. intros s. by apply Counted_shrink; [| |apply map_filter_subseteq].
Qed.
End counted.

(** C12: every attestation counts once and nobody vouches for themselves.  In
    every state the engine reaches, whatever the order of attestations, late
    creator registrations, seals, evictions and prunings, the attestations kept
    under a record (or seal) are about it, come from pairwise different
    witnesses, and none comes from its registered creator.  The registrations of
    a record must name one creator, as its signer is one: a second registration
    under another identity is taken over without a purge
    ([second_creator_keeps_vote]). *)
Theorem witnesses_counted_once `{HE : Externals, HO : StringOrder} zone_count fuel creator_of events s :
  Forall (signer_named creator_of) events →
  history zone_count fuel events awc_new = (Ok tt, s) →
  tallies att_record_id att_witness (creator_identity s) (attestations s) ∧
  tallies sa_seal_id sa_witness (creator_identity s) (seal_attestations s).
Proof.
  intros He Hh. assert (HW : wp (history zone_count fuel events) (fun _ s' => Counted creator_of s') awc_new).
  { unfold history. apply (wp_for_each _ _ (fun l s' => Forall (signer_named creator_of) l ∧ Counted creator_of s')).
    - split; [done|apply Counted_new].
    - by intros s' [_ H].
    - intros e l s' [[H1 H2]%Forall_cons H]. eapply wp_mono; [by apply counts_handle|]. by intros []. }
  unfold wp in HW. rewrite Hh in HW. destruct HW as [H1 H2 _]. done.
Qed.
