(* ===== verification/AwcFinality.v ===== *)
(** * Why records become final *)

From S2P Require Import Prelude Sorting F64 CrossZone Records Wire RecordCodec Awc AwcOps AwcCluster AwcProps.
Open Scope Z_scope.

Section finality.
Context `{HE : Externals, HO : StringOrder}.
Context (zone_count : Z) (fuel : nat).



(** No new level, no new anchor. *)
Definition shrinks (s s' : AWCConsensus) : Prop :=
  (∀ r, level_final s' r → level_final s r) ∧ anchored s' ⊆ anchored s.
#[local] Instance shrinks_refl : Reflexive shrinks.
Proof. by intros s. Qed.
#[local] Instance shrinks_trans : Transitive shrinks.
Proof. intros s1 s2 s3 [H1 H1'] [H2 H2']. split; [auto|by etrans]. Qed.





(** ** Forced finality *)



(** ** Finality through seals *)





(** ** Anchoring *)




End finality.

(** ** The cascade ends *)

Section cascade_end.
Context `{HE : Externals, HO : StringOrder}.
Context (zone_count : Z).
(** Children rank below their parents: a record names parents that exist. *)
Context (rank : string → nat).

(** No sum of stakes overflows, and the parent links have no cycle. *)
Record sound (s : AWCConsensus) : Prop := {
  sound_links : ∀ child ps p, cross_zone_parents s !! child = Some ps → p ∈ ps → (rank child < rank p)%nat;
  sound_settled : ∀ r, ∃ b, is_settled zone_count s r = Ok b;
  sound_diverse : ∀ r, ∃ b, is_settled_diverse zone_count s r = Ok b;
}.
Lemma sound_relevel s s' : relevel s s' → sound s → sound s'.
Proof. intros (l & f & q & ->) [H1 H2 H3]. by constructor. Qed.
Lemma sound_relevel_inv s s' : relevel s s' → sound s' → sound s.
Proof. intros (l & f & q & ->) [H1 H2 H3]. by constructor. Qed.

Lemma run_bind {A B} (m : awc A) (f : A → awc B) s a s1 : m s = (Ok a, s1) → (m ≫= f) s = f a s1.
Proof. intros H. unfold mbind, M_bind. by rewrite H. Qed.
Lemma run_ask {A} (f : AWCConsensus → outcome A) s a : f s = Ok a → ask f s = (Ok a, s).
Proof. intros H. unfold ask. rewrite (run_bind _ _ s s s) by done. unfold lift. by rewrite H. Qed.

Lemma evaluate_total s rid atts : sound s → ∃ level, evaluate zone_count rid atts s = (Ok level, s).
Proof.
  intros [_ H2 H3]. unfold evaluate. destruct (clusters_total s atts) as [n Hn], (H2 rid) as [b Hb], (H3 rid) as [d Hd].
  rewrite (run_bind _ _ s (Some n) s); [|unfold gets; by rewrite Hn].
  rewrite (run_bind _ _ s n s) by done. rewrite (run_bind _ _ s d s) by (by apply run_ask).
  rewrite (run_bind _ _ s b s) by (by apply run_ask). rewrite (run_bind _ _ s s s) by done. by eexists.
Qed.
Lemma children_rank s rid child : sound s → child ∈ children_of rid s → (rank child < rank rid)%nat.
Proof.
  intros Hs Hc. apply list_elem_of_fmap in Hc as ([c ps] & -> & [Hp Hin]%list_elem_of_filter).
  rewrite walk_perm in Hin. apply elem_of_map_to_list in Hin. by eapply (sound_links s Hs).
Qed.

(** A loop of steps that each have a result for all large enough fuels. *)
Lemma for_each_total n (step : nat → string → awc unit) l s :
  sound s →
  (∀ x s0, x ∈ l → sound s0 → ∃ s1, relevel s0 s1 ∧ ∀ fuel, (n < fuel)%nat → step fuel x s0 = (Ok tt, s1)) →
  ∃ s', relevel s s' ∧ ∀ fuel, (n < fuel)%nat → for_each (step fuel) l s = (Ok tt, s').
Proof.
  revert s. induction l as [|x l IH]; intros s Hs Hstep; [by exists s|].
  destruct (Hstep x s (list_elem_of_here _ _) Hs) as (s1 & R1 & E1).
  destruct (IH s1 (sound_relevel s s1 R1 Hs)) as (s2 & R2 & E2); [intros y s0 Hy; apply Hstep; by right|].
  exists s2. split; [by etrans|]. intros fuel Hf. cbn [for_each]. unfold mbind, M_bind. rewrite (E1 fuel Hf). by apply E2.
Qed.

Lemma quiet_run b m s : quiet m → ∃ s', relevel s s' ∧ when b m s = (Ok tt, s').
Proof.
  intros Hm. destruct b; [|by exists s]. destruct (Hm s) as (Ho & HR & _). eexists. split; [exact HR|].
  unfold when. rewrite <- Ho. by destruct (m s).
Qed.

(** The result of the cascade, once
    the fuel exceeds the rank. *)
Lemma recompute_total n rid suppress s :
  sound s → (rank rid <= n)%nat →
  ∃ s', relevel s s' ∧ ∀ fuel, (n < fuel)%nat → recompute_confirmation zone_count fuel rid suppress s = (Ok tt, s').
Proof.
  revert rid s. induction n as [n IH] using lt_wf_ind. intros rid s Hs Hn.
  assert (HP : ∀ level, ∃ s', relevel s s' ∧ put_level rid level s = (Ok tt, s')).
  { intros level. eexists. split; [apply relevel_put|done]. }
  destruct (attestations s !! rid) as [[|a atts]|] eqn:Ha.
  1, 3: destruct (HP Pending) as (s' & HR & E); exists s'; split; [done|]; intros [|fuel] Hf; [lia|];
    cbn [recompute_confirmation]; rewrite (run_bind _ _ s s s) by done; by rewrite Ha.
  destruct (bool_decide (rid ∈ anchored s)) eqn:Eanc.
  { destruct (HP Anchored) as (s' & HR & E). exists s'. split; [done|]. intros [|fuel] Hf; [lia|].
    cbn [recompute_confirmation]. rewrite (run_bind _ _ s s s) by done. by rewrite Ha, Eanc. }
  destruct (evaluate_total s rid (a :: atts) Hs) as [level Hev], (HP level) as (s1 & R1 & E1).
  destruct (quiet_run (sealed_or_higher (Some level) && negb (sealed_or_higher (confirmation_levels s !! rid)) && negb suppress)
    _ s1 (enqueue_sealed_quiet rid (Z.of_nat (length (a :: atts))))) as (s2 & R2 & E2).
  destruct (quiet_run (negb suppress) _ s2 (enqueue_finalized_quiet rid)) as (s3 & R3 & E3).
  assert (R : relevel s s3) by (etrans; [exact R1|]; by etrans).
  assert (HU : ∀ fuel, recompute_confirmation zone_count (S fuel) rid suppress s =
    (if is_final (Some level) && negb (is_final (confirmation_levels s !! rid)) then
       for_each (fun child => recompute_confirmation zone_count fuel child suppress) (children_of rid s) s3
     else (Ok tt, s2))).
  { intros fuel. cbn [recompute_confirmation]. rewrite (run_bind _ _ s s s) by done. rewrite Ha, Eanc.
    rewrite (run_bind _ _ s level s) by done. cbv zeta. rewrite (run_bind _ _ s tt s1) by done.
    rewrite (run_bind _ _ s1 tt s2) by done. cbv beta.
    destruct (is_final (Some level) && negb (is_final (confirmation_levels s !! rid))); [|done].
    by rewrite (run_bind _ _ s2 tt s3). }
  destruct (is_final (Some level) && negb (is_final (confirmation_levels s !! rid))).
  - destruct (for_each_total (pred n) (fun fuel child => recompute_confirmation zone_count fuel child suppress)
      (children_of rid s) s3 (sound_relevel s s3 R Hs)) as (s' & R' & E').
    { intros child s0 Hc Hs0. pose proof (children_rank s rid child Hs Hc). apply IH; [lia|done|lia]. }
    exists s'. split; [by etrans|]. intros [|fuel] Hf; [lia|]. rewrite HU.
    destruct n as [|n]; [|apply E'; simpl; lia]. rewrite <- (E' 1%nat) by lia.
    destruct (children_of rid s) as [|c l] eqn:Ec; [done|].
    pose proof (children_rank s rid c Hs ltac:(rewrite Ec; apply list_elem_of_here)). lia.
  - exists s2. split; [exact (transitivity R1 R2)|]. intros [|fuel] Hf; [lia|]. apply HU.
Qed.

(** C28: the cascade over cross-zone parents ends.  When parent links have no
    cycle (children rank below their parents) and no sum of stakes overflows,
    re-evaluating a record, with the recursive re-evaluation of the records that
    name it as a parent whenever it becomes final, returns, with the same final
    state for every recursion depth above the record's rank; it changes levels
    and queues only. *)
Theorem cascade_terminates rid suppress s :
  sound s →
  ∃ s', relevel s s' ∧
    ∀ fuel, (rank rid < fuel)%nat → recompute_confirmation zone_count fuel rid suppress s = (Ok tt, s').
Proof. intros Hs. by apply recompute_total. Qed.
End cascade_end.

(** ** Examples *)

Module FinalityExamples.
#[local] Existing Instance toy_externals.
#[local] Instance list_order : StringOrder.
Proof. by refine {| walk A m := map_to_list m |}. Defined.

(** A zone of 30, three witnesses of three organizations. *)
Definition small_zone : AWCConsensus :=
  awc_new <| zone_stakes := {[ "0" := 30 ]} |>
    <| profiles := {[ "a" := mkProfile "x" "1" "eu"; "b" := mkProfile "y" "2" "us"; "c" := mkProfile "z" "3" "as" ]} |>.
Definition vote (rid w : string) (t : Z) : Attestation := mkAtt rid w 10 (f64_of_Z t).
Definition seal_vote (sid w : string) (t : Z) : SealAttestation := mkSealAtt sid "0" 1 w 10 (f64_of_Z t).

Definition late_creator : list AwcEvent :=
  [EAttest (vote "r" "a" 0); EAttest (vote "r" "b" 10); EAttest (vote "r" "b" 20);
   ECreator "r" "a" 5; ESealAttest f64_0 (seal_vote "s" "c" 0); EAttest (vote "r" "a" 30)].
Lemma late_creator_runs : (history 1 5 late_creator awc_new).1 = Ok tt.
Proof. by vm_compute. Qed.
Lemma witnesses_counted_once_witness :
  let s := (history 1 5 late_creator awc_new).2 in
  tallies att_record_id att_witness (creator_identity s) (attestations s) ∧
  tallies sa_seal_id sa_witness (creator_identity s) (seal_attestations s).
Proof.
  apply (witnesses_counted_once 1 5 (fun _ => "a") late_creator).
  - repeat constructor.
  - rewrite <- late_creator_runs. apply surjective_pairing.
Defined.

(** A record registered twice, under two creators: the second one's attestation
    stays. *)
Theorem second_creator_keeps_vote :
  let s := (history 1 5 [EAttest (vote "r" "b" 0); ECreator "r" "a" 5; ECreator "r" "b" 5] awc_new).2 in
  creator_identity s !! "r" = Some "b" ∧ attestations s !! "r" = Some [vote "r" "b" 0].
Proof. by vm_compute. Qed.

Definition two_votes : AWCConsensus :=
  small_zone <| attestations := {[ "r" := [vote "r" "a" 0; vote "r" "b" 10] ]} |>.

(** Finality is not monotone.  A record finalized through its seal falls back to
    sealed when its first own attestation arrives, and is queued for commitment
    a second time when its own attestations settle it. *)
Theorem finality_withdrawn :
  let events := [ESealRecords "s" ["r"]; ESealAttest f64_0 (seal_vote "s" "a" 0); ESealAttest f64_0 (seal_vote "s" "b" 10);
                 ESealAttest f64_0 (seal_vote "s" "c" 20)] in
  let s1 := (history 1 5 events small_zone).2 in
  let s2 := (handle 1 5 (EAttest (vote "r" "a" 0)) s1).2 in
  let s3 := (history 1 5 [EAttest (vote "r" "b" 10); EAttest (vote "r" "c" 20)] s2).2 in
  confirmation_level s1 "r" = Finalized ∧ confirmation_level s2 "r" = Sealed ∧
  confirmation_level s3 "r" = Finalized ∧ finalization_queue s3 = ["r"; "r"].
Proof. by vm_compute. Qed.

Lemma settled_without_decay s r t :
  liveness_decay_enabled s = false →
  u64_sum (att_stake <$> default [] (attestations s !! r)) 0 = Ok t →
  (∃ b, is_settled 1 s r = Ok b) ∧ ∃ b, is_settled_diverse 1 s r = Ok b.
Proof.
  intros Hd Ht. unfold is_settled, is_settled_diverse, eligible_stake, settlement_denominator. rewrite Hd, Ht. cbn [negb orb].
  destruct (0 <? _); cbn [mbind outcome_bind]; (split; [case_match; by eexists|repeat case_match; by eexists]).
Qed.
(** The child [k] has the record [r] as its parent. *)
Definition with_child : AWCConsensus := two_votes <| cross_zone_parents := {[ "k" := ["r"] ]} |>.
Definition rank_of (rid : string) : nat := if bool_decide (rid = "r") then 1 else 0.
Lemma with_child_sound : sound 1 rank_of with_child.
Proof.
  assert (HS : ∀ r, ∃ t, u64_sum (att_stake <$> default [] (attestations with_child !! r)) 0 = Ok t).
  { intros r. unfold with_child, two_votes. simpl. destruct (decide (r = "r")) as [->|Hr].
    - rewrite lookup_singleton_eq. by eexists.
    - rewrite lookup_singleton_ne by done. by eexists. }
  constructor; [|intros r; by edestruct (HS r), (settled_without_decay with_child r)..].
  intros child ps p Hc. change (({[ "k" := ["r"] ]} : gmap string (list string)) !! child = Some ps) in Hc. apply lookup_singleton_Some in Hc as [<- <-].
  intros ->%list_elem_of_singleton. by vm_compute.
Qed.
Lemma cascade_terminates_witness :
  ∃ s', relevel with_child s' ∧
    ∀ fuel, (1 < fuel)%nat → recompute_confirmation 1 fuel "r" false with_child = (Ok tt, s').
Proof. apply (cascade_terminates 1 rank_of "r" false with_child with_child_sound). Defined.
End FinalityExamples.
