(* ===== verification/SeenSet.v ===== *)
(** * The bounded dedup set

    src/network/ingest.rs, [SeenSet]: a map from keys to the sequence number of
    their latest insert, a queue of slots, lazy removal and compaction; and its
    refinement of a plain queue of at most [capacity] keys. *)

From S2P Require Import Prelude.
Open Scope nat_scope.

Record SeenSet := mkSeen {
  seen_set : gmap string Z;
  seen_order : list (Z * string);
  next_seq : Z;
  capacity : nat;
}.
Definition eta_SeenSet (s : SeenSet) := mkSeen (seen_set s) (seen_order s) (next_seq s) (capacity s).
#[export] Hint Extern 0 (@Setter SeenSet _ _) => derive_setter eta_SeenSet : typeclass_instances.

Definition seen_new (cap : nat) : SeenSet := mkSeen ∅ [] 0 cap.
Definition seen_len (s : SeenSet) : nat := size (seen_set s).
Definition seen_clear (s : SeenSet) : SeenSet := s <| seen_set := ∅ |> <| seen_order := [] |>.
Definition seen_contains (key : string) (s : SeenSet) : bool := bool_decide (is_Some (seen_set s !! key)).

(** The slot holds the latest insert of its key. *)
Definition live (set : gmap string Z) (slot : Z * string) : bool := bool_decide (set !! slot.2 = Some slot.1).

(** [while set.len() >= capacity { pop_front .. }] *)
Fixpoint evict_loop (cap : nat) (order : list (Z * string)) (set : gmap string Z)
    : list (Z * string) * gmap string Z :=
  match order with
  | slot :: order' =>
      if bool_decide (cap <= size set)
      then evict_loop cap order' (if live set slot then delete slot.2 set else set)
      else (order, set)
  | [] => ([], set)
  end.
Definition seen_insert (key : string) (s : SeenSet) : bool * SeenSet :=
  if seen_contains key s then (false, s)
  else
    let '(order, set) := evict_loop (capacity s) (seen_order s) (seen_set s) in
    let seq := next_seq s in
    (true, mkSeen (<[key := seq]> set) (order ++ [(seq, key)]) (U64.wrapping_add seq 1) (capacity s)).
Definition compact (s : SeenSet) : SeenSet :=
  s <| seen_order ::= filter (fun slot => live (seen_set s) slot = true) |>.
Definition seen_remove (key : string) (s : SeenSet) : SeenSet :=
  match seen_set s !! key with
  | None => s
  | Some _ =>
      let s := s <| seen_set ::= delete key |> in
      if bool_decide (2 * size (seen_set s) + 64 < length (seen_order s)) then compact s else s
  end.

(** ** The queue it stands for *)

Inductive SeenOp := SInsert (key : string) | SRemove (key : string) | SContains (key : string) | SClear.
Definition seen_step (s : SeenSet) (op : SeenOp) : bool * SeenSet :=
  match op with
  | SInsert k => seen_insert k s
  | SRemove k => (true, seen_remove k s)
  | SContains k => (seen_contains k s, s)
  | SClear => (true, seen_clear s)
  end.
(** A queue of keys, oldest first, of at most [max cap 1] keys. *)
Definition fifo_step (cap : nat) (l : list string) (op : SeenOp) : bool * list string :=
  match op with
  | SInsert k => if bool_decide (k ∈ l) then (false, l)
                 else (true, drop (S (length l) - Nat.max cap 1) l ++ [k])
  | SRemove k => (true, filter (fun x => x ≠ k) l)
  | SContains k => (bool_decide (k ∈ l), l)
  | SClear => (true, [])
  end.
Fixpoint answers {S} (step : S → SeenOp → bool * S) (s : S) (ops : list SeenOp) : list bool * S :=
  match ops with
  | [] => ([], s)
  | op :: ops => let '(b, s) := step s op in let '(bs, s) := answers step s ops in (b :: bs, s)
  end.

(** ** Invariant *)

Definition slots (s : SeenSet) : list (Z * string) := filter (fun slot => live (seen_set s) slot = true) (seen_order s).
Definition keys (s : SeenSet) : list string := (slots s).*2.

Record SeenInv (s : SeenSet) : Prop := {
  seen_next : (0 <= next_seq s)%Z;
  seen_slot : ∀ k q, seen_set s !! k = Some q → (q, k) ∈ seen_order s;
  seen_seqs : NoDup (seen_order s).*1;
  seen_past : Forall (fun slot => (slot.1 < next_seq s)%Z) (seen_order s);
  seen_cap : size (seen_set s) <= Nat.max (capacity s) 1;
  seen_bound : length (seen_order s) <= 2 * size (seen_set s) + 64;
}.

Lemma live_spec set slot : live set slot = true ↔ set !! slot.2 = Some slot.1.
Proof. apply bool_decide_eq_true. Qed.
Lemma slots_elem s slot : slot ∈ slots s ↔ slot ∈ seen_order s ∧ seen_set s !! slot.2 = Some slot.1.
Proof. unfold slots. rewrite list_elem_of_filter, live_spec. tauto. Qed.
Lemma keys_elem s k : SeenInv s → k ∈ keys s ↔ is_Some (seen_set s !! k).
Proof.
  intros HI. unfold keys. rewrite list_elem_of_fmap. split.
  - intros ([q k'] & -> & [_ H]%slots_elem). by exists q.
  - intros [q H]. exists (q, k). split; [done|]. apply slots_elem. split; [by apply HI|done].
Qed.

(** ** Eviction *)

Definition slots_of (set : gmap string Z) (order : list (Z * string)) : list (Z * string) :=
  filter (fun slot => live set slot = true) order.
(** The queue holds a slot of every key, and sequence numbers differ. *)
Definition covers (set : gmap string Z) (order : list (Z * string)) : Prop :=
  NoDup order.*1 ∧ ∀ k q, set !! k = Some q → (q, k) ∈ order.

Lemma slots_of_keys set order : covers set order → NoDup (slots_of set order).*2 ∧ length (slots_of set order) = size set.
Proof.
  intros [HN HC].
  assert (HK : ∀ k, k ∈ (slots_of set order).*2 ↔ k ∈ dom set).
  { intros k. rewrite list_elem_of_fmap, elem_of_dom. split.
    - intros ([q k'] & -> & [Hl _]%list_elem_of_filter). apply live_spec in Hl. by exists q.
    - intros [q H]. exists (q, k). split; [done|]. apply list_elem_of_filter. split; [by apply live_spec|by apply HC]. }
  assert (HND : NoDup (slots_of set order).*2).
  { apply NoDup_fmap_2_strong.
    - intros [q1 k1] [q2 k2] [H1 _]%list_elem_of_filter [H2 _]%list_elem_of_filter E. apply live_spec in H1, H2.
      simpl in *. subst. congruence.
    - apply NoDup_filter. by eapply NoDup_fmap_1. }
  split; [done|]. rewrite <- (length_fmap snd), <- (size_list_to_set (C := gset string) _ HND), <- size_dom.
  f_equal. apply set_eq. intros k. by rewrite elem_of_list_to_set.
Qed.

Lemma slots_of_ext set set' order :
  (∀ slot, slot ∈ order → live set slot = live set' slot) → slots_of set order = slots_of set' order.
Proof.
  unfold slots_of. induction order as [|x order IH]; intros H; [done|]. rewrite !filter_cons.
  rewrite (H x (list_elem_of_here _ _)). rewrite IH; [done|]. intros slot Hs. apply H. by right.
Qed.
Lemma slots_of_delete set order slot :
  NoDup (slot :: order).*1 → live set slot = true → slots_of (delete slot.2 set) order = slots_of set order.
Proof.
  intros [Hn _]%NoDup_cons Hl%live_spec. apply slots_of_ext. intros [q k] Hin. unfold live. simpl.
  destruct (decide (slot.2 = k)) as [E|Hne]; [|by rewrite lookup_delete_ne].
  rewrite <- E, lookup_delete_eq, Hl. rewrite !bool_decide_eq_false_2; [done| |done].
  intros [= Hq]. apply Hn. apply list_elem_of_fmap. by exists (q, k).
Qed.

(** The loop drops the oldest live keys, just enough of them. *)
Lemma evict_loop_spec cap order set order' set' :
  covers set order → evict_loop cap order set = (order', set') →
  slots_of set' order' = drop (S (size set) - Nat.max cap 1) (slots_of set order) ∧
  covers set' order' ∧ set' ⊆ set ∧ order' `suffix_of` order ∧ size set' < Nat.max cap 1 ∧
  (size set <= Nat.max cap 1 →
   length order' + 2 * size set <= length order + 2 * size set' + if bool_decide (size set < Nat.max cap 1) then 0 else 1).
Proof.
  revert set. induction order as [|slot order IH]; intros set HC; cbn [evict_loop].
  { intros [= <- <-]. pose proof (slots_of_keys set [] HC) as [_ HL]. simpl in HL.
    split_and!; [by change (@nil (Z * string) = drop (S (size set) - Nat.max cap 1) []); rewrite drop_nil|done|done|done|lia|lia]. }
  pose proof (slots_of_keys set _ HC) as [_ HL]. destruct HC as [HN HC].
  assert (HN' : NoDup order.*1) by (by apply NoDup_cons in HN as [_ HN]).
  case_bool_decide as Hcap.
  2: { intros [= <- <-]. split_and!; [|by split|done|done|lia|lia].
       replace (S (size set) - Nat.max cap 1) with 0 by lia. done. }
  destruct (live set slot) eqn:El.
  - assert (Hin : is_Some (set !! slot.2)) by (apply live_spec in El; by eexists).
    pose proof (map_size_delete_Some _ _ Hin).
    assert (size set ≠ 0) by (apply map_size_non_empty_iff; intros ->; destruct Hin; by rewrite lookup_empty in *).
    intros H'. destruct (IH (delete slot.2 set)) as (H1 & H2 & H3 & H4 & H5 & H6); [|done|].
    { split; [done|]. intros k q [Hk Hq]%lookup_delete_Some. specialize (HC k q Hq).
      apply elem_of_cons in HC as [E|HC]; [|done]. subst. by destruct Hk. }
    split_and!; [|done|etrans; [exact H3|apply delete_subseteq]|by apply suffix_cons_r|done|simpl; intros; repeat case_bool_decide; lia].
    rewrite H1, slots_of_delete by done. unfold slots_of at 2. rewrite filter_cons_True by done. fold (slots_of set order).
    replace (S (size set) - Nat.max cap 1) with (S (S (size (delete slot.2 set)) - Nat.max cap 1)) by lia. done.
  - intros H'. destruct (IH set) as (H1 & H2 & H3 & H4 & H5 & H6); [|done|].
    { split; [done|]. intros k q Hq. specialize (HC k q Hq). apply elem_of_cons in HC as [<-|HC]; [|done].
      unfold live in El. simpl in El. bools. done. }
    split_and!; [|done|done|by apply suffix_cons_r|done|simpl; intros; repeat case_bool_decide; lia].
    rewrite H1. unfold slots_of at 2. rewrite filter_cons_False by (by rewrite El). done.
Qed.

(** ** Refinement *)

Lemma SeenInv_covers s : SeenInv s → covers (seen_set s) (seen_order s).
Proof. intros HI. split; apply HI. Qed.
Lemma keys_length s : SeenInv s → length (keys s) = size (seen_set s).
Proof. intros HI. unfold keys. rewrite length_fmap. apply (slots_of_keys _ _ (SeenInv_covers s HI)). Qed.
Lemma contains_keys k s : SeenInv s → seen_contains k s = bool_decide (k ∈ keys s).
Proof. intros HI. apply bool_decide_ext. by rewrite keys_elem. Qed.

(** A new slot at the end of the queue. *)
Lemma slots_of_push set order k q :
  set !! k = None → Forall (fun slot => (slot.1 < q)%Z) order →
  slots_of (<[k := q]> set) (order ++ [(q, k)]) = slots_of set order ++ [(q, k)].
Proof.
  intros Hk Hq. unfold slots_of at 1. rewrite filter_app. f_equal.
  - apply slots_of_ext. intros [q' k'] Hin. rewrite Forall_forall in Hq. specialize (Hq _ Hin). unfold live. simpl in *.
    destruct (decide (k = k')) as [<-|Hne]; [|by rewrite lookup_insert_ne].
    rewrite lookup_insert_eq, Hk, !bool_decide_eq_false_2; [done|done|]. intros [= ->]. lia.
  - rewrite filter_cons_True, filter_nil; [done|]. apply live_spec. apply lookup_insert_eq.
Qed.
Lemma insert_refines k s :
  SeenInv s → (next_seq s < U64.MAX)%Z →
  fifo_step (capacity s) (keys s) (SInsert k) = ((seen_insert k s).1, keys (seen_insert k s).2) ∧
  SeenInv (seen_insert k s).2 ∧ (next_seq (seen_insert k s).2 <= next_seq s + 1)%Z.
Proof.
  intros HI Hseq. unfold seen_insert. rewrite contains_keys by done. cbn [fifo_step].
  case_bool_decide as Hk; [split_and!; [done|done|simpl; lia]|].
  destruct (evict_loop (capacity s) (seen_order s) (seen_set s)) as [order set] eqn:Ee.
  destruct (evict_loop_spec _ _ _ _ _ (SeenInv_covers s HI) Ee) as (H1 & [H2 H2'] & H3 & H4 & H5 & H6).
  assert (Hnone : set !! k = None).
  { apply eq_None_not_Some. intros [q Hq]. apply Hk, keys_elem; [done|]. exists q. by eapply lookup_weaken. }
  assert (Hpast : Forall (fun slot => (slot.1 < next_seq s)%Z) order).
  { rewrite Forall_forall. intros x Hx. pose proof (seen_past s HI) as HP. rewrite Forall_forall in HP. apply HP.
    destruct H4 as [pre ->]. apply elem_of_app. by right. }
  assert (Hw : U64.wrapping_add (next_seq s) 1 = (next_seq s + 1)%Z).
  { pose proof (seen_next s HI). unfold U64.wrapping_add, U64.MAX in *. apply Z.mod_small. lia. }
  cbn [fst snd]. split_and!.
  - f_equal. unfold keys, slots. simpl. fold (slots_of (<[k := next_seq s]> set) (order ++ [(next_seq s, k)])).
    rewrite slots_of_push, H1, fmap_app, fmap_drop by done. fold (slots s). fold (keys s).
    by rewrite keys_length.
  - pose proof (map_size_insert_None k (next_seq s) set Hnone) as HS. pose proof (seen_cap s HI). pose proof (seen_bound s HI).
    pose proof (seen_next s HI). constructor; cbn [next_seq seen_set seen_order capacity]; rewrite ?Hw, ?HS; [lia|..].
    + intros k' q [[<- <-]|[_ Hq]]%lookup_insert_Some; apply elem_of_app; [right; by apply list_elem_of_singleton|left; auto].
    + rewrite fmap_app. apply NoDup_app. split_and!; [done| |by apply NoDup_singleton].
      intros q (slot & -> & Hin)%list_elem_of_fmap Hq%list_elem_of_singleton. rewrite Forall_forall in Hpast.
      specialize (Hpast _ Hin). simpl in *. lia.
    + apply Forall_app. split; [|constructor; [simpl; lia|done]]. eapply Forall_impl; [exact Hpast|]. intros x Hx. simpl in *. lia.
    + lia.
    + rewrite length_app. simpl. specialize (H6 ltac:(lia)). case_bool_decide; lia.
  - simpl. lia.
Qed.

Lemma slots_of_remove set order k :
  slots_of (delete k set) order = filter (fun slot => slot.2 ≠ k) (slots_of set order).
Proof.
  unfold slots_of. rewrite list_filter_filter. apply list_filter_iff. intros [q k']. rewrite !live_spec. simpl.
  rewrite lookup_delete_Some. intuition congruence.
Qed.
Lemma filter_fmap_snd k (l : list (Z * string)) :
  filter (fun x => x ≠ k) l.*2 = (filter (fun slot => slot.2 ≠ k) l).*2.
Proof.
  induction l as [|[q x] l IH]; [done|]. csimpl. rewrite !filter_cons. simpl. destruct (decide (x ≠ k)); csimpl; by rewrite IH.
Qed.

Lemma remove_refines k s :
  SeenInv s → filter (fun x => x ≠ k) (keys s) = keys (seen_remove k s) ∧ SeenInv (seen_remove k s).
Proof.
  intros HI. unfold seen_remove. destruct (seen_set s !! k) as [q|] eqn:Ek.
  2: { split; [|done]. apply filter_all, Forall_forall. intros x Hx ->. apply keys_elem in Hx; [|done].
       rewrite Ek in Hx. by destruct Hx. }
  set (s1 := s <| seen_set ::= delete k |>). cbv zeta.
  assert (HK : keys s1 = filter (fun x => x ≠ k) (keys s)).
  { unfold keys. rewrite filter_fmap_snd. f_equal. unfold slots. simpl. apply slots_of_remove. }
  assert (HC : covers (seen_set s1) (seen_order s1)).
  { split; [apply HI|]. intros k' q' Hq. apply (lookup_delete_Some (seen_set s) k) in Hq as [_ Hq]. by apply HI. }
  assert (HS1 : size (seen_set s1) = pred (size (seen_set s))) by (apply map_size_delete_Some; by eexists).
  pose proof (seen_cap s HI). change (capacity s) with (capacity s1) in *.
  case_bool_decide as Hb.
  - assert (HI2 : slots (compact s1) = slots s1).
    { unfold slots, compact. simpl. rewrite list_filter_filter. apply list_filter_iff. tauto. }
    split; [unfold keys in *; by rewrite HI2|]. destruct HC as [HN HC]. constructor; simpl.
    + apply HI.
    + intros k' q' Hq. apply list_elem_of_filter. split; [by apply live_spec|by apply HC].
    + eapply sublist_NoDup; [exact HN|]. apply fmap_sublist, sublist_filter.
    + pose proof (seen_past s HI) as HP. rewrite Forall_forall in *. intros x [_ Hx]%list_elem_of_filter. by apply HP.
    + change (size (seen_set s1) <= Nat.max (capacity s1) 1). lia.
    + destruct (slots_of_keys (seen_set s1) (seen_order s1) (conj HN HC)) as [_ HL]. unfold slots_of in HL. simpl in HL.
      rewrite HL. simpl in *. lia.
  - split; [done|]. destruct HC as [HN HC]. constructor; [apply HI|exact HC|exact HN|apply HI|lia|lia].
Qed.

Lemma step_refines s op :
  SeenInv s → (next_seq s < U64.MAX)%Z →
  fifo_step (capacity s) (keys s) op = ((seen_step s op).1, keys (seen_step s op).2) ∧
  SeenInv (seen_step s op).2 ∧ (next_seq (seen_step s op).2 <= next_seq s + 1)%Z ∧
  capacity (seen_step s op).2 = capacity s.
Proof.
  intros HI Hn. destruct op as [k|k|k|]; cbn [seen_step fifo_step].
  - destruct (insert_refines k s HI Hn) as (H1 & H2 & H3). split_and!; [done..|]. unfold seen_insert.
    destruct (seen_contains k s); [done|]. by destruct (evict_loop _ _ _).
  - destruct (remove_refines k s HI) as [H1 H2]. rewrite H1. split_and!; [done|done|..].
    all: unfold seen_remove; destruct (seen_set s !! k); [|simpl; (done || lia)]; cbv zeta; case_bool_decide; simpl; (done || lia).
  - rewrite contains_keys by done. split_and!; [done|done|simpl; lia|done].
  - pose proof (seen_next s HI). split_and!; [done| |simpl; lia|done]. constructor; simpl; [done|done|apply NoDup_nil_2|done|rewrite map_size_empty; lia|lia].
Qed.

Lemma SeenInv_new cap : SeenInv (seen_new cap).
Proof. constructor; simpl; [lia|done|apply NoDup_nil_2|done|rewrite map_size_empty; lia|lia]. Qed.

Lemma answers_refine ops s :
  SeenInv s → (next_seq s + Z.of_nat (length ops) <= U64.MAX)%Z →
  (answers seen_step s ops).1 = (answers (fifo_step (capacity s)) (keys s) ops).1 ∧ SeenInv (answers seen_step s ops).2 ∧
  capacity (answers seen_step s ops).2 = capacity s.
Proof.
  revert s. induction ops as [|op ops IH]; intros s HI Hn; [done|]. cbn [answers length] in *.
  destruct (step_refines s op HI ltac:(lia)) as (HF & HI' & Hn' & Hc). rewrite HF.
  destruct (seen_step s op) as [b s']. cbn [fst snd] in *.
  destruct (IH s' HI' ltac:(lia)) as (H1 & H2 & H3). rewrite Hc in *.
  destruct (answers seen_step s' ops), (answers (fifo_step (capacity s)) (keys s') ops). cbn [fst snd] in *.
  split_and!; [by f_equal|done|done].
Qed.

(** C33: the dedup set is a bounded queue.  Over any sequence of inserts, removals,
    lookups and clears shorter than the 64-bit sequence counter, [SeenSet] gives
    exactly the answers of a first-in first-out queue of at most [capacity] keys
    (one when the capacity is zero), whatever slots removals left behind; it never
    holds more keys than that, and its queue of slots never more than twice the
    keys plus 64. *)
Theorem seen_set_is_fifo cap ops :
  (Z.of_nat (length ops) <= U64.MAX)%Z →
  (answers seen_step (seen_new cap) ops).1 = (answers (fifo_step cap) [] ops).1 ∧
  let s := (answers seen_step (seen_new cap) ops).2 in
  seen_len s <= Nat.max cap 1 ∧ length (seen_order s) <= 2 * seen_len s + 64.
Proof.
  intros Hn. destruct (answers_refine ops (seen_new cap) (SeenInv_new cap)) as (H1 & H2 & H3); [simpl; lia|].
  split; [exact H1|]. simpl in H3. pose proof (seen_cap _ H2). pose proof (seen_bound _ H2). rewrite H3 in *. done.
Qed.

Lemma seen_set_is_fifo_witness :
  (answers seen_step (seen_new 2) [SInsert "a"; SInsert "b"; SRemove "a"; SInsert "a"; SInsert "c"; SContains "b"; SContains "a"]).1
  = [true; true; true; true; true; false; true].
Proof.
  rewrite (proj1 (seen_set_is_fifo 2 [SInsert "a"; SInsert "b"; SRemove "a"; SInsert "a"; SInsert "c"; SContains "b"; SContains "a"] ltac:(done))).
  by vm_compute.
Defined.
