(* ===== verification/XZoneRelay.v ===== *)
(** * Collecting cross-zone signatures

    How the signatures that release a cross-zone transfer are gathered: the two
    collections of src/network/consensus.rs and the observations of inbound
    locks, the gossip handlers of src/network/pq_transport/router.rs, the
    committee lookup of src/network/zone_committee.rs, and from
    src/network/epoch.rs the attachment of proofs to the locks of a seal, the
    emitter of abort signatures and the aggregator of abort bundles.  In the
    source the collections are fields of [AWCConsensus]; no other operation
    reads or writes them, and they are a record of their own here. *)

From S2P Require Import Prelude Sorting F64 Types CrossZone Merkle SeenSet.
Open Scope Z_scope.

Definition MAX_SEAL_FINALITY_SIG_ENTRIES : nat := Z.to_nat 5000.
Definition MAX_XZONE_ABORT_SIG_ENTRIES : nat := Z.to_nat 5000.
Definition MAX_XZONE_ABORT_OBSERVATIONS : nat := Z.to_nat 50000.
Definition MAX_WITNESS_GOSSIP_BODY : Z := 256 * 1024.

(** ** Collections *)

Record SealFinalityCollection := mkFinalityColl {
  fc_seal_epoch : Z;
  fc_committee_hash : hash;
  fc_committee_size : Z;
  fc_signers : list SealFinalityWitness;
}.
Record XZoneAbortCollection := mkAbortColl {
  ac_source_seal_epoch : Z;
  ac_dest_committee_hash : hash;
  ac_dest_committee_size : Z;
  ac_signers : list SealFinalityWitness;
}.
Record XZoneAbortObservation := mkObservation {
  ob_transfer_id : string;
  ob_source_zone : string;
  ob_dest_zone : string;
  ob_source_seal_epoch : Z;
  ob_locked_at : f64;
  ob_expires_at : f64;
  ob_lock_record_hash : hash;
  ob_amount : Z;
}.
Record Collections := mkCollections {
  seal_finality_collections : gmap string SealFinalityCollection;
  xzone_abort_collections : gmap string XZoneAbortCollection;
  xzone_abort_observations : gmap string XZoneAbortObservation;
}.
Definition eta_Collections (s : Collections) :=
  mkCollections (seal_finality_collections s) (xzone_abort_collections s) (xzone_abort_observations s).
#[export] Hint Extern 0 (@Setter Collections _ _) => derive_setter eta_Collections : typeclass_instances.
Definition collections_new : Collections := mkCollections ∅ ∅ ∅.

(** [signers.push] unless the key is there. *)
Definition add_signer (w : SealFinalityWitness) (signers : list SealFinalityWitness) : list SealFinalityWitness :=
  if bool_decide (witness_pk w ∈ witness_pk <$> signers) then signers else signers ++ [w].

Section collections.
Context `{HO : StringOrder}.

(** Before a new key enters a full map, a tenth of the map, as it is walked. *)
Definition make_space {A} (cap : nat) (key : string) (m : gmap string A) : gmap string A :=
  if bool_decide (m !! key = None) && bool_decide (cap <= size m)%nat
  then fold_left (fun m k => delete k m) (take (Nat.max (cap / 10) 1) (walk m).*1) m
  else m.

Definition add_seal_finality_signature (seal_id : string) (seal_epoch : Z) (committee_hash : hash)
    (committee_size : Z) (w : SealFinalityWitness) (s : Collections) : Collections :=
  let m := make_space MAX_SEAL_FINALITY_SIG_ENTRIES seal_id (seal_finality_collections s) in
  let entry := default (mkFinalityColl seal_epoch committee_hash committee_size []) (m !! seal_id) in
  let entry :=
    if negb (fc_seal_epoch entry =? seal_epoch) || negb (bool_decide (fc_committee_hash entry = committee_hash))
       || negb (fc_committee_size entry =? committee_size)
    then entry
    else mkFinalityColl (fc_seal_epoch entry) (fc_committee_hash entry) (fc_committee_size entry)
           (add_signer w (fc_signers entry)) in
  s <| seal_finality_collections := <[seal_id := entry]> m |>.
Definition clear_seal_finality_signers (seal_id : string) (s : Collections) : Collections :=
  s <| seal_finality_collections ::= delete seal_id |>.

Definition add_xzone_abort_signature (tid : string) (source_seal_epoch : Z) (dest_committee_hash : hash)
    (dest_committee_size : Z) (w : SealFinalityWitness) (s : Collections) : Collections :=
  let m := make_space MAX_XZONE_ABORT_SIG_ENTRIES tid (xzone_abort_collections s) in
  let entry := default (mkAbortColl source_seal_epoch dest_committee_hash dest_committee_size []) (m !! tid) in
  let entry :=
    if negb (ac_source_seal_epoch entry =? source_seal_epoch)
       || negb (bool_decide (ac_dest_committee_hash entry = dest_committee_hash))
       || negb (ac_dest_committee_size entry =? dest_committee_size)
    then entry
    else mkAbortColl (ac_source_seal_epoch entry) (ac_dest_committee_hash entry) (ac_dest_committee_size entry)
           (add_signer w (ac_signers entry)) in
  s <| xzone_abort_collections := <[tid := entry]> m |>.
Definition clear_xzone_abort_signers (tid : string) (s : Collections) : Collections :=
  s <| xzone_abort_collections ::= delete tid |>.

Definition abort_ready (c : XZoneAbortCollection) : bool :=
  (0 <? ac_dest_committee_size c) &&
  (Z.min U64.MAX (ac_dest_committee_size c * 2) <=? Z.min U64.MAX (Z.of_nat (length (ac_signers c)) * 3)).
Definition ready_xzone_abort_bundles (s : Collections) : list (string * XZoneAbortCollection) :=
  filter (fun kv : string * XZoneAbortCollection => abort_ready kv.2 = true) (walk (xzone_abort_collections s)).

Definition record_xzone_abort_observation (obs : XZoneAbortObservation) (s : Collections) : Collections :=
  s <| xzone_abort_observations ::= fun m =>
        <[ob_transfer_id obs := obs]> (make_space MAX_XZONE_ABORT_OBSERVATIONS (ob_transfer_id obs) m) |>.
Definition expired_xzone_abort_observations (my_zone : string) (now : f64) (s : Collections)
    : list XZoneAbortObservation :=
  filter (fun o => bool_decide (ob_dest_zone o = my_zone) && f64_gtb now (ob_expires_at o) = true)
    (walk (xzone_abort_observations s)).*2.
Definition clear_xzone_abort_observation (tid : string) (s : Collections) : bool * Collections :=
  (bool_decide (is_Some (xzone_abort_observations s !! tid)), s <| xzone_abort_observations ::= delete tid |>).
End collections.

(** ** Gossip *)

Record FinalityWitnessGossipBody := mkFinalityBody {
  fb_seal_id : string;
  fb_seal_epoch : Z;
  fb_committee_hash : hash;
  fb_committee_size : Z;
  fb_witness : SealFinalityWitness;
}.
Record XZoneAbortWitnessGossipBody := mkAbortBody {
  xb_transfer_id : string;
  xb_dest_zone : string;
  xb_source_seal_epoch : Z;
  xb_committee_hash : hash;
  xb_committee_size : Z;
  xb_witness : SealFinalityWitness;
}.

(** What a node looks up: the members the committee resolver draws for a zone
    and epoch, their keys, and the seals in its store (epoch, zone and wire
    version; [Some None] is a record that is not an epoch seal). *)
Class RelayEnv := {
  committee_members : string → Z → list string;
  get_public_key : string → option (list byte);
  local_seal : string → option (option (Z * string * Z));
}.

Section gossip.
Context `{HE : Externals, HO : StringOrder, HR : RelayEnv}.

Definition finality_committee_pks (zone : string) (epoch seal_wire_version : Z)
    : outcome (list (list byte) * hash * Z) :=
  let pks := omap get_public_key (committee_members zone epoch) in
  let pks := dedup_by (fun pk => pk) (stable_sort (by_key_leb committee_leaf_hash bytes_leb) pks) in
  h ← committee_hash_from_pks_for seal_wire_version pks;
  Ok (pks, h, Z.of_nat (length pks) mod 2 ^ 32).

(** The answer is the status and the reason of the reply; [decoded] is what the
    JSON decoder makes of the body. *)
Definition handle_submit_finality_witness (body_len : Z) (decoded : option FinalityWitnessGossipBody)
    : M Collections string :=
  if MAX_WITNESS_GOSSIP_BODY <? body_len then throw (EWire "submit_finality_witness body too large")
  else match decoded with
  | None => throw (EWire "submit_finality_witness: decode failed")
  | Some e =>
      match local_seal (fb_seal_id e) with
      | None => mret "deferred: seal_unknown_locally"
      | Some None => mret "rejected: not_an_epoch_seal_or_epoch_mismatch"
      | Some (Some (epoch, zone, version)) =>
          if negb (epoch =? fb_seal_epoch e) then mret "rejected: not_an_epoch_seal_or_epoch_mismatch"
          else
            '(pks, h, n) ← lift (finality_committee_pks zone (fb_seal_epoch e) version);
            if negb (bool_decide (fb_committee_hash e = h)) || negb (fb_committee_size e =? n)
            then mret "rejected: committee_snapshot_mismatch"
            else if negb (bool_decide (witness_pk (fb_witness e) ∈ pks)) then mret "rejected: witness_not_in_committee"
            else
              modify (add_seal_finality_signature (fb_seal_id e) (fb_seal_epoch e) (fb_committee_hash e)
                        (fb_committee_size e) (fb_witness e));;
              mret "accepted"
      end
  end.

Definition handle_submit_xzone_abort_witness (cz : CrossZoneState) (body_len : Z)
    (decoded : option XZoneAbortWitnessGossipBody) : M Collections string :=
  if MAX_WITNESS_GOSSIP_BODY <? body_len then throw (EWire "submit_xzone_abort_witness body too large")
  else match decoded with
  | None => throw (EWire "submit_xzone_abort_witness: decode failed")
  | Some e =>
      let anchor := t ← pending cz !! xb_transfer_id e;
                    '(h, n) ← dest_finality_committee t;
                    Some (h, n, source_seal_wire_version t) in
      match anchor with
      | Some (h, n, version) =>
          if bool_decide (xb_committee_hash e = h) && (xb_committee_size e =? n) then
            if negb (verify_committee_inclusion_proof version (committee_leaf_hash (witness_pk (xb_witness e)))
                       (committee_proof (xb_witness e)) (xb_committee_hash e))
            then mret "rejected: witness_not_in_committee"
            else
              modify (add_xzone_abort_signature (xb_transfer_id e) (xb_source_seal_epoch e) (xb_committee_hash e)
                        (xb_committee_size e) (xb_witness e));;
              mret "accepted"
          else mret "rejected: committee snapshot does not match sealed anchor"
      | None => mret "rejected: committee snapshot does not match sealed anchor"
      end
  end.

(** ** Proofs for the locks of a seal *)

Record ParsedSeal := mkParsedSeal {
  ps_record_hashes : list hash;
  ps_merkle_root : hash;
  ps_wire_version : Z;
  ps_dest_committees : option (gmap string (hash * Z));
}.
(** [let _ = ..]: an error is dropped. *)
Definition ignore_err {S} (m : M S unit) : M S unit := fun s =>
  match m s with (Err _, s') => (Ok tt, s') | r => r end.

Definition needs_proof (cz : CrossZoneState) (hashes : list hash) : list (string * hash * string) :=
  h ← hashes;
  tid ← needs_proof_ids cz h;
  match pending cz !! tid with
  | Some t => if is_locked t && unsealed t then [(tid, lock_record_hash t, dest_zone t)] else []
  | None => []
  end.
Definition freeze_anchor (tid : string) (anchor : hash * Z) (cz : CrossZoneState) : CrossZoneState :=
  cz <| pending ::= alter (fun t => t <| dest_finality_committee := Some anchor |>) tid |>.

Definition attach_one (seal : ParsedSeal) (finality : option SealFinalityCollection)
    (entry : string * hash * string) : M CrossZoneState Z :=
  let '(tid, lock_hash, dest) := entry in
  if negb (bool_decide (lock_hash ∈ ps_record_hashes seal)) then mret 0
  else
    proof ← lift (seal_proof_for (ps_wire_version seal) (ps_record_hashes seal) lock_hash);
    match proof with
    | None => mret 0
    | Some p =>
        ignore_err (set_proof tid (to_proof_siblings (mp_siblings p)) (ps_merkle_root seal) (ps_wire_version seal));;
        match finality with
        | Some c => ignore_err (set_finality_witnesses tid (fc_signers c) (fc_committee_hash c)
                                  (fc_seal_epoch c) (fc_committee_size c))
        | None => mret tt
        end;;
        match ps_dest_committees seal ≫= fun m => m !! dest with
        | Some anchor => modify (freeze_anchor tid anchor)
        | None => mret tt
        end;;
        mret 1
    end.
Fixpoint attach_all (seal : ParsedSeal) (finality : option SealFinalityCollection)
    (entries : list (string * hash * string)) : M CrossZoneState Z :=
  match entries with
  | [] => mret 0
  | e :: entries => n ← attach_one seal finality e; m ← attach_all seal finality entries; mret (n + m)
  end.
(** [seal_id] and the collections are given together, or not at all. *)
Definition attach_xzone_proofs_from_seal_with_finality (seal : ParsedSeal) (source : option (string * Collections))
    : M CrossZoneState Z :=
  if bool_decide (ps_record_hashes seal = []) then mret 0
  else
    let finality := '(sid, c) ← source; seal_finality_collections c !! sid in
    cz ← get;
    attach_all seal finality (needs_proof cz (ps_record_hashes seal)).

(** ** The epoch tick: abort signatures and bundles *)

Record Relay := mkRelay { collections : Collections; xzone_abort_aggregated_seen : SeenSet }.
Definition eta_Relay (r : Relay) := mkRelay (collections r) (xzone_abort_aggregated_seen r).
#[local] Hint Extern 0 (@Setter Relay _ _) => derive_setter eta_Relay : typeclass_instances.
Definition relay_new : Relay := mkRelay collections_new (seen_new (Z.to_nat 5000)).

Definition abort_candidates (now : f64) (cz : CrossZoneState) : list PendingTransfer :=
  filter (fun t => is_locked t && negb (unsealed t) && f64_gtb now (expires_at t) = true) (walk (pending cz)).*2.

(** One candidate: the signature is stored when the consensus lock is free, and
    gossiped in any case. *)
Definition emit_one (signer : Signer) (consensus_free : string → bool) (t : PendingTransfer)
    : M Collections (option XZoneAbortWitnessGossipBody) :=
  match dest_finality_committee t with
  | None => mret None
  | Some (anchor_hash, _) =>
      '(pks, _, _) ← lift (finality_committee_pks (dest_zone t) (source_seal_epoch t) (source_seal_wire_version t));
      signed ← lift (try_sign_xzone_abort signer (transfer_id t) (dest_zone t) (source_seal_epoch t)
                       (source_seal_wire_version t) pks anchor_hash);
      match signed with
      | None => mret None
      | Some (w, h, n) =>
          when (consensus_free (transfer_id t))
            (modify (add_xzone_abort_signature (transfer_id t) (source_seal_epoch t) h n w));;
          mret (Some (mkAbortBody (transfer_id t) (dest_zone t) (source_seal_epoch t) h n w))
      end
  end.
Fixpoint emit_all (signer : Signer) (consensus_free : string → bool) (ts : list PendingTransfer)
    : M Collections (list XZoneAbortWitnessGossipBody) :=
  match ts with
  | [] => mret []
  | t :: ts => o ← emit_one signer consensus_free t; rest ← emit_all signer consensus_free ts;
               mret (match o with Some b => b :: rest | None => rest end)
  end.
(** [ledger] is [None] when the ledger lock is taken. *)
Definition emit_aborts (signer : Signer) (now : f64) (ledger : option CrossZoneState)
    (consensus_free : string → bool) : M Collections (list XZoneAbortWitnessGossipBody) :=
  emit_all signer consensus_free (match ledger with Some cz => abort_candidates now cz | None => [] end).

(** [seen.insert] under its lock. *)
Definition mark_seen (tid : string) : M Relay bool := fun r =>
  let '(b, seen) := seen_insert tid (xzone_abort_aggregated_seen r) in
  (Ok b, r <| xzone_abort_aggregated_seen := seen |>).
Definition pending_in (ledger : option CrossZoneState) (tid : string) : option PendingTransfer :=
  cz ← ledger; pending cz !! tid.

(** One collection with a quorum.  [ledger] is what the lock gives for this
    transfer, [submit] whether the record was made and inserted. *)
Definition aggregate_one (ledger : string → option CrossZoneState) (submit : XZoneAbortBundle → bool)
    (kv : string * XZoneAbortCollection) : M Relay (option XZoneAbortBundle) :=
  let '(tid, c) := kv in
  fresh ← mark_seen tid;
  if negb fresh then mret None
  else match pending_in (ledger tid) tid with
       | None => mret None
       | Some t =>
           if negb (is_locked t) || negb (source_seal_epoch t =? ac_source_seal_epoch c) then mret None
           else
             let bundle := mkAbortBundle tid (dest_zone t) (ac_source_seal_epoch c) (ac_dest_committee_hash c)
               (ac_dest_committee_size c) (ac_signers c) (source_seal_wire_version t) in
             match abort_bundle_verify bundle with
             | Ok _ => mret (if submit bundle then Some bundle else None)
             | _ => mret None
             end
       end.
Fixpoint aggregate_all (ledger : string → option CrossZoneState) (submit : XZoneAbortBundle → bool)
    (l : list (string * XZoneAbortCollection)) : M Relay (list XZoneAbortBundle) :=
  match l with
  | [] => mret []
  | kv :: l => o ← aggregate_one ledger submit kv; rest ← aggregate_all ledger submit l;
               mret (match o with Some b => b :: rest | None => rest end)
  end.
Definition aggregate (consensus_free : bool) (ledger : string → option CrossZoneState)
    (submit : XZoneAbortBundle → bool) : M Relay (list XZoneAbortBundle) :=
  r ← get;
  aggregate_all ledger submit (if consensus_free then ready_xzone_abort_bundles (collections r) else []).
End gossip.
#[export] Hint Extern 0 (@Setter Relay _ _) => derive_setter eta_Relay : typeclass_instances.
