(* ===== verification/XZoneRelayProps.v ===== *)
(** * Cross-zone signatures: from gossip to the ledger

    What the relay of [XZoneRelay] achieves when the committee is honest, what
    its collections can hold, and three ways in which it can be starved. *)

From S2P Require Import Prelude Sorting F64 Types CrossZone CrossZoneInv CrossZoneProps Merkle MerkleProps SeenSet XZoneRelay.
Open Scope Z_scope.

(** ** Collections *)

Section storing.
Context `{HO : StringOrder}.

Lemma make_space_room {A} cap key (m : gmap string A) : (size m < cap)%nat → make_space cap key m = m.
Proof.
  intros H. unfold make_space. rewrite (bool_decide_eq_false_2 (cap <= size m)%nat) by lia. by rewrite andb_false_r.
Qed.
Lemma make_space_subseteq {A} cap key (m : gmap string A) : make_space cap key m ⊆ m.
Proof.
  unfold make_space. destruct (_ && _); [|done]. generalize (take (Nat.max (cap / 10) 1) (walk m).*1). intros l.
  revert m. induction l as [|k l IH]; intros m; [done|]. cbn [fold_left]. etrans; [apply IH|apply delete_subseteq].
Qed.
Lemma add_signer_pks w l : NoDup (witness_pk <$> l) → NoDup (witness_pk <$> add_signer w l).
Proof.
  intros HN. unfold add_signer. case_bool_decide as Hin; [done|]. rewrite fmap_app. apply NoDup_app.
  split_and!; [done| |by apply NoDup_singleton]. intros pk Hpk ->%list_elem_of_singleton. done.
Qed.
Lemma add_signer_elem w l x : x ∈ add_signer w l → x ∈ l ∨ x = w.
Proof.
  unfold add_signer. case_bool_decide; [by left|]. rewrite elem_of_app, list_elem_of_singleton. done.
Qed.
Lemma add_signer_mem w l pk :
  pk ∈ witness_pk <$> add_signer w l ↔ pk ∈ witness_pk <$> l ∨ pk = witness_pk w.
Proof.
  unfold add_signer. case_bool_decide as Hin; [|rewrite fmap_app, elem_of_app; csimpl; by rewrite list_elem_of_singleton].
  split; [by left|]. by intros [H| ->].
Qed.
End storing.

(** ** An honest committee gets its abort through *)

Section aborts.
Context `{HE : Externals, HO : StringOrder, HR : RelayEnv}.
Context (cz : CrossZoneState).

(** Gossip bodies, handled one after the other. *)
Definition deliver (msgs : list XZoneAbortWitnessGossipBody) (c : Collections) : Collections :=
  fold_left (fun c e => (handle_submit_xzone_abort_witness cz 0 (Some e) c).2) msgs c.

(** The anchored committee of the transfer [t]. *)
Context (tid : string) (t : PendingTransfer) (pks : list (list byte)) (r : hash) (proofs : ProofMap).
Let version := source_seal_wire_version t.
Let msg := xzone_abort_signable_bytes tid (dest_zone t) (source_seal_epoch t) r.
Let n := Z.of_nat (length pks).

(** What a member of the committee sends: the body [emit_one] makes, with a
    signature of its own key. *)
Definition honest_body (e : XZoneAbortWitnessGossipBody) : Prop :=
  ∃ s free c c', emit_one s free t c = (Ok (Some e), c') ∧
    (∀ sg, signer_sign s msg = Some sg → sig_verify msg sg (signer_pk s) = true).

Record anchored_by : Prop := {
  an_pending : pending cz !! tid = Some t;
  an_id : transfer_id t = tid;
  an_anchor : dest_finality_committee t = Some (r, n);
  an_size : 0 < n < 2 ^ 32;
  an_members : ∃ h k, finality_committee_pks (dest_zone t) (source_seal_epoch t) version = Ok (pks, h, k);
  an_built : build_committee_proofs_for version pks = Ok (r, proofs);
}.

Lemma honest_signed e : anchored_by → honest_body e →
  ∃ s w, signer_pk s ∈ pks ∧ sign_abort_witness s tid (dest_zone t) (source_seal_epoch t) r proofs = Some w ∧
    (∀ sg, signer_sign s msg = Some sg → sig_verify msg sg (signer_pk s) = true) ∧
    e = mkAbortBody tid (dest_zone t) (source_seal_epoch t) r n w.
Proof.
  intros HA (s & free & c & c' & HE' & Hs). destruct (an_members HA) as (h & k & HM). pose proof (an_size HA) as Hn.
  unfold emit_one in HE'. rewrite (an_anchor HA) in HE'. fold version in HE'. rewrite HM, (an_id HA) in HE'.
  unfold mbind at 1, M_bind at 1, lift at 1 in HE'. cbv beta iota in HE'.
  unfold mbind at 1, M_bind at 1, lift at 1 in HE'. cbv beta iota in HE'. unfold try_sign_xzone_abort in HE'. destruct (bool_decide (pks = [])); [done|].
  destruct (bool_decide (signer_pk s ∈ pks)) eqn:Hpk; [|done]. apply bool_decide_eq_true in Hpk.
  rewrite (an_built HA) in HE'. cbn in HE'. rewrite bool_decide_eq_true_2 in HE' by done.
  destruct (sign_abort_witness s tid (dest_zone t) (source_seal_epoch t) r proofs) as [w|] eqn:Ew; [|done].
  exists s, w. split_and!; [done|done|done|]. cbn in HE'. change (Z.of_nat (length pks)) with n in HE'.
  rewrite Z.mod_small in HE' by lia. unfold mbind, M_bind, when in HE'. cbn in HE'.
  destruct (free tid); cbn in HE'; by injection HE' as <- _.
Qed.

(** The collection of the transfer, after [delivered] arrived. *)
Definition collected (delivered : list (list byte)) (c : Collections) : Prop :=
  match xzone_abort_collections c !! tid with
  | None => delivered = []
  | Some coll =>
      ac_source_seal_epoch coll = source_seal_epoch t ∧ ac_dest_committee_hash coll = r ∧
      ac_dest_committee_size coll = n ∧ NoDup (witness_pk <$> ac_signers coll) ∧
      (∀ w, w ∈ ac_signers coll → valid_signer version msg r w = true) ∧
      (∀ pk, pk ∈ delivered → pk ∈ witness_pk <$> ac_signers coll)
  end.

Lemma honest_valid e : anchored_by → honest_body e → valid_signer version msg r (xb_witness e) = true.
Proof.
  intros HA (s & w & Hpk & Hw & Hs & ->)%(honest_signed e HA). cbn [xb_witness]. unfold sign_abort_witness in Hw.
  destruct (proofs !! signer_pk s) as [p|] eqn:Ep; [|done]. cbn [mbind option_bind] in Hw. fold msg in Hw.
  destruct (signer_sign s msg) as [sg|] eqn:Esg; [|done]. cbn [mbind option_bind] in Hw. injection Hw as <-.
  destruct (build_committee_spec version pks) as (r' & proofs' & HB & _ & HP & _). rewrite (an_built HA) in HB.
  injection HB as <- <-. destruct (HP _ _ Ep) as [_ Hv]. unfold valid_signer. simpl. by rewrite Hv, (Hs sg).
Qed.

(** The handler either drops the body or stores its signature. *)
Definition store_abort (e : XZoneAbortWitnessGossipBody) : Collections → Collections :=
  add_xzone_abort_signature (xb_transfer_id e) (xb_source_seal_epoch e) (xb_committee_hash e)
    (xb_committee_size e) (xb_witness e).
Lemma handle_abort_cases e c :
  let c' := (handle_submit_xzone_abort_witness cz 0 (Some e) c).2 in c' = c ∨ c' = store_abort e c.
Proof.
  unfold handle_submit_xzone_abort_witness. cbn [Z.ltb]. change (MAX_WITNESS_GOSSIP_BODY <? 0) with false. cbv iota zeta.
  destruct (t ← _; _) as [[[h k] v]|]; [|by left]. destruct (_ && _); [|by left]. destruct (negb _); [by left|by right].
Qed.
Lemma store_abort_room e c :
  (size (xzone_abort_collections c) < MAX_XZONE_ABORT_SIG_ENTRIES)%nat →
  ∃ coll, xzone_abort_collections (store_abort e c) = <[xb_transfer_id e := coll]> (xzone_abort_collections c) ∧
    coll = let entry := default (mkAbortColl (xb_source_seal_epoch e) (xb_committee_hash e) (xb_committee_size e) [])
                          (xzone_abort_collections c !! xb_transfer_id e) in
           if negb (ac_source_seal_epoch entry =? xb_source_seal_epoch e)
              || negb (bool_decide (ac_dest_committee_hash entry = xb_committee_hash e))
              || negb (ac_dest_committee_size entry =? xb_committee_size e)
           then entry
           else mkAbortColl (ac_source_seal_epoch entry) (ac_dest_committee_hash entry) (ac_dest_committee_size entry)
                  (add_signer (xb_witness e) (ac_signers entry)).
Proof. intros Hs. eexists. split; [|done]. unfold store_abort, add_xzone_abort_signature. simpl. by rewrite !make_space_room. Qed.

Lemma handle_honest e c :
  anchored_by → honest_body e → (handle_submit_xzone_abort_witness cz 0 (Some e) c).2 = store_abort e c.
Proof.
  intros HA He. pose proof (honest_valid e HA He) as Hv. apply andb_true_iff in Hv as [Hv _].
  destruct (honest_signed e HA He) as (s & w & _ & _ & _ & ->). cbn [xb_witness] in Hv. unfold handle_submit_xzone_abort_witness.
  change (MAX_WITNESS_GOSSIP_BODY <? 0) with false. cbv iota zeta. cbn [xb_transfer_id xb_committee_hash xb_committee_size xb_witness].
  rewrite (an_pending HA). cbn [mbind option_bind]. rewrite (an_anchor HA). cbn [mbind option_bind].
  rewrite bool_decide_eq_true_2, Z.eqb_refl by done. fold version. cbn [andb]. by rewrite Hv.
Qed.

Lemma deliver_one e c delivered :
  anchored_by → (size (xzone_abort_collections c) < MAX_XZONE_ABORT_SIG_ENTRIES)%nat →
  collected delivered c → (xb_transfer_id e = tid → honest_body e) →
  let c' := (handle_submit_xzone_abort_witness cz 0 (Some e) c).2 in
  (size (xzone_abort_collections c') <= S (size (xzone_abort_collections c)))%nat ∧
  collected (if decide (xb_transfer_id e = tid) then witness_pk (xb_witness e) :: delivered else delivered) c'.
Proof.
  intros HA Hs HC He. destruct (store_abort_room e c Hs) as (coll & HM & Hcoll).
  assert (Hsize : (size (xzone_abort_collections (store_abort e c)) <= S (size (xzone_abort_collections c)))%nat).
  { rewrite HM, map_size_insert. destruct (_ !! _); simpl; lia. }
  destruct (decide (xb_transfer_id e = tid)) as [Et|Ht].
  - cbv zeta. rewrite (handle_honest e c HA (He Et)). split; [done|]. unfold collected in *. rewrite HM, Et, lookup_insert_eq.
    pose proof (honest_valid e HA (He Et)) as Hv. destruct (honest_signed e HA (He Et)) as (s & w & _ & _ & _ & Ee).
    rewrite Et in Hcoll. destruct (xzone_abort_collections c !! tid) as [old|].
    + destruct HC as (C1 & C2 & C3 & C4 & C5 & C6). subst e. cbn [default from_option id xb_source_seal_epoch xb_committee_hash xb_committee_size xb_witness] in *.
      rewrite C1, C2, C3, !Z.eqb_refl, bool_decide_eq_true_2 in Hcoll by done. cbn in Hcoll. subst coll. cbn.
      split_and!; [done|done|done|by apply add_signer_pks| |].
      * intros x [Hx|Hx]%add_signer_elem; [by apply C5|by rewrite Hx].
      * intros pk [Hpk|Hpk]%elem_of_cons; apply add_signer_mem; [by right|left; by apply C6].
    + subst e delivered. cbn in Hcoll. rewrite !Z.eqb_refl, bool_decide_eq_true_2 in Hcoll by done. cbn in Hcoll. subst coll. cbn.
      split_and!; [done|done|done|by apply NoDup_singleton| |].
      * intros x ->%list_elem_of_singleton. done.
      * intros pk Hpk%list_elem_of_singleton. by apply list_elem_of_singleton.
  - cbv zeta. destruct (handle_abort_cases e c) as [->| ->]; [by split; [lia|]|]. split; [done|].
    unfold collected. by rewrite HM, lookup_insert_ne.
Qed.

Lemma deliver_collected msgs c delivered :
  anchored_by → collected delivered c →
  (size (xzone_abort_collections c) + length msgs <= MAX_XZONE_ABORT_SIG_ENTRIES)%nat →
  (∀ e, e ∈ msgs → xb_transfer_id e = tid → honest_body e) →
  ∃ delivered', collected delivered' (deliver msgs c) ∧ (∀ pk, pk ∈ delivered → pk ∈ delivered') ∧
    ∀ e, e ∈ msgs → xb_transfer_id e = tid → witness_pk (xb_witness e) ∈ delivered'.
Proof.
  intros HA. revert c delivered. induction msgs as [|e msgs IH]; intros c delivered HC Hs He.
  { exists delivered. split_and!; [done|done|]. intros e Hin. by apply elem_of_nil in Hin. }
  simpl in Hs. destruct (deliver_one e c delivered HA ltac:(lia) HC) as [Hsz HC'];
    [apply He, list_elem_of_here|].
  set (d := if decide (xb_transfer_id e = tid) then _ else _) in HC'.
  destruct (IH _ d HC') as (d' & H1 & H2 & H3); [lia|intros x Hx; apply He; by right|].
  exists d'. split_and!; [exact H1| |].
  - intros pk Hpk. apply H2. unfold d. destruct (decide _); [by right|done].
  - intros x [->|Hx]%elem_of_cons Ex; [|by apply H3]. apply H2. unfold d. rewrite decide_True by done.
    apply list_elem_of_here.
Qed.

Definition bundle_of (coll : XZoneAbortCollection) : XZoneAbortBundle :=
  mkAbortBundle tid (dest_zone t) (ac_source_seal_epoch coll) (ac_dest_committee_hash coll)
    (ac_dest_committee_size coll) (ac_signers coll) version.

(** A clean collection with two thirds of the keys is ready and verifies. *)
Lemma collected_quorum delivered c coll senders :
  anchored_by → collected delivered c → xzone_abort_collections c !! tid = Some coll →
  NoDup senders → (∀ pk, pk ∈ senders → pk ∈ delivered) → 2 * n <= 3 * Z.of_nat (length senders) →
  abort_ready coll = true ∧
  verify_abort_quorum version tid (dest_zone t) (source_seal_epoch t) (ac_dest_committee_hash coll)
    (ac_dest_committee_size coll) (ac_signers coll) (dest_finality_committee t) = Ok tt.
Proof.
  intros HA HC Hl HN Hsub H23. unfold collected in HC. rewrite Hl in HC. destruct HC as (C1 & C2 & C3 & C4 & C5 & C6).
  pose proof (an_size HA) as Hsz.
  assert (Hlen : (length senders <= length (ac_signers coll))%nat).
  { rewrite <- (length_fmap witness_pk (ac_signers coll)). apply submseteq_length, NoDup_submseteq; [done|].
    intros pk Hpk. by apply C6, Hsub. }
  split.
  - unfold abort_ready. rewrite C3. apply andb_true_iff. split; [apply Z.ltb_lt; lia|]. apply Z.leb_le. lia.
  - rewrite C2, C3. apply abort_quorum_exact; [lia|]. split_and!; [apply (an_anchor HA)|lia|].
    fold msg. assert (HV : size (verified_signers version msg r (ac_signers coll)) = length (ac_signers coll)).
    { rewrite <- (length_fmap witness_pk), <- (size_list_to_set (C := gset (list byte)) _ C4). f_equal.
      apply set_eq. intros pk. rewrite verified_signers_spec, elem_of_list_to_set, list_elem_of_fmap. split.
      - intros (w & Hw & <- & _). by exists w.
      - intros (w & -> & Hw). exists w. auto. }
    rewrite HV. lia.
Qed.
Lemma aggregate_submits rl ledger submit coll :
  is_locked t = true → ledger tid = Some cz → pending cz !! tid = Some t →
  seen_contains tid (xzone_abort_aggregated_seen rl) = false →
  ac_source_seal_epoch coll = source_seal_epoch t → abort_bundle_verify (bundle_of coll) = Ok tt →
  submit (bundle_of coll) = true →
  (aggregate_one ledger submit (tid, coll) rl).1 = Ok (Some (bundle_of coll)).
Proof.
  intros Hl Hled Hp Hseen He Hv Hsub. unfold aggregate_one, mark_seen, seen_insert, mbind, M_bind. rewrite Hseen.
  destruct (evict_loop _ _ _) as [order set]. cbn [negb]. rewrite Hled. cbn [pending_in]. unfold pending_in.
  cbn [mbind option_bind]. rewrite Hp, Hl, <- He, Z.eqb_refl. cbn [negb orb]. fold version. fold (bundle_of coll).
  rewrite Hv, Hsub. done.
Qed.

(** C13: an honest committee gets a stuck transfer refunded.  Let a sealed transfer
    carry its destination committee as anchor, and let abort signatures for it
    reach a node by gossip, in any order, repeated, and mixed with bodies of any
    content for other transfers, as long as the collections have room for all of
    them.  If the node holds no collection for this transfer or one with valid
    signatures of that committee, all bodies for this transfer are those its
    members emit, and two thirds of the members are among them, then the node's
    collection is ready, its signatures pass the check the ledger makes before it
    refunds the sender, and the aggregator submits the bundle the first time it
    sees it, if it then gets the ledger's lock, the transfer is still locked and
    the record that carries the bundle is made and stored; without the lock it
    never does ([busy_ledger_loses_bundle]). *)
Theorem honest_abort_submitted msgs c senders :
  anchored_by → collected [] c →
  (size (xzone_abort_collections c) + length msgs <= MAX_XZONE_ABORT_SIG_ENTRIES)%nat →
  (∀ e, e ∈ msgs → xb_transfer_id e = tid → honest_body e) →
  NoDup senders → (∀ pk, pk ∈ senders → ∃ e, e ∈ msgs ∧ xb_transfer_id e = tid ∧ witness_pk (xb_witness e) = pk) →
  2 * n <= 3 * Z.of_nat (length senders) →
  ∃ coll, (tid, coll) ∈ ready_xzone_abort_bundles (deliver msgs c) ∧
    verify_abort_quorum version tid (dest_zone t) (source_seal_epoch t) (ac_dest_committee_hash coll)
      (ac_dest_committee_size coll) (ac_signers coll) (dest_finality_committee t) = Ok tt ∧
    ∀ rl ledger submit,
      is_locked t = true → ledger tid = Some cz → submit (bundle_of coll) = true →
      seen_contains tid (xzone_abort_aggregated_seen rl) = false →
      (aggregate_one ledger submit (tid, coll) rl).1 = Ok (Some (bundle_of coll)).
Proof.
  intros HA Hnone Hsz He HN Hsend H23.
  destruct (deliver_collected msgs c [] HA) as (d & HC & _ & Hd); [done..|].
  assert (Hsub : ∀ pk, pk ∈ senders → pk ∈ d) by (intros pk (e & Hin & Et & <-)%Hsend; by apply Hd).
  destruct (xzone_abort_collections (deliver msgs c) !! tid) as [coll|] eqn:Ec.
  2: { unfold collected in HC. rewrite Ec in HC. subst d. destruct senders as [|pk senders].
       - pose proof (an_size HA). simpl in H23. lia.
       - pose proof (Hsub pk (list_elem_of_here _ _)) as Hin. by apply elem_of_nil in Hin. }
  destruct (collected_quorum d _ coll senders HA HC Ec HN Hsub H23) as [Hr Hq].
  exists coll. split_and!; [|exact Hq|].
  - apply list_elem_of_filter. split; [done|]. rewrite walk_perm. by apply elem_of_map_to_list.
  - unfold collected in HC. rewrite Ec in HC. destruct HC as (C1 & C2 & C3 & _). intros rl ledger submit Hl Hled Hs Hseen.
    apply aggregate_submits; [done|done|apply (an_pending HA)|done|done| |done].
    unfold abort_bundle_verify, bundle_of.
    cbn [ab_transfer_id ab_dest_zone ab_source_seal_epoch ab_dest_committee_hash ab_dest_committee_size ab_signers
      ab_source_seal_wire_version].
    rewrite C1, C2, C3. rewrite C2, C3, (an_anchor HA) in Hq. by rewrite Hq.
Qed.
End aborts.

(** ** From the seal to the claim *)

Section proof_length.
Context (comb : hash → hash → hash).
(** A tree of two leaves or more gives every leaf a sibling. *)
Lemma proof_loop_grows fuel l pos sibs s :
  (2 <= length l <= fuel)%nat → (pos < length l)%nat → proof_loop comb fuel l pos sibs = Ok s →
  (length sibs < length s)%nat.
Proof.
  revert l pos sibs. induction fuel as [|fuel IH]; intros l pos sibs Hl Hp; [lia|].
  destruct l as [|a [|b l]]; [simpl in Hl; lia..|]. cbn [proof_loop].
  destruct (sibling_at (a :: b :: l) pos) as [node|e|] eqn:En; [|done..]. cbn [mbind outcome_bind].
  pose proof (next_layer_length comb (a :: b :: l)) as HN. set (l' := next_layer comb (a :: b :: l)) in *.
  destruct l as [|c l].
  - assert (Hlen : length l' = 1%nat) by done. destruct l' as [|h [|? ?]]; [done| |done].
    assert (length node = 1%nat) by (destruct pos as [|[|pos]]; [by injection En as <-|by injection En as <-|simpl in Hp; lia]).
    destruct fuel; cbn [proof_loop]; intros [= <-]; rewrite length_app; lia.
  - intros Hs. enough (length (sibs ++ node) < length s)%nat by (rewrite length_app in *; lia).
    apply (IH l' (pos / 2)%nat (sibs ++ node)); [| |exact Hs].
    + split; [|unfold l' in *; simpl in *; lia]. change (2 <= S (length (next_layer comb (c :: l))))%nat.
      destruct (next_layer comb (c :: l)) eqn:E; [|simpl; lia]. by destruct l.
    + destruct (lookup_lt_is_Some_2 (a :: b :: c :: l) pos Hp) as [cur Hcur].
      apply (next_layer_lookup comb) in Hcur. by apply lookup_lt_Some in Hcur.
Qed.
Lemma proof_with_nonempty fv l leaf p :
  (2 <= length l)%nat → proof_with comb fv l leaf = Ok (Some p) → mp_siblings p ≠ [].
Proof.
  intros Hl. unfold proof_with, position. destruct (list_find _ l) as [[i h]|] eqn:E; [|done]. simpl.
  apply list_find_Some in E as (Hi & _ & _). apply lookup_lt_Some in Hi.
  destruct (root_with comb l) as [r|e|]; [|done..]. cbn [mbind outcome_bind].
  destruct (proof_loop comb (length l) l i []) as [s|e|] eqn:Es; [|done..]. intros [= <-]. simpl. intros ->.
  apply proof_loop_grows in Es; [simpl in Es; lia|lia|done].
Qed.
End proof_length.

(** A claim whose checks hold goes through. *)
Lemma claim_runs `{Externals} cz tid t rid ts :
  pending cz !! tid = Some t → is_locked t = true → unsealed t = false →
  verify_seal_inclusion_proof (source_seal_wire_version t) (lock_record_hash t) (merkle_proof t) (source_merkle_root t) = true →
  verify_finality_quorum (source_seal_wire_version t) (source_zone t) (source_seal_epoch t) (source_merkle_root t)
    (source_committee_hash t) (source_committee_size t) (source_seal_signers t) = Ok tt →
  f64_gtb ts (expires_at t) = false → claimed_count cz < U64.MAX → claim_finality_enforced_total cz < U64.MAX →
  ∃ t' cz', claim_transfer tid (recipient t) rid ts cz = (Ok t', cz') ∧ status t' = Claimed.
Proof.
  intros Ht Hl Hu Hv Hq He Hc Hf.
  unfold claim_transfer, get_transfer, release, put_transfer, mbind, M_bind, get, ok_or, modify, add_u64. rewrite Ht.
  unfold mret, M_ret. rewrite Hl. cbn [negb]. rewrite bool_decide_eq_false_2 by (by intros []).
  rewrite He, Hu, Hv. cbn [negb]. rewrite Hq. simpl.
  rewrite (proj2 (Z.leb_le (claimed_count cz + 1) U64.MAX)) by lia. simpl.
  rewrite (proj2 (Z.leb_le (claim_finality_enforced_total cz + 1) U64.MAX)) by lia. by eexists _, _.
Qed.

Section attach.
Context `{HE : Externals}.
Context (seal : ParsedSeal) (coll : SealFinalityCollection).
Let version := ps_wire_version seal.
Let hashes := ps_record_hashes seal.

Definition anchor_for (dest : string) : option (hash * Z) := ps_dest_committees seal ≫= fun m => m !! dest.
(** The transfer after the seal was applied to it. *)
Definition attached (p : MerkleProof) (t : PendingTransfer) : PendingTransfer :=
  let t := t <| merkle_proof := to_proof_siblings (mp_siblings p) |> <| source_merkle_root := ps_merkle_root seal |>
             <| source_seal_wire_version := version |>
             <| source_seal_signers := fc_signers coll |> <| source_committee_hash := fc_committee_hash coll |>
             <| source_seal_epoch := fc_seal_epoch coll |> <| source_committee_size := fc_committee_size coll |> in
  match anchor_for (dest_zone t) with
  | Some anchor => t <| dest_finality_committee := Some anchor |>
  | None => t
  end.

Lemma set_proof_run tid t pr root v cz :
  pending cz !! tid = Some t → is_locked t = true →
  ignore_err (set_proof tid pr root v) cz = (Ok tt, unindex_needs_proof (lock_record_hash t) tid
    (cz <| pending ::= insert tid (t <| merkle_proof := pr |> <| source_merkle_root := root |>
                                     <| source_seal_wire_version := v |>) |>)).
Proof.
  intros Hp Hl. unfold ignore_err, set_proof, get_transfer, put_transfer, mbind, M_bind, get, ok_or, modify. rewrite Hp.
  cbn [fst snd]. unfold mret, M_ret. by rewrite Hl.
Qed.
Lemma set_finality_run tid t signers h e k cz :
  pending cz !! tid = Some t → is_locked t = true →
  ignore_err (set_finality_witnesses tid signers h e k) cz = (Ok tt,
    cz <| pending ::= insert tid (t <| source_seal_signers := signers |> <| source_committee_hash := h |>
                                    <| source_seal_epoch := e |> <| source_committee_size := k |>) |>).
Proof.
  intros Hp Hl. unfold ignore_err, set_finality_witnesses, get_transfer, put_transfer, mbind, M_bind, get, ok_or, modify.
  rewrite Hp. cbn [fst snd]. unfold mret, M_ret. by rewrite Hl.
Qed.

(** Nothing but the entry of [tid'] and the index changes. *)
Definition elsewhere (tid' : string) (cz cz' : CrossZoneState) : Prop :=
  (∀ tid, tid ≠ tid' → pending cz' !! tid = pending cz !! tid) ∧
  claimed_count cz' = claimed_count cz ∧ claim_finality_enforced_total cz' = claim_finality_enforced_total cz.
Lemma elsewhere_refl tid cz : elsewhere tid cz cz.
Proof. by split_and!. Qed.
Lemma elsewhere_trans tid cz1 cz2 cz3 : elsewhere tid cz1 cz2 → elsewhere tid cz2 cz3 → elsewhere tid cz1 cz3.
Proof. intros (A & B & C) (A' & B' & C'). split_and!; [|congruence..]. intros x Hx. rewrite A', A by done. done. Qed.
Lemma elsewhere_put tid f cz : elsewhere tid cz (cz <| pending ::= insert tid f |>).
Proof. split_and!; [|done..]. intros x Hx. simpl. by rewrite lookup_insert_ne. Qed.
Lemma elsewhere_alter tid f cz : elsewhere tid cz (cz <| pending ::= alter f tid |>).
Proof. split_and!; [|done..]. intros x Hx. simpl. by rewrite lookup_alter_ne. Qed.
Lemma elsewhere_unindex h tid cz : elsewhere tid cz (unindex_needs_proof h tid cz).
Proof.
  split_and!; [|by rewrite unindex_claimed_count|by rewrite unindex_claim_finality_enforced_total].
  intros x _. by rewrite unindex_pending.
Qed.
(** [m] succeeds and only touches [tid]. *)
Definition local_to (tid : string) (m : M CrossZoneState unit) : Prop :=
  ∀ cz, ∃ cz', m cz = (Ok tt, cz') ∧ elsewhere tid cz cz'.
Lemma ignored_local tid (m : M CrossZoneState unit) :
  (∀ t cz, pending cz !! tid = Some t → is_locked t = true → ∃ cz', ignore_err m cz = (Ok tt, cz') ∧ elsewhere tid cz cz') →
  (∀ cz, (∀ t, pending cz !! tid = Some t → is_locked t = false) → ∃ e, m cz = (Err e, cz)) →
  local_to tid (ignore_err m).
Proof.
  intros H1 H2 cz. destruct (pending cz !! tid) as [t|] eqn:E; [destruct (is_locked t) eqn:El; [by eapply H1|]|].
  - destruct (H2 cz) as [e He]; [intros t' Ht'; congruence|]. exists cz. unfold ignore_err. rewrite He. split; [done|apply elsewhere_refl].
  - destruct (H2 cz) as [e He]; [intros t' Ht'; congruence|]. exists cz. unfold ignore_err. rewrite He. split; [done|apply elsewhere_refl].
Qed.
Lemma get_transfer_refused {A} tid (f : PendingTransfer → M CrossZoneState A) cz e :
  (∀ t, pending cz !! tid = Some t → is_locked t = false) →
  ∃ e', (t ← get_transfer tid; if negb (is_locked t) then throw e else f t) cz = (Err e', cz).
Proof.
  intros H. unfold get_transfer, mbind, M_bind, get, ok_or. destruct (pending cz !! tid) as [t|] eqn:E; [|by eexists].
  unfold mret, M_ret. rewrite (H t) by done. by eexists.
Qed.
Lemma set_proof_local tid pr root v : local_to tid (ignore_err (set_proof tid pr root v)).
Proof.
  apply ignored_local; [|intros cz; apply get_transfer_refused]. intros t cz Hp Hl. eexists.
  split; [by apply set_proof_run|]. eapply elsewhere_trans; [apply elsewhere_put|apply elsewhere_unindex].
Qed.
Lemma set_finality_local tid signers h e k : local_to tid (ignore_err (set_finality_witnesses tid signers h e k)).
Proof.
  apply ignored_local; [|intros cz; apply get_transfer_refused]. intros t cz Hp Hl. eexists.
  split; [by apply set_finality_run|apply elsewhere_put].
Qed.

Lemma attach_one_local tid h dest cz :
  ∃ k cz', attach_one seal (Some coll) (tid, h, dest) cz = (Ok k, cz') ∧ elsewhere tid cz cz'.
Proof.
  unfold attach_one. fold hashes version. case_bool_decide as Hh; cbn [negb];
    [exists 1|exists 0, cz; split; [done|apply elsewhere_refl]].
  destruct (proj1 (seal_proofs_spec version hashes h) Hh) as (r & p & _ & HP & _).
  unfold mbind at 1, M_bind at 1, lift at 1. rewrite HP.
  destruct (set_proof_local tid (to_proof_siblings (mp_siblings p)) (ps_merkle_root seal) version cz) as (cz1 & E1 & L1).
  unfold mbind at 1, M_bind at 1. rewrite E1.
  destruct (set_finality_local tid (fc_signers coll) (fc_committee_hash coll) (fc_seal_epoch coll) (fc_committee_size coll) cz1)
    as (cz2 & E2 & L2).
  unfold mbind at 1, M_bind at 1. rewrite E2. unfold mbind at 1, M_bind at 1.
  pose proof (elsewhere_trans _ _ _ _ L1 L2) as L12.
  destruct (mbind (M := option) _ (ps_dest_committees seal)) as [anchor|].
  - eexists. split; [done|]. eapply elsewhere_trans; [exact L12|apply elsewhere_alter].
  - by exists cz2.
Qed.
Lemma attach_one_self tid t h p cz :
  pending cz !! tid = Some t → is_locked t = true → h ∈ hashes → seal_proof_for version hashes h = Ok (Some p) →
  pending (attach_one seal (Some coll) (tid, h, dest_zone t) cz).2 !! tid = Some (attached p t).
Proof.
  intros Ht Hl Hh HP. unfold attach_one. fold hashes version. rewrite bool_decide_eq_true_2 by done. cbn [negb].
  unfold mbind at 1, M_bind at 1, lift at 1. rewrite HP. unfold mbind at 1, M_bind at 1.
  rewrite (set_proof_run tid t) by done. unfold mbind at 1, M_bind at 1.
  erewrite set_finality_run; [|rewrite unindex_pending; apply lookup_insert_eq|done].
  unfold mbind at 1, M_bind at 1. fold (anchor_for (dest_zone t)). unfold attached. cbv zeta.
  match goal with |- _ = Some (match anchor_for (dest_zone ?x) with _ => _ end) => change (dest_zone x) with (dest_zone t) end.
  destruct (anchor_for (dest_zone t)) as [anchor|]; simpl.
  - by rewrite lookup_alter_eq, lookup_insert_eq.
  - by rewrite lookup_insert_eq.
Qed.

Lemma attached_again p t : attached p (attached p t) = attached p t.
Proof.
  unfold attached. cbv zeta. cbn. destruct (anchor_for (dest_zone t)) as [anchor|] eqn:E; cbn; by rewrite E.
Qed.
Lemma attached_frame p t :
  status (attached p t) = status t ∧ dest_zone (attached p t) = dest_zone t ∧ recipient (attached p t) = recipient t ∧
  source_zone (attached p t) = source_zone t ∧ expires_at (attached p t) = expires_at t ∧
  lock_record_hash (attached p t) = lock_record_hash t.
Proof. unfold attached. cbv zeta. by destruct (anchor_for _). Qed.
Lemma attached_proof p t :
  merkle_proof (attached p t) = to_proof_siblings (mp_siblings p) ∧ source_merkle_root (attached p t) = ps_merkle_root seal ∧
  source_seal_wire_version (attached p t) = version ∧ source_seal_signers (attached p t) = fc_signers coll ∧
  source_committee_hash (attached p t) = fc_committee_hash coll ∧ source_seal_epoch (attached p t) = fc_seal_epoch coll ∧
  source_committee_size (attached p t) = fc_committee_size coll.
Proof. unfold attached. cbv zeta. by destruct (anchor_for _). Qed.

Definition counters_kept (cz cz' : CrossZoneState) : Prop :=
  claimed_count cz' = claimed_count cz ∧ claim_finality_enforced_total cz' = claim_finality_enforced_total cz.

(** The entry of [tid] is attached to, whatever else the seal holds. *)
Lemma attach_all_run tid t p entries cz :
  is_locked t = true → seal_proof_for version hashes (lock_record_hash t) = Ok (Some p) →
  lock_record_hash t ∈ hashes →
  (∀ x h d, (x, h, d) ∈ entries → x = tid → h = lock_record_hash t ∧ d = dest_zone t) →
  pending cz !! tid = Some t ∨ pending cz !! tid = Some (attached p t) →
  ∃ k cz', attach_all seal (Some coll) entries cz = (Ok k, cz') ∧ counters_kept cz cz' ∧
    (pending cz' !! tid = pending cz !! tid ∨ pending cz' !! tid = Some (attached p t)) ∧
    (tid ∈ entries.*1.*1 → pending cz' !! tid = Some (attached p t)).
Proof.
  intros Hl HP Hh. revert cz. induction entries as [|[[x h] d] entries IH]; intros cz He Hcz.
  { exists 0, cz. split_and!; [done|done|by left|]. intros Hin. by apply elem_of_nil in Hin. }
  pose proof (He x h d (list_elem_of_here _ _)) as Hx.
  assert (He' : ∀ x h d, (x, h, d) ∈ entries → x = tid → h = lock_record_hash t ∧ d = dest_zone t).
  { intros x' h' d' Hin. apply He. by right. }
  destruct (attach_one_local x h d cz) as (k1 & cz1 & E1 & (L1 & L2 & L3)).
  assert (Hcz1 : (x = tid → pending cz1 !! tid = Some (attached p t)) ∧ (x ≠ tid → pending cz1 !! tid = pending cz !! tid)).
  { split; [intros ->|intros Hne; apply L1; congruence]. destruct (Hx eq_refl) as [-> ->].
    replace cz1 with (attach_one seal (Some coll) (tid, lock_record_hash t, dest_zone t) cz).2 by (by rewrite E1).
    destruct Hcz as [Hcz|Hcz]; [by apply attach_one_self|].
    pose proof (attached_frame p t) as (F1 & F2 & _). rewrite <- F2.
    rewrite (attach_one_self tid (attached p t) (lock_record_hash t) p cz Hcz); [by rewrite attached_again| |done|done].
    unfold is_locked in *. by rewrite F1. }
  destruct Hcz1 as [Hself Hother].
  destruct (IH cz1 He') as (k & cz2 & E2 & (K1 & K2) & HP2 & Hin2).
  { destruct (decide (x = tid)) as [Ex|Ex]; [right; by apply Hself|by rewrite Hother]. }
  exists (k1 + k), cz2. split_and!.
  - cbn [attach_all]. unfold mbind at 1, M_bind at 1. rewrite E1. unfold mbind, M_bind. by rewrite E2.
  - split; congruence.
  - destruct (decide (x = tid)) as [Ex|Ex].
    + right. destruct HP2 as [->|HP2]; [by apply Hself|done].
    + destruct HP2 as [->|HP2]; [left; by apply Hother|by right].
  - csimpl. intros [<-|Hin]%elem_of_cons; [|by apply Hin2]. destruct HP2 as [->|HP2]; [by apply Hself|done].
Qed.

Lemma needs_proof_spec cz x h d :
  (x, h, d) ∈ needs_proof cz hashes → ∃ t h0, h0 ∈ hashes ∧ x ∈ needs_proof_ids cz h0 ∧ pending cz !! x = Some t ∧
    h = lock_record_hash t ∧ d = dest_zone t.
Proof.
  unfold needs_proof. intros Hin. apply list_elem_of_bind in Hin as (h0 & Hin & Hh0).
  apply list_elem_of_bind in Hin as (x' & Hin & Hx'). destruct (pending cz !! x') as [t|] eqn:Et; [|by apply elem_of_nil in Hin].
  destruct (is_locked t && unsealed t); [|by apply elem_of_nil in Hin]. apply list_elem_of_singleton in Hin as [= -> -> ->].
  by exists t, h0.
Qed.
Lemma needs_proof_in cz tid t :
  lock_record_hash t ∈ hashes → tid ∈ needs_proof_ids cz (lock_record_hash t) → pending cz !! tid = Some t →
  is_locked t = true → unsealed t = true → (tid, lock_record_hash t, dest_zone t) ∈ needs_proof cz hashes.
Proof.
  intros Hh Hi Ht Hl Hu. unfold needs_proof. apply list_elem_of_bind. exists (lock_record_hash t). split; [|done].
  apply list_elem_of_bind. exists tid. split; [|done]. rewrite Ht, Hl, Hu. by apply list_elem_of_singleton.
Qed.

(** C14: a sealed lock can be claimed.  Let a transfer wait for its seal, and a seal
    that holds its lock record and at least one other be applied with the
    finality signatures collected for that seal, which pass the quorum check.
    Then the attachment of proofs returns, whatever other locks the seal holds,
    and the recipient's claim, made before the transfer expires, succeeds. *)
Theorem sealed_lock_claimable cz c sid tid t ts rid :
  pending cz !! tid = Some t → is_locked t = true → unsealed t = true →
  tid ∈ needs_proof_ids cz (lock_record_hash t) → lock_record_hash t ∈ hashes → (2 <= length hashes)%nat →
  seal_root_for version hashes = Ok (ps_merkle_root seal) →
  seal_finality_collections c !! sid = Some coll →
  verify_finality_quorum version (source_zone t) (fc_seal_epoch coll) (ps_merkle_root seal) (fc_committee_hash coll)
    (fc_committee_size coll) (fc_signers coll) = Ok tt →
  f64_gtb ts (expires_at t) = false → claimed_count cz < U64.MAX → claim_finality_enforced_total cz < U64.MAX →
  ∃ k cz' t' cz'', attach_xzone_proofs_from_seal_with_finality seal (Some (sid, c)) cz = (Ok k, cz') ∧
    claim_transfer tid (recipient t) rid ts cz' = (Ok t', cz'') ∧ status t' = Claimed.
Proof.
  intros Ht Hl Hu Hidx Hh Hlen Hroot Hc Hq Hexp Hcc Hct.
  destruct (proj1 (seal_proofs_spec version hashes (lock_record_hash t)) Hh) as (r & p & HR & HP & _ & Hr & _ & Hv).
  rewrite Hroot in HR. injection HR as <-.
  assert (Hne : to_proof_siblings (mp_siblings p) ≠ []).
  { assert (mp_siblings p ≠ []) by (unfold seal_proof_for in HP; destruct (FOLD_V2_MIN_WIRE_VERSION <=? version);
      by eapply proof_with_nonempty). by destruct (mp_siblings p). }
  destruct (attach_all_run tid t p (needs_proof cz hashes) cz Hl HP Hh) as (k & cz' & E & (K1 & K2) & _ & Hin).
  { intros x h d (t0 & h0 & Hh0 & Hx & Ht0 & -> & ->)%needs_proof_spec ->. split; congruence. }
  { by left. }
  assert (Ht' : pending cz' !! tid = Some (attached p t)).
  { apply Hin. apply list_elem_of_fmap. exists (tid, lock_record_hash t). split; [done|]. apply list_elem_of_fmap.
    exists (tid, lock_record_hash t, dest_zone t). split; [done|by apply needs_proof_in]. }
  pose proof (attached_frame p t) as (F1 & F2 & F3 & F4 & F5 & F6).
  pose proof (attached_proof p t) as (P1 & P2 & P3 & P4 & P5 & P6 & P7).
  destruct (claim_runs cz' tid (attached p t) rid ts) as (t' & cz'' & HC & HS).
  { done. } { unfold is_locked in *. by rewrite F1. } { unfold unsealed. rewrite P1. by apply bool_decide_eq_false_2. }
  { by rewrite P1, P2, P3, F6. } { by rewrite P2, P3, P4, P5, P6, P7, F4. } { by rewrite F5. } { by rewrite K1. } { by rewrite K2. }
  exists k, cz', t', cz''. split_and!; [|by rewrite <- F3|done].
  unfold attach_xzone_proofs_from_seal_with_finality. fold hashes.
  rewrite bool_decide_eq_false_2 by (intros E0; rewrite E0 in Hlen; simpl in Hlen; lia).
  unfold mbind at 1, M_bind at 1, get. cbn [mbind option_bind]. rewrite Hc. exact E.
Qed.
End attach.

(** ** What gossip can make a node keep *)

Section bounded.
Context `{HE : Externals, HO : StringOrder, HR : RelayEnv}.

Definition deliver_finality (msgs : list (Z * option FinalityWitnessGossipBody)) (c : Collections) : Collections :=
  fold_left (fun c m => (handle_submit_finality_witness m.1 m.2 c).2) msgs c.

(** The collection of a seal: signatures under different keys of the committee
    the node itself draws for that seal. *)
Definition members_only (sid : string) (coll : SealFinalityCollection) : Prop :=
  ∃ zone version pks, local_seal sid = Some (Some (fc_seal_epoch coll, zone, version)) ∧
    finality_committee_pks zone (fc_seal_epoch coll) version = Ok (pks, fc_committee_hash coll, fc_committee_size coll) ∧
    NoDup (witness_pk <$> fc_signers coll) ∧ ∀ w, w ∈ fc_signers coll → witness_pk w ∈ pks.
Definition within_limits (c : Collections) : Prop :=
  map_Forall members_only (seal_finality_collections c) ∧
  (size (seal_finality_collections c) <= MAX_SEAL_FINALITY_SIG_ENTRIES)%nat.

Lemma delete_all_subseteq {A} (l : list string) (m : gmap string A) : fold_left (fun m k => delete k m) l m ⊆ m.
Proof. revert m. induction l as [|k l IH]; intros m; [done|]. cbn [fold_left]. etrans; [apply IH|apply delete_subseteq]. Qed.
Lemma make_space_size {A} cap key (m : gmap string A) :
  (0 < cap)%nat → (size m <= cap)%nat → m !! key = None → (size (make_space cap key m) < cap)%nat.
Proof.
  intros Hc Hs Hk. unfold make_space. rewrite (bool_decide_eq_true_2 (m !! key = None)) by done. cbn [andb].
  case_bool_decide as Hfull; [|lia]. destruct (walk m) as [|[k v] l] eqn:Ew.
  { pose proof (walk_perm m) as HP. rewrite Ew in HP. apply Permutation_nil_l in HP.
    pose proof (length_map_to_list m) as HL. rewrite <- HP in HL. simpl in HL. lia. }
  assert (Hin : is_Some (m !! k)).
  { exists v. apply elem_of_map_to_list. rewrite <- walk_perm, Ew. apply list_elem_of_here. }
  destruct (Nat.max (cap / 10) 1) as [|q] eqn:Eq; [lia|]. csimpl. cbn [take fold_left].
  pose proof (map_subseteq_size _ _ (delete_all_subseteq (take q l.*1) (delete k m))) as Hsub.
  pose proof (map_size_delete_Some k m Hin). lia.
Qed.

Lemma store_finality_limits sid epoch zone version pks h n w c :
  local_seal sid = Some (Some (epoch, zone, version)) →
  finality_committee_pks zone epoch version = Ok (pks, h, n) → witness_pk w ∈ pks →
  within_limits c → within_limits (add_seal_finality_signature sid epoch h n w c).
Proof.
  intros Hs Hp Hw [HF HS]. unfold add_seal_finality_signature, within_limits. simpl.
  set (m := make_space MAX_SEAL_FINALITY_SIG_ENTRIES sid (seal_finality_collections c)).
  assert (Hsub : m ⊆ seal_finality_collections c) by apply make_space_subseteq.
  assert (HFm : map_Forall members_only m) by (intros k v Hk; apply HF; by eapply lookup_weaken).
  split.
  - apply map_Forall_insert_2; [|done]. destruct (m !! sid) as [old|] eqn:Eo; cbn [default from_option id].
    + destruct (HFm sid old Eo) as (zone' & version' & pks' & Hs' & Hp' & HN & HM).
      destruct (_ || _) eqn:Em; [by exists zone', version', pks'|]. bools. rewrite Hs' in Hs. injection Hs as He <- <-.
      rewrite He, Hp in Hp'. injection Hp' as <- _ _. exists zone', version', pks. cbn.
      rewrite He. split_and!; [by rewrite Hs', He|congruence|by apply add_signer_pks|].
      intros x [Hx|Hx]%add_signer_elem; [by apply HM|by rewrite Hx].
    + rewrite !Z.eqb_refl, bool_decide_eq_true_2 by done. cbn. exists zone, version, pks. cbn.
      split_and!; [done|done|apply NoDup_singleton|]. by intros x ->%list_elem_of_singleton.
  - rewrite map_size_insert. pose proof (map_subseteq_size _ _ Hsub).
    destruct (m !! sid) eqn:Eo; [unfold id; lia|].
    destruct (seal_finality_collections c !! sid) as [old|] eqn:Ec.
    + exfalso. unfold m, make_space in Eo. rewrite (bool_decide_eq_false_2 (_ = None)) in Eo by (by rewrite Ec).
      cbn [andb] in Eo. congruence.
    + pose proof (make_space_size MAX_SEAL_FINALITY_SIG_ENTRIES sid _ ltac:(apply Nat.ltb_lt; by vm_compute) HS Ec) as Hlt.
      fold m in Hlt. lia.
Qed.

Lemma handle_finality_limits len decoded c :
  within_limits c → within_limits (handle_submit_finality_witness len decoded c).2.
Proof.
  intros HC. unfold handle_submit_finality_witness. destruct (_ <? len); [done|]. destruct decoded as [e|]; [|done].
  destruct (local_seal (fb_seal_id e)) as [[[[epoch zone] version]|]|] eqn:Es; [|done..].
  destruct (Z.eqb_spec epoch (fb_seal_epoch e)) as [->|]; cbn [negb]; [|done].
  unfold mbind at 1, M_bind at 1, lift. destruct (finality_committee_pks _ _ _) as [[[pks h] n]|er|] eqn:Ep; [|done..].
  destruct (_ || _) eqn:Em; [done|]. bools. case_bool_decide as Hin; cbn [negb]; [|done]. subst.
  by eapply store_finality_limits.
Qed.

(** C34: gossip cannot exhaust a node's memory with finality signatures.  Whatever
    bodies peers send, in any number and order, the node keeps collections for at
    most 5000 seals; each is for a seal it has itself, pinned to the committee it
    draws itself for that seal, and holds at most one signature per member. *)
Theorem finality_gossip_bounded msgs :
  let c := deliver_finality msgs collections_new in
  (size (seal_finality_collections c) <= MAX_SEAL_FINALITY_SIG_ENTRIES)%nat ∧
  ∀ sid coll, seal_finality_collections c !! sid = Some coll →
    members_only sid coll ∧
    ∃ zone version pks, local_seal sid = Some (Some (fc_seal_epoch coll, zone, version)) ∧
      finality_committee_pks zone (fc_seal_epoch coll) version = Ok (pks, fc_committee_hash coll, fc_committee_size coll) ∧
      (length (fc_signers coll) <= length pks)%nat.
Proof.
  assert (HC : within_limits (deliver_finality msgs collections_new)).
  { unfold deliver_finality. assert (H0 : within_limits collections_new) by (split; [done|by apply Nat.leb_le; vm_compute]).
    revert H0. generalize collections_new. induction msgs as [|m msgs IH]; intros c H0; [done|].
    apply IH. by apply handle_finality_limits. }
  destruct HC as [HF HS]. split; [done|]. intros sid coll Hsid. pose proof (HF sid coll Hsid) as Hm. split; [done|].
  destruct Hm as (zone & version & pks & H1 & H2 & HN & HM). exists zone, version, pks. split_and!; [done|done|].
  rewrite <- (length_fmap witness_pk). apply submseteq_length, NoDup_submseteq; [done|].
  intros pk (w & -> & Hw)%list_elem_of_fmap. by apply HM.
Qed.
End bounded.

(** ** Examples *)

Module RelayExamples.
#[local] Existing Instance toy_externals.
#[local] Instance list_walk : StringOrder.
Proof. by refine {| walk A m := map_to_list m |}. Defined.
#[local] Instance no_env : RelayEnv := {|
  committee_members _ _ := ["m"]; get_public_key _ := Some [x01]; local_seal _ := None |}.

(** A committee of one, and a sealed transfer that carries it as its anchor. *)
Definition member : Signer := mkSigner [x01] (fun m => Some (m ++ [x01])).
Definition root1 : hash := committee_leaf_hash [x01].
Definition stuck : PendingTransfer :=
  mkTransfer "t" "alice" "bob" 5 "a" "b" f64_0 f64_0 Locked [mkSibling zero_hash true] 0 zero_hash zero_hash
    [] zero_hash 7 1 (Some (root1, 1)) None.
Definition cz1 : CrossZoneState := crosszone_new <| pending := {[ "t" := stuck ]} |>.
Definition honest_msg : XZoneAbortWitnessGossipBody :=
  mkAbortBody "t" "b" 7 root1 1 (mkWitness [x01] (xzone_abort_signable_bytes "t" "b" 7 root1 ++ [x01]) []).
(** In the member's name, with no valid signature. *)
Definition forged (epoch : Z) : XZoneAbortWitnessGossipBody :=
  mkAbortBody "t" "b" epoch root1 1 (mkWitness [x01] [] []).

Definition relay_after (msgs : list XZoneAbortWitnessGossipBody) : Relay :=
  relay_new <| collections := deliver cz1 msgs collections_new |>.
Definition bundles (ledger : string → option CrossZoneState) (rl : Relay) : option (list XZoneAbortBundle) * Relay :=
  let '(o, rl) := aggregate true ledger (fun _ => true) rl in (match o with Ok l => Some l | _ => None end, rl).
Definition open_ledger : string → option CrossZoneState := fun _ => Some cz1.

Lemma stuck_anchored : anchored_by cz1 "t" stuck [[x01]] root1 {[ [x01] := [] ]}.
Proof. constructor; [by vm_compute..|by eexists _, _; vm_compute|by vm_compute]. Qed.
Lemma honest_msg_honest : honest_body "t" stuck root1 honest_msg.
Proof.
  exists member, (fun _ => true), collections_new, (emit_one member (fun _ => true) stuck collections_new).2.
  split; [by vm_compute|].
  cbn [member signer_sign signer_pk]. intros sg Hsg%(inj Some). rewrite <- Hsg. by apply bool_decide_eq_true_2.
Qed.
Lemma honest_abort_submitted_witness :
  ∃ coll, ("t", coll) ∈ ready_xzone_abort_bundles (deliver cz1 [honest_msg; honest_msg] collections_new) ∧
    verify_abort_quorum 0 "t" "b" 7 (ac_dest_committee_hash coll) (ac_dest_committee_size coll)
      (ac_signers coll) (Some (root1, 1)) = Ok tt.
Proof.
  destruct (honest_abort_submitted cz1 "t" stuck [[x01]] root1 {[ [x01] := [] ]} [honest_msg; honest_msg]
    collections_new [[x01]]) as (coll & H1 & H2 & _); [exact stuck_anchored|done|..].
  - apply Nat.leb_le. by vm_compute.
  - intros e [->|[->|[]%elem_of_nil]%elem_of_cons]%elem_of_cons _; exact honest_msg_honest.
  - apply NoDup_singleton.
  - intros pk ->%list_elem_of_singleton. exists honest_msg. split; [apply list_elem_of_here|done].
  - by vm_compute.
  - exists coll. split; [exact H1|exact H2].
Defined.

(** A lock, its seal of two records, and the member's finality signature. *)
Definition lock1 : CrossZoneState := (lock_transfer "t" "alice" "bob" 5 "a" "b" f64_0 zero_hash crosszone_new).2.
Definition hashes2 : list hash := [sha3_256 [x02]; zero_hash].
Definition seal2 : ParsedSeal :=
  mkParsedSeal hashes2 (match seal_root_for 7 hashes2 with Ok r => r | _ => [] end) 7 (Some {[ "b" := (root1, 1) ]}).
Definition coll2 : SealFinalityCollection :=
  mkFinalityColl 1 root1 1
    [mkWitness [x01] (xzone_finality_signable_bytes "a" 1 (ps_merkle_root seal2) root1 ++ [x01]) []].
Definition sigs2 : Collections := collections_new <| seal_finality_collections := {[ "s" := coll2 ]} |>.
Lemma sealed_lock_claimable_witness :
  ∃ k cz' t' cz'', attach_xzone_proofs_from_seal_with_finality seal2 (Some ("s", sigs2)) lock1 = (Ok k, cz') ∧
    claim_transfer "t" "bob" "r" f64_0 cz' = (Ok t', cz'') ∧ status t' = Claimed.
Proof.
  destruct (pending lock1 !! "t") as [t|] eqn:Et; [|by vm_compute in Et].
  assert (Hr : recipient t = "bob") by (vm_compute in Et; by injection Et as <-).
  rewrite <- Hr. apply (sealed_lock_claimable seal2 coll2 lock1 sigs2 "s" "t" t f64_0 "r" Et).
  all: vm_compute in Et; injection Et as <-.
  - by vm_compute.
  - by vm_compute.
  - apply (bool_decide_eq_true_1 (_ ∈ _)). by vm_compute.
  - apply (bool_decide_eq_true_1 (_ ∈ _)). by vm_compute.
  - apply Nat.leb_le. by vm_compute.
  - by vm_compute.
  - by vm_compute.
  - by vm_compute.
  - by vm_compute.
  - by vm_compute.
  - by vm_compute.
Defined.

(** Unsigned gossip starves an abort.  The handler checks the committee and the
    membership proof of the named key, which anyone can compute, but neither the
    signature nor the epoch.  One body in a member's name, with another epoch or
    without a signature, is accepted; the member's own signature, which arrives
    later, is dropped, and the bundle is never submitted. *)
Theorem forged_abort_starves :
  length <$> (bundles open_ledger (relay_after [honest_msg])).1 = Some 1%nat ∧
  (bundles open_ledger (relay_after [forged 9; honest_msg])).1 = Some [] ∧
  (bundles open_ledger (relay_after [forged 7; honest_msg])).1 = Some [] ∧
  (handle_submit_xzone_abort_witness cz1 0 (Some (forged 9)) collections_new).1 = Ok "accepted".
Proof. by vm_compute. Qed.

(** The aggregator gives up on a transfer it could not submit.  A tick that finds
    the ledger locked marks the transfer as handled; the next tick, with the
    ledger free, does not try again. *)
Theorem busy_ledger_loses_bundle :
  let first := bundles (fun _ => None) (relay_after [honest_msg]) in
  first.1 = Some [] ∧ (bundles open_ledger first.2).1 = Some [].
Proof. by vm_compute. Qed.
End RelayExamples.
