(* ===== verification/Dht.v ===== *)
(** * Kademlia routing table

    crates/elara-dht/src/lib.rs: node identifiers with the XOR metric, k-buckets
    in least-recently-seen order with their subnet limits, and the routing table
    over 256 of them.  Saving and loading the table as a file is I/O; the
    insertion loop of [load] is modelled. *)

From Stdlib Require Import Strings.Ascii.
From S2P Require Import Prelude Sorting F64 Wire.
Open Scope Z_scope.

Definition K : nat := 8.
Definition MAX_PER_SUBNET_PER_BUCKET : nat := 2.
Definition MAX_PER_SUBNET_TOTAL : nat := 10.
Definition PEER_MAX_AGE_SECS : f64 := Eval vm_compute in f64_mul (f64_of_Z 4) (f64_of_Z 3600).

(** ** Node identifiers *)

Definition NodeId := list byte.

Definition xor_byte (a b : byte) : byte := byte_of_N (N.lxor (Byte.to_N a) (Byte.to_N b)).
Definition distance (a b : NodeId) : list byte := zip_with xor_byte a b.

(** [byte.leading_zeros()] of a [u8]. *)
Definition leading_zeros (b : byte) : nat := 8 - N.to_nat (N.size (Byte.to_N b)).
(** The first non-zero byte of the distance, from byte [i] on. *)
Fixpoint first_set (i : nat) (dist : list byte) : option nat :=
  match dist with
  | [] => None
  | b :: dist => if decide (b = x00) then first_set (S i) dist else Some (i * 8 + leading_zeros b)%nat
  end.
Definition bucket_index (self target : NodeId) : option nat := first_set 0 (distance self target).

(** ** Peers *)

Inductive PeerProvenance := Outbound | Inbound.
#[global] Instance PeerProvenance_eq_dec : EqDecision PeerProvenance.
Proof. solve_decision. Defined.

Record DhtPeer := mkPeer {
  node_id : NodeId;
  peer_identity_hash : string;
  host : string;
  port : Z;
  last_seen : f64;
  first_added : f64;
  provenance : PeerProvenance;
}.
Definition eta_DhtPeer (p : DhtPeer) :=
  mkPeer (node_id p) (peer_identity_hash p) (host p) (port p) (last_seen p) (first_added p) (provenance p).
#[global] Instance set_last_seen : Setter last_seen.
Proof. derive_setter eta_DhtPeer. Defined.
#[global] Instance set_first_added : Setter first_added.
Proof. derive_setter eta_DhtPeer. Defined.

Inductive InsertResult :=
  | Inserted
  | PendingEviction (evict_candidate : string)
  | RejectedSubnetLimit.

(** ** Subnets *)

(** [host.split('.')] *)
Fixpoint split_dots (s : string) : list string :=
  match s with
  | EmptyString => [EmptyString]
  | String c s =>
      if Ascii.eqb c "."%char then EmptyString :: split_dots s
      else match split_dots s with
           | p :: ps => String c p :: ps
           | [] => [String c EmptyString]
           end
  end.
(** [p.parse::<u8>().is_ok()]: an optional plus sign, then digits of a value up
    to 255. *)
Fixpoint parse_digits (s : string) (acc : Z) : option Z :=
  match s with
  | EmptyString => Some acc
  | String c s =>
      let d := Z.of_N (Ascii.N_of_ascii c) - 48 in
      if (0 <=? d) && (d <=? 9) && (acc * 10 + d <=? 255) then parse_digits s (acc * 10 + d)
      else None
  end.
Definition parse_u8 (s : string) : option Z :=
  match s with
  | EmptyString => None
  | String c s' =>
      if Ascii.eqb c "+"%char
      then match s' with EmptyString => None | _ => parse_digits s' 0 end
      else parse_digits s 0
  end.

(** [ipv6_prefix h] is the first three segments of [h], in the notation of the
    source, when [h] parses as an IPv6 address of the standard library, with or
    without brackets around it. *)
Class Ipv6 := { ipv6_prefix : string → option string }.

Definition dot : string := ".".
Definition subnet_prefix `{Ipv6} (h : string) : option string :=
  match split_dots h with
  | [a; b; c; d] =>
      if forallb (fun p => match parse_u8 p with Some _ => true | None => false end) [a; b; c; d]
      then Some (String.append a (String.append dot (String.append b (String.append dot c))))
      else ipv6_prefix h
  | _ => ipv6_prefix h
  end.

(** ** Buckets *)

Definition KBucket := list DhtPeer.

Section table.
Context `{Ipv6}.

Definition in_subnet (subnet : string) (p : DhtPeer) : Prop := subnet_prefix (host p) = Some subnet.
#[global] Instance in_subnet_dec subnet p : Decision (in_subnet subnet p).
Proof. unfold in_subnet. apply _. Defined.
Definition subnet_count (subnet : string) (b : KBucket) : nat := length (filter (in_subnet subnet) b).

(** [iter().position(|p| p.node_id == id)] *)
Definition position_of (id : NodeId) (b : KBucket) : option (nat * DhtPeer) :=
  list_find (fun p => node_id p = id) b.
(** [Vec::remove(pos)] *)
Definition remove_at (pos : nat) (b : KBucket) : KBucket := take pos b ++ drop (S pos) b.

Definition bucket_insert (peer : DhtPeer) (table_subnet_count : nat) (b : KBucket)
    : InsertResult * KBucket :=
  match position_of (node_id peer) b with
  | Some (pos, old) =>
      (Inserted, remove_at pos b ++ [peer <| first_added := first_added old |>])
  | None =>
      let limited :=
        match subnet_prefix (host peer) with
        | Some subnet => bool_decide (MAX_PER_SUBNET_PER_BUCKET <= subnet_count subnet b)%nat ||
                         bool_decide (MAX_PER_SUBNET_TOTAL <= table_subnet_count)%nat
        | None => false
        end in
      if limited then (RejectedSubnetLimit, b)
      else if bool_decide (length b < K)%nat then (Inserted, b ++ [peer])
      else (PendingEviction (match b with p :: _ => peer_identity_hash p | [] => "" end), b)
  end.
Definition bucket_evict_and_insert (peer : DhtPeer) (b : KBucket) : KBucket :=
  (if bool_decide (K <= length b)%nat then remove_at 0 b else b) ++ [peer].
Definition bucket_remove (id : NodeId) (b : KBucket) : bool * KBucket :=
  match position_of id b with
  | Some (pos, _) => (true, remove_at pos b)
  | None => (false, b)
  end.
Definition bucket_touch (id : NodeId) (seen : f64) (b : KBucket) : KBucket :=
  match position_of id b with
  | Some (pos, peer) => remove_at pos b ++ [peer <| last_seen := seen |>]
  | None => b
  end.

(** ** The table *)

Record RoutingTable := mkTable { local_id : NodeId; buckets : list KBucket }.
Definition eta_RoutingTable (t : RoutingTable) := mkTable (local_id t) (buckets t).
#[global] Instance set_buckets : Setter buckets.
Proof. derive_setter eta_RoutingTable. Defined.

Definition table_new (id : NodeId) : RoutingTable := mkTable id (replicate 256 []).
Definition all_peers (t : RoutingTable) : list DhtPeer := concat (buckets t).
Definition table_subnet_count (subnet : string) (t : RoutingTable) : nat :=
  length (filter (in_subnet subnet) (all_peers t)).

(** [self.buckets[idx].op(..)]: a panic when the index is out of range. *)
Definition at_bucket {A} (idx : nat) (op : KBucket → A * KBucket) : M RoutingTable A := fun t =>
  match buckets t !! idx with
  | Some b => let '(a, b') := op b in (Ok a, t <| buckets := <[idx := b']> (buckets t) |>)
  | None => (Panic, t)
  end.
Definition update_bucket (idx : nat) (op : KBucket → KBucket) : M RoutingTable unit :=
  at_bucket idx (fun b => (tt, op b)).

Definition table_insert (peer : DhtPeer) : M RoutingTable InsertResult :=
  t ← get;
  if decide (node_id peer = local_id t) then mret Inserted
  else
    let subnet_count := match subnet_prefix (host peer) with
                        | Some s => table_subnet_count s t
                        | None => 0%nat
                        end in
    match bucket_index (local_id t) (node_id peer) with
    | Some idx => at_bucket idx (bucket_insert peer subnet_count)
    | None => mret Inserted
    end.
Definition table_evict_and_insert (peer : DhtPeer) : M RoutingTable unit :=
  t ← get;
  if decide (node_id peer = local_id t) then mret tt
  else match bucket_index (local_id t) (node_id peer) with
       | Some idx => update_bucket idx (bucket_evict_and_insert peer)
       | None => mret tt
       end.
Definition table_touch (id : NodeId) (seen : f64) : M RoutingTable unit :=
  t ← get;
  match bucket_index (local_id t) id with
  | Some idx => update_bucket idx (bucket_touch id seen)
  | None => mret tt
  end.
Definition table_remove (id : NodeId) : M RoutingTable bool :=
  t ← get;
  match bucket_index (local_id t) id with
  | Some idx => at_bucket idx (bucket_remove id)
  | None => mret false
  end.
Definition fresh (now : f64) (p : DhtPeer) : bool :=
  f64_ltb (f64_sub now (first_added p)) PEER_MAX_AGE_SECS.
Definition rotate_stale_peers (now : f64) (t : RoutingTable) : nat * RoutingTable :=
  let kept := (fun b => filter (fun p => fresh now p = true) b) <$> buckets t in
  (sum_list (zip_with (fun b b' => length b - length b')%nat (buckets t) kept),
   t <| buckets := kept |>).

(** ** Queries *)

Definition dist_leb (target : NodeId) (a b : DhtPeer) : bool :=
  bytes_leb (distance (node_id a) target) (distance (node_id b) target).
Definition closest (target : NodeId) (count : nat) (t : RoutingTable) : list DhtPeer :=
  take count (stable_sort (dist_leb target) (all_peers t)).
(** Equal distances put outbound peers first. *)
Definition prefer_leb (target : NodeId) (a b : DhtPeer) : bool :=
  let da := distance (node_id a) target in
  let db := distance (node_id b) target in
  if decide (da = db) then
    match provenance a, provenance b with Inbound, Outbound => false | _, _ => true end
  else bytes_leb da db.
Definition closest_prefer_outbound (target : NodeId) (count : nat) (t : RoutingTable)
    : list DhtPeer :=
  take count (stable_sort (prefer_leb target) (all_peers t)).
Definition closest_to_record `{Externals} (record_id : string) (count : nat) (t : RoutingTable)
    : list DhtPeer :=
  closest_prefer_outbound (sha3_256 (bytes_of record_id)) count t.
Definition table_len (t : RoutingTable) : nat := sum_list (length <$> buckets t).
Definition find_by_identity (id : string) (t : RoutingTable) : option DhtPeer :=
  snd <$> list_find (fun p => peer_identity_hash p = id) (all_peers t).
Definition occupied_buckets (t : RoutingTable) : nat :=
  length (filter (fun b => b ≠ []) (buckets t)).
Definition provenance_counts (t : RoutingTable) : nat * nat :=
  (length (filter (fun p => provenance p = Outbound) (all_peers t)),
   length (filter (fun p => provenance p = Inbound) (all_peers t))).

(** The loop of [load] over the entries of a snapshot whose identity is 32 bytes
    of hexadecimal; the count of them. *)
Record DhtPeerEntry := mkEntry {
  e_node_id : option NodeId;
  e_identity_hash : string;
  e_host : string;
  e_port : Z;
  e_last_seen : f64;
}.
Fixpoint load_entries (entries : list DhtPeerEntry) (count : nat) : M RoutingTable nat :=
  match entries with
  | [] => mret count
  | e :: entries =>
      match e_node_id e with
      | Some id =>
          _ ← table_insert (mkPeer id (e_identity_hash e) (e_host e) (e_port e) (e_last_seen e)
                              (e_last_seen e) Outbound);
          load_entries entries (S count)
      | None => load_entries entries count
      end
  end.
End table.
