(* ===== verification/DhtProps.v ===== *)
(** * Routing table: invariant and queries *)

From Stdlib Require Import Strings.Ascii.
From S2P Require Import Prelude Sorting F64 Wire Dht.
Open Scope Z_scope.

(** ** The metric *)

Lemma xor_byte_zero a b : xor_byte a b = x00 ↔ a = b.
Proof.
  unfold xor_byte. split.
  - intros E. apply to_N_inj. apply N.lxor_eq. apply (f_equal Byte.to_N) in E.
    rewrite to_N_byte_of_N in E. rewrite N.mod_small in E; [done|].
    pose proof (Byte.to_N_bounded a). pose proof (Byte.to_N_bounded b).
    destruct (decide (N.lxor (Byte.to_N a) (Byte.to_N b) = 0%N)) as [->|Hz]; [lia|].
    apply N.log2_lt_pow2 with (b := 8%N); [lia|].
    eapply N.le_lt_trans; [apply N.log2_lxor|].
    assert (HL : ∀ x, (x <= 255 → N.log2 x < 8)%N).
    { intros x Hx. eapply N.le_lt_trans; [apply N.log2_le_mono, Hx|]. by vm_compute. }
    pose proof (HL _ H). pose proof (HL _ H0). lia.
  - intros ->. rewrite N.lxor_nilpotent. done.
Qed.

Lemma xor_byte_inj a b c : xor_byte a c = xor_byte b c → a = b.
Proof.
  intros E. assert (G : forallb (fun c => forallb (fun n =>
    Byte.eqb (xor_byte (xor_byte (byte_of_N (N.of_nat n)) c) c) (byte_of_N (N.of_nat n))) (seq 0 256))
    (byte_of_N ∘ N.of_nat <$> seq 0 256) = true) by (by vm_compute).
  assert (Hb : ∀ x : byte, In x (byte_of_N ∘ N.of_nat <$> seq 0 256) ∧
    ∃ n, In n (seq 0 256) ∧ byte_of_N (N.of_nat n) = x).
  { intros x. pose proof (Byte.to_N_bounded x) as Hx. split.
    - apply list_elem_of_In, list_elem_of_fmap. exists (N.to_nat (Byte.to_N x)). unfold compose.
      rewrite N2Nat.id, byte_of_to_N, elem_of_seq. split; [done|lia].
    - exists (N.to_nat (Byte.to_N x)). rewrite N2Nat.id, byte_of_to_N. split; [|done].
      apply in_seq. lia. }
  assert (I : ∀ x, xor_byte (xor_byte x c) c = x).
  { intros x. rewrite forallb_forall in G. specialize (G c (proj1 (Hb c))).
    rewrite forallb_forall in G. destruct (proj2 (Hb x)) as (n & Hn & <-).
    specialize (G n Hn). by apply Byte.byte_dec_bl in G. }
  rewrite <- (I a), <- (I b). by rewrite E.
Qed.

Lemma distance_inj a b target :
  length a = length target → length b = length target →
  distance a target = distance b target → a = b.
Proof.
  revert b target. induction a as [|x a IH]; intros [|y b] [|z t] Ha Hb; simpl in *; try done.
  intros E. injection E as E1 E2. f_equal; [by eapply xor_byte_inj|]. eapply IH; [..|exact E2]; lia.
Qed.

Lemma first_set_None i d : first_set i d = None ↔ Forall (fun b => b = x00) d.
Proof.
  revert i. induction d as [|b d IH]; intros i; simpl; [by split; constructor|].
  case_decide as E; rewrite Forall_cons; [rewrite IH; naive_solver|naive_solver].
Qed.

Lemma first_set_bound i d k : first_set i d = Some k → (k < 8 * (i + length d))%nat.
Proof.
  revert i. induction d as [|b d IH]; intros i; simpl; [done|].
  case_decide as E; [intros H%IH; lia|]. intros [= <-]. unfold leading_zeros.
  assert (Byte.to_N b ≠ 0%N).
  { intros Hz. apply E, to_N_inj. by rewrite Hz. }
  destruct (Byte.to_N b) as [|p]; [done|]. simpl.
  assert (0 < Pos.to_nat (Pos.size p))%nat by lia. lia.
Qed.

(** A peer has a bucket exactly when it is not the node itself. *)
Lemma bucket_index_None a b : length a = length b → bucket_index a b = None ↔ a = b.
Proof.
  intros HL. unfold bucket_index. rewrite first_set_None. unfold distance. split.
  - revert b HL. induction a as [|x a IH]; intros [|y b] HL; simpl in *; try done.
    rewrite Forall_cons, xor_byte_zero. intros [-> Hf]. f_equal. apply IH; [lia|done].
  - intros <-. clear HL. induction a as [|x a IH]; simpl; [constructor|]. constructor; [|done].
    by apply xor_byte_zero.
Qed.

Lemma bucket_index_bound a b k :
  length a = 32%nat → length b = 32%nat → bucket_index a b = Some k → (k < 256)%nat.
Proof.
  intros Ha Hb Hk. apply first_set_bound in Hk. unfold distance in Hk.
  rewrite length_zip_with in Hk. lia.
Qed.

(** ** Buckets *)

Section buckets.
Context `{Ipv6}.

Lemma remove_at_perm b pos p : b !! pos = Some p → p :: remove_at pos b ≡ₚ b.
Proof.
  intros E. unfold remove_at. rewrite Permutation_middle. by rewrite take_drop_middle.
Qed.

(** What a bucket of the table at [local] with index [i] satisfies. *)
Record bucket_ok (local : NodeId) (i : nat) (b : KBucket) : Prop := {
  bk_size : (length b <= K)%nat;
  bk_distinct : NoDup (node_id <$> b);
  bk_placed : Forall (fun p => length (node_id p) = 32%nat ∧
                               bucket_index local (node_id p) = Some i) b;
}.

Lemma bucket_ok_perm local i b b' :
  node_id <$> b ≡ₚ node_id <$> b' → bucket_ok local i b → bucket_ok local i b'.
Proof.
  intros Hp [H1 H2 H3]. constructor.
  - apply Permutation_length in Hp. rewrite !length_fmap in Hp. lia.
  - by rewrite <- Hp.
  - apply Forall_forall. intros p Hin.
    assert (Hid : node_id p ∈ node_id <$> b) by (rewrite Hp; by apply list_elem_of_fmap_2).
    apply list_elem_of_fmap in Hid as (q & Hq & Hin'). rewrite Hq.
    rewrite Forall_forall in H3. by apply H3.
Qed.

Lemma bucket_ok_sublist local i b b' :
  b' `sublist_of` b → bucket_ok local i b → bucket_ok local i b'.
Proof.
  intros Hs [H1 H2 H3]. constructor.
  - apply sublist_length in Hs. lia.
  - eapply sublist_NoDup; [exact H2|]. by apply fmap_sublist.
  - rewrite Forall_forall in *. intros p Hp. apply H3. by eapply elem_of_sublist.
Qed.

Lemma bucket_ok_snoc local i b p :
  (length b < K)%nat → node_id p ∉ node_id <$> b → length (node_id p) = 32%nat →
  bucket_index local (node_id p) = Some i → bucket_ok local i b → bucket_ok local i (b ++ [p]).
Proof.
  intros Hl Hn H32 Hi [H1 H2 H3]. constructor.
  - rewrite length_app. simpl. lia.
  - rewrite fmap_app. apply NoDup_app. split_and!; [done| |apply NoDup_singleton].
    intros x Hx Hx'. csimpl in Hx'. apply list_elem_of_singleton in Hx'. congruence.
  - apply Forall_app. split; [done|]. by apply Forall_singleton.
Qed.

Lemma remove_at_sublist pos b : remove_at pos b `sublist_of` b.
Proof.
  unfold remove_at. rewrite <- (take_drop pos b) at 3. apply sublist_app; [done|].
  rewrite <- Nat.add_1_r, <- drop_drop. apply sublist_drop.
Qed.

Lemma position_of_Some id b pos p :
  position_of id b = Some (pos, p) → b !! pos = Some p ∧ node_id p = id.
Proof. intros E. by apply list_find_Some in E as (? & ? & _). Qed.
Lemma position_of_None id b : position_of id b = None → id ∉ node_id <$> b.
Proof.
  intros E Hin. apply list_find_None in E. apply list_elem_of_fmap in Hin as (p & -> & Hp).
  rewrite Forall_forall in E. by apply (E p Hp).
Qed.

(** Replacing a peer by one with its identifier, at the end. *)
Lemma bucket_ok_replace local i b pos p q :
  b !! pos = Some p → node_id q = node_id p → bucket_ok local i b →
  bucket_ok local i (remove_at pos b ++ [q]).
Proof.
  intros E Hq. apply bucket_ok_perm.
  transitivity (node_id <$> (p :: remove_at pos b)); [by rewrite (remove_at_perm b pos p E)|].
  rewrite fmap_app. csimpl. rewrite Hq. by rewrite Permutation_app_comm.
Qed.

Lemma bucket_insert_ok local i b p n :
  length (node_id p) = 32%nat → bucket_index local (node_id p) = Some i →
  bucket_ok local i b → bucket_ok local i (bucket_insert p n b).2.
Proof.
  intros H32 Hi Hb. unfold bucket_insert.
  destruct (position_of (node_id p) b) as [[pos old]|] eqn:E.
  - apply position_of_Some in E as [E1 E2]. simpl. by eapply bucket_ok_replace.
  - apply position_of_None in E. cbv zeta.
    destruct (match subnet_prefix (host p) with Some _ => _ | None => _ end); [done|].
    case_bool_decide; [by apply bucket_ok_snoc|done].
Qed.

Lemma bucket_evict_ok local i b p :
  length (node_id p) = 32%nat → bucket_index local (node_id p) = Some i →
  node_id p ∉ node_id <$> b →
  bucket_ok local i b → bucket_ok local i (bucket_evict_and_insert p b).
Proof.
  intros H32 Hi Hn Hb. unfold bucket_evict_and_insert. case_bool_decide as Hk.
  - apply bucket_ok_snoc; try done.
    + destruct b as [|q b]; [by vm_compute in Hk; lia|]. destruct Hb. unfold remove_at.
      rewrite length_app, length_take, length_drop. simpl in *. lia.
    + intros Hin. apply Hn. eapply elem_of_sublist; [exact Hin|]. apply fmap_sublist, remove_at_sublist.
    + eapply bucket_ok_sublist; [apply remove_at_sublist|done].
  - apply bucket_ok_snoc; try done. lia.
Qed.

Lemma bucket_touch_ok local i b id seen :
  bucket_ok local i b → bucket_ok local i (bucket_touch id seen b).
Proof.
  intros Hb. unfold bucket_touch. destruct (position_of id b) as [[pos p]|] eqn:E; [|done].
  apply position_of_Some in E as [E1 E2]. by eapply bucket_ok_replace.
Qed.

Lemma bucket_remove_ok local i b id :
  bucket_ok local i b → bucket_ok local i (bucket_remove id b).2.
Proof.
  intros Hb. unfold bucket_remove. destruct (position_of id b) as [[pos p]|]; [|done]. simpl.
  eapply bucket_ok_sublist; [apply remove_at_sublist|done].
Qed.

(** ** The table *)

Record table_ok (t : RoutingTable) : Prop := {
  tb_local : length (local_id t) = 32%nat;
  tb_buckets : length (buckets t) = 256%nat;
  tb_each : ∀ i b, buckets t !! i = Some b → bucket_ok (local_id t) i b;
}.

Lemma table_new_ok id : length id = 32%nat → table_ok (table_new id).
Proof.
  intros Hl. constructor; [done|by vm_compute|].
  intros i b Hb. change (replicate 256 ([] : KBucket) !! i = Some b) in Hb.
  apply lookup_replicate in Hb as [-> _].
  constructor; [simpl; lia|constructor|constructor].
Qed.

Lemma at_bucket_ok {A} t i (op : KBucket → A * KBucket) :
  table_ok t → (i < 256)%nat →
  (∀ b, buckets t !! i = Some b → bucket_ok (local_id t) i b → bucket_ok (local_id t) i (op b).2) →
  ∃ a t', at_bucket i op t = (Ok a, t') ∧ table_ok t' ∧ local_id t' = local_id t.
Proof.
  intros [H1 H2 H3] Hi Hop. unfold at_bucket.
  destruct (lookup_lt_is_Some_2 (buckets t) i) as [b Hb]; [lia|]. rewrite Hb.
  specialize (Hop b Hb (H3 i b Hb)). destruct (op b) as [a b'].
  eexists a, _. split; [done|]. split; [|done].
  constructor; [done|by simpl; rewrite length_insert|].
  simpl. intros j c. rewrite list_lookup_insert_Some. intros [(-> & -> & _)|[_ Hj]]; auto.
Qed.

(** The operations of the table. *)
Inductive DhtOp :=
  | OpInsert (peer : DhtPeer)
  | OpEvictInsert (peer : DhtPeer)
  | OpTouch (id : NodeId) (seen : f64)
  | OpRemove (id : NodeId)
  | OpRotate (now : f64).
Definition run_op (op : DhtOp) : M RoutingTable unit :=
  match op with
  | OpInsert p => _ ← table_insert p; mret tt
  | OpEvictInsert p => table_evict_and_insert p
  | OpTouch id seen => table_touch id seen
  | OpRemove id => _ ← table_remove id; mret tt
  | OpRotate now => modify (fun t => (rotate_stale_peers now t).2)
  end.
(** Identifiers have 32 bytes; a peer is force-inserted only while it is not in
    the table, as test-before-evict has it. *)
Definition valid_op (t : RoutingTable) (op : DhtOp) : Prop :=
  match op with
  | OpInsert p => length (node_id p) = 32%nat
  | OpEvictInsert p => length (node_id p) = 32%nat ∧ node_id p ∉ node_id <$> all_peers t
  | OpTouch id _ | OpRemove id => length id = 32%nat
  | OpRotate _ => True
  end.

Lemma bucket_subset t i b p : buckets t !! i = Some b → p ∈ b → p ∈ all_peers t.
Proof.
  intros Hb Hp. apply list_elem_of_In, in_concat. exists b.
  rewrite <- !list_elem_of_In. split; [by eapply list_elem_of_lookup_2|done].
Qed.

Lemma run_op_ok t op :
  table_ok t → valid_op t op →
  ∃ t', run_op op t = (Ok tt, t') ∧ table_ok t' ∧ local_id t' = local_id t.
Proof.
  intros Ht Hv. pose proof (tb_local t Ht) as Hl.
  destruct op as [p|p|id seen|id|now]; simpl in *.
  - unfold table_insert, get, mbind, M_bind. case_decide as Hs; [by exists t|]. cbv zeta.
    destruct (bucket_index (local_id t) (node_id p)) as [i|] eqn:Ei; [|by exists t].
    destruct (at_bucket_ok t i (bucket_insert p (match subnet_prefix (host p) with
      Some s => table_subnet_count s t | None => 0%nat end)) Ht) as (a & t' & -> & Ht' & ?).
    { eapply bucket_index_bound; [..|exact Ei]; done. }
    { intros b _. by apply bucket_insert_ok. }
    by exists t'.
  - destruct Hv as [H32 Hn]. unfold table_evict_and_insert, get, mbind, M_bind.
    case_decide as Hs; [by exists t|].
    destruct (bucket_index (local_id t) (node_id p)) as [i|] eqn:Ei; [|by exists t].
    destruct (at_bucket_ok t i (fun b => (tt, bucket_evict_and_insert p b)) Ht)
      as ([] & t' & E & Ht' & ?); [eapply bucket_index_bound; [..|exact Ei]; done| |by exists t'].
    intros b Hb. apply bucket_evict_ok; try done. intros Hin. apply Hn.
    apply list_elem_of_fmap in Hin as (q & Hq & Hin). apply list_elem_of_fmap. exists q.
    split; [done|]. by eapply bucket_subset.
  - unfold table_touch, get, mbind, M_bind.
    destruct (bucket_index (local_id t) id) as [i|] eqn:Ei; [|by exists t].
    destruct (at_bucket_ok t i (fun b => (tt, bucket_touch id seen b)) Ht)
      as ([] & t' & E & Ht' & ?); [eapply bucket_index_bound; [..|exact Ei]; done| |by exists t'].
    intros b _. apply bucket_touch_ok.
  - unfold table_remove, get, mbind, M_bind.
    destruct (bucket_index (local_id t) id) as [i|] eqn:Ei; [|by exists t].
    destruct (at_bucket_ok t i (bucket_remove id) Ht) as (a & t' & -> & Ht' & ?);
      [eapply bucket_index_bound; [..|exact Ei]; done| |by exists t'].
    intros b _. apply bucket_remove_ok.
  - eexists. split; [done|]. split; [|done]. destruct Ht as [H1 H2 H3].
    constructor; [done|by simpl; rewrite length_fmap|]. simpl. intros i b Hb.
    apply list_lookup_fmap_Some in Hb as (b0 & -> & Hb).
    eapply bucket_ok_sublist; [apply sublist_filter|by apply H3].
Qed.

Definition run_ops (ops : list DhtOp) : M RoutingTable unit := for_each run_op ops.
Fixpoint valid_run (t : RoutingTable) (ops : list DhtOp) : Prop :=
  match ops with
  | [] => True
  | op :: ops => valid_op t op ∧ valid_run (run_op op t).2 ops
  end.

Lemma run_ops_ok t ops :
  table_ok t → valid_run t ops →
  ∃ t', run_ops ops t = (Ok tt, t') ∧ table_ok t' ∧ local_id t' = local_id t.
Proof.
  revert t. induction ops as [|op ops IH]; intros t Ht; simpl; [by exists t|].
  intros [Hv Hr]. destruct (run_op_ok t op Ht Hv) as (t1 & E1 & H1 & L1). rewrite E1 in Hr.
  destruct (IH t1 H1 Hr) as (t2 & E2 & H2 & L2). exists t2.
  unfold run_ops in *. cbn [for_each]. unfold mbind, M_bind. rewrite E1. split_and!; [done..|congruence].
Qed.

(** Buckets hold disjoint sets of identifiers. *)
Lemma concat_distinct local n (bs : list KBucket) :
  (∀ i b, bs !! i = Some b → bucket_ok local (n + i) b) →
  NoDup (node_id <$> concat bs) ∧
  ∀ p, p ∈ concat bs → ∃ i b, bs !! i = Some b ∧ p ∈ b ∧ length (node_id p) = 32%nat ∧
    bucket_index local (node_id p) = Some (n + i)%nat.
Proof.
  revert n. induction bs as [|b bs IH]; intros n Hb; simpl.
  { split; [constructor|]. intros p Hp. by apply elem_of_nil in Hp. }
  destruct (IH (S n)) as [IH1 IH2].
  { intros i c Hc. rewrite Nat.add_succ_l, <- Nat.add_succ_r. by apply Hb. }
  destruct (Hb 0%nat b eq_refl) as [_ Hd Hp]. rewrite Nat.add_0_r, Forall_forall in Hp. split.
  - rewrite fmap_app. apply NoDup_app. split_and!; [done| |done].
    intros x Hx Hx'. apply list_elem_of_fmap in Hx as (p & -> & Hin).
    apply list_elem_of_fmap in Hx' as (q & Hq & Hin').
    destruct (Hp p Hin) as [_ H1]. destruct (IH2 q Hin') as (i & c & _ & _ & _ & H2).
    rewrite Hq in H1. rewrite H1 in H2. injection H2 as H2. lia.
  - intros p Hin. apply elem_of_app in Hin as [Hin|Hin].
    + exists 0%nat, b. rewrite Nat.add_0_r. destruct (Hp p Hin). done.
    + destruct (IH2 p Hin) as (i & c & ? & ? & ? & Hi). exists (S i), c.
      rewrite Nat.add_succ_r. done.
Qed.

Lemma table_peers t :
  table_ok t →
  NoDup (node_id <$> all_peers t) ∧
  ∀ p, p ∈ all_peers t → ∃ i b, buckets t !! i = Some b ∧ p ∈ b ∧ length (node_id p) = 32%nat ∧
    bucket_index (local_id t) (node_id p) = Some i.
Proof. intros [_ _ H3]. by apply (concat_distinct (local_id t) 0). Qed.

Lemma table_size t : table_ok t → (length (all_peers t) <= 256 * K)%nat.
Proof.
  intros [_ H2 H3]. unfold all_peers. rewrite <- H2.
  assert (Hf : Forall (fun b => length b <= K)%nat (buckets t)).
  { apply Forall_lookup. intros i b Hb. by destruct (H3 i b Hb). }
  clear H2 H3. induction Hf as [|b bs Hb _ IH]; simpl; [lia|]. rewrite length_app. unfold K in *. lia.
Qed.

(** C32: the routing table keeps its shape.  Through any sequence of insertions,
    forced insertions of peers that are not in the table, touches, removals and
    rotations, no operation panics; every bucket holds at most [K] peers, every
    peer sits in the bucket of its distance to the local node, no identifier
    occurs twice in the table, and the local node never occurs. *)
Theorem routing_table_invariant id ops :
  length id = 32%nat → valid_run (table_new id) ops →
  ∃ t, run_ops ops (table_new id) = (Ok tt, t) ∧
    (∀ i b, buckets t !! i = Some b → (length b <= K)%nat) ∧
    (length (all_peers t) <= 256 * K)%nat ∧
    NoDup (node_id <$> all_peers t) ∧
    ∀ p, p ∈ all_peers t → node_id p ≠ id ∧
      ∃ i b, bucket_index id (node_id p) = Some i ∧ buckets t !! i = Some b ∧ p ∈ b.
Proof.
  intros Hid Hv. destruct (run_ops_ok (table_new id) ops (table_new_ok id Hid) Hv)
    as (t & Hr & Ht & HL). change (local_id t = id) in HL.
  destruct (table_peers t Ht) as [HN HP]. exists t. split_and!; [done| |by apply table_size|done|].
  - intros i b Hb. by destruct (tb_each t Ht i b Hb).
  - intros p Hin. destruct (HP p Hin) as (i & b & Hb & Hpb & H32 & Hi). rewrite HL in Hi.
    split; [|eauto]. intros E. assert (HB : bucket_index id (node_id p) = None).
    { apply bucket_index_None; [congruence|done]. }
    congruence.
Qed.

(** ** Nearest peers *)

Lemma stable_sort_ext {A} (f g : A → A → bool) l :
  (∀ x y, x ∈ l → y ∈ l → f x y = g x y) → stable_sort f l = stable_sort g l.
Proof.
  induction l as [|x l IH]; intros Hfg; simpl; [done|].
  rewrite IH by (intros; apply Hfg; by right).
  assert (Hs : ∀ k, (∀ y, y ∈ k → y ∈ l) → sort_insert f x k = sort_insert g x k).
  { induction k as [|y k IHk]; intros Hk; simpl; [done|].
    rewrite Hfg by (by left || (right; apply Hk; by left)).
    rewrite IHk; [done|]. intros z Hz. apply Hk. by right. }
  apply Hs. intros y. by rewrite stable_sort_perm.
Qed.

(** The nearest peers are exactly the nearest.  For a table that holds
    distinct identifiers, the replica set of a target has [min count n] of its
    [n] peers, in increasing XOR distance, and no peer left out is nearer than
    one returned; it depends on the set of peers only, so two nodes that know
    the same peers choose the same replicas; and the preference for outbound
    peers never changes it, since distinct peers are never equally far. *)
Theorem closest_exact target count t :
  table_ok t → length target = 32%nat →
  let key p := distance (node_id p) target in
  let res := closest_prefer_outbound target count t in
  ∃ left, res ++ left ≡ₚ all_peers t ∧
    length res = Nat.min count (length (all_peers t)) ∧
    StronglySorted (sle bytes_leb) (key <$> res) ∧
    (∀ p q, p ∈ res → q ∈ left → bytes_leb (key p) (key q) = true) ∧
    (∀ t', all_peers t' ≡ₚ all_peers t → closest target count t' = res).
Proof.
  intros Ht H32 key res. destruct (table_peers t Ht) as [HN HP].
  assert (Hinj : ∀ p q, p ∈ all_peers t → q ∈ all_peers t → key p = key q → p = q).
  { intros p q Hp Hq E. apply distance_inj in E; [|destruct (HP p Hp) as (?&?&?&?&?&?); congruence
      |destruct (HP q Hq) as (?&?&?&?&?&?); congruence].
    apply list_elem_of_lookup in Hp as [i Hi]. apply list_elem_of_lookup in Hq as [j Hj].
    assert (i = j) as ->; [|congruence].
    eapply NoDup_lookup; [exact HN|..]; rewrite list_lookup_fmap; [by rewrite Hi|by rewrite Hj, E]. }
  assert (Hext : stable_sort (prefer_leb target) (all_peers t)
    = stable_sort (by_key_leb key bytes_leb) (all_peers t)).
  { apply stable_sort_ext. intros p q Hp Hq. unfold prefer_leb, by_key_leb. fold (key p) (key q).
    case_decide as E; [|done]. apply (Hinj p q Hp Hq) in E as ->.
    destruct (bytes_leb_total (key q) (key q)) as [->| ->]; by destruct (provenance q). }
  set (s := stable_sort (by_key_leb key bytes_leb) (all_peers t)) in *.
  assert (HS : StronglySorted (sle bytes_leb) (key <$> s))
    by apply (by_key_sorted key bytes_leb bytes_leb_total).
  assert (Hres : res = take count s) by (unfold res, closest_prefer_outbound; by rewrite Hext).
  exists (drop count s). rewrite Hres. split_and!.
  - rewrite take_drop. apply stable_sort_perm.
  - rewrite length_take. unfold s. by rewrite stable_sort_length.
  - rewrite fmap_take. rewrite <- (take_drop count (key <$> s)) in HS.
    by apply StronglySorted_app_1_l in HS.
  - intros p q Hp Hq. rewrite <- (take_drop count (key <$> s)) in HS.
    eapply (StronglySorted_app_1_elem_of (sle bytes_leb)); [exact HS| |].
    + rewrite <- fmap_take. by apply (list_elem_of_fmap_2 key).
    + rewrite <- fmap_drop. by apply (list_elem_of_fmap_2 key).
  - intros t' Hp. unfold closest. f_equal. symmetry.
    apply (by_key_sort_inj key bytes_leb bytes_leb_total); [done|by symmetry].
Qed.

(** ** Two interleavings *)

(** A peer of bucket 0 of the zero identifier, at a dotted address. *)
Definition peer_at (n : N) (h : string) : DhtPeer :=
  mkPeer (byte_of_N 128 :: replicate 30 x00 ++ [byte_of_N n]) h h 9473 (f64_of_Z 0) (f64_of_Z 0) Outbound.
Definition zero_id : NodeId := replicate 32 x00.
Definition eight_peers : list DhtPeer :=
  [peer_at 1 "1.0.0.1"; peer_at 2 "2.0.0.1"; peer_at 3 "3.0.0.1"; peer_at 4 "4.0.0.1";
   peer_at 5 "5.0.0.1"; peer_at 6 "6.0.0.1"; peer_at 7 "7.0.0.1"; peer_at 8 "8.0.0.1"].
Definition full_table : RoutingTable := (run_ops (OpInsert <$> eight_peers) (table_new zero_id)).2.

(** Two tasks that add the same new peer can both be told to ping the oldest
    peer of its full bucket, since neither holds the lock while it pings, and
    both then force the peer in.  The bucket ends up with the peer twice, and
    the second forced insertion drops a peer that nobody pinged. *)
Theorem eviction_race :
  let new := peer_at 9 "9.0.0.1" in
  let step1 := table_insert new full_table in
  let step2 := table_insert new step1.2 in
  let after := (run_ops [OpEvictInsert new; OpEvictInsert new] step2.2).2 in
  step1.1 = Ok (PendingEviction "1.0.0.1") ∧
  step2.1 = Ok (PendingEviction "1.0.0.1") ∧
  ¬ NoDup (node_id <$> all_peers after) ∧
  find_by_identity "2.0.0.1" step2.2 = Some (peer_at 2 "2.0.0.1") ∧
  find_by_identity "2.0.0.1" after = None.
Proof.
  cbv zeta. split_and!; try (by vm_compute).
  intros HN. apply NoDup_ListNoDup in HN.
  assert (E : ∃ l x, node_id <$> all_peers (run_ops
    [OpEvictInsert (peer_at 9 "9.0.0.1"); OpEvictInsert (peer_at 9 "9.0.0.1")]
    (table_insert (peer_at 9 "9.0.0.1") (table_insert (peer_at 9 "9.0.0.1") full_table).2).2).2
    = l ++ [x; x]).
  { exists (node_id <$> drop 2 eight_peers), (node_id (peer_at 9 "9.0.0.1")). by vm_compute. }
  destruct E as (l & x & E). rewrite E in HN. apply NoDup_ListNoDup, NoDup_app in HN as (_ & _ & HN).
  apply NoDup_cons_1_1 in HN. apply HN. by left.
Qed.

(** The subnet limit binds new peers only.  A peer already in the table that
    is inserted again under another address is not checked, so any number of
    the places of a bucket can end up in one subnet. *)
Theorem subnet_limit_bypassed :
  let moved := (fun n => peer_at n "6.6.6.1") <$> [1; 2; 3; 4; 5; 6; 7; 8]%N in
  let t := (run_ops (OpInsert <$> moved) full_table).2 in
  (table_insert (peer_at 9 "6.6.6.9") t).1 = Ok RejectedSubnetLimit ∧
  head (buckets t) = Some moved ∧
  subnet_count "6.6.6" moved = 8%nat ∧ (MAX_PER_SUBNET_PER_BUCKET < 8)%nat.
Proof. cbv zeta. split_and!; try (by vm_compute). unfold MAX_PER_SUBNET_PER_BUCKET. lia. Qed.
End buckets.

(** ** Witnesses *)

Module DhtExamples.

(** No host of the examples is an IPv6 address. *)
#[local] Instance no_ipv6 : Ipv6 := { ipv6_prefix := fun _ => None }.

Definition history : list DhtOp :=
  (OpInsert <$> eight_peers) ++
  [OpInsert (peer_at 9 "9.0.0.1"); OpEvictInsert (peer_at 9 "9.0.0.1");
   OpTouch (node_id (peer_at 2 "2.0.0.1")) (f64_of_Z 5); OpRemove (node_id (peer_at 4 "4.0.0.1"));
   OpInsert (peer_at 3 "3.0.0.7"); OpRotate (f64_of_Z 100)].

Lemma history_valid : valid_run (table_new zero_id) history.
Proof.
  cbn [history app eight_peers fmap list_fmap valid_run valid_op].
  repeat split; try (by vm_compute).
  refine (bool_decide_unpack _ _). by vm_compute.
Qed.

Lemma routing_table_invariant_witness :
  let t := (run_ops history (table_new zero_id)).2 in
  length (all_peers t) = 7%nat ∧ NoDup (node_id <$> all_peers t).
Proof.
  destruct (routing_table_invariant zero_id history eq_refl history_valid) as (t & E & _ & _ & HN & _).
  cbv zeta. rewrite E. simpl. split; [|exact HN].
  replace t with (run_ops history (table_new zero_id)).2 by (by rewrite E). by vm_compute.
Defined.

Lemma full_table_ok : table_ok full_table.
Proof.
  destruct (run_ops_ok (table_new zero_id) (OpInsert <$> eight_peers)
    (table_new_ok zero_id eq_refl)) as (t & E & Ht & _).
  { cbn [eight_peers fmap list_fmap valid_run valid_op]. repeat split; by vm_compute. }
  unfold full_table. by rewrite E.
Qed.

Lemma closest_exact_witness :
  closest_prefer_outbound (node_id (peer_at 6 "")) 3 full_table
    = [peer_at 6 "6.0.0.1"; peer_at 7 "7.0.0.1"; peer_at 4 "4.0.0.1"] ∧
  closest (node_id (peer_at 6 "")) 3 full_table
    = closest_prefer_outbound (node_id (peer_at 6 "")) 3 full_table.
Proof.
  destruct (closest_exact (node_id (peer_at 6 "")) 3 full_table full_table_ok eq_refl)
    as (left & _ & _ & _ & _ & H).
  split; [by vm_compute|exact (H full_table (Permutation_refl _))].
Defined.
End DhtExamples.
