(* ===== verification/Autoscaler.v ===== *)
(** * Zone autoscaler

    crates/elara-zone-autoscaler/src/lib.rs, at the node's zone type (a [ZoneId]
    is its path, ordered as a string): the recommended zone count, the
    hysteresis around it, and the choice of the zones a transition names.  A
    snapshot is the list of a hash map's entries in the order of its iteration,
    which the language leaves open; a rate is the bit pattern of an [f64]. *)

From Stdlib Require Import Floats.SpecFloat.
From S2P Require Import Prelude Sorting F64.
Open Scope Z_scope.

(** ** Rates *)

(** [f64::from_bits] *)
Definition f64_of_bits (b : Z) : f64 :=
  let s := Z.testbit b 63 in
  let e := Z.land (Z.shiftr b 52) 2047 in
  let m := Z.land b (2 ^ 52 - 1) in
  if e =? 2047 then (if m =? 0 then S754_infinity s else S754_nan)
  else if e =? 0 then (if m =? 0 then S754_zero s else S754_finite s (Z.to_pos m) (-1074))
  else S754_finite s (Z.to_pos (m + 2 ^ 52)) (e - 1075).
(** [b as i64] *)
Definition to_i64 (b : Z) : Z := if 2 ^ 63 <=? b then b - 2 ^ 64 else b.
(** The integer [f64::total_cmp] compares:
    [left ^ (((left >> 63) as u64) >> 1) as i64]. *)
Definition total_key (b : Z) : Z :=
  let left := to_i64 b in
  Z.lxor left (Z.shiftr ((Z.shiftr left 63) mod 2 ^ 64) 1).

(** ** Constants *)

Definition TARGET_ZONE_RATE : f64 := f64_of_Z 20.
Definition SPLIT_RATE_MULTIPLIER : f64 := f64_of_Z 2.
Definition MERGE_RATE_MULTIPLIER : f64 := f64_lit 1 10.
Definition HYSTERESIS_TICKS : Z := 4.
Definition MIN_ZONE_COUNT : Z := 1.
Definition MAX_ZONE_COUNT : Z := 1000000.
Definition SPLIT_KEY_MIDPOINT : list byte := replicate 32 x80.

(** ** The recommendation *)

Inductive ScalingReason := Balanced | AtMaxZones | AtMinZones | NoData.
Inductive ScalingDecision :=
  | NoChange (avg_rate : f64) (reason : ScalingReason)
  | Split (new_count : Z) (avg_rate : f64)
  | Merge (new_count : Z) (avg_rate : f64).

Definition Activity := list (string * Z).

(** [values().copied().sum()]; the sum of floats starts at negative zero. *)
Definition total_rate (act : Activity) : f64 :=
  fold_left (fun acc e => f64_add acc (f64_of_bits e.2)) act (S754_zero true).
Definition average_rate (act : Activity) : f64 :=
  f64_div (total_rate act) (f64_of_Z (Z.of_nat (length act))).
Definition split_threshold : f64 := f64_mul TARGET_ZONE_RATE SPLIT_RATE_MULTIPLIER.
Definition merge_threshold : f64 := f64_mul TARGET_ZONE_RATE MERGE_RATE_MULTIPLIER.
(** [Ord::clamp], which panics when the bounds are reversed; they are constants. *)
Definition clamp (lo hi x : Z) : Z := Z.max lo (Z.min hi x).
Definition sat_mul (a b : Z) : Z := Z.min U64.MAX (a * b).

Definition recommend_zone_count (act : Activity) (current_zone_count max_zones : Z)
    : ScalingDecision :=
  if bool_decide (act = []) then NoChange f64_0 NoData
  else
    let max_zones := clamp MIN_ZONE_COUNT MAX_ZONE_COUNT max_zones in
    let current := Z.max current_zone_count MIN_ZONE_COUNT in
    let avg_rate := average_rate act in
    if negb (f64_is_finite avg_rate) || f64_ltb avg_rate f64_0 then NoChange avg_rate NoData
    else if f64_gtb avg_rate split_threshold then
      if max_zones <=? current then NoChange avg_rate AtMaxZones
      else
        let new_count := Z.min (sat_mul current 2) max_zones in
        if new_count =? current then NoChange avg_rate AtMaxZones
        else Split new_count avg_rate
    else if f64_ltb avg_rate merge_threshold then
      if current <=? MIN_ZONE_COUNT then NoChange avg_rate AtMinZones
      else
        let new_count := Z.max (current / 2) MIN_ZONE_COUNT in
        if new_count =? current then NoChange avg_rate AtMinZones
        else Merge new_count avg_rate
    else NoChange avg_rate Balanced.

(** ** Hysteresis *)

Record AutoScaler := mkScaler {
  consecutive_hot : Z;
  consecutive_cold : Z;
  hysteresis_ticks : Z;
  max_zones : Z;
  last_decision : option ScalingDecision;
}.
Definition eta_AutoScaler (s : AutoScaler) :=
  mkScaler (consecutive_hot s) (consecutive_cold s) (hysteresis_ticks s) (max_zones s) (last_decision s).
#[global] Instance set_consecutive_hot : Setter consecutive_hot.
Proof. derive_setter eta_AutoScaler. Defined.
#[global] Instance set_consecutive_cold : Setter consecutive_cold.
Proof. derive_setter eta_AutoScaler. Defined.
#[global] Instance set_last_decision : Setter last_decision.
Proof. derive_setter eta_AutoScaler. Defined.

Definition scaler_new (hysteresis_ticks max_zones : Z) : AutoScaler :=
  mkScaler 0 0 (Z.max hysteresis_ticks 1) max_zones None.

Definition U32_SAT : Z := 2 ^ 32 - 1.
(** [u32::saturating_add(1)] *)
Definition sat_succ32 (n : Z) : Z := Z.min U32_SAT (n + 1).

Definition observe (act : Activity) (current_zone_count : Z) (s : AutoScaler)
    : option ScalingDecision * AutoScaler :=
  let rec := recommend_zone_count act current_zone_count (max_zones s) in
  match rec with
  | Split _ _ =>
      let s := s <| consecutive_hot := sat_succ32 (consecutive_hot s) |> <| consecutive_cold := 0 |> in
      if hysteresis_ticks s <=? consecutive_hot s
      then (Some rec, s <| consecutive_hot := 0 |> <| last_decision := Some rec |>)
      else (None, s)
  | Merge _ _ =>
      let s := s <| consecutive_cold := sat_succ32 (consecutive_cold s) |> <| consecutive_hot := 0 |> in
      if hysteresis_ticks s <=? consecutive_cold s
      then (Some rec, s <| consecutive_cold := 0 |> <| last_decision := Some rec |>)
      else (None, s)
  | NoChange _ _ => (None, s <| consecutive_hot := 0 |> <| consecutive_cold := 0 |>)
  end.

(** ** Targets *)

Inductive TransitionTarget :=
  | TargetSplit (parent : string)
  | TargetMerge (a b : string).

(** The comparison of the [max_by]: by rate, equal rates by the reversed order
    of the zones. *)
Definition hotter (x y : string * Z) : comparison :=
  match Z.compare (total_key x.2) (total_key y.2) with
  | Eq => String.compare y.1 x.1
  | c => c
  end.
(** [Iterator::max_by]: the last of the greatest. *)
Definition max_by (cmp : string * Z → string * Z → comparison) (l : Activity) : option (string * Z) :=
  match l with
  | [] => None
  | x :: l => Some (fold_left (fun acc y => match cmp acc y with Gt => acc | _ => y end) l x)
  end.
(** The sort key of the merge: rate, then zone. *)
Definition cold_key (x : string * Z) : Z * string := (total_key x.2, x.1).

Definition pick_transition_target (d : ScalingDecision) (act : Activity) : option TransitionTarget :=
  match d with
  | NoChange _ _ => None
  | Split _ _ => (fun e => TargetSplit e.1) <$> max_by hotter act
  | Merge _ _ =>
      if bool_decide (length act < 2)%nat then None
      else match stable_sort (by_key_leb cold_key rank_leb) act with
           | x0 :: x1 :: _ =>
               Some (if String.leb x0.1 x1.1 then TargetMerge x0.1 x1.1 else TargetMerge x1.1 x0.1)
           | _ => None
           end
  end.

(** ** The recommendation is exact and in range *)

Lemma thresholds : split_threshold = f64_of_Z 40 ∧ merge_threshold = f64_of_Z 2.
Proof. by vm_compute. Qed.

(** The recommended zone count is in range and follows the thresholds.  A
    split is recommended exactly when the average rate is a finite number above
    40 records per second and the count can grow, and then doubles it up to the
    cap; a merge exactly when the average is in [0, 2) and the count can shrink,
    and then halves it; the count never leaves [1 .. 1,000,000], and garbage
    rates (not a number, infinite, negative) change nothing. *)
Theorem recommendation_exact act count cap :
  U64.is_u64 count → U64.is_u64 cap →
  let current := Z.max count 1 in
  let top := clamp 1 1000000 cap in
  let avg := average_rate act in
  let usable := act ≠ [] ∧ f64_is_finite avg = true ∧ f64_ltb avg f64_0 = false in
  match recommend_zone_count act count cap with
  | Split n a => usable ∧ a = avg ∧ f64_gtb avg (f64_of_Z 40) = true ∧
      n = Z.min (2 * current) top ∧ current < n <= 1000000
  | Merge n a => usable ∧ a = avg ∧ f64_ltb avg (f64_of_Z 2) = true ∧
      f64_gtb avg (f64_of_Z 40) = false ∧ n = current / 2 ∧ 1 <= n < current
  | NoChange _ NoData => ¬ usable
  | NoChange _ AtMaxZones => usable ∧ f64_gtb avg (f64_of_Z 40) = true ∧ top <= current
  | NoChange _ AtMinZones => usable ∧ f64_ltb avg (f64_of_Z 2) = true ∧ current = 1
  | NoChange _ Balanced => usable ∧ f64_gtb avg (f64_of_Z 40) = false ∧ f64_ltb avg (f64_of_Z 2) = false
  end.
Proof.
  intros Hc Hm. cbv zeta. unfold recommend_zone_count. cbv zeta.
  destruct thresholds as [-> ->].
  case_bool_decide as Hact; [by intros [? _]|].
  destruct (f64_is_finite (average_rate act)) eqn:Hf; simpl; [|naive_solver].
  destruct (f64_ltb (average_rate act) f64_0) eqn:Hneg; [naive_solver|].
  unfold U64.is_u64, clamp, sat_mul, MIN_ZONE_COUNT, MAX_ZONE_COUNT, U64.MAX in *.
  destruct (f64_gtb (average_rate act) (f64_of_Z 40)) eqn:Hs; simpl.
  - repeat case_match; simplify_eq; split_and!; try done; lia.
  - destruct (f64_ltb (average_rate act) (f64_of_Z 2)) eqn:Hlo; [|done].
    pose proof (Z.div_lt (Z.max count 1) 2). pose proof (Z.div_mod (Z.max count 1) 2 ltac:(lia)).
    pose proof (Z.mod_pos_bound (Z.max count 1) 2 ltac:(lia)).
    repeat case_match; simplify_eq; split_and!; try done; lia.
Qed.

(** ** The hysteresis fires on full runs *)

Inductive Direction := Hot | Cold.
#[global] Instance Direction_eq_dec : EqDecision Direction.
Proof. solve_decision. Defined.
Definition direction (d : ScalingDecision) : option Direction :=
  match d with Split _ _ => Some Hot | Merge _ _ => Some Cold | NoChange _ _ => None end.

(** Ticks of a scaler: a snapshot and the zone count of the time. *)
Definition Tick : Type := Activity * Z.
Definition advised (cap : Z) (x : Tick) : ScalingDecision := recommend_zone_count x.1 x.2 cap.
Fixpoint after (ticks : list Tick) (s : AutoScaler) : AutoScaler :=
  match ticks with [] => s | x :: ticks => after ticks (observe x.1 x.2 s).2 end.

(** The length of the run of [dir] a list of decisions, latest first, starts with. *)
Fixpoint run_length (dir : Direction) (past : list ScalingDecision) : Z :=
  match past with
  | [] => 0
  | d :: past => if decide (direction d = Some dir) then 1 + run_length dir past else 0
  end.

Lemma run_length_nonneg dir past : 0 <= run_length dir past.
Proof. induction past; simpl; [done|]. case_decide; lia. Qed.

Lemma mod_succ a h : 0 < h → 0 <= a →
  (1 + a) mod h = if h <=? a mod h + 1 then 0 else a mod h + 1.
Proof.
  intros Hh Ha. pose proof (Z.mod_pos_bound a h Hh).
  rewrite <- Z.add_mod_idemp_r by lia. destruct (Z.leb_spec h (a mod h + 1)).
  - replace (1 + a mod h) with h by lia. by apply Z.mod_same; lia.
  - rewrite Z.mod_small; lia.
Qed.

Record tracks (h cap : Z) (past : list ScalingDecision) (s : AutoScaler) : Prop := {
  tr_h : hysteresis_ticks s = h;
  tr_cap : max_zones s = cap;
  tr_hot : consecutive_hot s = run_length Hot past mod h;
  tr_cold : consecutive_cold s = run_length Cold past mod h;
}.

(** One tick: the answer and the tracked counters. *)
Lemma observe_tracks h cap past s act count :
  1 <= h <= U32_SAT → tracks h cap past s →
  let d := advised cap (act, count) in
  tracks h cap (d :: past) (observe act count s).2 ∧
  (observe act count s).1 =
    match direction d with
    | Some dir => if decide ((1 + run_length dir past) mod h = 0) then Some d else None
    | None => None
    end.
Proof.
  intros Hh [H1 H2 H3 H4]. cbv zeta. unfold observe, advised. cbn [fst snd]. rewrite H2.
  pose proof (Z.mod_pos_bound (run_length Hot past) h ltac:(lia)).
  pose proof (Z.mod_pos_bound (run_length Cold past) h ltac:(lia)).
  pose proof (run_length_nonneg Hot past). pose proof (run_length_nonneg Cold past).
  destruct (recommend_zone_count act count cap) as [a r|n a|n a] eqn:E; cbn [direction].
  - split; [|done]. constructor; simpl; by rewrite ?Z.mod_0_l by lia.
  - cbn. rewrite H1, H3. unfold sat_succ32. rewrite Z.min_r by lia.
    pose proof (mod_succ (run_length Hot past) h ltac:(lia) ltac:(lia)) as Hmod.
    destruct (Z.leb_spec h (run_length Hot past mod h + 1)).
    + rewrite decide_True by done. split; [|done]. constructor; cbn; try done;
        by rewrite ?Hmod, ?Z.mod_0_l by lia.
    + rewrite decide_False by lia. split; [|done]. constructor; cbn; try done;
        by rewrite ?Hmod, ?Z.mod_0_l by lia.
  - cbn. rewrite H1, H4. unfold sat_succ32. rewrite Z.min_r by lia.
    pose proof (mod_succ (run_length Cold past) h ltac:(lia) ltac:(lia)) as Hmod.
    destruct (Z.leb_spec h (run_length Cold past mod h + 1)).
    + rewrite decide_True by done. split; [|done]. constructor; cbn; try done;
        by rewrite ?Hmod, ?Z.mod_0_l by lia.
    + rewrite decide_False by lia. split; [|done]. constructor; cbn; try done;
        by rewrite ?Hmod, ?Z.mod_0_l by lia.
Qed.

Lemma after_tracks h cap ticks past s :
  1 <= h <= U32_SAT → tracks h cap past s →
  tracks h cap (reverse (advised cap <$> ticks) ++ past) (after ticks s).
Proof.
  intros Hh. revert past s. induction ticks as [|[act count] ticks IH]; intros past s Hs; [done|].
  csimpl. rewrite reverse_cons, <- (assoc_L (++)). apply IH. by apply observe_tracks.
Qed.

(** The hysteresis is exact.  After any history of ticks, a tick fires if and
    only if its recommendation is a change and completes a run of [h]
    recommendations of the same direction, counted since the run began (the
    2h-th, 3h-th ... of a longer run fire too), where [h] is the configured
    depth, at least one; the answer is that recommendation, and an interruption
    of any other kind restarts the count. *)
Theorem hysteresis_exact ticks cap history act count :
  0 <= ticks <= U32_SAT →
  let h := Z.max ticks 1 in
  let d := advised cap (act, count) in
  let past := reverse (advised cap <$> history) in
  (observe act count (after history (scaler_new ticks cap))).1 =
    match direction d with
    | Some dir => if decide ((1 + run_length dir past) mod h = 0) then Some d else None
    | None => None
    end.
Proof.
  intros Ht. cbv zeta. assert (Hh : 1 <= Z.max ticks 1 <= U32_SAT) by (unfold U32_SAT in *; lia).
  pose proof (after_tracks (Z.max ticks 1) cap history [] (scaler_new ticks cap) Hh) as HT.
  rewrite app_nil_r in HT. apply observe_tracks; [done|]. apply HT.
  constructor; cbn; by rewrite ?Z.mod_0_l by lia.
Qed.

(** ** Targets *)

Definition hot_key (x : string * Z) : Z * string := (- total_key x.2, x.1).

Lemma hotter_rank x y :
  hotter x y = Gt → rank_leb (hot_key x) (hot_key y) = true.
Proof.
  unfold hotter, rank_leb, lex_leb, hot_key; simpl. intros Hc.
  destruct (Z.ltb_spec (- total_key x.2) (- total_key y.2)); [done|].
  destruct (Z.ltb_spec (- total_key y.2) (- total_key x.2));
    destruct (Z.compare_spec (total_key x.2) (total_key y.2)); try done; try lia.
  apply string_leb_lt_eq. left. rewrite String.compare_antisym. by rewrite Hc.
Qed.
Lemma hotter_rank' x y :
  hotter x y ≠ Gt → rank_leb (hot_key y) (hot_key x) = true.
Proof.
  unfold hotter, rank_leb, lex_leb, hot_key; simpl. intros Hc.
  destruct (Z.ltb_spec (- total_key y.2) (- total_key x.2)); [done|].
  destruct (Z.ltb_spec (- total_key x.2) (- total_key y.2));
    destruct (Z.compare_spec (total_key x.2) (total_key y.2)); try done; try lia.
  unfold String.leb. by destruct (String.compare y.1 x.1).
Qed.

(** The element [max_by] finds is the least under [hot_key]. *)
Lemma max_by_least x l :
  let m := fold_left (fun acc y => match hotter acc y with Gt => acc | _ => y end) l x in
  m ∈ x :: l ∧ ∀ y, y ∈ x :: l → rank_leb (hot_key m) (hot_key y) = true.
Proof.
  cbv zeta. revert x. induction l as [|z l IH]; intros x; simpl.
  { split; [by left|]. intros y Hy. apply list_elem_of_singleton in Hy as ->.
    by destruct (rank_leb_total (hot_key x) (hot_key x)). }
  set (w := match hotter x z with Gt => x | _ => z end).
  destruct (IH w) as [H1 H2]. split.
  { apply elem_of_cons in H1 as [->|H1]; [|by do 2 right].
    subst w. case_match; (by left) || (right; by left). }
  assert (Hw : rank_leb (hot_key w) (hot_key x) = true ∧ rank_leb (hot_key w) (hot_key z) = true).
  { pose proof (rank_leb_total (hot_key x) (hot_key x)) as Hx.
    pose proof (rank_leb_total (hot_key z) (hot_key z)) as Hz.
    subst w. destruct (hotter x z) eqn:E; (split; [|by destruct Hz]) || (split; [by destruct Hx|]);
      try (apply hotter_rank'; congruence); by apply hotter_rank. }
  specialize (H2 w (list_elem_of_here w l)) as Hmw.
  intros y Hy. apply elem_of_cons in Hy as [->|Hy].
  { exact (transitivity (R := sle rank_leb) Hmw (proj1 Hw)). }
  apply elem_of_cons in Hy as [->|Hy]; [exact (transitivity (R := sle rank_leb) Hmw (proj2 Hw))|].
  apply H2. by right.
Qed.

Lemma max_by_spec l m :
  max_by hotter l = Some m → m ∈ l ∧ ∀ y, y ∈ l → rank_leb (hot_key m) (hot_key y) = true.
Proof. destruct l as [|x l]; [done|]. intros E. injection E as <-. apply max_by_least. Qed.
Lemma max_by_None l : max_by hotter l = None → l = [].
Proof. by destruct l. Qed.

Section targets.
Context (act : Activity) (Hnd : NoDup (fst <$> act)).

Lemma zone_entry x y : x ∈ act → y ∈ act → x.1 = y.1 → x = y.
Proof.
  intros Hx Hy E. apply list_elem_of_lookup in Hx as [i Hi], Hy as [j Hj].
  assert (i = j) as ->; [|congruence].
  eapply NoDup_lookup; [exact Hnd|..]; rewrite list_lookup_fmap; [by rewrite Hi|by rewrite Hj, E].
Qed.

Lemma max_by_perm act' : act ≡ₚ act' → max_by hotter act = max_by hotter act'.
Proof.
  intros Hp. destruct (max_by hotter act) as [m|] eqn:E, (max_by hotter act') as [m'|] eqn:E'.
  - f_equal. destruct (max_by_spec _ _ E) as [H1 H2], (max_by_spec _ _ E') as [H3 H4].
    apply zone_entry; [done|by rewrite Hp|].
    pose proof (anti_symm (sle rank_leb) _ _ (H2 m' ltac:(by rewrite Hp)) (H4 m ltac:(by rewrite <- Hp)))
      as Hk. by injection Hk.
  - apply max_by_None in E' as ->. symmetry in Hp. apply Permutation_nil_l in Hp as Hn. by rewrite <- Hn in E.
  - apply max_by_None in E as Hn. rewrite Hn in Hp. apply Permutation_nil_l in Hp as <-. done.
  - done.
Qed.

Lemma coldest_perm act' : act ≡ₚ act' →
  stable_sort (by_key_leb cold_key rank_leb) act = stable_sort (by_key_leb cold_key rank_leb) act'.
Proof.
  apply (by_key_sort_inj cold_key rank_leb rank_leb_total).
  intros x y Hx Hy E. injection E as _ E. by apply zone_entry.
Qed.

Lemma sorted_pair_distinct x0 x1 rest :
  stable_sort (by_key_leb cold_key rank_leb) act = x0 :: x1 :: rest → x0.1 ≠ x1.1.
Proof.
  intros Es E. pose proof Hnd as Hn. rewrite <- (stable_sort_perm (by_key_leb cold_key rank_leb)) in Hn.
  rewrite Es in Hn. csimpl in Hn. apply NoDup_cons in Hn as [Hn _]. apply Hn. rewrite E. by left.
Qed.
Lemma merge_targets_distinct d a b : pick_transition_target d act = Some (TargetMerge a b) → a ≠ b.
Proof.
  destruct d as [| |]; simpl; [done|by destruct (max_by hotter act)|].
  case_bool_decide; [done|]. destruct (stable_sort _ act) as [|x0 [|x1 rest]] eqn:Es; [done..|].
  pose proof (sorted_pair_distinct _ _ _ Es). destruct (String.leb x0.1 x1.1); intros [= <- <-]; done.
Qed.

(** The zones a transition names depend on the snapshot only.  The order in
    which the hash map is walked makes no difference.  A split names the zone of
    the highest rate, the smallest such zone when rates tie; a merge names, in
    order, two different zones such that no third one is colder (or equally
    cold and smaller) than either; without a target the decision was no change,
    the snapshot was empty, or a merge had fewer than two zones. *)
Theorem transition_target_exact d :
  (∀ act', act ≡ₚ act' → pick_transition_target d act' = pick_transition_target d act) ∧
  match pick_transition_target d act with
  | Some (TargetSplit p) => direction d = Some Hot ∧ ∃ r, (p, r) ∈ act ∧
      ∀ q s, (q, s) ∈ act → total_key s < total_key r ∨
        (total_key s = total_key r ∧ String.leb p q = true)
  | Some (TargetMerge a b) => direction d = Some Cold ∧ a ≠ b ∧ String.leb a b = true ∧
      ∃ ra rb, (a, ra) ∈ act ∧ (b, rb) ∈ act ∧
        ∀ q s, (q, s) ∈ act → q ≠ a → q ≠ b →
          rank_leb (total_key ra, a) (total_key s, q) = true ∧
          rank_leb (total_key rb, b) (total_key s, q) = true
  | None => direction d = None ∨ act = [] ∨ (direction d = Some Cold ∧ (length act < 2)%nat)
  end.
Proof.
  split.
  { intros act' Hp. destruct d as [| |]; simpl; [done| |].
    - by rewrite (max_by_perm act' Hp).
    - rewrite (coldest_perm act' Hp). by rewrite (Permutation_length Hp). }
  destruct d as [a r|n a|n a]; simpl; [by left| |].
  - destruct (max_by hotter act) as [[p r]|] eqn:E; [|right; left; by apply max_by_None].
    destruct (max_by_spec _ _ E) as [H1 H2]. simpl. split; [done|]. exists r. split; [done|].
    intros q s Hq. specialize (H2 (q, s) Hq). unfold rank_leb, lex_leb, hot_key in H2; simpl in H2.
    destruct (Z.ltb_spec (- total_key r) (- total_key s)); [left; lia|].
    destruct (Z.ltb_spec (- total_key s) (- total_key r)); [done|]. right. split; [lia|done].
  - case_bool_decide as Hlen; [by right; right|].
    pose proof (stable_sort_perm (by_key_leb cold_key rank_leb) act) as Hp.
    pose proof (by_key_sorted cold_key rank_leb rank_leb_total act) as HS.
    pose proof sorted_pair_distinct as Hpair.
    destruct (stable_sort (by_key_leb cold_key rank_leb) act) as [|x0 [|x1 rest]];
      [apply Permutation_length in Hp; simpl in Hp; lia..|].
    assert (H0 : x0 ∈ act) by (rewrite <- Hp; by left).
    assert (H1 : x1 ∈ act) by (rewrite <- Hp; right; by left).
    pose proof (Hpair _ _ _ eq_refl) as Hne.
    assert (Hrest : ∀ q s, (q, s) ∈ act → q ≠ x0.1 → q ≠ x1.1 →
      rank_leb (total_key x0.2, x0.1) (total_key s, q) = true ∧
      rank_leb (total_key x1.2, x1.1) (total_key s, q) = true).
    { intros q s Hq N0 N1. rewrite <- Hp in Hq.
      apply elem_of_cons in Hq as [<-|Hq]; [done|]. apply elem_of_cons in Hq as [<-|Hq]; [done|].
      csimpl in HS. apply StronglySorted_inv in HS as [HS F0].
      apply StronglySorted_inv in HS as [_ F1].
      apply Forall_cons in F0 as [_ F0]. rewrite Forall_fmap, Forall_forall in F0, F1.
      split; [exact (F0 _ Hq)|exact (F1 _ Hq)]. }
    destruct x0 as [z0 r0], x1 as [z1 r1]; simpl in *.
    destruct (String.leb z0 z1) eqn:E; (split; [done|]); (split; [done|]); (split; [|]).
    + done.
    + exists r0, r1. split_and!; [done..|]. intros q s Hq N0 N1. by apply Hrest.
    + destruct (string_leb_total z0 z1); congruence.
    + exists r1, r0. split_and!; [done..|]. intros q s Hq N1 N0.
      destruct (Hrest q s Hq N0 N1). done.
Qed.
End targets.

(** ** Order of the sum *)

(** Three zones at 120, 7e-15 and 7e-15 records per second. *)
Definition lopsided : Activity :=
  [("a", 4638144666238189568); ("b", 4395379591260460710); ("c", 4395379591260460710)].

(** The recommendation depends on the order in which the hash map is walked.
    Floating-point addition is not associative: one order of the same snapshot
    sums to exactly the threshold and changes nothing, the other sums above it
    and splits, so two nodes with the same snapshot can disagree. *)
Theorem recommendation_order_sensitive :
  Permutation lopsided (reverse lopsided) ∧
  direction (recommend_zone_count lopsided 4 64) = None ∧
  direction (recommend_zone_count (reverse lopsided) 4 64) = Some Hot.
Proof. split_and!; [by rewrite reverse_Permutation|by vm_compute..]. Qed.

(** ** Witnesses *)

Module AutoscalerExamples.
(** Rates of 100, 30 and half a record per second. *)
Definition r100 : Z := 4636737291354636288.
Definition r30 : Z := 4629137466983448576.
Definition r05 : Z := 4602678819172646912.
Definition hot : Activity := [("medical", r100); ("default", r30); ("energy", r100)].
Definition cold : Activity := [("medical", r05); ("default", r05)].

Lemma recommendation_exact_witness :
  (∃ a, recommend_zone_count hot 6 10 = Split 10 a) ∧
  (6 < 10 ∧ f64_is_finite (average_rate hot) = true).
Proof.
  pose proof (recommendation_exact hot 6 10 ltac:(unfold U64.is_u64, U64.MAX; lia)
    ltac:(unfold U64.is_u64, U64.MAX; lia)) as H.
  assert (E : ∃ a, recommend_zone_count hot 6 10 = Split 10 a) by (eexists; by vm_compute).
  split; [exact E|]. destruct E as [a E]. cbv zeta in H. rewrite E in H.
  destruct H as ((_ & Hf & _) & _ & _ & _ & Hn). split; [lia|exact Hf].
Defined.

(** Three ticks of a depth-two scaler: hot, hot, then cold. *)
Lemma hysteresis_exact_witness :
  (observe hot 6 (after [] (scaler_new 2 64))).1 = None ∧
  (observe hot 6 (after [(hot, 6)] (scaler_new 2 64))).1 = Some (advised 64 (hot, 6)) ∧
  (observe cold 6 (after [(hot, 6); (hot, 6); (hot, 6)] (scaler_new 2 64))).1 = None.
Proof.
  split_and!.
  - rewrite (hysteresis_exact 2 64 [] hot 6) by (unfold U32_SAT; lia). by vm_compute.
  - rewrite (hysteresis_exact 2 64 [(hot, 6)] hot 6) by (unfold U32_SAT; lia). by vm_compute.
  - rewrite (hysteresis_exact 2 64 [(hot, 6); (hot, 6); (hot, 6)] cold 6) by (unfold U32_SAT; lia).
    by vm_compute.
Defined.

Lemma transition_target_exact_witness :
  pick_transition_target (Split 10 f64_0) hot = Some (TargetSplit "energy") ∧
  pick_transition_target (Split 10 f64_0) (reverse hot) = Some (TargetSplit "energy") ∧
  pick_transition_target (Merge 3 f64_0) hot = Some (TargetMerge "default" "energy").
Proof.
  assert (Hn : NoDup (fst <$> hot)) by (refine (bool_decide_unpack _ _); by vm_compute).
  destruct (transition_target_exact hot Hn (Split 10 f64_0)) as [Hp _].
  split_and!; [by vm_compute| |by vm_compute].
  rewrite (Hp (reverse hot)); [by vm_compute|symmetry; apply reverse_Permutation].
Defined.
End AutoscalerExamples.
