(* ===== verification/ZoneTransition.v ===== *)
(** * Zone transition seals

    src/network/zone_transition_seal.rs: the record that splits a zone or merges
    two, its structural checks, what its anchors sign, the signature quorum, and
    collecting signatures; and src/network/auto_scale.rs, which turns a scaling
    decision into such a seal.  The JSON form of a seal and the node's storage
    are parameters. *)

From S2P Require Import Prelude Sorting F64 CrossZone Merkle ZoneCommittee Autoscaler.
Open Scope Z_scope.

Definition SPLIT_ANCHOR_THRESHOLD : nat := 4.
Definition MERGE_ANCHOR_THRESHOLD : nat := 7.
Definition TRANSITION_DISPUTE_WINDOW_EPOCHS : Z := 3.
Definition TRANSITION_DISPUTE_WINDOW_FLOOR_SECS : Z := 180.
Definition MAX_PROPOSER_SIGS : nat := 32.
Definition DOMAIN_TAG_ZONE_TRANSITION_SEAL_V1 : list byte := bytes_of "ELARA_ZONE_TRANSITION_SEAL_V1".

(** [u64::div_ceil] *)
Definition div_ceil (a b : Z) : Z := (a + b - 1) / b.
Definition dispute_window_epochs (epoch_interval_secs : Z) : Z :=
  let interval := Z.max epoch_interval_secs 1 in
  Z.max (div_ceil TRANSITION_DISPUTE_WINDOW_FLOOR_SECS interval) TRANSITION_DISPUTE_WINDOW_EPOCHS.

(** ** Data *)

Inductive TransitionKind := KindSplit | KindMerge.
#[global] Instance TransitionKind_eq_dec : EqDecision TransitionKind.
Proof. solve_decision. Defined.

Record ZoneSnapshot := mkSnapshot {
  zs_zone_id : string;
  state_root : hash;
  last_seal_record_id : string;
  record_count : Z;
  zs_committee_hash : hash;
}.
#[global] Instance ZoneSnapshot_eq_dec : EqDecision ZoneSnapshot.
Proof. solve_decision. Defined.

Record AnchorSig := mkAnchorSig { anchor_identity_hash : hash; dilithium3_sig : list byte }.
#[global] Instance AnchorSig_eq_dec : EqDecision AnchorSig.
Proof. solve_decision. Defined.

Record TransitionSeal := mkSeal {
  kind : TransitionKind;
  effective_epoch : Z;
  proposed_at_epoch : Z;
  parents : list ZoneSnapshot;
  children : list ZoneSnapshot;
  split_key : option hash;
  proposer_sigs : list AnchorSig;
  sig_domain : option Z;
}.
#[global] Instance TransitionSeal_eq_dec : EqDecision TransitionSeal.
Proof. solve_decision. Defined.
Definition eta_TransitionSeal (s : TransitionSeal) :=
  mkSeal (kind s) (effective_epoch s) (proposed_at_epoch s) (parents s) (children s) (split_key s)
    (proposer_sigs s) (sig_domain s).
#[global] Instance set_proposer_sigs : Setter proposer_sigs.
Proof. derive_setter eta_TransitionSeal. Defined.

(** The hash of an empty zone tree. *)
Definition NEWBORN_ROOT : hash := byte_of_N <$>
  [167; 255; 198; 248; 191; 30; 215; 102; 81; 193; 71; 86; 160; 97; 214; 98;
   245; 128; 255; 77; 228; 59; 73; 250; 130; 216; 10; 75; 128; 248; 67; 74]%N.
Definition newborn_child_snapshot (zone : string) (committee_hash : hash) : ZoneSnapshot :=
  mkSnapshot zone NEWBORN_ROOT "" 0 committee_hash.

(** ** Structure *)

Definition validate_structure (s : TransitionSeal) : outcome unit :=
  if negb (U64.sat_add (proposed_at_epoch s) TRANSITION_DISPUTE_WINDOW_EPOCHS =? effective_epoch s)
  then Err (EWire "dispute window mismatch")
  else if bool_decide (MAX_PROPOSER_SIGS < length (proposer_sigs s))%nat
  then Err (EWire "too many proposer sigs")
  else match kind s with
  | KindSplit =>
      if negb (bool_decide (length (parents s) = 1%nat)) then Err (EWire "split parents")
      else if negb (bool_decide (length (children s) = 2%nat)) then Err (EWire "split children")
      else if bool_decide (split_key s = None) then Err (EWire "split requires split_key")
      else Ok tt
  | KindMerge =>
      if negb (bool_decide (length (parents s) = 2%nat)) then Err (EWire "merge parents")
      else if negb (bool_decide (length (children s) = 1%nat)) then Err (EWire "merge children")
      else if negb (bool_decide (split_key s = None)) then Err (EWire "merge with split_key")
      else match parents s with
           | p :: q :: _ => if decide (zs_zone_id p = zs_zone_id q)
                            then Err (EWire "merge parents must be distinct") else Ok tt
           | _ => Panic
           end
  end.

Definition required_threshold (s : TransitionSeal) : nat :=
  match kind s with
  | KindSplit => SPLIT_ANCHOR_THRESHOLD
  | KindMerge => MERGE_ANCHOR_THRESHOLD
  end.

Definition account_belongs_to_child (s : TransitionSeal) (account_hash : hash) : option string :=
  match kind s, split_key s with
  | KindSplit, Some key =>
      (* [account_hash < key] *)
      if negb (bytes_leb key account_hash) then zs_zone_id <$> head (children s)
      else zs_zone_id <$> children s !! 1%nat
  | KindMerge, _ => zs_zone_id <$> head (children s)
  | KindSplit, None => None
  end.

(** ** Signatures *)

(** [serde_json::to_vec] of a seal. *)
Class SealJson := { seal_json : TransitionSeal → option (list byte) }.

Section seals.
Context `{Externals, SealJson}.

Definition canonical_encode_for_sig (s : TransitionSeal) : outcome (list byte) :=
  match seal_json (s <| proposer_sigs := [] |>) with
  | Some bytes => Ok bytes
  | None => Err (EWire "transition seal encode")
  end.
Definition seal_hash_for_sig (s : TransitionSeal) : outcome hash :=
  sha3_256 <$> canonical_encode_for_sig s.
Definition signing_preimage (s : TransitionSeal) : outcome (list byte) :=
  h ← seal_hash_for_sig s;
  match sig_domain s with
  | None => Ok h
  | Some d => if d =? 1 then Ok (DOMAIN_TAG_ZONE_TRANSITION_SEAL_V1 ++ h)
              else Err (EWire "unknown sig_domain")
  end.

(** The loop of [verify_sigs]: the anchors seen and the valid count. *)
Fixpoint count_valid (preimage : list byte) (anchor_pubkeys : gmap hash (list byte))
    (sigs : list AnchorSig) (seen : gset hash) (valid : nat) : nat :=
  match sigs with
  | [] => valid
  | sig :: sigs =>
      let a := anchor_identity_hash sig in
      if decide (a ∈ seen) then count_valid preimage anchor_pubkeys sigs seen valid
      else
        let seen := {[a]} ∪ seen in
        match anchor_pubkeys !! a with
        | None => count_valid preimage anchor_pubkeys sigs seen valid
        | Some pk =>
            if sig_verify preimage (dilithium3_sig sig) pk
            then count_valid preimage anchor_pubkeys sigs seen (S valid)
            else count_valid preimage anchor_pubkeys sigs seen valid
        end
  end.
Definition verify_sigs (s : TransitionSeal) (anchor_pubkeys : gmap hash (list byte))
    (threshold : nat) : outcome unit :=
  preimage ← signing_preimage s;
  if bool_decide (count_valid preimage anchor_pubkeys (proposer_sigs s) ∅ 0 < threshold)%nat
  then Err (EWire "not enough valid anchor sigs") else Ok tt.

(** [sort_by_key(|s| s.anchor_identity_hash)] *)
Definition sort_sigs (l : list AnchorSig) : list AnchorSig :=
  stable_sort (by_key_leb anchor_identity_hash bytes_leb) l.

Definition sign_as_anchor (signer : Signer) (s : TransitionSeal) : outcome TransitionSeal :=
  if bool_decide (MAX_PROPOSER_SIGS <= length (proposer_sigs s))%nat
  then Err (EWire "proposer_sigs full")
  else
    let a := sha3_256 (signer_pk signer) in
    if bool_decide (a ∈ anchor_identity_hash <$> proposer_sigs s)
    then Err (EWire "already signed")
    else
      preimage ← signing_preimage s;
      match signer_sign signer preimage with
      | None => Err (EWire "sign failed")
      | Some sig =>
          Ok (s <| proposer_sigs := sort_sigs (proposer_sigs s ++ [mkAnchorSig a sig]) |>)
      end.

(** ** Proposals *)

(** What a proposal reads of the node's storage: a zone tree's root and leaf
    count, and the newest seal of the zone. *)
Class ZoneStore := {
  tree_root : string → outcome hash;
  tree_leaf_count : string → outcome Z;
  find_latest_seal_for_zone : string → outcome (option string);
}.
Context `{ZoneStore}.

Definition build_zone_snapshot (zone : string) (committee_hash : hash) : outcome ZoneSnapshot :=
  root ← tree_root zone;
  count ← tree_leaf_count zone;
  seal ← find_latest_seal_for_zone zone;
  Ok (mkSnapshot zone root (default "" seal) count committee_hash).

Definition zone_committee_hash (current_epoch : Z) (candidates : list Candidate)
    (committee_size : nat) (zone : string) : hash :=
  committee_hash_from_members
    (select_zone_committee zone current_epoch candidates committee_size) current_epoch.

Definition unsigned_proposal (target : TransitionTarget) (current_epoch effective : Z)
    (hash_of : string → hash) : outcome TransitionSeal :=
  match target with
  | TargetSplit parent =>
      parent_snap ← build_zone_snapshot parent (hash_of parent);
      let left_zone := zone_new (parent +:+ "/L") in
      let right_zone := zone_new (parent +:+ "/R") in
      Ok (mkSeal KindSplit effective current_epoch [parent_snap]
            [newborn_child_snapshot left_zone (hash_of left_zone);
             newborn_child_snapshot right_zone (hash_of right_zone)]
            (Some SPLIT_KEY_MIDPOINT) [] (Some 1))
  | TargetMerge a b =>
      a_snap ← build_zone_snapshot a (hash_of a);
      b_snap ← build_zone_snapshot b (hash_of b);
      let child_zone := zone_new (a +:+ "+" +:+ b) in
      Ok (mkSeal KindMerge effective current_epoch [a_snap; b_snap]
            [newborn_child_snapshot child_zone (hash_of child_zone)] None [] (Some 1))
  end.

Definition propose_transition_from_decision (signer : Signer) (decision : ScalingDecision)
    (activity : Activity) (current_epoch epoch_interval_secs : Z) (candidates : list Candidate)
    (committee_size : nat) : outcome (option TransitionSeal) :=
  match pick_transition_target decision activity with
  | None => Ok None
  | Some target =>
      let effective := U64.sat_add current_epoch (dispute_window_epochs epoch_interval_secs) in
      seal ← unsigned_proposal target current_epoch effective
               (zone_committee_hash current_epoch candidates committee_size);
      _ ← validate_structure seal;
      Some <$> sign_as_anchor signer seal
  end.

(** ** The signature quorum *)

(** The bytes that are signed do not depend on the signatures collected. *)
Lemma preimage_sigs s l : signing_preimage (s <| proposer_sigs := l |>) = signing_preimage s.
Proof. done. Qed.

(** Anchor [a] counts: its first signature verifies under its registered key. *)
Definition counts (p : list byte) (keys : gmap hash (list byte)) (sigs : list AnchorSig) (a : hash)
    : Prop :=
  ∃ i sig pk, list_find (fun s => anchor_identity_hash s = a) sigs = Some (i, sig) ∧
    keys !! a = Some pk ∧ sig_verify p (dilithium3_sig sig) pk = true.

(** The anchors the loop counts, in order. *)
Fixpoint valid_anchors (p : list byte) (keys : gmap hash (list byte)) (sigs : list AnchorSig)
    (seen : gset hash) : list hash :=
  match sigs with
  | [] => []
  | sig :: sigs =>
      let a := anchor_identity_hash sig in
      if decide (a ∈ seen) then valid_anchors p keys sigs seen
      else
        let rest := valid_anchors p keys sigs ({[a]} ∪ seen) in
        match keys !! a with
        | Some pk => if sig_verify p (dilithium3_sig sig) pk then a :: rest else rest
        | None => rest
        end
  end.

Lemma count_valid_length p keys sigs seen n :
  count_valid p keys sigs seen n = (n + length (valid_anchors p keys sigs seen))%nat.
Proof.
  revert seen n. induction sigs as [|sig sigs IH]; intros seen n; simpl; [lia|].
  case_decide; [done|]. destruct (keys !! _) as [pk|]; [|done].
  destruct (sig_verify _ _ _); simpl; rewrite IH; lia.
Qed.

Lemma valid_anchors_spec p keys sigs seen a :
  a ∈ valid_anchors p keys sigs seen ↔ a ∉ seen ∧ counts p keys sigs a.
Proof.
  revert seen. induction sigs as [|sig sigs IH]; intros seen; simpl.
  { split; [by intros ?%elem_of_nil|]. intros [_ (i & s & pk & E & _)]. done. }
  assert (Hskip : anchor_identity_hash sig ≠ a →
    (counts p keys (sig :: sigs) a ↔ counts p keys sigs a)).
  { intros Hne. unfold counts. cbn [list_find]. rewrite decide_False by done. split.
    - intros (i & s & pk & E & HR). destruct (list_find _ sigs) as [[j s']|]; [|done].
      simpl in E. simplify_eq. eauto.
    - intros (i & s & pk & -> & HR). simpl. eauto. }
  assert (Hhit : counts p keys (sig :: sigs) (anchor_identity_hash sig) ↔
    ∃ pk, keys !! anchor_identity_hash sig = Some pk ∧ sig_verify p (dilithium3_sig sig) pk = true).
  { unfold counts. cbn [list_find]. rewrite decide_True by done. naive_solver. }
  case_decide as Hs.
  { rewrite IH. destruct (decide (anchor_identity_hash sig = a)) as [<-|Hne]; [naive_solver|].
    by rewrite Hskip. }
  assert (HR : a ∈ valid_anchors p keys sigs ({[anchor_identity_hash sig]} ∪ seen) ↔
    a ≠ anchor_identity_hash sig ∧ a ∉ seen ∧ counts p keys sigs a) by (rewrite IH; set_solver).
  destruct (decide (anchor_identity_hash sig = a)) as [<-|Hne].
  - rewrite Hhit. destruct (keys !! _) as [pk|] eqn:Ek.
    2: { rewrite HR. split; [by intros [? _]|by intros [_ (? & ? & _)]]. }
    destruct (sig_verify _ _ _) eqn:Ev.
    + split; [intros _; eauto|by left].
    + rewrite HR. split; [by intros [? _]|]. intros [_ (pk' & [= <-] & ?)]. congruence.
  - rewrite Hskip by done. assert (Hl : a ≠ anchor_identity_hash sig) by done.
    destruct (keys !! _) as [pk|]; [destruct (sig_verify _ _ _)|]; rewrite ?elem_of_cons, HR; tauto.
Qed.

Lemma valid_anchors_NoDup p keys sigs seen : NoDup (valid_anchors p keys sigs seen).
Proof.
  revert seen. induction sigs as [|sig sigs IH]; intros seen; simpl; [constructor|].
  case_decide; [done|]. destruct (keys !! _); [|done]. destruct (sig_verify _ _ _); [|done].
  constructor; [|done]. rewrite valid_anchors_spec. set_solver.
Qed.

Lemma verify_sigs_iff s keys threshold :
  verify_sigs s keys threshold = Ok tt ↔
  ∃ p l, signing_preimage s = Ok p ∧ NoDup l ∧ (threshold <= length l)%nat ∧
    ∀ a, a ∈ l → counts p keys (proposer_sigs s) a.
Proof.
  unfold verify_sigs. destruct (signing_preimage s) as [p|e|]; simpl; [|naive_solver..].
  rewrite count_valid_length. simpl.
  set (v := valid_anchors p keys (proposer_sigs s) ∅).
  assert (Hv : ∀ a, a ∈ v ↔ counts p keys (proposer_sigs s) a).
  { intros a. unfold v. rewrite valid_anchors_spec. set_solver. }
  case_bool_decide as Hc; split; try done.
  - intros (p' & l & [= <-] & HN & Ht & Hl). exfalso.
    assert (Hs : l ⊆+ v) by (apply NoDup_submseteq; [done|]; intros a Ha; apply Hv, Hl, Ha).
    apply submseteq_length in Hs. lia.
  - intros _. exists p, v. split_and!; [done|apply valid_anchors_NoDup|lia|]. intros a. apply Hv.
Qed.

(** A transition seal passes with a threshold exactly when that many distinct
    registered anchors have signed it: the bytes to sign exist (an unknown
    signing domain fails closed) and there are that many different anchors
    whose first listed signature verifies under the registered key.  Repeated
    signatures and signatures of unknown anchors never help. *)
Theorem transition_quorum_exact s keys threshold :
  verify_sigs s keys threshold = Ok tt ↔
  ∃ p l, signing_preimage s = Ok p ∧ NoDup l ∧ (threshold <= length l)%nat ∧
    ∀ a, a ∈ l → counts p keys (proposer_sigs s) a.
Proof. apply verify_sigs_iff. Qed.

(** ** Collecting signatures *)

Definition sig_of (p : list byte) (signer : Signer) : AnchorSig :=
  mkAnchorSig (sha3_256 (signer_pk signer)) (default [] (signer_sign signer p)).
Fixpoint cosign (signers : list Signer) (s : TransitionSeal) : outcome TransitionSeal :=
  match signers with
  | [] => Ok s
  | signer :: signers => s' ← sign_as_anchor signer s; cosign signers s'
  end.

Lemma sort_sigs_perm l l' :
  NoDup (anchor_identity_hash <$> l) → l ≡ₚ l' → sort_sigs l = sort_sigs l'.
Proof.
  intros HN. apply (by_key_sort_inj anchor_identity_hash bytes_leb bytes_leb_total).
  intros x y Hx Hy E. apply list_elem_of_lookup in Hx as [i Hi], Hy as [j Hj].
  assert (i = j) as ->; [|congruence].
  eapply NoDup_lookup; [exact HN|..]; rewrite list_lookup_fmap; [by rewrite Hi|by rewrite Hj, E].
Qed.

(** Signing one after the other, from sorted signatures. *)
Lemma cosign_sigs p signers s l :
  signing_preimage s = Ok p → proposer_sigs s = sort_sigs l →
  NoDup (anchor_identity_hash <$> l ++ (sig_of p <$> signers)) →
  (length l + length signers <= MAX_PROPOSER_SIGS)%nat →
  (∀ signer, signer ∈ signers → signer_sign signer p ≠ None) →
  cosign signers s = Ok (s <| proposer_sigs := sort_sigs (l ++ (sig_of p <$> signers)) |>).
Proof.
  revert s l. induction signers as [|signer signers IH]; intros s l Hp Hs HN Hlen Hsign; simpl.
  { rewrite app_nil_r, <- Hs. by destruct s. }
  unfold sign_as_anchor. rewrite bool_decide_false.
  2: { rewrite Hs. unfold sort_sigs. rewrite stable_sort_length. simpl in Hlen. lia. }
  csimpl in HN. rewrite bool_decide_false.
  2: { rewrite Hs. unfold sort_sigs. rewrite stable_sort_perm. rewrite fmap_app in HN.
       apply NoDup_app in HN as (_ & Hd & _). intros Hin. apply (Hd _ Hin). csimpl. by left. }
  rewrite Hp. simpl. destruct (signer_sign signer p) as [sig|] eqn:Esig;
    [|by destruct (Hsign signer (list_elem_of_here _ _))].
  assert (Esg : sig_of p signer = mkAnchorSig (sha3_256 (signer_pk signer)) sig)
    by (unfold sig_of; by rewrite Esig).
  rewrite <- Esg. rewrite (cons_middle (sig_of p signer)), (assoc_L (++)) in HN.
  refine (eq_trans (IH (s <| proposer_sigs := sort_sigs (proposer_sigs s ++ [sig_of p signer]) |>)
    (l ++ [sig_of p signer]) _ _ HN _ _) _); [done|..|by rewrite <- (assoc_L (++))].
  - simpl. rewrite Hs. unfold sort_sigs at 1 3. apply sort_sigs_perm.
    + rewrite (stable_sort_perm (by_key_leb anchor_identity_hash bytes_leb) l).
      rewrite fmap_app in HN. by apply NoDup_app in HN as (? & _).
    + by rewrite (stable_sort_perm (by_key_leb anchor_identity_hash bytes_leb) l).
  - rewrite length_app. simpl in *. lia.
  - intros x Hx. apply Hsign. by right.
Qed.

(** Every anchor whose signature is in the list counts. *)
Lemma signer_counts p keys signers signer l :
  NoDup (anchor_identity_hash <$> l) → l ≡ₚ sig_of p <$> signers → signer ∈ signers →
  keys !! sha3_256 (signer_pk signer) = Some (signer_pk signer) →
  sig_verify p (default [] (signer_sign signer p)) (signer_pk signer) = true →
  counts p keys l (sha3_256 (signer_pk signer)).
Proof.
  intros HN Hp Hin Hk Hv. assert (Hs : sig_of p signer ∈ l) by (rewrite Hp; by apply list_elem_of_fmap_2).
  destruct (list_find_elem_of (fun s => anchor_identity_hash s = sha3_256 (signer_pk signer))
    l (sig_of p signer) Hs eq_refl) as [[i x] E].
  exists i, x, (signer_pk signer). split_and!; [done|done|].
  apply list_find_Some in E as (Hi & Ex & _). apply list_elem_of_lookup in Hs as [j Hj].
  assert (i = j) as ->; [|by simplify_eq].
  eapply NoDup_lookup; [exact HN|..]; rewrite list_lookup_fmap; [by rewrite Hi|by rewrite Hj, Ex].
Qed.

Lemma cosign_verifies s p signers keys :
  signing_preimage s = Ok p → proposer_sigs s = [] →
  NoDup ((fun signer => sha3_256 (signer_pk signer)) <$> signers) →
  (length signers <= MAX_PROPOSER_SIGS)%nat →
  (∀ signer, signer ∈ signers → ∃ sig, signer_sign signer p = Some sig ∧
     sig_verify p sig (signer_pk signer) = true ∧
     keys !! sha3_256 (signer_pk signer) = Some (signer_pk signer)) →
  ∃ s', cosign signers s = Ok s' ∧ verify_sigs s' keys (length signers) = Ok tt ∧
    ∀ signers', signers' ≡ₚ signers → cosign signers' s = Ok s'.
Proof.
  intros Hp Hs HN Hlen Hsign.
  assert (HK : ∀ l, anchor_identity_hash <$> (sig_of p <$> l) =
    ((fun signer => sha3_256 (signer_pk signer)) <$> l)) by (intros l; by rewrite <- list_fmap_compose).
  assert (HC : ∀ l, l ≡ₚ signers →
    cosign l s = Ok (s <| proposer_sigs := sort_sigs (sig_of p <$> signers) |>)).
  { intros l Hl. rewrite (sort_sigs_perm _ (sig_of p <$> l)); [|by rewrite HK|by rewrite Hl].
    apply (cosign_sigs p l s []); [done|by rewrite Hs|by rewrite app_nil_l, HK, Hl| |].
    - by rewrite Hl.
    - intros signer Hin. rewrite Hl in Hin. destruct (Hsign signer Hin) as (sig & -> & _). done. }
  eexists. split; [by apply HC|]. split; [|exact HC]. apply verify_sigs_iff.
  exists p, ((fun signer => sha3_256 (signer_pk signer)) <$> signers).
  split_and!; [done|done|by rewrite length_fmap|].
  intros a Ha. apply list_elem_of_fmap in Ha as (signer & -> & Hin).
  destruct (Hsign signer Hin) as (sig & Es & Ev & Ek).
  pose proof (stable_sort_perm (by_key_leb anchor_identity_hash bytes_leb) (sig_of p <$> signers)) as HP.
  apply (signer_counts p keys signers); [|exact HP|done|done|by rewrite Es].
  simpl. unfold sort_sigs. by rewrite HP, HK.
Qed.

(** Collecting signatures reaches the quorum.  When distinct anchors, at most
    32 of them, sign an unsigned seal one after the other, every signature is
    accepted and the seal then passes verification at a threshold of their
    number; the resulting seal is the same whatever the order they sign in, so
    gossip of it is byte-stable. *)
Theorem cosigned_seal_verifies s p signers keys :
  signing_preimage s = Ok p → proposer_sigs s = [] →
  NoDup ((fun signer => sha3_256 (signer_pk signer)) <$> signers) →
  (length signers <= MAX_PROPOSER_SIGS)%nat →
  (∀ signer, signer ∈ signers → ∃ sig, signer_sign signer p = Some sig ∧
     sig_verify p sig (signer_pk signer) = true ∧
     keys !! sha3_256 (signer_pk signer) = Some (signer_pk signer)) →
  ∃ s', cosign signers s = Ok s' ∧ verify_sigs s' keys (length signers) = Ok tt ∧
    ∀ signers', signers' ≡ₚ signers → cosign signers' s = Ok s'.
Proof. apply cosign_verifies. Qed.

(** ** Proposals *)

Lemma window_slow interval : 60 <= interval → dispute_window_epochs interval = 3.
Proof.
  intros Hi. unfold dispute_window_epochs, div_ceil, TRANSITION_DISPUTE_WINDOW_FLOOR_SECS,
    TRANSITION_DISPUTE_WINDOW_EPOCHS. rewrite (Z.max_l interval 1) by lia.
  assert ((180 + interval - 1) / interval < 4) by (apply Z.div_lt_upper_bound; lia). lia.
Qed.
Lemma window_fast interval : interval < 60 → 4 <= dispute_window_epochs interval <= 180.
Proof.
  intros Hi. unfold dispute_window_epochs, div_ceil, TRANSITION_DISPUTE_WINDOW_FLOOR_SECS,
    TRANSITION_DISPUTE_WINDOW_EPOCHS. set (i := Z.max interval 1).
  assert (4 <= (180 + i - 1) / i) by (apply Z.div_le_lower_bound; lia).
  assert ((180 + i - 1) / i < 181) by (apply Z.div_lt_upper_bound; lia). lia.
Qed.

(** The unsigned proposal carries the epochs it was given. *)
Lemma proposal_epochs target now eff hash_of s :
  unsigned_proposal target now eff hash_of = Ok s → proposed_at_epoch s = now ∧ effective_epoch s = eff.
Proof.
  unfold unsigned_proposal. destruct target as [z|a b].
  - destruct (build_zone_snapshot z (hash_of z)) as [?|?|]; simpl; naive_solver.
  - destruct (build_zone_snapshot a (hash_of a)) as [?|?|]; simpl; [|naive_solver..].
    destruct (build_zone_snapshot b (hash_of b)) as [?|?|]; simpl; naive_solver.
Qed.

(** A node whose epochs are shorter than a minute never proposes a
    transition.  The proposer widens the dispute window to cover 180 seconds,
    but the structural check accepts only a window of exactly three epochs, so
    it refuses the proposal of its own node. *)
Theorem fast_cadence_never_proposes signer decision activity now interval candidates size :
  0 <= now → now + 180 <= U64.MAX → interval < 60 →
  ∀ s, propose_transition_from_decision signer decision activity now interval candidates size ≠ Ok (Some s).
Proof.
  intros Hlo Hn Hi s. unfold propose_transition_from_decision.
  destruct (pick_transition_target decision activity) as [t|]; [|done].
  destruct (unsigned_proposal _ _ _ _) as [u|e|] eqn:Eu; [|done..]. simpl.
  apply proposal_epochs in Eu as [Ep Ee]. pose proof (window_fast interval Hi).
  unfold validate_structure. rewrite Ep, Ee. unfold U64.sat_add, TRANSITION_DISPUTE_WINDOW_EPOCHS.
  rewrite !Z.min_r by lia. by destruct (Z.eqb_spec (now + 3) (now + dispute_window_epochs interval)); [lia|].
Qed.

(** The zones a target closes, and the zones it opens. *)
Definition target_parents (t : TransitionTarget) : list string :=
  match t with TargetSplit p => [p] | TargetMerge a b => [a; b] end.
Definition target_children (t : TransitionTarget) : list string :=
  match t with
  | TargetSplit p => [zone_new (p +:+ "/L"); zone_new (p +:+ "/R")]
  | TargetMerge a b => [zone_new (a +:+ "+" +:+ b)]
  end.

(** With epochs of a minute or more, a scaling decision that names a target
    becomes a valid seal: it passes its own structural check, takes effect
    three epochs later, closes the zones of the target and opens the derived
    children, and carries exactly the proposer's signature, which counts. *)
Theorem proposal_well_formed signer decision activity now interval candidates size t :
  0 <= now → now + 3 <= U64.MAX → 60 <= interval → NoDup (fst <$> activity) →
  pick_transition_target decision activity = Some t →
  (∀ z h, ∃ snap, build_zone_snapshot z h = Ok snap) →
  (∀ s, ∃ json, seal_json s = Some json) →
  (∀ p, ∃ sig, signer_sign signer p = Some sig ∧ sig_verify p sig (signer_pk signer) = true) →
  ∃ s, propose_transition_from_decision signer decision activity now interval candidates size = Ok (Some s) ∧
    validate_structure s = Ok tt ∧ effective_epoch s = now + 3 ∧
    zs_zone_id <$> parents s = target_parents t ∧ zs_zone_id <$> children s = target_children t ∧
    verify_sigs s {[ sha3_256 (signer_pk signer) := signer_pk signer ]} 1 = Ok tt.
Proof.
  intros Hlo Hn Hi HN Ht Hsnap Hjson Hsign. unfold propose_transition_from_decision. rewrite Ht.
  rewrite window_slow by done. unfold U64.sat_add. rewrite Z.min_r by lia.
  set (ho := zone_committee_hash now candidates size).
  assert (HU : ∃ u, unsigned_proposal t now (now + 3) ho = Ok u ∧ validate_structure u = Ok tt ∧
    effective_epoch u = now + 3 ∧ proposer_sigs u = [] ∧ sig_domain u = Some 1 ∧
    zs_zone_id <$> parents u = target_parents t ∧ zs_zone_id <$> children u = target_children t).
  { assert (HZ : ∀ z h, ∃ snap, build_zone_snapshot z h = Ok snap ∧ zs_zone_id snap = z).
    { intros z h. destruct (Hsnap z h) as [snap E]. exists snap. split; [done|]. revert E.
      unfold build_zone_snapshot. destruct (tree_root z); [|done..]. simpl.
      destruct (tree_leaf_count z); [|done..]. simpl. destruct (find_latest_seal_for_zone z); [|done..].
      by intros [= <-]. }
    assert (HW : (U64.sat_add now TRANSITION_DISPUTE_WINDOW_EPOCHS =? now + 3) = true).
    { unfold U64.sat_add, TRANSITION_DISPUTE_WINDOW_EPOCHS. lia. }
    destruct t as [z|a b]; simpl.
    - destruct (HZ z (ho z)) as (snap & -> & Ez). eexists. split; [done|].
      unfold validate_structure. cbn. rewrite HW. by rewrite Ez.
    - destruct (HZ a (ho a)) as (sa & -> & Ea), (HZ b (ho b)) as (sb & -> & Eb). eexists. split; [done|].
      unfold validate_structure. cbn. rewrite HW. rewrite Ea, Eb.
      by rewrite decide_False by (eapply merge_targets_distinct; eassumption). }
  destruct HU as (u & -> & HV & He & Hs & Hd & Hpa & Hch). simpl. rewrite HV. simpl.
  destruct (Hjson (u <| proposer_sigs := [] |>)) as [json Hj].
  assert (∃ p, signing_preimage u = Ok p) as [p Hp].
  { unfold signing_preimage, seal_hash_for_sig, canonical_encode_for_sig. rewrite Hj. simpl. rewrite Hd. eauto. }
  destruct (Hsign p) as (sig & Hsig & Hver).
  destruct (cosign_verifies u _ [signer] {[ sha3_256 (signer_pk signer) := signer_pk signer ]}
    Hp Hs) as (s & HC & HVs & _).
  - apply NoDup_singleton.
  - unfold MAX_PROPOSER_SIGS. simpl. lia.
  - intros x Hx. apply list_elem_of_singleton in Hx as ->. exists sig.
    split_and!; [done|done|by rewrite lookup_singleton_eq].
  - pose proof HC as HC'. simpl in HC. destruct (sign_as_anchor signer u) as [s0|e|] eqn:E; [|done..].
    simpl in HC. injection HC as ->. exists s. simpl. unfold sign_as_anchor in E.
    rewrite Hs, Hp in E. simpl in E. rewrite Hsig in E. injection E as <-.
    unfold validate_structure in *. simpl in *. rewrite Hs in HV. simpl in HV.
    split_and!; done.
Qed.
End seals.

(** ** Witnesses *)

Module TransitionExamples.
#[export] Existing Instance toy_externals.

(** A stand-in for the JSON form: kind, epochs and zone names. *)
Definition zone_bytes (z : ZoneSnapshot) : list byte := bytes_of (zs_zone_id z) ++ [x00].
#[export] Instance toy_json : SealJson := {|
  seal_json s := Some (match kind s with KindSplit => [x01] | KindMerge => [x02] end ++
    be_bytes 8 (effective_epoch s) ++ concat (zone_bytes <$> parents s) ++
    concat (zone_bytes <$> children s)) |}.
#[export] Instance toy_store : ZoneStore := {|
  tree_root _ := Ok zero_hash; tree_leaf_count _ := Ok 7;
  find_latest_seal_for_zone _ := Ok None |}.

Definition anchor (n : N) : Signer :=
  mkSigner [byte_of_N n] (fun m => Some (m ++ [byte_of_N n])).
Definition anchors : list Signer := anchor <$> [1; 2; 3; 4]%N.
Definition anchor_key (s : Signer) : hash * list byte := (sha3_256 (signer_pk s), signer_pk s).
Definition registry_keys : gmap hash (list byte) := list_to_map (anchor_key <$> anchors).
Definition snap (z : string) : ZoneSnapshot := mkSnapshot z zero_hash "" 0 zero_hash.
Definition split_seal : TransitionSeal :=
  mkSeal KindSplit 13 10 [snap "medical"] [snap "medical/l"; snap "medical/r"]
    (Some SPLIT_KEY_MIDPOINT) [] (Some 1).

Lemma cosigned_seal_verifies_witness :
  ∃ s, cosign anchors split_seal = Ok s ∧ verify_sigs s registry_keys 4 = Ok tt ∧
    cosign (reverse anchors) split_seal = Ok s.
Proof.
  destruct (signing_preimage split_seal) as [p|e|] eqn:Ep; [|by vm_compute in Ep..].
  destruct (cosigned_seal_verifies split_seal p anchors registry_keys Ep eq_refl) as (s & H1 & H2 & H3).
  - refine (bool_decide_unpack _ _). by vm_compute.
  - unfold MAX_PROPOSER_SIGS. simpl. lia.
  - intros signer Hin. unfold anchors in Hin. apply list_elem_of_fmap in Hin as (n & -> & Hin).
    eexists. split_and!; [done|by apply bool_decide_true|].
    repeat (apply elem_of_cons in Hin as [->|Hin]; [by vm_compute|]). by apply elem_of_nil in Hin.
  - exists s. split_and!; [done|done|]. apply H3. apply reverse_Permutation.
Defined.

Definition busy : Activity := [("energy", 4636737291354636288); ("medical", 4636737291354636288)].

Lemma fast_cadence_never_proposes_witness :
  pick_transition_target (Split 4 f64_0) busy = Some (TargetSplit "energy") ∧
  ∀ s, propose_transition_from_decision (anchor 1) (Split 4 f64_0) busy 10 59 [] 7 ≠ Ok (Some s).
Proof.
  split; [by vm_compute|].
  apply (fast_cadence_never_proposes (anchor 1) (Split 4 f64_0) busy 10 59 [] 7);
    unfold U64.MAX; lia.
Defined.

Lemma proposal_well_formed_witness :
  ∃ s, propose_transition_from_decision (anchor 1) (Split 4 f64_0) busy 10 60 [] 7 = Ok (Some s) ∧
    effective_epoch s = 13 ∧ zs_zone_id <$> children s = ["energy/L"; "energy/R"].
Proof.
  destruct (proposal_well_formed (anchor 1) (Split 4 f64_0) busy 10 60 [] 7 (TargetSplit "energy"))
    as (s & H1 & _ & H3 & _ & H5 & _).
  - lia.
  - unfold U64.MAX. lia.
  - lia.
  - refine (bool_decide_unpack _ _). by vm_compute.
  - by vm_compute.
  - intros z h. eexists. reflexivity.
  - intros s. eexists. reflexivity.
  - intros p. eexists. split; [reflexivity|]. by apply bool_decide_true.
  - exists s. split_and!; [exact H1|exact H3|rewrite H5; by vm_compute].
Defined.
End TransitionExamples.
