(* ===== verification/ZoneRegistry.v ===== *)
(** * Zone registry

    src/network/zone_registry.rs: the tree of zones that splits and merges have
    made, which active leaf a key routes to, and rebuilding the registry from
    the finalized seals on disk. *)

From S2P Require Import Prelude Sorting F64 CrossZone Records Merkle Autoscaler ZoneTransition.
Open Scope Z_scope.

Definition MAX_REPLAY_SEALS : nat := Z.to_nat 10000000.
Definition MAX_RESOLVE_DEPTH : nat := 64.

(** ** State *)

Inductive ZoneEntry :=
  | ZActive
  | ZSplit (eff : Z) (key : hash) (child_low child_high : string)
  | ZMerged (eff : Z) (peer merged_into : string).
#[global] Instance ZoneEntry_eq_dec : EqDecision ZoneEntry.
Proof. solve_decision. Defined.

Record ZoneRegistry := mkRegistry {
  entries : gmap string ZoneEntry;
  active : gset string;
  applied_seals : gset hash;
  highest_effective_epoch : Z;
}.
Definition eta_ZoneRegistry (r : ZoneRegistry) :=
  mkRegistry (entries r) (active r) (applied_seals r) (highest_effective_epoch r).
#[global] Instance set_entries : Setter entries.
Proof. derive_setter eta_ZoneRegistry. Defined.
#[global] Instance set_active : Setter active.
Proof. derive_setter eta_ZoneRegistry. Defined.
#[global] Instance set_applied_seals : Setter applied_seals.
Proof. derive_setter eta_ZoneRegistry. Defined.
#[global] Instance set_highest_effective_epoch : Setter highest_effective_epoch.
Proof. derive_setter eta_ZoneRegistry. Defined.

Definition registry_new : ZoneRegistry := mkRegistry ∅ ∅ ∅ 0.
Definition add_active (z : string) (r : ZoneRegistry) : ZoneRegistry :=
  r <| entries ::= insert z ZActive |> <| active ::= union {[z]} |>.
Definition with_genesis (zones : list string) : ZoneRegistry :=
  fold_left (fun r z => add_active z r) zones registry_new.

Definition total_zones (r : ZoneRegistry) : nat := size (entries r).
Definition active_count (r : ZoneRegistry) : nat := size (active r).
Definition active_zones (r : ZoneRegistry) : list string := stable_sort String.leb (elements (active r)).
Definition is_active (r : ZoneRegistry) (z : string) : bool :=
  match entries r !! z with Some ZActive => true | _ => false end.
Definition applied_transition_count (r : ZoneRegistry) : Z := Z.of_nat (size (applied_seals r)).

(** ** Routing *)

(** [a < b] on 32-byte arrays. *)
Definition hash_lt (a b : hash) : bool := negb (bytes_leb b a).

(** The next zone after [z], when [z] is closed. *)
Definition next_zone (r : ZoneRegistry) (routing_key : hash) (z : string) : option string :=
  match entries r !! z with
  | None | Some ZActive => None
  | Some (ZSplit _ key child_low child_high) =>
      Some (if hash_lt routing_key key then child_low else child_high)
  | Some (ZMerged _ _ merged_into) => Some merged_into
  end.
Fixpoint resolve_loop (r : ZoneRegistry) (routing_key : hash) (depth : nat) (current : string)
    : string :=
  match depth with
  | O => current
  | S depth =>
      match next_zone r routing_key current with
      | None => current
      | Some z => resolve_loop r routing_key depth z
      end
  end.
Definition resolve (r : ZoneRegistry) (start : string) (routing_key : hash) : string :=
  resolve_loop r routing_key MAX_RESOLVE_DEPTH start.

Record RoutingResolution := mkResolution {
  naive_zone : string;
  resolved_zone : string;
  redirected : bool;
}.
Definition resolve_current_leaf (r : ZoneRegistry) (naive : string) (routing_key : hash)
    : RoutingResolution :=
  let resolved := resolve r naive routing_key in
  mkResolution naive resolved (negb (bool_decide (resolved = naive))).

Section registry.
Context `{Externals, SealJson}.

Definition routing_key_for_record (record_id : string) : hash := sha3_256 (bytes_of record_id).

(** ** Transitions *)

Definition is_entry_active (z : string) : M ZoneRegistry bool := gets (fun r => is_active r z).
Definition is_known (z : string) : M ZoneRegistry bool :=
  gets (fun r => bool_decide (is_Some (entries r !! z))).

Definition apply_split (s : TransitionSeal) : M ZoneRegistry unit :=
  match parents s, children s with
  | p :: _, c0 :: c1 :: _ =>
      let parent := zs_zone_id p in
      let child_low := zs_zone_id c0 in
      let child_high := zs_zone_id c1 in
      key ← ok_or (split_key s) (EWire "split seal missing split_key");
      a ← is_entry_active parent;
      require a (EWire "split parent not active");;
      k0 ← is_known child_low;
      require (negb k0) (EWire "split child already known");;
      k1 ← is_known child_high;
      require (negb k1) (EWire "split child already known");;
      require (negb (bool_decide (child_low = child_high))) (EWire "split children must be distinct");;
      modify (fun r => r <| entries ::= insert parent (ZSplit (effective_epoch s) key child_low child_high) |>
                         <| active ::= fun a => a ∖ {[parent]} |>);;
      modify (add_active child_low);;
      modify (add_active child_high)
  | _, _ => panic
  end.

Definition apply_merge (s : TransitionSeal) : M ZoneRegistry unit :=
  match parents s, children s with
  | pa :: pb :: _, c :: _ =>
      let parent_a := zs_zone_id pa in
      let parent_b := zs_zone_id pb in
      let child := zs_zone_id c in
      a ← is_entry_active parent_a;
      require a (EWire "merge parent not active");;
      b ← is_entry_active parent_b;
      require b (EWire "merge parent not active");;
      k ← is_known child;
      require (negb k) (EWire "merge child already known");;
      modify (fun r => r
        <| entries ::= insert parent_a (ZMerged (effective_epoch s) parent_b child) |>
        <| entries ::= insert parent_b (ZMerged (effective_epoch s) parent_a child) |>
        <| active ::= fun a => a ∖ {[parent_a]} ∖ {[parent_b]} |>);;
      modify (add_active child)
  | _, _ => panic
  end.

Definition has_cardinality (s : TransitionSeal) : bool :=
  match kind s with
  | KindSplit => bool_decide (length (parents s) = 1%nat) && bool_decide (length (children s) = 2%nat)
  | KindMerge => bool_decide (length (parents s) = 2%nat) && bool_decide (length (children s) = 1%nat)
  end.

Definition apply_transition (s : TransitionSeal) : M ZoneRegistry unit :=
  require (has_cardinality s) (EWire "wrong parent/child count");;
  h ← lift (seal_hash_for_sig s);
  seen ← gets (fun r => bool_decide (h ∈ applied_seals r));
  if (seen : bool) then mret tt
  else
    match kind s with KindSplit => apply_split s | KindMerge => apply_merge s end;;
    modify (fun r => r <| applied_seals ::= union {[h]} |>
                       <| highest_effective_epoch ::= Z.max (effective_epoch s) |>).

(** ** Rebuild at boot *)

Record RebuildStats := mkStats {
  seals_read : nat;
  seals_applied : nat;
  seals_skipped_decode : nat;
  seals_skipped_apply : list string;
  seals_skipped_sig_verify : list string;
  truncated : bool;
}.

Section rebuild.
(** [serde_json::from_slice] of a seal, and the identity table of the storage. *)
Context (decode : list byte → option TransitionSeal) (get_public_key : string → option (list byte)).

Fixpoint decode_rows (rows : list (list byte * list byte))
    : list (hash * TransitionSeal) * nat :=
  match rows with
  | [] => ([], 0%nat)
  | (key, val) :: rows =>
      let '(decoded, skipped) := decode_rows rows in
      if negb (bool_decide (length key = 32%nat)) then (decoded, S skipped)
      else match decode val with
           | Some seal => ((key, seal) :: decoded, skipped)
           | None => (decoded, S skipped)
           end
  end.
Definition row_key (d : hash * TransitionSeal) : Z * hash := (effective_epoch d.2, d.1).
Definition sort_rows (l : list (hash * TransitionSeal)) : list (hash * TransitionSeal) :=
  stable_sort (by_key_leb row_key (lex_leb bytes_leb)) l.

Definition anchor_pubkeys (s : TransitionSeal) : gmap hash (list byte) :=
  fold_left (fun m sig =>
    let a := anchor_identity_hash sig in
    match get_public_key (hex_encode a) with Some pk => <[a := pk]> m | None => m end)
    (proposer_sigs s) ∅.

(** The apply loop: the seals applied, and the ones skipped. *)
Fixpoint replay_rows (l : list (hash * TransitionSeal)) (r : ZoneRegistry)
    : ZoneRegistry * (nat * list string * list string) :=
  match l with
  | [] => (r, (0%nat, [], []))
  | (id, seal) :: l =>
      match verify_sigs seal (anchor_pubkeys seal) (required_threshold seal) with
      | Ok _ =>
          match apply_transition seal r with
          | (Ok _, r') =>
              let '(r'', (n, skipped, bad)) := replay_rows l r' in (r'', (S n, skipped, bad))
          | (_, r') =>
              let '(r'', (n, skipped, bad)) := replay_rows l r' in (r'', (n, hex_encode id :: skipped, bad))
          end
      | _ =>
          let '(r'', (n, skipped, bad)) := replay_rows l r in (r'', (n, skipped, hex_encode id :: bad))
      end
  end.

Definition rebuild_from_finalized (rows : list (list byte * list byte)) (genesis_zones : list string)
    : ZoneRegistry * RebuildStats :=
  let rows := take (S MAX_REPLAY_SEALS) rows in
  let trunc := bool_decide (MAX_REPLAY_SEALS < length rows)%nat in
  let rows := if trunc then take MAX_REPLAY_SEALS rows else rows in
  let '(decoded, skipped_decode) := decode_rows rows in
  let '(r, (n, skipped, bad)) := replay_rows (sort_rows decoded) (with_genesis genesis_zones) in
  (r, mkStats (length rows) n skipped_decode skipped bad trunc).
End rebuild.
End registry.
