(* ===== verification/ZoneRegistryProps.v ===== *)
(** * Zone registry: routing, replay, rebuild *)

From Stdlib Require Import Strings.Ascii.
From S2P Require Import Prelude Sorting F64 CrossZone Records Merkle Autoscaler ZoneTransition ZoneRegistry.
Open Scope Z_scope.

(** ** What a transition does *)

Definition parent_ids (s : TransitionSeal) : list string := zs_zone_id <$> parents s.
Definition child_ids (s : TransitionSeal) : list string := zs_zone_id <$> children s.

(** The entry a closed zone [z] gets. *)
Definition closing (s : TransitionSeal) (z : string) : ZoneEntry :=
  match kind s, parent_ids s, child_ids s, split_key s with
  | KindSplit, _, [lo; hi], Some key => ZSplit (effective_epoch s) key lo hi
  | KindMerge, [a; b], [c], _ => ZMerged (effective_epoch s) (if decide (z = b) then a else b) c
  | _, _, _, _ => ZActive
  end.
(** The registry after seal [s] of hash [h]. *)
Definition commit (s : TransitionSeal) (h : hash) (r : ZoneRegistry) : ZoneRegistry :=
  mkRegistry
    (fold_left (fun m z => <[z := ZActive]> m) (child_ids s)
      (fold_left (fun m z => <[z := closing s z]> m) (parent_ids s) (entries r)))
    (fold_left (fun a z => {[z]} ∪ a) (child_ids s)
      (fold_left (fun a z => a ∖ {[z]}) (parent_ids s) (active r)))
    ({[h]} ∪ applied_seals r) (Z.max (effective_epoch s) (highest_effective_epoch r)).

Record can_apply (s : TransitionSeal) (r : ZoneRegistry) : Prop := {
  ca_shape : has_cardinality s = true;
  ca_key : kind s = KindSplit → split_key s ≠ None;
  ca_distinct : NoDup (child_ids s);
  ca_parents : ∀ z, z ∈ parent_ids s → entries r !! z = Some ZActive;
  ca_children : ∀ z, z ∈ child_ids s → entries r !! z = None;
}.

Lemma fold_insert_lookup {A} (f : string → A) l (m : gmap string A) z :
  fold_left (fun m z => <[z := f z]> m) l m !! z = if decide (z ∈ l) then Some (f z) else m !! z.
Proof.
  revert m. induction l as [|y l IH]; intros m; cbn [fold_left].
  { by rewrite decide_False by apply not_elem_of_nil. }
  rewrite IH. destruct (decide (z ∈ l)) as [Hl|Hl], (decide (z ∈ y :: l)) as [Hy|Hy]; try done.
  - destruct Hy. by right.
  - apply elem_of_cons in Hy as [->|Hy]; [by rewrite lookup_insert_eq|done].
  - rewrite lookup_insert_ne; [done|]. intros ->. destruct Hy. by left.
Qed.
Lemma fold_union_elem l (a : gset string) z :
  z ∈ fold_left (fun a z => {[z]} ∪ a) l a ↔ z ∈ l ∨ z ∈ a.
Proof.
  revert a. induction l as [|y l IH]; intros a; simpl; [rewrite elem_of_nil; tauto|].
  rewrite IH, elem_of_cons, elem_of_union, elem_of_singleton. tauto.
Qed.
Lemma fold_remove_elem l (a : gset string) z :
  z ∈ fold_left (fun a z => a ∖ {[z]}) l a ↔ z ∈ a ∧ z ∉ l.
Proof.
  revert a. induction l as [|y l IH]; intros a; simpl; [rewrite elem_of_nil; tauto|].
  rewrite IH, elem_of_cons, elem_of_difference, elem_of_singleton. tauto.
Qed.

Lemma commit_entries s h r z :
  entries (commit s h r) !! z =
    if decide (z ∈ child_ids s) then Some ZActive
    else if decide (z ∈ parent_ids s) then Some (closing s z) else entries r !! z.
Proof. simpl. by rewrite (fold_insert_lookup (fun _ => ZActive)), (fold_insert_lookup (closing s)). Qed.
Lemma commit_active s h r z :
  z ∈ active (commit s h r) ↔ z ∈ child_ids s ∨ (z ∈ active r ∧ z ∉ parent_ids s).
Proof. simpl. by rewrite fold_union_elem, fold_remove_elem. Qed.

Section props.
Context `{HE : Externals, HJ : SealJson}.

Lemma seal_hash_no_panic s : seal_hash_for_sig s ≠ Panic.
Proof. unfold seal_hash_for_sig, canonical_encode_for_sig. by destruct (seal_json _). Qed.

Lemma is_active_true r z : is_active r z = true ↔ entries r !! z = Some ZActive.
Proof. unfold is_active. split; [by repeat case_match; naive_solver|by intros ->]. Qed.

(** What applying a seal of the right shape gives, success or not. *)
Definition body_result (s : TransitionSeal) (r : ZoneRegistry) (res : outcome unit * ZoneRegistry) : Prop :=
  match res.1 with
  | Ok _ => can_apply s r ∧ res.2 = mkRegistry (entries (commit s [] r)) (active (commit s [] r))
                                      (applied_seals r) (highest_effective_epoch r)
  | Err _ => res.2 = r ∧ ¬ can_apply s r
  | Panic => False
  end.

Ltac run_m := unfold body_result; cbv [fst snd mbind M_bind mret M_ret ok_or require gets throw modify is_entry_active is_known];
  cbv beta match.

Lemma known_false r z : bool_decide (is_Some (entries r !! z)) = false → entries r !! z = None.
Proof. intros Hn%bool_decide_eq_false. by apply eq_None_not_Some. Qed.
Lemma known_true s r z :
  bool_decide (is_Some (entries r !! z)) = true → z ∈ child_ids s → ¬ can_apply s r.
Proof. intros [e He]%bool_decide_eq_true Hz [_ _ _ _ Hc]. rewrite (Hc z Hz) in He. done. Qed.
Lemma inactive_parent s r z : is_active r z = false → z ∈ parent_ids s → ¬ can_apply s r.
Proof. intros Ha Hz [_ _ _ Hp _]. by rewrite (proj2 (is_active_true r z) (Hp z Hz)) in Ha. Qed.

Lemma apply_split_ok s r :
  kind s = KindSplit → has_cardinality s = true → body_result s r (apply_split s r).
Proof.
  intros Hk Hc. pose proof Hc as Hc'. unfold has_cardinality in Hc. rewrite Hk in Hc. bools.
  unfold apply_split. destruct (parents s) as [|p [|]] eqn:Ep; try done.
  destruct (children s) as [|c0 [|c1 [|]]] eqn:Ec; try done.
  assert (Epi : parent_ids s = [zs_zone_id p]) by (unfold parent_ids; by rewrite Ep).
  assert (Eci : child_ids s = [zs_zone_id c0; zs_zone_id c1]) by (unfold child_ids; by rewrite Ec).
  assert (Hin : zs_zone_id p ∈ parent_ids s ∧ zs_zone_id c0 ∈ child_ids s ∧ zs_zone_id c1 ∈ child_ids s).
  { rewrite Epi, Eci. split_and!; [by left..|right; by left]. }
  destruct Hin as (Hp & Hlo & Hhi). run_m.
  destruct (split_key s) as [key|] eqn:Ekey; [|split; [done|]; intros [_ HK _ _ _]; by destruct (HK Hk)].
  destruct (is_active r (zs_zone_id p)) eqn:Ea; [|split; [done|by eapply inactive_parent]].
  destruct (bool_decide (is_Some (entries r !! zs_zone_id c0))) eqn:E0; [split; [done|by eapply known_true]|].
  cbn [negb]. destruct (bool_decide (is_Some (entries r !! zs_zone_id c1))) eqn:E1;
    [split; [done|by eapply known_true]|].
  cbn [negb]. apply known_false in E0, E1. case_bool_decide as Eq; cbn [negb].
  { split; [done|]. intros [_ _ HN _ _]. rewrite Eci, Eq in HN. apply NoDup_cons_1_1 in HN.
    destruct HN. by left. }
  apply is_active_true in Ea. split.
  - constructor; [done|by rewrite Ekey|rewrite Eci|rewrite Epi|rewrite Eci].
    + apply NoDup_cons. split; [by intros ?%list_elem_of_singleton|apply NoDup_singleton].
    + intros z Hz. by apply list_elem_of_singleton in Hz as ->.
    + intros z Hz. apply elem_of_cons in Hz as [->|Hz]; [done|]. by apply list_elem_of_singleton in Hz as ->.
  - unfold commit. rewrite Epi, Eci. simpl. unfold closing. by rewrite Hk, Eci, Ekey.
Qed.

Lemma apply_merge_ok s r :
  kind s = KindMerge → has_cardinality s = true → body_result s r (apply_merge s r).
Proof.
  intros Hk Hc. pose proof Hc as Hc'. unfold has_cardinality in Hc. rewrite Hk in Hc. bools.
  unfold apply_merge. destruct (parents s) as [|p [|q [|]]] eqn:Ep; try done.
  destruct (children s) as [|c [|]] eqn:Ec; try done.
  assert (Epi : parent_ids s = [zs_zone_id p; zs_zone_id q]) by (unfold parent_ids; by rewrite Ep).
  assert (Eci : child_ids s = [zs_zone_id c]) by (unfold child_ids; by rewrite Ec).
  assert (Hin : zs_zone_id p ∈ parent_ids s ∧ zs_zone_id q ∈ parent_ids s ∧ zs_zone_id c ∈ child_ids s).
  { rewrite Epi, Eci. split_and!; [by left|right; by left|by left]. }
  destruct Hin as (Hp & Hq & Hlo). run_m.
  destruct (is_active r (zs_zone_id p)) eqn:Ea; [|split; [done|by eapply inactive_parent]].
  destruct (is_active r (zs_zone_id q)) eqn:Eb; [|split; [done|by eapply inactive_parent]].
  destruct (bool_decide (is_Some (entries r !! zs_zone_id c))) eqn:E0; [split; [done|by eapply known_true]|].
  cbn [negb]. apply is_active_true in Ea, Eb. apply known_false in E0. split.
  - constructor; [done|congruence|rewrite Eci|rewrite Epi|rewrite Eci].
    + apply NoDup_singleton.
    + intros z Hz. apply elem_of_cons in Hz as [->|Hz]; [done|]. by apply list_elem_of_singleton in Hz as ->.
    + intros z Hz. by apply list_elem_of_singleton in Hz as ->.
  - unfold commit. rewrite Epi, Eci. simpl. unfold closing. rewrite Hk, Eci, Epi.
    rewrite (decide_True _ _ (eq_refl (zs_zone_id q))). case_decide as E; [by rewrite E|done].
Qed.

(** The three outcomes of [apply_transition]. *)
Lemma apply_transition_inv s r :
  match apply_transition s r with
  | (Ok _, r') => ∃ h, seal_hash_for_sig s = Ok h ∧
      ((h ∈ applied_seals r ∧ r' = r) ∨ (h ∉ applied_seals r ∧ can_apply s r ∧ r' = commit s h r))
  | (Err _, r') => r' = r
  | (Panic, _) => False
  end.
Proof.
  unfold apply_transition, lift. cbv [mbind M_bind mret M_ret require gets throw modify].
  destruct (has_cardinality s) eqn:Hc; [|done]. cbv beta match.
  pose proof (seal_hash_no_panic s) as Hnp.
  destruct (seal_hash_for_sig s) as [h|e|]; [|done..].
  case_bool_decide as Hin; [by exists h; split; [|left]|].
  assert (HB : body_result s r (match kind s with KindSplit => apply_split s | KindMerge => apply_merge s end r)).
  { destruct (kind s) eqn:Hk; [by apply apply_split_ok|by apply apply_merge_ok]. }
  destruct (match kind s with KindSplit => apply_split s | KindMerge => apply_merge s end r) as [[u|e|] r'];
    unfold body_result in HB; simpl in HB; [|by destruct HB|done].
  destruct HB as [Hca ->]. exists h. split; [done|]. right. split_and!; done.
Qed.
Lemma apply_transition_commit s r h :
  seal_hash_for_sig s = Ok h → h ∉ applied_seals r → can_apply s r →
  apply_transition s r = (Ok tt, commit s h r).
Proof.
  intros Hh Hn Hca. unfold apply_transition, lift. cbv [mbind M_bind mret M_ret require gets throw modify].
  rewrite (ca_shape s r Hca). cbv beta match. rewrite Hh. rewrite bool_decide_false by done.
  assert (HB : body_result s r (match kind s with KindSplit => apply_split s | KindMerge => apply_merge s end r)).
  { destruct (kind s) eqn:Hk; [apply apply_split_ok|apply apply_merge_ok]; try done; apply (ca_shape s r Hca). }
  destruct (match kind s with KindSplit => apply_split s | KindMerge => apply_merge s end r) as [[[]|e|] r'];
    unfold body_result in HB; simpl in HB; [|by destruct HB|done].
  by destruct HB as [_ ->].
Qed.

(** Applying a seal is atomic and idempotent.  It never panics; an error
    changes nothing; and once a seal has been applied, applying it again
    succeeds and changes nothing, so the finalized seals can be replayed. *)
Theorem apply_transition_idempotent s r :
  (apply_transition s r).1 ≠ Panic ∧
  (∀ e r', apply_transition s r = (Err e, r') → r' = r) ∧
  (∀ r', apply_transition s r = (Ok tt, r') → apply_transition s r' = (Ok tt, r')).
Proof.
  pose proof (apply_transition_inv s r) as HI.
  destruct (apply_transition s r) as [[[]|e|] r0] eqn:E; [|by subst; naive_solver|done].
  split_and!; [done|done|]. intros r' [= <-]. destruct HI as (h & Hh & [(Hin & ->)|(Hn & Hca & ->)]); [done|].
  unfold apply_transition, lift. cbv [mbind M_bind mret M_ret require gets throw modify].
  rewrite (ca_shape s r Hca). cbv beta match. rewrite Hh. rewrite bool_decide_true; [done|].
  simpl. set_solver.
Qed.

(** ** Routing *)

(** In registry [r], key [k] routes from a zone to an active leaf, in [n] hops. *)
Inductive routes (r : ZoneRegistry) (k : hash) : nat → string → string → Prop :=
  | routes_here z : entries r !! z = Some ZActive → routes r k 0 z z
  | routes_hop n z z' leaf :
      next_zone r k z = Some z' → routes r k n z' leaf → routes r k (S n) z leaf.

Lemma routes_leaf r k n z leaf : routes r k n z leaf → entries r !! leaf = Some ZActive.
Proof. by induction 1. Qed.
Lemma active_next r k z : entries r !! z = Some ZActive → next_zone r k z = None.
Proof. unfold next_zone. by intros ->. Qed.
Lemma resolve_loop_routes r k n z leaf d :
  routes r k n z leaf → (n <= d)%nat → resolve_loop r k d z = leaf.
Proof.
  intros HR. revert d. induction HR as [z Hz|n z z' leaf Hn _ IH]; intros [|d] Hd; simpl; try done; try lia.
  - by rewrite active_next.
  - rewrite Hn. apply IH. lia.
Qed.
Lemma resolve_routes r k n z leaf :
  routes r k n z leaf → (n <= MAX_RESOLVE_DEPTH)%nat → resolve r z k = leaf.
Proof. apply resolve_loop_routes. Qed.

(** Where a key that used to reach [leaf] goes after seal [s]. *)
Definition reroute (s : TransitionSeal) (k : hash) (leaf : string) : string :=
  if decide (leaf ∈ parent_ids s) then default leaf (account_belongs_to_child s k) else leaf.

(** The closing entry leads to the child the seal assigns the key to. *)
Lemma closing_next s h r k z :
  can_apply s r → z ∈ parent_ids s →
  ∃ c, account_belongs_to_child s k = Some c ∧ c ∈ child_ids s ∧ next_zone (commit s h r) k z = Some c.
Proof.
  intros [Hc Hkey _ Hp Hch] Hz. unfold next_zone. rewrite commit_entries.
  rewrite (decide_False (P := z ∈ child_ids s)) by (intros Hin; specialize (Hp z Hz); by rewrite (Hch z Hin) in Hp).
  rewrite decide_True by done. unfold closing, account_belongs_to_child, parent_ids, child_ids, hash_lt in *.
  unfold has_cardinality in Hc. destruct (kind s).
  - bools. destruct (children s) as [|c0 [|c1 [|]]]; try done. destruct (split_key s) as [key|]; [|by destruct Hkey].
    simpl. destruct (negb (bytes_leb key k)); eexists; split_and!; try done; [by left|right; by left].
  - bools. destruct (parents s) as [|p [|q [|]]]; try done. destruct (children s) as [|c0 [|]]; try done.
    simpl. eexists. split_and!; [done|by left|done].
Qed.

Lemma commit_other s h r k z :
  can_apply s r → z ∉ parent_ids s → is_Some (entries r !! z) →
  next_zone (commit s h r) k z = next_zone r k z ∧ entries (commit s h r) !! z = entries r !! z.
Proof.
  intros [_ _ _ _ Hch] Hz Hs. assert (Hnc : z ∉ child_ids s) by (intros Hin; rewrite (Hch z Hin) in Hs; by destruct Hs).
  unfold next_zone. rewrite commit_entries. by rewrite !decide_False by done.
Qed.
Lemma next_known r k z z' : next_zone r k z = Some z' → is_Some (entries r !! z) ∧ entries r !! z ≠ Some ZActive.
Proof. unfold next_zone. by destruct (entries r !! z) as [[]|]. Qed.

Lemma commit_routes s h r k n z leaf :
  can_apply s r → routes r k n z leaf →
  routes (commit s h r) k (if decide (leaf ∈ parent_ids s) then S n else n) z (reroute s k leaf).
Proof.
  intros Hca HR. induction HR as [z Hz|n z z' leaf Hn HR IH].
  - unfold reroute. case_decide as Hin.
    + destruct (closing_next s h r k z Hca Hin) as (c & -> & Hc & Hnext). simpl.
      eapply routes_hop; [done|]. apply routes_here. rewrite commit_entries. by rewrite decide_True.
    + apply routes_here. by rewrite (proj2 (commit_other s h r k z Hca Hin ltac:(by rewrite Hz))).
  - destruct (next_known _ _ _ _ Hn) as [Hk Hna].
    assert (Hz : z ∉ parent_ids s) by (intros Hin; by rewrite (ca_parents s r Hca z Hin) in Hna).
    rewrite <- (proj1 (commit_other s h r k z Hca Hz Hk)) in Hn.
    case_decide; eapply routes_hop; done.
Qed.

(** A transition moves exactly the keys of the zones it closes.  When a seal
    is applied, a key that resolved to one of the closed zones resolves to the
    child the seal assigns it to (below or above the split key, or the merged
    zone), and every other key resolves as before; starting points one hop
    below the depth limit are enough. *)
Theorem transition_reroutes s r r' k n z leaf :
  apply_transition s r = (Ok tt, r') → r' ≠ r → routes r k n z leaf → (n < MAX_RESOLVE_DEPTH)%nat →
  resolve r z k = leaf ∧
  resolve r' z k = (if decide (leaf ∈ parent_ids s) then default leaf (account_belongs_to_child s k) else leaf) ∧
  is_active r' (resolve r' z k) = true.
Proof.
  intros Ha Hne HR Hn. pose proof (apply_transition_inv s r) as HI. rewrite Ha in HI.
  destruct HI as (h & _ & [(_ & ->)|(_ & Hca & ->)]); [done|].
  pose proof (commit_routes s h r k n z leaf Hca HR) as HR'.
  assert (Hres : resolve (commit s h r) z k = reroute s k leaf).
  { eapply resolve_routes; [exact HR'|]. case_decide; lia. }
  split_and!; [apply (resolve_routes r k n); [done|lia]|by rewrite Hres|].
  rewrite Hres. apply is_active_true. by eapply routes_leaf.
Qed.

(** ** The invariant *)

Record reg_ok (depth : nat) (r : ZoneRegistry) : Prop := {
  rk_active : ∀ z, z ∈ active r ↔ entries r !! z = Some ZActive;
  rk_routes : ∀ z k, is_Some (entries r !! z) → ∃ n leaf, (n <= depth)%nat ∧ routes r k n z leaf;
}.

Lemma commit_ok depth s h r : can_apply s r → reg_ok depth r → reg_ok (S depth) (commit s h r).
Proof.
  intros Hca [HA HR]. constructor.
  - intros z. rewrite commit_active, commit_entries, HA.
    destruct (decide (z ∈ child_ids s)) as [Hc|Hc]; [tauto|].
    destruct (decide (z ∈ parent_ids s)) as [Hp|Hp]; [|tauto].
    destruct (closing_next s h r [] z Hca Hp) as (c & _ & _ & Hn). revert Hn.
    unfold next_zone. rewrite commit_entries, decide_False, decide_True by done. intros Hn.
    split; [tauto|]. intros [= E]. by rewrite E in Hn.
  - intros z k Hz. destruct (decide (z ∈ child_ids s)) as [Hc|Hc].
    { exists 0%nat, z. split; [lia|]. apply routes_here. by rewrite commit_entries, decide_True. }
    assert (Hk : is_Some (entries r !! z)).
    { rewrite commit_entries, decide_False in Hz by done. case_decide as Hp; [|done].
      by rewrite (ca_parents s r Hca z Hp). }
    destruct (HR z k Hk) as (n & leaf & Hn & Hr). eexists _, _. split; [|by apply commit_routes].
    case_decide; lia.
Qed.

Lemma genesis_ok zones : reg_ok 0 (with_genesis zones).
Proof.
  unfold with_genesis. cut (∀ r, (∀ z, z ∈ active r ↔ entries r !! z = Some ZActive) →
    (∀ z e, entries r !! z = Some e → e = ZActive) →
    reg_ok 0 (fold_left (fun r z => add_active z r) zones r)).
  { intros HC. apply HC; simpl; intros z; [|by intros e]. split; [set_solver|done]. }
  induction zones as [|y zones IH]; intros r HA HE0; simpl.
  - constructor; [done|]. intros z k [e He]. exists 0%nat, z. split; [lia|]. apply routes_here.
    by rewrite He, (HE0 z e He).
  - apply IH; intros z; cbn.
    + destruct (decide (y = z)) as [->|Hne]; [rewrite lookup_insert_eq; set_solver|].
      rewrite lookup_insert_ne by done. rewrite <- HA. set_solver.
    + intros e. destruct (decide (y = z)) as [->|Hne].
      * rewrite lookup_insert_eq. by intros [= <-].
      * rewrite lookup_insert_ne by done. apply HE0.
Qed.

(** A history of seals, each applied or refused. *)
Definition run_seals (seals : list TransitionSeal) (r : ZoneRegistry) : ZoneRegistry :=
  fold_left (fun r s => (apply_transition s r).2) seals r.

Lemma run_seals_ok seals depth r : reg_ok depth r → reg_ok (depth + length seals) (run_seals seals r).
Proof.
  revert depth r. induction seals as [|s seals IH]; intros depth r Hr; simpl; [by rewrite Nat.add_0_r|].
  rewrite Nat.add_succ_r, <- Nat.add_succ_l. apply IH.
  assert (Hw : reg_ok (S depth) r).
  { destruct Hr as [HA HR]. constructor; [done|]. intros z k Hz. destruct (HR z k Hz) as (n & leaf & ? & ?).
    exists n, leaf. split; [lia|done]. }
  pose proof (apply_transition_inv s r) as HI. destruct (apply_transition s r) as [[u|e|] r'];
    [|by subst|done]. destruct HI as (h & _ & [(_ & ->)|(_ & Hca & ->)]); [done|by apply commit_ok].
Qed.

(** C6: the zones are always partitioned among the active leaves.  From any set
    of genesis zones and after any history of seals, applied or refused, the
    active set is exactly the open entries, and from every zone that ever
    existed every key leads to one active leaf, in at most one hop per seal;
    up to the depth limit of 64 hops that leaf is what [resolve] returns. *)
Theorem registry_partition zones seals z k :
  let r := run_seals seals (with_genesis zones) in
  (∀ y, y ∈ active r ↔ entries r !! y = Some ZActive) ∧
  (is_Some (entries r !! z) → ∃ n leaf, (n <= length seals)%nat ∧ routes r k n z leaf ∧ leaf ∈ active r ∧
     ((n <= MAX_RESOLVE_DEPTH)%nat → resolve r z k = leaf)).
Proof.
  cbv zeta. pose proof (run_seals_ok seals 0 _ (genesis_ok zones)) as [HA HR]. split; [exact HA|].
  intros Hz. destruct (HR z k Hz) as (n & leaf & Hn & Hr). exists n, leaf.
  split_and!; [done|done|by eapply HA, routes_leaf|by intros; eapply resolve_routes].
Qed.

(** ** Order of transitions *)

Definition zones_of (s : TransitionSeal) : list string := parent_ids s ++ child_ids s.
Definition disjoint_seals (s1 s2 : TransitionSeal) : Prop := ∀ z, z ∈ zones_of s1 → z ∉ zones_of s2.

Lemma disjoint_lookup s1 s2 h r z :
  disjoint_seals s1 s2 → z ∈ zones_of s2 → entries (commit s1 h r) !! z = entries r !! z.
Proof.
  intros Hd Hz. rewrite commit_entries.
  rewrite !decide_False; [done|..]; intros Hin; apply (Hd z); try done; apply elem_of_app; auto.
Qed.
Lemma can_apply_disjoint s1 s2 h r :
  disjoint_seals s1 s2 → can_apply s2 (commit s1 h r) ↔ can_apply s2 r.
Proof.
  intros Hd. assert (HL : ∀ z, z ∈ zones_of s2 → entries (commit s1 h r) !! z = entries r !! z)
    by (intros; by eapply disjoint_lookup).
  split; intros [? ? ? Hp Hc]; constructor; try done; intros z Hz.
  - rewrite <- HL by (apply elem_of_app; auto). auto.
  - rewrite <- HL by (apply elem_of_app; auto). auto.
  - rewrite HL by (apply elem_of_app; auto). auto.
  - rewrite HL by (apply elem_of_app; auto). auto.
Qed.
Lemma registry_eq r r' :
  entries r = entries r' → active r = active r' → applied_seals r = applied_seals r' →
  highest_effective_epoch r = highest_effective_epoch r' → r = r'.
Proof. destruct r, r'; simpl. congruence. Qed.
Lemma commit_comm s1 h1 s2 h2 r :
  disjoint_seals s1 s2 → commit s2 h2 (commit s1 h1 r) = commit s1 h1 (commit s2 h2 r).
Proof.
  intros Hd.
  assert (HN : ∀ z, z ∈ parent_ids s1 ∨ z ∈ child_ids s1 → z ∉ parent_ids s2 ∧ z ∉ child_ids s2).
  { intros z Hz. assert (Hz2 : z ∉ zones_of s2) by (apply Hd, elem_of_app, Hz).
    unfold zones_of in Hz2. rewrite elem_of_app in Hz2. tauto. }
  assert (HE1 : entries (commit s2 h2 (commit s1 h1 r)) = entries (commit s1 h1 (commit s2 h2 r))).
  { apply map_eq. intros z. rewrite !commit_entries. specialize (HN z). repeat case_decide; try done; tauto. }
  assert (HA1 : active (commit s2 h2 (commit s1 h1 r)) = active (commit s1 h1 (commit s2 h2 r))).
  { apply set_eq. intros z. rewrite !commit_active. specialize (HN z).
    destruct (decide (z ∈ parent_ids s1)), (decide (z ∈ child_ids s1)); tauto. }
  apply registry_eq; [exact HE1|exact HA1| |]; cbn.
  - set_solver.
  - lia.
Qed.
Lemma disjoint_sym s1 s2 : disjoint_seals s1 s2 → disjoint_seals s2 s1.
Proof. intros Hd z H2 H1. by apply (Hd z). Qed.

(** C31: transitions that touch different zones can be applied in any order.  When
    two different seals share no zone and one order of them succeeds, the other
    order succeeds too and gives the same registry. *)
Theorem transitions_commute s1 s2 h1 h2 r r1 r12 :
  seal_hash_for_sig s1 = Ok h1 → seal_hash_for_sig s2 = Ok h2 → h1 ≠ h2 → disjoint_seals s1 s2 →
  apply_transition s1 r = (Ok tt, r1) → apply_transition s2 r1 = (Ok tt, r12) →
  ∃ r2, apply_transition s2 r = (Ok tt, r2) ∧ apply_transition s1 r2 = (Ok tt, r12).
Proof.
  intros E1 E2 Hne Hd A1 A2.
  assert (Hrep : ∀ s h r r', seal_hash_for_sig s = Ok h → apply_transition s r = (Ok tt, r') →
    h ∈ applied_seals r → ∀ q, h ∈ applied_seals q → apply_transition s q = (Ok tt, q)).
  { intros s h q q' Eh A Hin q0 Hin0. unfold apply_transition, lift in *.
    cbv [mbind M_bind mret M_ret require gets throw modify] in *.
    destruct (has_cardinality s); [|done]. cbv beta match in *. rewrite Eh in *. by rewrite bool_decide_true. }
  pose proof (apply_transition_inv s1 r) as I1. rewrite A1 in I1.
  pose proof (apply_transition_inv s2 r1) as I2. rewrite A2 in I2.
  destruct I1 as (h & Eh & I1). rewrite E1 in Eh. injection Eh as <-.
  destruct I2 as (h & Eh & I2). rewrite E2 in Eh. injection Eh as <-.
  destruct I1 as [(Hin1 & ->)|(Hn1 & C1 & ->)].
  { exists r12. split; [done|]. apply (Hrep s1 h1 r r); [done..|].
    destruct I2 as [(_ & ->)|(_ & _ & ->)]; simpl; set_solver. }
  assert (Happ : h2 ∈ applied_seals (commit s1 h1 r) ↔ h2 ∈ applied_seals r) by (simpl; set_solver).
  destruct I2 as [(Hin2 & ->)|(Hn2 & C2 & ->)]; rewrite Happ in *.
  { exists r. split; [|done]. apply (Hrep s2 h2 (commit s1 h1 r) (commit s1 h1 r)); [done..| |done].
    by rewrite Happ. }
  apply can_apply_disjoint in C2; [|done]. exists (commit s2 h2 r).
  split; [by apply apply_transition_commit|]. rewrite (commit_comm s1 h1 s2 h2) by done.
  apply apply_transition_commit; [done|simpl; set_solver|]. apply can_apply_disjoint; [by apply disjoint_sym|done].
Qed.

(** ** Rebuild *)

Section rebuild.
Context (decode : list byte → option TransitionSeal) (get_public_key : string → option (list byte)).

Definition decode_row (row : list byte * list byte) : option (hash * TransitionSeal) :=
  if negb (bool_decide (length row.1 = 32%nat)) then None else (fun s => (row.1, s)) <$> decode row.2.
Lemma decode_rows_omap rows :
  (decode_rows decode rows).1 = omap decode_row rows ∧
  ((decode_rows decode rows).2 + length (omap decode_row rows))%nat = length rows.
Proof.
  induction rows as [|[key val] rows [IH1 IH2]]; [done|].
  assert (Ed : decode_row (key, val) =
    if negb (bool_decide (length key = 32%nat)) then None else (fun s => (key, s)) <$> decode val) by done.
  cbn [decode_rows]. destruct (decode_rows decode rows) as [d n]. cbn [fst snd] in *.
  assert (Eo : omap decode_row ((key, val) :: rows) = match decode_row (key, val) with
    | Some y => y :: omap decode_row rows | None => omap decode_row rows end) by done.
  rewrite Eo, Ed. destruct (negb _).
  - cbn. split; [done|lia].
  - destruct (decode val); cbn; split; try done; try lia. by rewrite IH1.
Qed.

(** Without truncation the rebuild reads every row. *)
Lemma rebuild_small rows zones :
  (length rows <= MAX_REPLAY_SEALS)%nat →
  rebuild_from_finalized decode get_public_key rows zones =
  let '(decoded, skipped_decode) := decode_rows decode rows in
  let '(r, (n, skipped, bad)) := replay_rows get_public_key (sort_rows decoded) (with_genesis zones) in
  (r, mkStats (length rows) n skipped_decode skipped bad false).
Proof.
  intros Hl. unfold rebuild_from_finalized. rewrite take_ge by lia. by rewrite bool_decide_false by lia.
Qed.

Lemma decode_row_key row d : decode_row row = Some d → d.1 = row.1.
Proof.
  unfold decode_row. destruct (negb _); [done|]. destruct (decode row.2); [|done]. by intros [= <-].
Qed.

(** Rebuilding the registry does not depend on the order of the rows on disk.
    Any listing of the same finalized seals, up to the replay cap, gives the
    same registry and the same statistics. *)
Theorem rebuild_order_independent rows rows' zones :
  NoDup rows.*1 → rows ≡ₚ rows' → (length rows <= MAX_REPLAY_SEALS)%nat →
  rebuild_from_finalized decode get_public_key rows zones =
  rebuild_from_finalized decode get_public_key rows' zones.
Proof.
  intros HN Hp Hl. rewrite !rebuild_small by (rewrite <- ?Hp; done).
  destruct (decode_rows_omap rows) as [D1 L1], (decode_rows_omap rows') as [D2 L2].
  assert (HP : omap decode_row rows ≡ₚ omap decode_row rows') by by apply omap_Permutation.
  pose proof (Permutation_length HP) as HPl. pose proof (Permutation_length Hp) as Hpl.
  destruct (decode_rows decode rows) as [d n], (decode_rows decode rows') as [d' n']; simpl in *.
  assert (n' = n) as -> by lia. rewrite <- Hpl.
  assert (sort_rows d = sort_rows d') as ->; [|done]. subst.
  apply (by_key_sort_inj row_key (lex_leb bytes_leb)); [|..|done].
  { intros x y. apply lex_leb_total, bytes_leb_total. }
  intros x y Hx Hy E. injection E as _ E.
  apply list_elem_of_omap in Hx as (rx & Hrx & Ex), Hy as (ry & Hry & Ey).
  pose proof (decode_row_key _ _ Ex) as Kx. pose proof (decode_row_key _ _ Ey) as Ky.
  assert (rx = ry); [|congruence].
  destruct rx as [kx vx], ry as [ky vy]; simpl in *. subst. rewrite E in *. f_equal.
  apply list_elem_of_lookup in Hrx as [i Hi], Hry as [j Hj]. assert (i = j) as ->; [|congruence].
  eapply NoDup_lookup; [exact HN|..]; rewrite list_lookup_fmap; [by rewrite Hi|by rewrite Hj].
Qed.
End rebuild.
End props.

(** ** Two limits of the registry, and witnesses *)

Module RegistryExamples.
Export TransitionExamples.

(** A split, and the split of [z] into [z/L] and [z/R]. *)
Definition split_into (z lo hi : string) : TransitionSeal :=
  mkSeal KindSplit 13 10 [snap z] [snap lo; snap hi] (Some SPLIT_KEY_MIDPOINT) [] (Some 1).
Definition split_of (z : string) : TransitionSeal := split_into z (z +:+ "/L") (z +:+ "/R").
(** Zone [n] of a chain, and its other half. *)
Definition link (n : nat) : string := String (Ascii.ascii_of_nat (40 + n)) EmptyString.
Definition split_chain (n : nat) : list TransitionSeal :=
  (fun i => split_into (link i) (link (S i)) (link i +:+ "/R")) <$> seq 0 n.

(** The depth limit of [resolve] is reachable.  After 65 splits, each of the
    left child of the one before, all accepted by the registry, an account
    whose key is below every boundary resolves to a zone that is closed. *)
Theorem resolve_depth_exceeded :
  let r := run_seals (split_chain 65) (with_genesis [link 0]) in
  applied_transition_count r = 65 ∧ active_count r = 66%nat ∧
  is_active r (resolve r (link 0) zero_hash) = false.
Proof.
  cbv zeta. generalize (eq_refl (run_seals (split_chain 65) (with_genesis [link 0]))).
  generalize (run_seals (split_chain 65) (with_genesis [link 0])) at -1. intros r Hr.
  assert (E : (applied_transition_count r, active_count r, is_active r (resolve r (link 0) zero_hash))
    = (65, 66%nat, false)) by (subst r; by vm_compute).
  clear Hr. by injection E.
Qed.

(** Two nested splits with one effective epoch, cosigned by four anchors. *)
Definition signed (s : TransitionSeal) : TransitionSeal :=
  match cosign anchors s with Ok s' => s' | _ => s end.
Definition outer : TransitionSeal := signed (split_of "g").
Definition inner : TransitionSeal := signed (split_of "g/L").
Definition id_of (s : TransitionSeal) : hash := match seal_hash_for_sig s with Ok h => h | _ => [] end.
Definition rows : list (list byte * list byte) := [(id_of outer, [x01]); (id_of inner, [x02])].
Definition decode (b : list byte) : option TransitionSeal :=
  if decide (b = [x01]) then Some outer else if decide (b = [x02]) then Some inner else None.
Definition public_key (id : string) : option (list byte) :=
  snd <$> (snd <$> list_find (fun kv => hex_encode kv.1 = id) (anchor_key <$> anchors)).

(** A rebuild can lose a transition the running node applied.  Two nested
    splits that share an effective epoch apply in order on a live node; at boot
    the tie is broken by the hash of the seals, the inner split can come first,
    finds its parent unknown and is skipped for good. *)
Theorem rebuild_loses_nested_split :
  let live := run_seals [outer; inner] (with_genesis ["g"]) in
  let boot := rebuild_from_finalized decode public_key rows ["g"] in
  is_active live "g/L/L" = true ∧ is_active boot.1 "g/L/L" = false ∧ is_active boot.1 "g/L" = true ∧
  seals_applied boot.2 = 1%nat ∧ length (seals_skipped_apply boot.2) = 1%nat ∧
  seals_skipped_sig_verify boot.2 = [].
Proof.
  cbv zeta. rewrite rebuild_small by (unfold MAX_REPLAY_SEALS, rows; cbn [length]; lia).
  split_and!; by vm_compute.
Qed.

Lemma ran (s : TransitionSeal) (r : ZoneRegistry) :
  (apply_transition s r).1 = Ok tt → apply_transition s r = (Ok tt, (apply_transition s r).2).
Proof. destruct (apply_transition s r) as [o r']. simpl. by intros ->. Qed.

Definition before : ZoneRegistry := with_genesis ["medical"; "energy"].
Lemma transition_reroutes_witness :
  let r' := (apply_transition split_seal before).2 in
  resolve r' "medical" zero_hash = "medical/l" ∧ resolve r' "energy" zero_hash = "energy".
Proof.
  cbv zeta. assert (E : apply_transition split_seal before = (Ok tt, (apply_transition split_seal before).2))
    by (apply ran; by vm_compute).
  assert (Hne : (apply_transition split_seal before).2 ≠ before).
  { intros Heq. apply (f_equal (fun r => is_active r "medical")) in Heq. by vm_compute in Heq. }
  destruct (transition_reroutes split_seal before _ zero_hash 0 "medical" "medical" E Hne) as (_ & R1 & _);
    [by apply routes_here; vm_compute|unfold MAX_RESOLVE_DEPTH; lia|].
  destruct (transition_reroutes split_seal before _ zero_hash 0 "energy" "energy" E Hne) as (_ & R2 & _);
    [by apply routes_here; vm_compute|unfold MAX_RESOLVE_DEPTH; lia|].
  rewrite R1, R2. split; vm_compute; reflexivity.
Defined.

Lemma registry_partition_witness :
  let r := run_seals (split_chain 2) (with_genesis [link 0; "b"]) in
  ∃ n leaf, routes r zero_hash n (link 0) leaf ∧ leaf ∈ active r.
Proof.
  destruct (registry_partition [link 0; "b"] (split_chain 2) (link 0) zero_hash) as [_ H].
  destruct H as (n & leaf & _ & Hr & Hl & _); [eexists; by vm_compute|]. exists n, leaf. split; [exact Hr|exact Hl].
Defined.

Lemma apply_transition_idempotent_witness :
  apply_transition split_seal (apply_transition split_seal before).2 =
    (Ok tt, (apply_transition split_seal before).2).
Proof. destruct (apply_transition_idempotent split_seal before) as (_ & _ & H). apply H, ran. by vm_compute. Defined.

Lemma transitions_commute_witness :
  ∃ r2, apply_transition (split_of "energy") before = (Ok tt, r2) ∧
    (apply_transition split_seal r2).1 = Ok tt.
Proof.
  destruct (transitions_commute split_seal (split_of "energy") (id_of split_seal) (id_of (split_of "energy"))
    before (apply_transition split_seal before).2
    (apply_transition (split_of "energy") (apply_transition split_seal before).2).2) as (r2 & E1 & E2).
  - by vm_compute.
  - by vm_compute.
  - refine (bool_decide_unpack _ _). by vm_compute.
  - intros z Hz Hz'.
    assert (Hf : Forall (fun z => z ∉ zones_of (split_of "energy")) (zones_of split_seal)).
    { refine (bool_decide_unpack _ _). by vm_compute. }
    rewrite Forall_forall in Hf. by apply (Hf z Hz).
  - apply ran. by vm_compute.
  - apply ran. by vm_compute.
  - exists r2. split; [exact E1|by rewrite E2].
Defined.

Lemma rebuild_order_independent_witness :
  rebuild_from_finalized decode public_key rows ["g"] =
  rebuild_from_finalized decode public_key (reverse rows) ["g"].
Proof.
  apply (rebuild_order_independent decode public_key rows (reverse rows) ["g"]).
  - refine (bool_decide_unpack _ _). by vm_compute.
  - symmetry. apply reverse_Permutation.
  - unfold MAX_REPLAY_SEALS, rows. cbn [length]. lia.
Defined.
End RegistryExamples.
