(* ===== verification/TransitionStore.v ===== *)
(** * Pending zone transitions

    src/network/transition_store.rs: proposals that collect signatures, wait out
    their dispute window, and end vetoed, finalized or expired. *)

From S2P Require Import Prelude Sorting F64 CrossZone Records Merkle Autoscaler ZoneTransition ZoneRegistry.
Open Scope Z_scope.

Definition MAX_PENDING_TRANSITIONS : nat := Z.to_nat 1024.
Definition DOMAIN_TAG_TRANSITION_VETO_V1 : list byte := bytes_of "ELARA_TRANSITION_VETO_V1".
Definition MAX_VETO_EVIDENCE_BYTES : nat := Z.to_nat 2048.
Definition MAX_VETO_REASON_OTHER_BYTES : nat := Z.to_nat 256.
Definition MIN_VETOES_TO_HALT : nat := 2.

(** The order in which a [HashMap] is walked: some listing of its entries. *)
Class HashOrder := {
  iter_order {A} : gmap hash A → list (hash * A);
  iter_order_perm {A} (m : gmap hash A) : iter_order m ≡ₚ map_to_list m;
}.

(** ** Vetoes *)

Inductive VetoReason :=
  | BadBoundary
  | UnauthorizedProposer
  | CommitteeDiversity
  | StateRootMismatch
  | Other (reason : string).

Record TransitionVeto := mkVeto {
  veto_seal_hash : hash;
  reason : VetoReason;
  evidence : list byte;
  submitted_at_epoch : Z;
  vetoer_identity_hash : hash;
  veto_sig : list byte;
  veto_sig_domain : option Z;
}.
Definition eta_TransitionVeto (v : TransitionVeto) :=
  mkVeto (veto_seal_hash v) (reason v) (evidence v) (submitted_at_epoch v) (vetoer_identity_hash v)
    (veto_sig v) (veto_sig_domain v).
#[global] Instance set_veto_sig : Setter veto_sig.
Proof. derive_setter eta_TransitionVeto. Defined.

(** [serde_json::to_vec] of a veto. *)
Class VetoJson := { veto_json : TransitionVeto → option (list byte) }.

Definition validate_veto (v : TransitionVeto) : outcome unit :=
  if bool_decide (MAX_VETO_EVIDENCE_BYTES < length (evidence v))%nat
  then Err (EWire "veto evidence too large")
  else
    let too_long := match reason v with
                    | Other s => bool_decide (MAX_VETO_REASON_OTHER_BYTES < String.length s)%nat
                    | _ => false
                    end in
    if too_long then Err (EWire "veto reason too large")
    else if bool_decide (veto_sig v = []) then Err (EWire "veto missing signature")
    else Ok tt.

Section vetoes.
Context `{Externals, VetoJson}.

Definition veto_hash (v : TransitionVeto) : outcome hash :=
  match veto_json (v <| veto_sig := [] |>) with
  | Some bytes => Ok (sha3_256 bytes)
  | None => Err (EWire "veto encode")
  end.
Definition veto_preimage (v : TransitionVeto) : outcome (list byte) :=
  h ← veto_hash v;
  match veto_sig_domain v with
  | None => Ok h
  | Some d => if d =? 1 then Ok (DOMAIN_TAG_TRANSITION_VETO_V1 ++ h)
              else Err (EWire "unknown sig_domain")
  end.
Definition verify_veto_sig (v : TransitionVeto) (pk : list byte) : outcome unit :=
  preimage ← veto_preimage v;
  if sig_verify preimage (veto_sig v) pk then Ok tt else Err (EWire "veto signature invalid").
End vetoes.

(** ** The store *)

Inductive PendingStatus := AwaitingSigs | DisputeWindow | Vetoed | Finalized | Expired.
#[global] Instance PendingStatus_eq_dec : EqDecision PendingStatus.
Proof. solve_decision. Defined.

Record PendingTransition := mkPending {
  seal : TransitionSeal;
  vetoes : list TransitionVeto;
  pstatus : PendingStatus;
  pid : hash;
}.
Definition eta_PendingTransition (p : PendingTransition) := mkPending (seal p) (vetoes p) (pstatus p) (pid p).
#[global] Instance set_seal : Setter seal.
Proof. derive_setter eta_PendingTransition. Defined.
#[global] Instance set_vetoes : Setter vetoes.
Proof. derive_setter eta_PendingTransition. Defined.
#[global] Instance set_pstatus : Setter pstatus.
Proof. derive_setter eta_PendingTransition. Defined.

Record TransitionStore := mkStore {
  by_id : gmap hash PendingTransition;
  evictions_total : Z;
  proposals_accepted_total : Z;
}.
Definition eta_TransitionStore (s : TransitionStore) :=
  mkStore (by_id s) (evictions_total s) (proposals_accepted_total s).
#[global] Instance set_by_id : Setter by_id.
Proof. derive_setter eta_TransitionStore. Defined.
#[global] Instance set_evictions_total : Setter evictions_total.
Proof. derive_setter eta_TransitionStore. Defined.
#[global] Instance set_proposals_accepted_total : Setter proposals_accepted_total.
Proof. derive_setter eta_TransitionStore. Defined.

Definition store_new : TransitionStore := mkStore ∅ 0 0.
Definition is_open (st : PendingStatus) : bool :=
  match st with AwaitingSigs | DisputeWindow => true | _ => false end.

(** Mutates the entry found by [get_mut]. *)
Definition put_entry (id : hash) (p : PendingTransition) : M TransitionStore unit :=
  modify (fun s => s <| by_id ::= insert id p |>).

Definition add_sig (id : hash) (sig : AnchorSig) : M TransitionStore PendingStatus :=
  entry ← gets (fun s => by_id s !! id);
  p ← ok_or entry (EWire "transition not found");
  require (is_open (pstatus p)) (EWire "cannot add sig in this status");;
  require (negb (bool_decide (anchor_identity_hash sig ∈ anchor_identity_hash <$> proposer_sigs (seal p))))
    (EWire "sig from this anchor already recorded");;
  require (negb (bool_decide (dilithium3_sig sig = []))) (EWire "anchor sig bytes empty");;
  require (bool_decide (length (proposer_sigs (seal p)) < MAX_PROPOSER_SIGS)%nat)
    (EWire "proposer_sigs cap reached");;
  let sealed := seal p <| proposer_sigs ::= fun l => sort_sigs (l ++ [sig]) |> in
  let p := p <| seal := sealed |> in
  let p := if bool_decide (pstatus p = AwaitingSigs) &&
              bool_decide (required_threshold sealed <= length (proposer_sigs sealed))%nat
           then p <| pstatus := DisputeWindow |> else p in
  put_entry id p;; mret (pstatus p).

Definition add_veto (id : hash) (veto : TransitionVeto) (current_epoch : Z) : M TransitionStore unit :=
  lift (validate_veto veto);;
  entry ← gets (fun s => by_id s !! id);
  p ← ok_or entry (EWire "transition not found");
  require (bool_decide (veto_seal_hash veto = id)) (EWire "veto seal_hash does not match");;
  require (current_epoch <? effective_epoch (seal p)) (EWire "dispute window closed");;
  require (proposed_at_epoch (seal p) <=? current_epoch) (EWire "veto before proposal epoch");;
  require (negb (bool_decide (vetoer_identity_hash veto ∈ vetoer_identity_hash <$> vetoes p)))
    (EWire "veto from this identity already recorded");;
  require (negb (bool_decide (pstatus p = Vetoed))) (EWire "proposal already vetoed");;
  let p := p <| vetoes ::= fun l => l ++ [veto] |> in
  let p := if bool_decide (MIN_VETOES_TO_HALT <= length (vetoes p))%nat
           then p <| pstatus := Vetoed |> else p in
  put_entry id p.

(** [tick] on one entry. *)
Definition tick_status (current_epoch : Z) (p : PendingTransition) : PendingStatus :=
  if current_epoch <? effective_epoch (seal p) then pstatus p
  else match pstatus p with
       | AwaitingSigs => Expired
       | DisputeWindow => Finalized
       | st => st
       end.
Definition tick_entry (current_epoch : Z) (p : PendingTransition) : PendingTransition :=
  p <| pstatus := tick_status current_epoch p |>.
Definition due (current_epoch : Z) (st : PendingStatus) (p : PendingTransition) : Prop :=
  pstatus p = st ∧ effective_epoch (seal p) <= current_epoch.
#[global] Instance due_dec e st p : Decision (due e st p).
Proof. unfold due. apply _. Defined.

Definition retained (current_epoch retention : Z) (p : PendingTransition) : Prop :=
  is_open (pstatus p) = true ∨ current_epoch < U64.sat_add (effective_epoch (seal p)) retention.
#[global] Instance retained_dec e n p : Decision (retained e n p).
Proof. unfold retained. apply _. Defined.
Definition prune (current_epoch retention : Z) (s : TransitionStore) : nat * TransitionStore :=
  let kept := filter (fun kv => retained current_epoch retention kv.2) (by_id s) in
  ((size (by_id s) - size kept)%nat, s <| by_id := kept |>).

Definition replay_insert (p : PendingTransition) (s : TransitionStore) : TransitionStore :=
  s <| by_id ::= insert (pid p) p |>.

Definition has_active_with_parents (target_parents : list string) (s : TransitionStore) : bool :=
  if bool_decide (target_parents = []) then false
  else
    let target : gset string := list_to_set target_parents in
    existsb (fun kv =>
      is_open (pstatus kv.2) && bool_decide (length (parents (seal kv.2)) = size target) &&
      forallb (fun z => bool_decide (zs_zone_id z ∈ target)) (parents (seal kv.2)))
      (map_to_list (by_id s)).

(** Counts for the operator endpoints. *)
Definition count_where (P : PendingTransition → bool) (s : TransitionStore) : nat :=
  length (filter (fun kv => P kv.2 = true) (map_to_list (by_id s))).
Record StatusCounts := mkCounts {
  awaiting_sigs : nat; dispute_window : nat; vetoed : nat; finalized : nat; expired : nat }.
Definition status_counts (s : TransitionStore) : StatusCounts :=
  let n st := count_where (fun p => bool_decide (pstatus p = st)) s in
  mkCounts (n AwaitingSigs) (n DisputeWindow) (n Vetoed) (n Finalized) (n Expired).
Definition status_total (c : StatusCounts) : nat :=
  awaiting_sigs c + dispute_window c + vetoed c + finalized c + expired c.
Definition proposals_with_vetoes_count (s : TransitionStore) : nat :=
  count_where (fun p => negb (bool_decide (vetoes p = []))) s.

Section store.
Context `{HE : Externals, HJ : SealJson, HO : HashOrder}.

Definition from_seal (s : TransitionSeal) : outcome PendingTransition :=
  id ← seal_hash_for_sig s;
  Ok (mkPending s []
        (if bool_decide (required_threshold s <= length (proposer_sigs s))%nat
         then DisputeWindow else AwaitingSigs) id).

(** [min_by_key(|(_, p)| p.seal.proposed_at_epoch)]: the first of the oldest. *)
Definition oldest (l : list (hash * PendingTransition)) : option hash :=
  match l with
  | [] => None
  | kv :: l =>
      Some (fold_left (fun best kv => if proposed_at_epoch (seal kv.2) <? proposed_at_epoch (seal best.2)
                                      then kv else best) l kv).1
  end.

(** [let _ = self.add_sig(&id, sig)]: errors are ignored, a panic is not. *)
Definition try_add_sig (id : hash) (sig : AnchorSig) : M TransitionStore unit := fun s =>
  match add_sig id sig s with
  | (Panic, s') => (Panic, s')
  | (_, s') => (Ok tt, s')
  end.

Definition store_insert (s : TransitionSeal) : M TransitionStore hash :=
  lift (validate_structure s);;
  id ← lift (seal_hash_for_sig s);
  present ← gets (fun st => bool_decide (is_Some (by_id st !! id)));
  if (present : bool) then for_each (try_add_sig id) (proposer_sigs s);; mret id
  else
    entry ← lift (from_seal s);
    modify (fun st =>
      if bool_decide (MAX_PENDING_TRANSITIONS <= size (by_id st))%nat then
        match oldest (iter_order (by_id st)) with
        | Some victim => st <| by_id ::= delete victim |> <| evictions_total ::= fun n => U64.sat_add n 1 |>
        | None => st
        end
      else st);;
    modify (fun st => st <| by_id ::= insert id entry |>
                         <| proposals_accepted_total ::= fun n => U64.sat_add n 1 |>);;
    mret id.

(** [tick]: the ids that became final and the ids that expired, in the order of
    the walk. *)
Definition tick (current_epoch : Z) (s : TransitionStore)
    : (list hash * list hash) * TransitionStore :=
  let l := iter_order (by_id s) in
  (((filter (fun kv => due current_epoch DisputeWindow kv.2) l).*1,
    (filter (fun kv => due current_epoch AwaitingSigs kv.2) l).*1),
   s <| by_id ::= fmap (tick_entry current_epoch) |>).
End store.
