(* ===== verification/TransitionNode.v ===== *)
(** * The transition handlers of a node

    src/network/routes/transitions/mod.rs: the handlers that take in proposals,
    signatures and vetoes, the node's own co-signature, the pull of missed
    proposals from a peer and the mirror of pending proposals on disk; and
    src/network/health.rs: the tick that finalizes proposals and applies them to
    the zone registry, and the two boot steps that restore pending proposals and
    the registry from disk.  Counters for metrics, log lines and pushes to peers
    are left out. *)

From S2P Require Import Prelude Sorting F64 CrossZone Records Merkle Autoscaler ZoneTransition ZoneRegistry TransitionStore.
Open Scope Z_scope.

(** The state the handlers share: the pending store, the live registry and two
    tables on disk, the finalized seals and the mirror of pending proposals. *)
Record TransitionNode := mkNode {
  transitions : TransitionStore;
  zone_registry : ZoneRegistry;
  cf_final : gmap hash (list byte);
  cf_pending : gmap hash (list byte);
}.
Definition eta_TransitionNode (n : TransitionNode) :=
  mkNode (transitions n) (zone_registry n) (cf_final n) (cf_pending n).
#[global] Instance set_transitions : Setter transitions.
Proof. derive_setter eta_TransitionNode. Defined.
#[global] Instance set_zone_registry : Setter zone_registry.
Proof. derive_setter eta_TransitionNode. Defined.
#[global] Instance set_cf_final : Setter cf_final.
Proof. derive_setter eta_TransitionNode. Defined.
#[global] Instance set_cf_pending : Setter cf_pending.
Proof. derive_setter eta_TransitionNode. Defined.

Definition PROPOSAL_MAX_LEAD_EPOCHS : Z := 2.
Definition RETENTION_EPOCHS : Z := 10.
Definition MAX_PULLS_PER_TICK : nat := 16.

(** What a node has around it: the identity table, its own key and whether its
    type may seal epochs, [serde_json] for seals and pending entries, and which
    writes to the two tables succeed. *)
Record NodeEnv := mkEnv {
  get_public_key : string → option (list byte);
  identity : Signer;
  can_seal_epochs : bool;
  from_json : list byte → option TransitionSeal;
  pending_json : PendingTransition → option (list byte);
  pending_from_json : list byte → option PendingTransition;
  put_final_ok : hash → bool;
  put_pending_ok : hash → bool;
  delete_pending_ok : hash → bool;
}.

(** A table of the storage, in key order. *)
Definition cf_rows (m : gmap hash (list byte)) : list (hash * list byte) :=
  stable_sort (by_key_leb fst bytes_leb) (map_to_list m).

Section node.
Context `{HE : Externals, HJ : SealJson, HV : VetoJson, HO : HashOrder}.
Context (env : NodeEnv).

Definition resolve_anchor_pubkey (a : hash) : option (list byte) := get_public_key env (hex_encode a).

Definition verify_anchor_sig (sig : AnchorSig) (seal_hash : hash) (trust : gset hash) : outcome unit :=
  if negb (bool_decide (anchor_identity_hash sig ∈ trust)) then Err (EWire "anchor not in staked trust set")
  else match resolve_anchor_pubkey (anchor_identity_hash sig) with
       | None => Err (EWire "anchor pubkey not registered")
       | Some pk => if sig_verify seal_hash (dilithium3_sig sig) pk then Ok tt
                    else Err (EWire "anchor sig invalid")
       end.
Fixpoint verify_all (sigs : list AnchorSig) (seal_hash : hash) (trust : gset hash) : outcome unit :=
  match sigs with
  | [] => Ok tt
  | sig :: sigs => _ ← verify_anchor_sig sig seal_hash trust; verify_all sigs seal_hash trust
  end.

(** ** The mirror on disk and the node's own signature *)

Definition persist_pending_entry (id : hash) (n : TransitionNode) : TransitionNode :=
  match by_id (transitions n) !! id with
  | None => n
  | Some p =>
      if bool_decide (pstatus p = Vetoed)
      then if delete_pending_ok env id then n <| cf_pending ::= delete id |> else n
      else match pending_json env p with
           | Some bytes => if put_pending_ok env id then n <| cf_pending ::= insert id bytes |> else n
           | None => n
           end
  end.

Definition maybe_cosign_transition (id : hash) (n : TransitionNode) : option AnchorSig * TransitionNode :=
  let own := sha3_256 (signer_pk (identity env)) in
  if negb (can_seal_epochs env) then (None, n)
  else match resolve_anchor_pubkey own, by_id (transitions n) !! id with
  | Some _, Some p =>
      if bool_decide (own ∈ anchor_identity_hash <$> proposer_sigs (seal p)) then (None, n)
      else if negb (is_open (pstatus p)) then (None, n)
      else match sign_as_anchor (identity env) (seal p) with
           | Ok scratch =>
               match snd <$> list_find (fun s => anchor_identity_hash s = own) (proposer_sigs scratch) with
               | Some sig =>
                   match add_sig id sig (transitions n) with
                   | (Ok _, st) => (Some sig, n <| transitions := st |>)
                   | (_, st) => (None, n <| transitions := st |>)
                   end
               | None => (None, n)
               end
           | _ => (None, n)
           end
  | _, _ => (None, n)
  end.

(** After an entry was taken in: mirror it, co-sign it, mirror it again. *)
Definition settle_entry (id : hash) (n : TransitionNode) : TransitionNode :=
  let n := persist_pending_entry id n in
  match maybe_cosign_transition id n with
  | (Some _, n) => persist_pending_entry id n
  | (None, n) => n
  end.

(** ** The handlers *)

(** The epoch is known once the state core is initialised. *)
Definition propose_transition (body : TransitionSeal) (epoch : option Z) (trust : gset hash)
    : M TransitionNode hash :=
  lift (validate_structure body);;
  match epoch with
  | Some e =>
      require (proposed_at_epoch body <=? U64.sat_add e PROPOSAL_MAX_LEAD_EPOCHS)
        (EWire "proposed_at_epoch too far ahead");;
      require (e <? effective_epoch body) (EWire "effective_epoch is not in the future")
  | None => mret tt
  end;;
  seal_hash ← lift (seal_hash_for_sig body);
  lift (verify_all (proposer_sigs body) seal_hash trust);;
  id ← zoom transitions (store_insert body);
  modify (settle_entry id);;
  mret id.

Definition submit_sig (id : hash) (sig : AnchorSig) (epoch : option Z) (trust : gset hash)
    : M TransitionNode PendingStatus :=
  entry ← gets (fun n => by_id (transitions n) !! id);
  p ← ok_or entry (EWire "transition not found");
  match epoch with
  | Some e => require (e <? effective_epoch (seal p)) (EWire "dispute window closed")
  | None => mret tt
  end;;
  lift (verify_anchor_sig sig id trust);;
  status ← zoom transitions (add_sig id sig);
  modify (persist_pending_entry id);;
  mret status.

(** The epoch of a veto is zero before the state core is initialised. *)
Definition submit_veto (id : hash) (veto : TransitionVeto) (epoch : option Z) : M TransitionNode unit :=
  entry ← gets (fun n => by_id (transitions n) !! id);
  _ ← ok_or entry (EWire "transition not found");
  pk ← ok_or (get_public_key env (hex_encode (vetoer_identity_hash veto)))
         (EWire "vetoer pubkey not registered");
  lift (verify_veto_sig veto pk);;
  zoom transitions (add_veto id veto (default 0 epoch));;
  modify (persist_pending_entry id).

(** ** Pulling from a peer *)

(** The ids worth fetching: unknown ones and ones still short of signatures. *)
Definition wanted (st : TransitionStore) (id : hash) : Prop :=
  match by_id st !! id with
  | None => length id = 32%nat
  | Some p => length id = 32%nat ∧ pstatus p = AwaitingSigs ∧
              (length (proposer_sigs (seal p)) < required_threshold (seal p))%nat
  end.
#[global] Instance wanted_dec st id : Decision (wanted st id).
Proof. unfold wanted. destruct (by_id st !! id); apply _. Defined.
Definition pull_targets (listed : list hash) (st : TransitionStore) : list hash :=
  take MAX_PULLS_PER_TICK (filter (wanted st) listed).

(** One fetched seal; an error moves on to the next. *)
Definition pull_one (current_epoch : Z) (trust : gset hash) (id : hash) (s : TransitionSeal)
    : M TransitionNode unit :=
  computed ← lift (seal_hash_for_sig s);
  require (bool_decide (computed = id)) (EWire "id mismatch");;
  require (current_epoch <? effective_epoch s) (EWire "stale seal");;
  lift (verify_all (proposer_sigs s) computed trust);;
  zoom transitions (store_insert s);;
  modify (settle_entry id).

(** The peer's answers are its list of pending ids and the seal it serves for
    each.  Without a peer there is no list. *)
Definition run_transition_pull_tick (listed : option (list hash)) (fetch : hash → option TransitionSeal)
    (epoch : option Z) (trust : gset hash) (n : TransitionNode) : TransitionNode :=
  let own := sha3_256 (signer_pk (identity env)) in
  if negb (can_seal_epochs env) then n
  else match resolve_anchor_pubkey own, listed, epoch with
  | Some _, Some listed, Some e =>
      fold_left (fun n id => match fetch id with Some s => (pull_one e trust id s n).2 | None => n end)
        (pull_targets listed (transitions n)) n
  | _, _, _ => n
  end.

(** ** The tick *)

(** The keys of the signers that are staked and registered. *)
Definition trusted_pubkeys (trust : gset hash) (s : TransitionSeal) : gmap hash (list byte) :=
  fold_left (fun m sig =>
    let a := anchor_identity_hash sig in
    if decide (a ∈ trust) then
      match get_public_key env (hex_encode a) with Some pk => <[a := pk]> m | None => m end
    else m) (proposer_sigs s) ∅.

(** The last check of a seal that became final. *)
Definition sigs_pass (trust : gset hash) (s : TransitionSeal) : bool :=
  match verify_sigs s (trusted_pubkeys trust s) (required_threshold s) with Ok _ => true | _ => false end.
(** The seals that pass, serialized, and the ids that are rejected. *)
Definition with_seals (trust : gset hash) (st : TransitionStore) (ids : list hash)
    : list (hash * list byte) :=
  omap (fun id => p ← by_id st !! id;
          if sigs_pass trust (seal p) then bytes ← seal_json (seal p); Some (id, bytes) else None) ids.
Definition sig_rejected (trust : gset hash) (st : TransitionStore) (ids : list hash) : list hash :=
  omap (fun id => p ← by_id st !! id; if sigs_pass trust (seal p) then None else Some id) ids.

Definition persist_finalized_transitions (l : list (hash * list byte)) (n : TransitionNode)
    : TransitionNode :=
  fold_left (fun n kv => if put_final_ok env kv.1 then n <| cf_final ::= insert kv.1 kv.2 |> else n) l n.
Definition apply_finalized_to_zone_registry (l : list (hash * list byte)) (n : TransitionNode)
    : TransitionNode :=
  fold_left (fun n kv =>
    match from_json env kv.2 with
    | Some s => n <| zone_registry ::= fun r => (apply_transition s r).2 |>
    | None => n
    end) l n.
Definition clear_pending_mirror (ids : list hash) (n : TransitionNode) : TransitionNode :=
  fold_left (fun n id => if delete_pending_ok env id then n <| cf_pending ::= delete id |> else n) ids n.

Definition run_transition_tick (epoch : option Z) (trust : gset hash) (n : TransitionNode)
    : TransitionNode :=
  match epoch with
  | None => n
  | Some e =>
      if e =? 0 then n
      else
        let '((finalized, expired), st) := tick e (transitions n) in
        let l := with_seals trust st finalized in
        let rejected := sig_rejected trust st finalized in
        let '(_, st) := prune e RETENTION_EPOCHS st in
        let n := persist_finalized_transitions l (n <| transitions := st |>) in
        let n := apply_finalized_to_zone_registry l n in
        clear_pending_mirror (l.*1 ++ expired ++ rejected) n
  end.

(** ** Boot *)

Definition load_finalized_transition (id : hash) (n : TransitionNode) : option TransitionSeal :=
  bytes ← cf_final n !! id; from_json env bytes.

(** The store with the open rows re-admitted, and how many there were. *)
Definition replay_pending_transitions_from_rocks (cf : gmap hash (list byte)) (st : TransitionStore)
    : nat * TransitionStore :=
  fold_left (fun acc row =>
    match pending_from_json env row.2 with
    | Some p => if is_open (pstatus p) then (S acc.1, replay_insert p acc.2) else acc
    | None => acc
    end) (take MAX_PENDING_TRANSITIONS (cf_rows cf)) (0%nat, st).
Definition boot_replay_pending_transitions (n : TransitionNode) : TransitionNode :=
  n <| transitions := (replay_pending_transitions_from_rocks (cf_pending n) (transitions n)).2 |>.

(** The genesis layout is the zones "0" to [zone_count - 1]. *)
Definition boot_rehydrate_zone_registry (genesis : list string) (n : TransitionNode) : TransitionNode :=
  n <| zone_registry := (rebuild_from_finalized (from_json env) (get_public_key env)
                           (cf_rows (cf_final n)) genesis).1 |>.

(** What is left after a restart: the tables on disk, and what boot makes of
    them. *)
Definition restart (genesis : list string) (n : TransitionNode) : TransitionNode :=
  boot_rehydrate_zone_registry genesis
    (boot_replay_pending_transitions (mkNode store_new registry_new (cf_final n) (cf_pending n))).
End node.
