(* ===== verification/TransitionProps.v ===== *)
(** * Pending transitions: lifecycle, vetting, liveness *)

From S2P Require Import Prelude Sorting F64 CrossZone Records Merkle Autoscaler ZoneTransition ZoneRegistry ZoneRegistryProps TransitionStore TransitionNode.
Open Scope Z_scope.

(** ** The invariant of the store *)

Section invariant.
Context `{HE : Externals, HJ : SealJson, HO : HashOrder}.

Record entry_ok (id : hash) (p : PendingTransition) : Prop := {
  eo_id : pid p = id;
  eo_hash : seal_hash_for_sig (seal p) = Ok id;
  eo_sigs : (length (proposer_sigs (seal p)) <= MAX_PROPOSER_SIGS)%nat;
  eo_vetoers : NoDup (vetoer_identity_hash <$> vetoes p);
  eo_status :
    let n := length (proposer_sigs (seal p)) in
    let quorum := required_threshold (seal p) in
    match pstatus p with
    | AwaitingSigs | Expired => (n < quorum)%nat ∧ (length (vetoes p) < MIN_VETOES_TO_HALT)%nat
    | DisputeWindow | Finalized => (quorum <= n)%nat ∧ (length (vetoes p) < MIN_VETOES_TO_HALT)%nat
    | Vetoed => length (vetoes p) = MIN_VETOES_TO_HALT
    end;
}.
Record store_ok (s : TransitionStore) : Prop := {
  so_size : (size (by_id s) <= MAX_PENDING_TRANSITIONS)%nat;
  so_entries : ∀ id p, by_id s !! id = Some p → entry_ok id p;
}.

Lemma store_new_ok : store_ok store_new.
Proof.
  constructor; simpl; [rewrite map_size_empty; lia|]. intros id p Hp. by rewrite lookup_empty in Hp.
Qed.

(** Replacing an entry keeps the invariant. *)
Lemma put_entry_ok s id p p' :
  store_ok s → by_id s !! id = Some p → entry_ok id p' → store_ok (s <| by_id ::= insert id p' |>).
Proof.
  intros [Hs He] Hp Hp'. constructor; simpl.
  - rewrite map_size_insert_Some; [done|by rewrite Hp].
  - intros id' q. destruct (decide (id = id')) as [<-|Hne].
    + rewrite lookup_insert_eq. by intros [= <-].
    + rewrite lookup_insert_ne by done. apply He.
Qed.

Lemma add_sig_ok id sig s : store_ok s → store_ok (add_sig id sig s).2 ∧ (add_sig id sig s).1 ≠ Panic.
Proof.
  intros Hs. change (wp (add_sig id sig) (fun o s' => store_ok s' ∧ o ≠ Panic) s). unfold add_sig.
  repeat (wp_step; bools); try done. rename a into p.
  pose proof (so_entries s Hs id p H) as [E1 E2 E3 E4 E5].
  assert (Hlen : length (sort_sigs (proposer_sigs (seal p) ++ [sig])) = S (length (proposer_sigs (seal p)))).
  { unfold sort_sigs. rewrite stable_sort_length, length_app. simpl. lia. }
  unfold put_entry. wp_step. wp_step. split; [|done]. eapply put_entry_ok; [done|exact H|].
  case_bool_decide as Ha; [case_bool_decide as Hq|]; simpl in *.
  - constructor; simpl; try done; [lia|]. rewrite Ha in E5. split; [done|lia].
  - constructor; simpl; try done; [lia|]. rewrite Ha in *. split; [|tauto].
    unfold required_threshold in *. simpl in *. lia.
  - constructor; simpl; try done; [lia|]. destruct (pstatus p); try done.
    unfold required_threshold in *. simpl in *. lia.
Qed.

Lemma add_veto_ok id veto e s :
  store_ok s → store_ok (add_veto id veto e s).2 ∧ (add_veto id veto e s).1 ≠ Panic.
Proof.
  intros Hs. change (wp (add_veto id veto e) (fun o s' => store_ok s' ∧ o ≠ Panic) s). unfold add_veto.
  apply wp_bind, wp_lift.
  assert (Hv : validate_veto veto ≠ Panic) by (unfold validate_veto; cbv zeta; repeat case_match; congruence).
  destruct (validate_veto veto); [|done..].
  repeat (wp_step; bools); try done. rename a0 into p.
  pose proof (so_entries s Hs id p H) as [E1 E2 E3 E4 E5].
  assert (Hlt : (length (vetoes p) < MIN_VETOES_TO_HALT)%nat) by (cbv zeta in E5; destruct (pstatus p); (done || apply E5)).
  unfold put_entry. apply wp_modify. split; [|done]. eapply put_entry_ok; [done|exact H|].
  assert (HN : NoDup (vetoer_identity_hash <$> vetoes p ++ [veto])).
  { rewrite fmap_app. apply NoDup_app. split_and!; [done| |apply NoDup_singleton].
    intros x Hx Hx'. apply list_elem_of_singleton in Hx' as ->. done. }
  case_bool_decide as Hq; simpl in *; rewrite ?length_app in *; simpl in *.
  - constructor; simpl; try done. rewrite length_app. simpl. lia.
  - constructor; simpl; try done. destruct (pstatus p); rewrite length_app; simpl; try done; lia.
Qed.

Lemma oldest_elem l id : oldest l = Some id → id ∈ l.*1.
Proof.
  destruct l as [|kv l]; [done|]. intros [= <-]. simpl. revert kv.
  induction l as [|kv' l IH]; intros kv; simpl; [by left|]. csimpl.
  destruct (proposed_at_epoch (seal kv'.2) <? proposed_at_epoch (seal kv.2)).
  - specialize (IH kv'). rewrite elem_of_cons in IH |- *. rewrite elem_of_cons. tauto.
  - specialize (IH kv). rewrite elem_of_cons in IH |- *. rewrite elem_of_cons. tauto.
Qed.
Lemma iter_order_elem {A} (m : gmap hash A) id x : (id, x) ∈ iter_order m ↔ m !! id = Some x.
Proof. by rewrite iter_order_perm, elem_of_map_to_list. Qed.
Lemma iter_order_keys {A} (m : gmap hash A) id : id ∈ (iter_order m).*1 → is_Some (m !! id).
Proof.
  intros Hin. apply list_elem_of_fmap in Hin as ([k x] & -> & Hin). apply iter_order_elem in Hin. eauto.
Qed.

(** Making room leaves space for one entry. *)
Lemma evict_ok s :
  store_ok s →
  let s' := if bool_decide (MAX_PENDING_TRANSITIONS <= size (by_id s))%nat then
              match oldest (iter_order (by_id s)) with
              | Some victim => s <| by_id ::= delete victim |> <| evictions_total ::= fun n => U64.sat_add n 1 |>
              | None => s
              end
            else s in
  (size (by_id s') < MAX_PENDING_TRANSITIONS)%nat ∧
  (∀ id p, by_id s' !! id = Some p → entry_ok id p) ∧ (∀ id, by_id s !! id = None → by_id s' !! id = None).
Proof.
  intros [Hs He]. cbv zeta. case_bool_decide as Hf; [|split_and!; [lia|done|done]].
  assert (Hpos : (0 < MAX_PENDING_TRANSITIONS)%nat) by (unfold MAX_PENDING_TRANSITIONS; lia).
  destruct (oldest (iter_order (by_id s))) as [victim|] eqn:Ho.
  - apply oldest_elem, iter_order_keys in Ho as [v Hv]. cbn. split_and!.
    + rewrite map_size_delete_Some by (by rewrite Hv). lia.
    + intros id p [_ Hp]%lookup_delete_Some. by apply He.
    + intros id Hn. by apply lookup_delete_None; right.
  - exfalso. destruct (iter_order (by_id s)) eqn:Ei; [|done].
    assert (Hm : map_to_list (by_id s) = []) by (apply Permutation_nil; by rewrite <- Ei, iter_order_perm).
    apply map_to_list_empty_iff in Hm. rewrite Hm, map_size_empty in Hf. lia.
Qed.

Lemma try_sigs_ok id sigs s :
  store_ok s → wp (for_each (try_add_sig id) sigs) (fun o s' => store_ok s' ∧ o = Ok tt) s.
Proof.
  intros Hs. apply (wp_for_each _ _ (fun _ s' => store_ok s')); [done|by intros|].
  intros sig l s' Hs'. unfold wp, try_add_sig. destruct (add_sig_ok id sig s' Hs') as [H1 H2].
  by destruct (add_sig id sig s') as [[] ?].
Qed.

Lemma store_insert_ok seal s : store_ok s → store_ok (store_insert seal s).2.
Proof.
  intros Hs. change (wp (store_insert seal) (fun _ s' => store_ok s') s). unfold store_insert.
  apply wp_bind, wp_lift. destruct (validate_structure seal) eqn:Hv; [|done..].
  apply wp_bind, wp_lift. destruct (seal_hash_for_sig seal) as [id|e|] eqn:Hh; [|done..].
  wp_step. wp_step. apply wp_if; intros Hp; bools.
  - apply wp_bind. eapply wp_mono; [by apply try_sigs_ok|]. by intros o s' [Hs' ->].
  - apply wp_bind, wp_lift. unfold from_seal. rewrite Hh. cbn [mbind outcome_bind].
    apply wp_bind, wp_modify. cbv beta match. apply wp_bind, wp_modify. cbv beta match. apply wp_ret.
    rewrite <- eq_None_not_Some in Hp. destruct (evict_ok s Hs) as (Hsz & He & Hn). cbv zeta in *.
    set (s' := if bool_decide (MAX_PENDING_TRANSITIONS <= size (by_id s))%nat then _ else _) in *.
    constructor; cbn.
    + rewrite map_size_insert_None by (by apply Hn). lia.
    + intros id' p. destruct (decide (id = id')) as [<-|Hne]; [|rewrite lookup_insert_ne by done; apply He].
      rewrite lookup_insert_eq. intros [= <-]. constructor; cbn; [done|done| |constructor|].
      * unfold validate_structure in Hv. destruct (negb _); [done|]. case_bool_decide; [done|lia].
      * unfold MIN_VETOES_TO_HALT. case_bool_decide; cbn; lia.
Qed.

Lemma tick_ok e s : store_ok s → store_ok (tick e s).2.
Proof.
  intros [Hs He]. constructor; cbn; [by rewrite map_size_fmap|].
  intros id p Hp. apply lookup_fmap_Some in Hp as (q & <- & Hq). destruct (He id q Hq) as [H1 H2 H3 H4 H5].
  constructor; cbn; [done..|]. unfold tick_status. destruct (e <? effective_epoch (seal q)); [exact H5|].
  cbv zeta in H5. by destruct (pstatus q).
Qed.
Lemma prune_ok e n s : store_ok s → store_ok (prune e n s).2.
Proof.
  intros [Hs He]. constructor; cbn.
  - etrans; [|exact Hs]. apply map_subseteq_size, map_filter_subseteq.
  - intros id p [Hp _]%map_lookup_filter_Some. by apply He.
Qed.
End invariant.

(** ** Events of a node *)

Section node.
Context `{HE : Externals, HJ : SealJson, HV : VetoJson, HO : HashOrder}.
Context (env : NodeEnv).

Inductive NodeEvent :=
  | EvPropose (body : TransitionSeal) (epoch : option Z) (trust : gset hash)
  | EvSig (id : hash) (sig : AnchorSig) (epoch : option Z) (trust : gset hash)
  | EvVeto (id : hash) (veto : TransitionVeto) (epoch : option Z)
  | EvPull (listed : option (list hash)) (fetch : hash → option TransitionSeal) (epoch : option Z)
      (trust : gset hash)
  | EvTick (epoch : option Z) (trust : gset hash).
Definition handle (n : TransitionNode) (ev : NodeEvent) : TransitionNode :=
  match ev with
  | EvPropose body epoch trust => (propose_transition env body epoch trust n).2
  | EvSig id sig epoch trust => (submit_sig env id sig epoch trust n).2
  | EvVeto id veto epoch => (submit_veto env id veto epoch n).2
  | EvPull listed fetch epoch trust => run_transition_pull_tick env listed fetch epoch trust n
  | EvTick epoch trust => run_transition_tick env epoch trust n
  end.

(** A property of nodes is kept by every handler once it is kept by the five
    steps they are made of. *)
Record stable (I : TransitionNode → Prop) : Prop := {
  st_insert : ∀ s n, I n → wp (zoom transitions (store_insert s))
    (fun o n' => match o with Ok id => I (settle_entry env id n') | _ => I n' end) n;
  st_pull : ∀ s id n, seal_hash_for_sig s = Ok id → I n → wp (zoom transitions (store_insert s))
    (fun o n' => match o with Ok _ => I (settle_entry env id n') | _ => I n' end) n;
  st_sig : ∀ id sig n, I n → wp (zoom transitions (add_sig id sig))
    (fun o n' => match o with Ok _ => I (persist_pending_entry env id n') | _ => I n' end) n;
  st_veto : ∀ id veto e n, I n → wp (zoom transitions (add_veto id veto e))
    (fun o n' => match o with Ok _ => I (persist_pending_entry env id n') | _ => I n' end) n;
  st_tick : ∀ epoch trust n, I n → I (run_transition_tick env epoch trust n);
}.

Ltac skip_lift := apply wp_bind, wp_lift; cbv beta; case_match; [|done..].

Lemma stable_events I events n : stable I → I n → I (fold_left handle events n).
Proof.
  intros HI. revert n. induction events as [|ev events IH]; intros n Hn; [done|]. apply IH.
  destruct ev as [body epoch trust|id sig epoch trust|id veto epoch|listed fetch epoch trust|epoch trust];
    cbn [handle].
  - change (wp (propose_transition env body epoch trust) (fun _ n' => I n') n).
    unfold propose_transition. skip_lift. apply wp_bind.
    assert (HT : wp (A := hash) (seal_hash ← lift (seal_hash_for_sig body);
      lift (verify_all env (proposer_sigs body) seal_hash trust);;
      id ← zoom transitions (store_insert body); modify (settle_entry env id);; mret id)
      (fun _ n' => I n') n).
    { do 2 skip_lift. apply wp_bind. eapply wp_mono; [by apply (st_insert I HI)|]. by intros [id|e|] n'. }
    destruct epoch as [e|]; [|by apply wp_ret]. wp_step. wp_step; [|done]. by wp_step.
  - change (wp (submit_sig env id sig epoch trust) (fun _ n' => I n') n).
    unfold submit_sig. do 4 wp_step; [|done]. apply wp_bind.
    assert (HT : wp (lift (verify_anchor_sig env sig id trust);; status ← zoom transitions (add_sig id sig);
      modify (persist_pending_entry env id);; mret status) (fun _ n' => I n') n).
    { skip_lift. apply wp_bind. eapply wp_mono; [by apply (st_sig I HI)|]. by intros [st|e|] n'. }
    destruct epoch as [e|]; [by wp_step|by apply wp_ret].
  - change (wp (submit_veto env id veto epoch) (fun _ n' => I n') n).
    unfold submit_veto. do 4 wp_step; [|done]. do 2 wp_step; [|done]. skip_lift.
    apply wp_bind. eapply wp_mono; [by apply (st_veto I HI)|]. by intros [st|e|] n'.
  - unfold run_transition_pull_tick. destruct (negb _); [done|].
    destruct (resolve_anchor_pubkey env _); [|done]. destruct listed as [listed|]; [|done].
    destruct epoch as [e|]; [|done]. generalize (pull_targets listed (transitions n)). intros ids.
    revert n Hn. induction ids as [|id ids IHl]; intros n Hn; [done|]. apply IHl. destruct (fetch id) as [s|]; [|done].
    change (wp (pull_one env e trust id s) (fun _ n' => I n') n). unfold pull_one.
    skip_lift. wp_step. wp_step; [|done]. bools. wp_step. wp_step; [|done]. skip_lift.
    apply wp_bind. eapply wp_mono; [apply (st_pull I HI s id); congruence|]. by intros [st|err|] n'.
  - by apply (st_tick I HI).
Qed.

Definition node_ok (n : TransitionNode) : Prop := store_ok (transitions n).

Lemma persist_entry_store id n : transitions (persist_pending_entry env id n) = transitions n.
Proof. unfold persist_pending_entry. by repeat case_match. Qed.
Lemma cosign_ok id n : node_ok n → node_ok (maybe_cosign_transition env id n).2.
Proof.
  intros Hn. unfold maybe_cosign_transition. repeat case_match; try done; simpl in *.
  all: match goal with H : add_sig ?i ?s ?t = (_, ?t') |- _ =>
    change (store_ok t'); replace t' with (add_sig i s t).2 by (by rewrite H); by apply add_sig_ok end.
Qed.
Lemma settle_ok id n : node_ok n → node_ok (settle_entry env id n).
Proof.
  intros Hn. unfold settle_entry. set (n0 := persist_pending_entry env id n).
  assert (Hn0 : node_ok n0) by (unfold node_ok, n0; by rewrite persist_entry_store).
  pose proof (cosign_ok id n0 Hn0) as Hc. destruct (maybe_cosign_transition env id n0) as [[sig|] n1]; [|done].
  unfold node_ok. by rewrite persist_entry_store.
Qed.

(** The tick touches the store through [tick] and [prune] only. *)
Lemma persist_store l n : transitions (persist_finalized_transitions env l n) = transitions n ∧
  zone_registry (persist_finalized_transitions env l n) = zone_registry n ∧
  cf_pending (persist_finalized_transitions env l n) = cf_pending n.
Proof.
  revert n. induction l as [|kv l IH]; intros n; simpl; [done|].
  destruct (put_final_ok env kv.1); destruct (IH n), (IH (n <| cf_final ::= insert kv.1 kv.2 |>)); done.
Qed.
Lemma apply_store l n : transitions (apply_finalized_to_zone_registry env l n) = transitions n ∧
  zone_registry (apply_finalized_to_zone_registry env l n) =
    run_seals (omap (from_json env ∘ snd) l) (zone_registry n) ∧
  cf_final (apply_finalized_to_zone_registry env l n) = cf_final n ∧
  cf_pending (apply_finalized_to_zone_registry env l n) = cf_pending n.
Proof.
  revert n. induction l as [|[k b] l IH]; intros n; [done|]. cbn [apply_finalized_to_zone_registry fold_left].
  cbn [omap list_omap]. unfold compose at 1. simpl. destruct (from_json env b) as [s|]; [|apply IH].
  destruct (IH (n <| zone_registry ::= fun r => (apply_transition s r).2 |>)) as (H1 & H2 & H3).
  by unfold apply_finalized_to_zone_registry in *.
Qed.
Lemma clear_store ids n : transitions (clear_pending_mirror env ids n) = transitions n ∧
  zone_registry (clear_pending_mirror env ids n) = zone_registry n ∧
  cf_final (clear_pending_mirror env ids n) = cf_final n ∧
  (∀ id, id ∉ ids → cf_pending (clear_pending_mirror env ids n) !! id = cf_pending n !! id).
Proof.
  revert n. induction ids as [|k ids IH]; intros n; [done|]. cbn [clear_pending_mirror fold_left].
  destruct (delete_pending_ok env k);
    [destruct (IH (n <| cf_pending ::= delete k |>)) as (H1 & H2 & H3 & H4)|destruct (IH n) as (H1 & H2 & H3 & H4)];
    split_and!; try done; intros id [Hk Hid]%not_elem_of_cons; rewrite H4 by done; [|done].
  simpl. by rewrite lookup_delete_ne by done.
Qed.

Lemma tick_transitions e trust n :
  e ≠ 0 → transitions (run_transition_tick env (Some e) trust n) =
            (prune e RETENTION_EPOCHS (tick e (transitions n)).2).2.
Proof.
  intros He. unfold run_transition_tick. rewrite (proj2 (Z.eqb_neq e 0) He).
  destruct (tick e (transitions n)) as [[fin ex] st]. cbn [fst snd].
  destruct (prune e RETENTION_EPOCHS st) as [k st']. cbn [fst snd].
  by rewrite (proj1 (clear_store _ _)), (proj1 (apply_store _ _)), (proj1 (persist_store _ _)).
Qed.
Lemma tick_node_ok epoch trust n : node_ok n → node_ok (run_transition_tick env epoch trust n).
Proof.
  intros Hn. destruct epoch as [e|]; [|done]. destruct (decide (e = 0)) as [->|He]; [done|].
  unfold node_ok. rewrite tick_transitions by done. by apply prune_ok, tick_ok.
Qed.

Lemma node_ok_stable : stable node_ok.
Proof.
  constructor.
  - intros s n Hn. apply wp_zoom. unfold wp.
    pose proof (store_insert_ok s _ Hn) as H. destruct (store_insert s (transitions n)) as [[id|e|] st]; try done.
    by apply settle_ok.
  - intros s id n _ Hn. apply wp_zoom. unfold wp.
    pose proof (store_insert_ok s _ Hn) as H. destruct (store_insert s (transitions n)) as [[x|e|] st]; try done.
    by apply settle_ok.
  - intros id sig n Hn. apply wp_zoom. unfold wp.
    destruct (add_sig_ok id sig _ Hn) as [H _]. destruct (add_sig id sig (transitions n)) as [[x|e|] st]; try done.
    unfold node_ok. by rewrite persist_entry_store.
  - intros id veto e n Hn. apply wp_zoom. unfold wp.
    destruct (add_veto_ok id veto e _ Hn) as [H _].
    destruct (add_veto id veto e (transitions n)) as [[x|err|] st]; try done.
    unfold node_ok. by rewrite persist_entry_store.
  - intros epoch trust n. apply tick_node_ok.
Qed.

(** C26: the lifecycle of pending transitions is kept through any sequence of
    proposals, signatures, vetoes, pulls from peers and ticks, accepted or
    refused: the store never holds more than 1024 proposals or a proposal more
    than 32 signatures; each is filed under its own hash; it is in its dispute
    window or final only with a quorum of signatures, and it is vetoed exactly
    when two different identities have vetoed it.  Two is the code's constant
    ([MIN_VETOES_TO_HALT]); the head of its file and the comments of
    [PendingStatus] say that one valid veto suffices. *)
Theorem pending_lifecycle events r final mirror :
  let n := fold_left handle events (mkNode store_new r final mirror) in
  (size (by_id (transitions n)) <= MAX_PENDING_TRANSITIONS)%nat ∧
  ∀ id p, by_id (transitions n) !! id = Some p →
    seal_hash_for_sig (seal p) = Ok id ∧ (length (proposer_sigs (seal p)) <= 32)%nat ∧
    NoDup (vetoer_identity_hash <$> vetoes p) ∧
    (pstatus p = Vetoed ↔ (2 <= length (vetoes p))%nat) ∧
    (pstatus p = DisputeWindow ∨ pstatus p = Finalized →
       (required_threshold (seal p) <= length (proposer_sigs (seal p)))%nat).
Proof.
  cbv zeta. destruct (stable_events _ events (mkNode store_new r final mirror) node_ok_stable store_new_ok)
    as [Hs He]. split; [done|].
  intros id p Hp. destruct (He id p Hp) as [H1 H2 H3 H4 H5]. unfold MAX_PROPOSER_SIGS, MIN_VETOES_TO_HALT in *.
  cbv zeta in H5. split_and!; [done|done|done| |].
  - destruct (pstatus p); split; intros; try done; lia.
  - intros [E|E]; rewrite E in H5; tauto.
Qed.

(** ** What a tick applies *)

Lemma trusted_lookup trust s a pk :
  trusted_pubkeys env trust s !! a = Some pk → a ∈ trust ∧ get_public_key env (hex_encode a) = Some pk.
Proof.
  unfold trusted_pubkeys. cut (∀ sigs (m : gmap hash (list byte)),
    (∀ a pk, m !! a = Some pk → a ∈ trust ∧ get_public_key env (hex_encode a) = Some pk) →
    ∀ a pk, fold_left (fun m sig => if decide (anchor_identity_hash sig ∈ trust) then
      match get_public_key env (hex_encode (anchor_identity_hash sig)) with
      | Some pk => <[anchor_identity_hash sig := pk]> m | None => m end else m) sigs m !! a = Some pk →
    a ∈ trust ∧ get_public_key env (hex_encode a) = Some pk).
  { intros HC. apply HC. intros a0 pk0 E. by rewrite lookup_empty in E. }
  clear. induction sigs as [|sig sigs IH]; intros m Hm; simpl; [done|]. apply IH.
  case_decide as Ht; [|done]. destruct (get_public_key env _) as [pk0|] eqn:Ek; [|done].
  intros a pk [[<- <-]|[_ Hl]]%lookup_insert_Some; auto.
Qed.

(** The entry will be final at epoch [e] and passes its last check. *)
Definition ready (e : Z) (trust : gset hash) (p : PendingTransition) : Prop :=
  pstatus p = DisputeWindow ∧ effective_epoch (seal p) <= e ∧
  verify_sigs (seal p) (trusted_pubkeys env trust (seal p)) (required_threshold (seal p)) = Ok tt.

Definition batch (e : Z) (trust : gset hash) (s : TransitionStore) : list (hash * list byte) :=
  with_seals env trust (tick e s).2 (tick e s).1.1.

Lemma batch_elem e trust s id b :
  (id, b) ∈ batch e trust s ↔ ∃ p, by_id s !! id = Some p ∧ ready e trust p ∧ seal_json (seal p) = Some b.
Proof.
  unfold batch, with_seals. rewrite list_elem_of_omap. unfold sigs_pass. split.
  - intros (id' & Hin & Hb). apply list_elem_of_fmap in Hin as ([k q] & -> & Hin). simpl in *.
    apply list_elem_of_filter in Hin as [Hd Hin]. apply iter_order_elem in Hin. simpl in Hd.
    rewrite lookup_fmap, Hin in Hb. cbn in Hb.
    destruct (verify_sigs _ _ _) as [[]|e0|] eqn:Ev; [|done..]. simpl in Hb.
    destruct (seal_json (seal q)) as [b'|] eqn:Ej; [|done]. simpl in Hb. injection Hb as <- <-.
    exists q. destruct Hd. by split_and!.
  - intros (p & Hp & (Hs & He & Hv) & Hj). exists id. split.
    + apply list_elem_of_fmap. exists (id, p). split; [done|]. apply list_elem_of_filter.
      split; [done|]. by apply iter_order_elem.
    + cbn. rewrite lookup_fmap, Hp. cbn. rewrite Hv, Hj. done.
Qed.

Lemma with_seals_keys trust st ids : (with_seals env trust st ids).*1 `sublist_of` ids.
Proof.
  unfold with_seals. induction ids as [|id ids IH]; [done|]. cbn [omap list_omap].
  destruct (by_id st !! id) as [p|]; simpl; [|by constructor].
  destruct (sigs_pass env trust (seal p)); [|by constructor].
  destruct (seal_json (seal p)); simpl; by constructor.
Qed.
Lemma batch_NoDup e trust s : NoDup (batch e trust s).*1.
Proof.
  eapply sublist_NoDup; [|apply with_seals_keys]. cbn.
  assert (HN : NoDup (iter_order (by_id s)).*1).
  { rewrite (iter_order_perm (by_id s)). apply NoDup_fst_map_to_list. }
  eapply sublist_NoDup; [exact HN|]. apply fmap_sublist, sublist_filter.
Qed.

Lemma run_tick_eq e trust n :
  e ≠ 0 →
  let n' := run_transition_tick env (Some e) trust n in
  let l := batch e trust (transitions n) in
  transitions n' = (prune e RETENTION_EPOCHS (tick e (transitions n)).2).2 ∧
  zone_registry n' = run_seals (omap (from_json env ∘ snd) l) (zone_registry n) ∧
  cf_final n' = fold_left (fun m kv => if put_final_ok env kv.1 then <[kv.1 := kv.2]> m else m) l (cf_final n).
Proof.
  intros He. cbv zeta. unfold run_transition_tick, batch. rewrite (proj2 (Z.eqb_neq e 0) He).
  destruct (tick e (transitions n)) as [[fin ex] st]. cbn [fst snd].
  destruct (prune e RETENTION_EPOCHS st) as [k st'] eqn:Ep. cbn [fst snd].
  set (l := with_seals env trust st fin). set (n1 := n <| transitions := st' |>).
  set (n2 := persist_finalized_transitions env l n1). set (n3 := apply_finalized_to_zone_registry env l n2).
  destruct (clear_store (l.*1 ++ ex ++ sig_rejected env trust st fin) n3) as (C1 & C2 & C3 & _).
  destruct (apply_store l n2) as (A1 & A2 & A3 & _), (persist_store l n1) as (P1 & P2 & _).
  rewrite C1, C2, C3. unfold n3. rewrite A1, A2, A3. unfold n2. rewrite P1, P2. split_and!; [done|done|].
  change (cf_final n) with (cf_final n1). clear. generalize n1. clear n1.
  induction l as [|kv l IH]; intros n1; simpl; [done|]. destruct (put_final_ok env kv.1); (etrans; [apply IH|done]).
Qed.

(** JSON writes the pending seals and reads them back. *)
Definition json_faithful (s : TransitionStore) : Prop :=
  ∀ id p, by_id s !! id = Some p → ∃ b, seal_json (seal p) = Some b ∧ from_json env b = Some (seal p).

Lemma batch_seals e trust s x :
  json_faithful s →
  x ∈ omap (from_json env ∘ snd) (batch e trust s) ↔
  ∃ id p, by_id s !! id = Some p ∧ seal p = x ∧ ready e trust p.
Proof.
  intros HJs. rewrite list_elem_of_omap. split.
  - intros ([id b] & Hin & Hx). apply batch_elem in Hin as (p & Hp & Hr & Hj).
    destruct (HJs id p Hp) as (b' & Hj' & Hf). rewrite Hj in Hj'. injection Hj' as <-.
    unfold compose in Hx. simpl in Hx. rewrite Hf in Hx. injection Hx as <-. by exists id, p.
  - intros (id & p & Hp & <- & Hr). destruct (HJs id p Hp) as (b & Hj & Hf). exists (id, b).
    split; [|done]. apply batch_elem. by exists p.
Qed.

(** C7: a tick applies exactly the vetted proposals.  The registry after a tick at
    an epoch other than zero is the registry before it with a list of seals
    applied, and a seal is in that list if and only if it is the seal of a
    pending proposal that was in its dispute window (so it had a quorum and fewer
    than two vetoes), whose effective epoch has come, and whose signatures still
    verify; in particular each applied seal was signed by a quorum of different
    anchors that are staked and registered.  The JSON of the stored seals is
    assumed to be read back ([json_faithful]). *)
Theorem tick_applies_exactly e trust n :
  e ≠ 0 → json_faithful (transitions n) →
  let n' := run_transition_tick env (Some e) trust n in
  ∃ l, zone_registry n' = run_seals l (zone_registry n) ∧
    (∀ x, x ∈ l ↔ ∃ id p, by_id (transitions n) !! id = Some p ∧ seal p = x ∧ ready e trust p) ∧
    (∀ x, x ∈ l → ∃ anchors m, NoDup anchors ∧ (required_threshold x <= length anchors)%nat ∧
       signing_preimage x = Ok m ∧
       ∀ a, a ∈ anchors → a ∈ trust ∧ ∃ sig pk, sig ∈ proposer_sigs x ∧ anchor_identity_hash sig = a ∧
         get_public_key env (hex_encode a) = Some pk ∧ sig_verify m (dilithium3_sig sig) pk = true).
Proof.
  intros He HJs. cbv zeta. destruct (run_tick_eq e trust n He) as (_ & HR & _).
  eexists. split; [exact HR|]. split; [intros x; by apply batch_seals|].
  intros x Hx. apply batch_seals in Hx as (id & p & _ & <- & _ & _ & Hv); [|done].
  apply verify_sigs_iff in Hv as (m & l & Hm & HN & Hl & Hc). exists l, m. split_and!; try done.
  intros a Ha. destruct (Hc a Ha) as (i & sig & pk & Hf & Hk & Hs).
  apply trusted_lookup in Hk as [Ht Hk]. split; [done|].
  apply list_find_Some in Hf as (Hi & Ea & _). exists sig, pk. split_and!; try done.
  by eapply list_elem_of_lookup_2.
Qed.

(** C25: an undisputed proposal takes effect.  Let a pending proposal be in its
    dispute window, that is with its quorum and fewer than two valid vetoes, let
    its effective epoch have come, its signatures still verify under the keys of
    anchors that are still trusted, and its zones be as they were, with its seal
    not applied before; let no other proposal be due.  Then the next tick of a
    node with an epoch (not zero) applies the seal, closes its parents and opens
    its children, and, if the write to the disk succeeds, records the seal on
    disk.  The JSON of the stored seals is assumed to be read back
    ([json_faithful]).  A failed write is not repeated, and a restart then rebuilds
    a registry without the transition ([lost_write_never_retried]).  One veto does
    not stop a proposal: the code asks for two ([MIN_VETOES_TO_HALT]) where the
    head of its file and the comments of [PendingStatus] name one. *)
Theorem undisputed_proposal_takes_effect e trust n id p b :
  e ≠ 0 → json_faithful (transitions n) → by_id (transitions n) !! id = Some p → seal_json (seal p) = Some b →
  seal_hash_for_sig (seal p) = Ok id → ready e trust p →
  (∀ id' p', by_id (transitions n) !! id' = Some p' → due e DisputeWindow p' → id' = id) →
  id ∉ applied_seals (zone_registry n) → can_apply (seal p) (zone_registry n) →
  let n' := run_transition_tick env (Some e) trust n in
  (put_final_ok env id = true → cf_final n' !! id = Some b) ∧ id ∈ applied_seals (zone_registry n') ∧
  (∀ z, z ∈ child_ids (seal p) → is_active (zone_registry n') z = true) ∧
  (∀ z, z ∈ parent_ids (seal p) → is_active (zone_registry n') z = false).
Proof.
  intros He HJs Hp Hj Hh Hr Honly Hna Hca. cbv zeta.
  destruct (run_tick_eq e trust n He) as (_ & HR & HF).
  set (n' := run_transition_tick _ _ _ _) in *. clearbody n'.
  assert (HB : batch e trust (transitions n) = [(id, b)]).
  { assert (Hin : (id, b) ∈ batch e trust (transitions n)) by (apply batch_elem; by exists p).
    assert (Hall : ∀ kv, kv ∈ batch e trust (transitions n) → kv.1 = id).
    { intros [id' b'] Hkv. apply batch_elem in Hkv as (p' & Hp' & (H1 & H2 & _) & _). by apply (Honly id' p'). }
    pose proof (batch_NoDup e trust (transitions n)) as HN.
    destruct (batch e trust (transitions n)) as [|[k1 b1] [|[k2 b2] l]]; [by apply elem_of_nil in Hin| |].
    - by apply list_elem_of_singleton in Hin as [= -> ->].
    - exfalso. pose proof (Hall (k1, b1) ltac:(by left)). pose proof (Hall (k2, b2) ltac:(right; by left)).
      simpl in *. subst. apply NoDup_cons_1_1 in HN. apply HN. by left. }
  rewrite HB in HR, HF. destruct (HJs id p Hp) as (b' & Hj' & Hf). rewrite Hj in Hj'. injection Hj' as <-.
  cbn in HR, HF. unfold compose in HR. simpl in HR. rewrite Hf in HR. cbn in HR.
  rewrite (apply_transition_commit _ _ id Hh Hna Hca) in HR. simpl in HR. rewrite HR. split_and!.
  - intros Hput. rewrite HF, Hput. by rewrite lookup_insert_eq.
  - simpl. set_solver.
  - intros z Hz. apply is_active_true. by rewrite commit_entries, decide_True.
  - intros z Hz. destruct (closing_next (seal p) id (zone_registry n) [] z Hca Hz) as (c & _ & _ & Hnx).
    apply not_true_iff_false. intros Ha%is_active_true. by rewrite (active_next _ _ _ Ha) in Hnx.
Qed.
End node.

Lemma validate_no_panic s : validate_structure s ≠ Panic.
Proof.
  unfold validate_structure. repeat case_match; try done. all: bools; simpl in *; congruence.
Qed.

(** ** A failed write *)

Lemma fold_put_None (put : hash → bool) (id : hash) (l : list (hash * list byte)) (m : gmap hash (list byte)) :
  m !! id = None → (put id = false ∨ id ∉ l.*1) →
  fold_left (fun m kv => if put kv.1 then <[kv.1 := kv.2]> m else m) l m !! id = None.
Proof.
  revert m. induction l as [|[k b] l IH]; intros m Hm Hp; simpl; [done|]. csimpl in Hp.
  rewrite not_elem_of_cons in Hp. destruct (put k) eqn:Ek; apply IH; try tauto.
  rewrite lookup_insert_ne; [done|]. intros ->. destruct Hp as [|[? _]]; congruence.
Qed.

Section retry.
Context `{HE : Externals, HJ : SealJson, HV : VetoJson, HO : HashOrder}.

(** A failed durable write of a finalized seal is never retried.  The seal is
    applied to the running registry, but it is reported as final only once, so
    whatever the storage does at later ticks the finalized table stays without
    it, and a restart rebuilds a registry that lacks the transition. *)
Theorem lost_write_never_retried env env' e e' trust trust' n id p :
  e ≠ 0 → e' ≠ 0 → by_id (transitions n) !! id = Some p → ready env e trust p →
  put_final_ok env id = false → cf_final n !! id = None →
  let n1 := run_transition_tick env (Some e) trust n in
  let n2 := run_transition_tick env' (Some e') trust' n1 in
  cf_final n2 !! id = None.
Proof.
  intros He He' Hp Hr Hput Hn. cbv zeta.
  destruct (run_tick_eq env e trust n He) as (HT & _ & HF).
  set (n1 := run_transition_tick _ _ _ _) in *. clearbody n1.
  destruct (run_tick_eq env' e' trust' n1 He') as (_ & _ & HF').
  rewrite HF'. apply fold_put_None; [rewrite HF; by apply fold_put_None; [|left]|]. right.
  intros Hin. apply list_elem_of_fmap in Hin as ([k b] & -> & Hin).
  apply batch_elem in Hin as (q & Hq & (Hst & _) & _). rewrite HT in Hq. cbn in Hq.
  apply map_lookup_filter_Some in Hq as [Hq _]. cbn in Hp. rewrite lookup_fmap, Hp in Hq. injection Hq as <-.
  cbn in Hst. unfold tick_status in Hst. destruct Hr as (Hd & Heff & _). rewrite Hd in Hst.
  by destruct (Z.ltb_spec e (effective_epoch (seal p))); [lia|].
Qed.

(** ** Signing domains at the door *)

(** The handlers refuse every signature of a domain-tagged seal.  Seals
    proposed by the node carry signing domain 1, so their anchors sign the
    tagged hash, and the seal's own verification checks that; the handlers that
    submit_proposal proposals and signatures check the bare hash instead.  As a signature
    verifies for the bytes it was made for and no others, a tagged proposal that
    carries signatures, and a signature for it, are refused and change nothing,
    so no tagged seal can collect a quorum from its peers. *)
Theorem tagged_signatures_refused env body id epoch trust n :
  sig_domain body = Some 1 → seal_hash_for_sig body = Ok id →
  (∀ sig pk m, sig ∈ proposer_sigs body →
     get_public_key env (hex_encode (anchor_identity_hash sig)) = Some pk →
     sig_verify m (dilithium3_sig sig) pk = true → Ok m = signing_preimage body) →
  (proposer_sigs body ≠ [] →
     ∃ err, propose_transition env body epoch trust n = (Err err, n)) ∧
  ∀ sig, sig ∈ proposer_sigs body →
     ∃ err, submit_sig env id sig epoch trust n = (Err err, n).
Proof.
  intros Hd Hh Hbind.
  assert (Hpre : signing_preimage body = Ok (DOMAIN_TAG_ZONE_TRANSITION_SEAL_V1 ++ id)).
  { unfold signing_preimage. rewrite Hh. cbn [mbind outcome_bind]. by rewrite Hd. }
  assert (Hrej : ∀ sig, sig ∈ proposer_sigs body →
    ∃ err, verify_anchor_sig env sig id trust = Err err).
  { intros sig Hs. unfold verify_anchor_sig. destruct (negb _); [eauto|].
    destruct (resolve_anchor_pubkey env _) as [pk|] eqn:Ek; [|eauto].
    destruct (sig_verify id (dilithium3_sig sig) pk) eqn:Ev; [|eauto].
    pose proof (Hbind sig pk id Hs Ek Ev) as Hm. rewrite Hpre in Hm.
    apply (f_equal (fun o => match o with Ok m => length m | _ => 0%nat end)) in Hm.
    cbv beta match in Hm. rewrite length_app in Hm.
    assert (length DOMAIN_TAG_ZONE_TRANSITION_SEAL_V1 = 29%nat) by by vm_compute. lia. }
  split.
  - intros Hne. unfold propose_transition, lift, require, throw. cbv [mbind M_bind mret M_ret].
    destruct (validate_structure body) eqn:Ev; [|by eauto|exfalso; by eapply validate_no_panic].
    rewrite Hh. destruct (proposer_sigs body) as [|sig sigs]; [done|]. cbn [verify_all].
    destruct (Hrej sig (list_elem_of_here _ _)) as [err Her].
    destruct epoch as [e|]; [destruct (_ <=? _); [destruct (_ <? _)|]|]; rewrite ?Her; eauto.
  - intros sig Hs. destruct (Hrej sig Hs) as [err Her].
    unfold submit_sig, lift, require, throw, ok_or, gets. cbv [mbind M_bind mret M_ret].
    destruct (by_id (transitions n) !! id) as [p|]; [|eauto].
    destruct epoch as [e|]; [destruct (_ <? _)|]; rewrite ?Her; eauto.
Qed.
End retry.

(** ** A fork within one tick, and witnesses *)

Module NodeExamples.
#[export] Existing Instance toy_externals.
Import TransitionExamples(anchor, anchors, anchor_key).
Definition snap (z : string) : ZoneSnapshot := mkSnapshot z [] "" 0 [].

(** A stand-in for JSON that tells the seals of the examples apart. *)
#[export] Instance code_json : SealJson := {|
  seal_json s := Some (be_bytes 8 (effective_epoch s) ++
    concat ((fun z => bytes_of (zs_zone_id z) ++ [x00]) <$> children s) ++
    [if bool_decide (proposer_sigs s = []) then x00 else x01]) |}.
#[export] Instance code_veto : VetoJson :=
  {| veto_json v := Some (veto_seal_hash v ++ vetoer_identity_hash v) |}.

Program Definition forwards : HashOrder := {| iter_order A m := map_to_list m |}.
Next Obligation. done. Qed.
Program Definition backwards : HashOrder := {| iter_order A m := reverse (map_to_list m) |}.
Next Obligation. intros A m. simpl. apply reverse_Permutation. Qed.

Definition public_key (id : string) : option (list byte) :=
  snd <$> (snd <$> list_find (fun kv => hex_encode kv.1 = id) (anchor_key <$> anchors)).
Definition staked : gset hash := list_to_set (fst <$> (anchor_key <$> anchors)).
Definition all_ok (_ : hash) : bool := true.

(** Splits of one zone, signed by the four anchors over the bare hash. *)
Definition split_to (lo hi : string) : TransitionSeal :=
  mkSeal KindSplit 13 10 [snap "med"] [snap lo; snap hi] (Some [x80]) [] None.
Definition hash_of (s : TransitionSeal) : hash := match seal_hash_for_sig s with Ok h => h | _ => [] end.
Definition signed (s : TransitionSeal) : TransitionSeal :=
  match cosign anchors s with Ok s' => s' | _ => s end.
Definition start : TransitionNode := mkNode store_new (with_genesis ["med"]) ∅ ∅.
Definition prop_one : TransitionSeal := signed (split_to "a" "b").
Definition prop_two : TransitionSeal := signed (split_to "c" "d").
Definition read_seal (b : list byte) : option TransitionSeal :=
  if decide (seal_json prop_one = Some b) then Some prop_one
  else if decide (seal_json prop_two = Some b) then Some prop_two else None.
(** A node that does not sign by itself, with a stand-in for JSON of entries. *)
Definition entry_json (p : PendingTransition) : option (list byte) :=
  bytes ← seal_json (seal p);
  Some (match pstatus p with AwaitingSigs => x00 | DisputeWindow => x01 | _ => x02 end :: bytes).
Definition entry_one : PendingTransition := mkPending prop_one [] DisputeWindow (hash_of prop_one).
Definition entry_two : PendingTransition := mkPending prop_two [] DisputeWindow (hash_of prop_two).
Definition read_entry (b : list byte) : option PendingTransition :=
  if decide (entry_json entry_one = Some b) then Some entry_one
  else if decide (entry_json entry_two = Some b) then Some entry_two else None.
Definition observer (final_ok : hash → bool) : NodeEnv :=
  mkEnv public_key (anchor 9) false read_seal entry_json read_entry final_ok all_ok all_ok.

Definition submit_proposal (s : TransitionSeal) (n : TransitionNode) : TransitionNode :=
  (propose_transition (HO := forwards) (observer all_ok) s (Some 10) staked n).2.
Definition two_pending : TransitionNode := submit_proposal prop_two (submit_proposal prop_one start).

(** Nodes can fork within one tick.  Two proposals that split the same zone
    and become final in the same tick are applied in the order in which the hash
    map is walked, which differs between nodes; the first one wins and the other
    is refused, so two nodes with the same pending proposals end up with
    different zones. *)
Theorem same_tick_fork :
  let tick order := zone_registry (run_transition_tick (HO := order) (observer all_ok)
    (Some 13) staked two_pending) in
  size (by_id (transitions two_pending)) = 2%nat ∧
  is_active (tick forwards) "a" = negb (is_active (tick backwards) "a") ∧
  is_active (tick forwards) "c" = negb (is_active (tick backwards) "c").
Proof. cbv zeta. split_and!; by vm_compute. Qed.

(** *** Witnesses *)

Definition one_pending : TransitionNode := submit_proposal prop_one start.

Lemma one_pending_entries : map_to_list (by_id (transitions one_pending)) = [(hash_of prop_one, entry_one)].
Proof. by vm_compute. Qed.
Lemma one_pending_only id p :
  by_id (transitions one_pending) !! id = Some p → id = hash_of prop_one ∧ p = entry_one.
Proof.
  rewrite <- elem_of_map_to_list, one_pending_entries. by intros [= -> ->]%list_elem_of_singleton.
Qed.
Lemma one_faithful : json_faithful (observer all_ok) (transitions one_pending).
Proof.
  intros id p [_ ->]%one_pending_only. eexists. split; [reflexivity|]. by vm_compute.
Qed.
Lemma one_ready : ready (observer all_ok) 13 staked entry_one.
Proof. split_and!; [done|by vm_compute|by vm_compute]. Qed.
Lemma one_lookup : by_id (transitions one_pending) !! hash_of prop_one = Some entry_one.
Proof. rewrite <- elem_of_map_to_list, one_pending_entries. by left. Qed.

Lemma one_can_apply : can_apply prop_one (zone_registry one_pending).
Proof.
  constructor.
  - by vm_compute.
  - by vm_compute.
  - refine (bool_decide_unpack _ _). by vm_compute.
  - apply Forall_forall. vm_compute. repeat constructor.
  - apply Forall_forall. vm_compute. repeat constructor.
Qed.

Definition ticked (put : hash → bool) (e : Z) (n : TransitionNode) : TransitionNode :=
  run_transition_tick (HO := forwards) (observer put) (Some e) staked n.

Lemma tick_applies_exactly_witness :
  ∃ l, zone_registry (ticked all_ok 13 one_pending) = run_seals l (zone_registry one_pending) ∧ prop_one ∈ l.
Proof.
  destruct (tick_applies_exactly (HO := forwards) (observer all_ok) 13 staked one_pending)
    as (l & H1 & H2 & _); [done|exact one_faithful|].
  exists l. split; [exact H1|]. apply H2. exists (hash_of prop_one), entry_one.
  split_and!; [exact one_lookup|done|exact one_ready].
Defined.

Lemma undisputed_proposal_takes_effect_witness :
  let n' := ticked all_ok 13 one_pending in
  is_Some (cf_final n' !! hash_of prop_one) ∧
  is_active (zone_registry n') "a" = true ∧ is_active (zone_registry n') "med" = false.
Proof.
  destruct (seal_json prop_one) as [b|] eqn:Eb; [|by vm_compute in Eb].
  destruct (undisputed_proposal_takes_effect (HO := forwards) (observer all_ok) 13 staked one_pending
    (hash_of prop_one) entry_one b) as (H1 & _ & H3 & H4).
  - done.
  - exact one_faithful.
  - exact one_lookup.
  - exact Eb.
  - by vm_compute.
  - exact one_ready.
  - by intros id' p' [-> _]%one_pending_only _.
  - refine (bool_decide_unpack _ _). by vm_compute.
  - exact one_can_apply.
  - cbv zeta. split; [exists b; by apply H1|]. split; [apply H3|apply H4]; (refine (bool_decide_unpack _ _); by vm_compute).
Defined.

Definition disk_full (_ : hash) : bool := false.
Lemma lost_write_never_retried_witness :
  let n2 := ticked all_ok 14 (ticked disk_full 13 one_pending) in
  cf_final n2 !! hash_of prop_one = None.
Proof.
  apply (lost_write_never_retried (HO := forwards) (observer disk_full) (observer all_ok) 13 14 staked staked
    one_pending (hash_of prop_one) entry_one).
  - done.
  - done.
  - exact one_lookup.
  - exact one_ready.
  - done.
  - by vm_compute.
Defined.

(** The seal the node would propose: the anchors sign the tagged hash. *)
Definition tagged : TransitionSeal :=
  signed (mkSeal KindSplit 13 10 [snap "med"] [snap "a"; snap "b"] (Some [x80]) [] (Some 1)).
Lemma tagged_signatures_refused_witness :
  length (proposer_sigs tagged) = 4%nat ∧
  ∃ err, propose_transition (HO := forwards) (observer all_ok) tagged (Some 10) staked start = (Err err, start).
Proof.
  split; [by vm_compute|].
  destruct (tagged_signatures_refused (HO := forwards) (observer all_ok) tagged (hash_of tagged) (Some 10) staked start)
    as [H1 _].
  - by vm_compute.
  - by vm_compute.
  - destruct (signing_preimage tagged) as [m0|e|] eqn:Em; [|by vm_compute in Em..].
    assert (HA : forallb (fun sig => match public_key (hex_encode (anchor_identity_hash sig)) with
      | Some pk => bool_decide (dilithium3_sig sig = m0 ++ pk) | None => true end) (proposer_sigs tagged) = true).
    { vm_compute in Em. injection Em as <-. by vm_compute. }
    rewrite forallb_forall in HA. intros sig pk m Hin Hk Hv. apply list_elem_of_In, HA in Hin.
    cbn [get_public_key observer] in Hk. rewrite Hk in Hin. apply bool_decide_eq_true in Hin, Hv. rewrite Hin in Hv. by apply app_inv_tail in Hv as ->.
  - apply H1. by vm_compute.
Defined.
End NodeExamples.
