(* ===== verification/TransitionBoot.v ===== *)
(** * Pending transitions across a restart

    The mirror of the pending store on disk is complete, so a restart brings every
    open proposal back with its signatures and vetoes. *)

From S2P Require Import Prelude Sorting F64 CrossZone Records Merkle Autoscaler ZoneTransition ZoneRegistry ZoneRegistryProps TransitionStore TransitionNode TransitionProps.
Open Scope Z_scope.

(** ** What each step leaves alone *)

(** Entries other than [id] are kept, or dropped. *)
Definition frame (id : hash) (s s' : TransitionStore) : Prop :=
  ∀ id' p, id' ≠ id → by_id s' !! id' = Some p → by_id s !! id' = Some p.

Lemma frame_refl id s : frame id s s.
Proof. by intros id' p. Qed.
Lemma frame_insert id p s : frame id s (s <| by_id ::= insert id p |>).
Proof. intros id' q Hne. simpl. by rewrite lookup_insert_ne. Qed.

Lemma frame_trans id s1 s2 s3 : frame id s1 s2 → frame id s2 s3 → frame id s1 s3.
Proof. intros H1 H2 id' p Hne Hp. by apply H1, H2. Qed.
#[local] Hint Resolve frame_refl frame_insert : core.

(** The step changes [id] only, nothing when it fails, and never panics. *)
Definition local_step {A} (id : hash) (m : M TransitionStore A) : Prop :=
  ∀ s, wp m (fun o s' => match o with Ok _ => frame id s s' | Err _ => s' = s | Panic => False end) s.

Lemma add_sig_local id sig : local_step id (add_sig id sig).
Proof.
  intros s. unfold add_sig. repeat (wp_step; bools); try done.
  unfold put_entry. wp_step. by wp_step.
Qed.
Lemma add_veto_local id veto e : local_step id (add_veto id veto e).
Proof.
  intros s. unfold add_veto. apply wp_bind, wp_lift.
  assert (Hv : validate_veto veto ≠ Panic) by (unfold validate_veto; cbv zeta; repeat case_match; congruence).
  destruct (validate_veto veto); [|done..].
  repeat (wp_step; bools); try done. by apply wp_modify.
Qed.

Section boot.
Context `{HE : Externals, HJ : SealJson, HV : VetoJson, HO : HashOrder}.

Lemma try_sigs_local id sigs s :
  wp (for_each (try_add_sig id) sigs) (fun o s' => o = Ok tt ∧ frame id s s') s.
Proof.
  apply (wp_for_each _ _ (fun _ s' => frame id s s')); [done|by intros|]. intros sig l s' Hf.
  unfold wp, try_add_sig. pose proof (add_sig_local id sig s') as H. unfold wp in H.
  destruct (add_sig id sig s') as [[x|err|] s'']; simpl in *; [by eapply frame_trans|by subst|done].
Qed.

Lemma store_insert_local seal id : seal_hash_for_sig seal = Ok id →
  ∀ s, wp (store_insert seal) (fun o s' =>
    match o with Ok id' => id' = id ∧ frame id s s' | Err _ => s' = s | Panic => False end) s.
Proof.
  intros Hh s. unfold store_insert. apply wp_bind, wp_lift.
  pose proof (validate_no_panic seal) as Hv. destruct (validate_structure seal); [|done..].
  apply wp_bind, wp_lift. rewrite Hh. wp_step. wp_step. apply wp_if; intros Hp; bools.
  - apply wp_bind. eapply wp_mono; [by apply try_sigs_local|]. by intros o s' [-> Hf].
  - apply wp_bind, wp_lift. unfold from_seal. rewrite Hh. cbn [mbind outcome_bind].
    apply wp_bind, wp_modify. cbv beta match. apply wp_bind, wp_modify. cbv beta match. apply wp_ret.
    split; [done|]. intros id' q Hne. cbn. rewrite lookup_insert_ne by done.
    case_bool_decide; [|done]. destruct (oldest _) as [v|]; [|done]. cbn. by intros [_ ?]%lookup_delete_Some.
Qed.

(** ** The mirror is complete *)

Context (env : NodeEnv).
Context (Hput : ∀ id, put_pending_ok env id = true)
  (Hjson : ∀ p, is_Some (pending_json env p)).

(** Every open entry, other than those in [P], is on disk as it is in memory. *)
Definition mirrored (P : hash → Prop) (n : TransitionNode) : Prop :=
  ∀ id p, ¬ P id → by_id (transitions n) !! id = Some p → is_open (pstatus p) = true →
    cf_pending n !! id = pending_json env p.

Lemma persist_mirrors id n :
  mirrored (eq id) n → mirrored (fun _ => False) (persist_pending_entry env id n).
Proof.
  intros Hm id' p _. rewrite persist_entry_store. intros Hp Ho. unfold persist_pending_entry.
  destruct (decide (id = id')) as [<-|Hne].
  - rewrite Hp. rewrite bool_decide_false by (by intros E; rewrite E in Ho).
    destruct (Hjson p) as [b Hb]. rewrite Hb, Hput. cbn. apply lookup_insert_eq.
  - rewrite <- (Hm id' p Hne Hp Ho). repeat case_match; try done; cbn;
      by rewrite ?lookup_insert_ne, ?lookup_delete_ne by done.
Qed.
Lemma frame_mirrors id n st :
  mirrored (fun _ => False) n → frame id (transitions n) st → mirrored (eq id) (n <| transitions := st |>).
Proof. intros Hm Hf id' p Hne Hp Ho. apply (Hm id'); [tauto| |done]. by apply Hf; [congruence|]. Qed.

Lemma node_same n : n <| transitions := transitions n |> = n.
Proof. by destruct n. Qed.

Lemma settle_mirrors id n : mirrored (eq id) n → mirrored (fun _ => False) (settle_entry env id n).
Proof.
  intros Hm%persist_mirrors. unfold settle_entry. set (n0 := persist_pending_entry env id n) in *. clearbody n0.
  unfold maybe_cosign_transition. destruct (negb _); [done|].
  destruct (resolve_anchor_pubkey env _); [|done]. destruct (by_id (transitions n0) !! id) as [p|]; [|done].
  destruct (bool_decide _); [done|]. destruct (negb (is_open _)); [done|].
  destruct (sign_as_anchor _ _) as [scratch|err|]; [|done..]. destruct (snd <$> _) as [sig|]; [|done].
  pose proof (add_sig_local id sig (transitions n0)) as Hl. unfold wp in Hl.
  destruct (add_sig id sig (transitions n0)) as [[x|err|] st]; cbn in Hl; [|by subst; rewrite node_same|done].
  by apply persist_mirrors, frame_mirrors.
Qed.

Lemma omap_keys {B} (f : hash → option B) (g : B → hash) (ids : list hash) (x : hash) :
  (∀ id b, f id = Some b → g b = id) → x ∈ g <$> omap f ids → x ∈ ids.
Proof.
  intros Hf (b & -> & (id & Hin & Hb)%list_elem_of_omap)%list_elem_of_fmap. by rewrite (Hf id b Hb).
Qed.

Lemma tick_mirrors epoch trust n :
  mirrored (fun _ => False) n → mirrored (fun _ => False) (run_transition_tick env epoch trust n).
Proof.
  intros Hm. destruct epoch as [e|]; [|done]. destruct (decide (e = 0)) as [->|He]; [done|].
  intros id p _ Hp Ho. rewrite tick_transitions in Hp by done.
  apply map_lookup_filter_Some in Hp as [Hp _]. cbn in Hp.
  apply lookup_fmap_Some in Hp as (q & <- & Hq).
  assert (Hlt : e < effective_epoch (seal q)).
  { cbn in Ho. unfold tick_status in Ho. destruct (Z.ltb_spec e (effective_epoch (seal q))); [done|].
    by destruct (pstatus q). }
  assert (Hst : tick_entry e q = q).
  { unfold tick_entry, tick_status. rewrite (proj2 (Z.ltb_lt _ _) Hlt). by destruct q. }
  rewrite Hst in *. rewrite <- (Hm id q (fun x => x) Hq Ho).
  unfold run_transition_tick. rewrite (proj2 (Z.eqb_neq e 0) He).
  unfold tick. set (l := iter_order (by_id (transitions n))). cbv beta iota zeta.
  destruct (prune e RETENTION_EPOCHS _) as [k st'].
  match goal with |- cf_pending (clear_pending_mirror env ?ids ?n3) !! _ = _ =>
    rewrite (proj2 (proj2 (proj2 (clear_store env ids n3)))) end.
  { by rewrite (proj2 (proj2 (proj2 (apply_store _ _ _)))), (proj2 (proj2 (persist_store _ _ _))). }
  assert (HD : ∀ st0, id ∉ (filter (fun kv => due e st0 kv.2) l).*1).
  { intros st0 ([k' q'] & -> & [[_ Hd] Hin]%list_elem_of_filter)%list_elem_of_fmap.
    apply iter_order_elem in Hin. cbn in *. rewrite Hq in Hin. injection Hin as <-. lia. }
  rewrite !not_elem_of_app. split_and!; [|by apply HD|].
  - intros Hin. apply omap_keys in Hin; [by apply (HD DisputeWindow)|].
    intros id0 [? b] Hb. repeat (case_match || simplify_option_eq); done.
  - intros Hin. rewrite <- (list_fmap_id (sig_rejected _ _ _ _)) in Hin.
    apply (omap_keys _ Datatypes.id) in Hin; [by apply (HD DisputeWindow)|].
    intros id0 b Hb. repeat (case_match || simplify_option_eq); done.
Qed.

Lemma mirrored_stable : stable env (mirrored (fun _ => False)).
Proof.
  assert (HI : ∀ s id n, seal_hash_for_sig s = Ok id → mirrored (fun _ => False) n →
    wp (zoom transitions (store_insert s)) (fun o n' =>
      match o with Ok id' => id' = id ∧ mirrored (fun _ => False) (settle_entry env id n')
                 | _ => mirrored (fun _ => False) n' end) n).
  { intros s id n Hh Hn. apply wp_zoom. eapply wp_mono; [by apply store_insert_local|].
    intros [id'|err|] st; [|by intros ->; rewrite node_same|done]. intros [-> Hf].
    split; [done|]. by apply settle_mirrors, frame_mirrors. }
  constructor.
  - intros s n Hn. destruct (seal_hash_for_sig s) as [id|err|] eqn:Hh; [| |by apply seal_hash_no_panic in Hh].
    + eapply wp_mono; [by apply (HI s id)|]. by intros [id'|e|] n'; [intros [-> ?]|..].
    + apply wp_zoom. unfold store_insert. apply wp_bind, wp_lift.
      pose proof (validate_no_panic s). destruct (validate_structure s); [|by rewrite node_same|done].
      apply wp_bind, wp_lift. rewrite Hh. by rewrite node_same.
  - intros s id n Hh Hn. eapply wp_mono; [by apply (HI s id)|]. by intros [id'|e|] n'; [intros [_ ?]|..].
  - intros id sig n Hn. apply wp_zoom. eapply wp_mono; [apply add_sig_local|].
    intros [x|err|] st; [intros Hf|by intros ->; rewrite node_same|done]. by apply persist_mirrors, frame_mirrors.
  - intros id veto e n Hn. apply wp_zoom. eapply wp_mono; [apply add_veto_local|].
    intros [x|err|] st; [intros Hf|by intros ->; rewrite node_same|done]. by apply persist_mirrors, frame_mirrors.
  - intros epoch trust n. apply tick_mirrors.
Qed.

(** ** Replay *)

(** A row reads back, if at all, as the entry it was written for. *)
Definition rows_keyed (cf : gmap hash (list byte)) : Prop :=
  ∀ id b p, cf !! id = Some b → pending_from_json env b = Some p → pid p = id.

Lemma cf_rows_elem (cf : gmap hash (list byte)) id b : (id, b) ∈ cf_rows cf ↔ cf !! id = Some b.
Proof. unfold cf_rows. by rewrite stable_sort_perm, elem_of_map_to_list. Qed.

(** The replay of rows with distinct keys puts each open one in its place. *)
Lemma replay_lookup rows acc id p :
  NoDup rows.*1 → (∀ k b q, (k, b) ∈ rows → pending_from_json env b = Some q → pid q = k) →
  by_id (fold_left (fun acc row =>
    match pending_from_json env row.2 with
    | Some p => if is_open (pstatus p) then (S acc.1, replay_insert p acc.2) else acc
    | None => acc
    end) rows acc).2 !! id = Some p ↔
  (∃ b, (id, b) ∈ rows ∧ pending_from_json env b = Some p ∧ is_open (pstatus p) = true) ∨
  (by_id acc.2 !! id = Some p ∧
   ∀ b q, (id, b) ∈ rows → pending_from_json env b = Some q → is_open (pstatus q) = false).
Proof.
  revert acc. induction rows as [|[k b] rows IH]; intros acc HN Hk; cbn [fold_left].
  { split; [intros Hp; right; split; [done|by intros b q Hb%elem_of_nil]|].
    intros [(b & Hb & _)|[Hp _]]; [by apply elem_of_nil in Hb|done]. }
  csimpl in HN. apply NoDup_cons in HN as [Hnk HN].
  assert (Hk' : ∀ k0 b0 q, (k0, b0) ∈ rows → pending_from_json env b0 = Some q → pid q = k0).
  { intros k0 b0 q Hin. apply (Hk k0 b0). by right. }
  assert (Hrow : ∀ b0, (k, b0) ∉ rows). { intros b0 Hin. apply Hnk, list_elem_of_fmap. by exists (k, b0). }
  rewrite IH by done. cbn [fst snd]. setoid_rewrite elem_of_cons.
  destruct (pending_from_json env b) as [q|] eqn:Eq; [|naive_solver].
  pose proof (Hk k b q (list_elem_of_here _ _) Eq) as Hq. destruct (is_open (pstatus q)) eqn:Eo.
  - cbn. rewrite Hq, lookup_insert_Some. split.
    + intros [(b0 & H)|[[[<- <-]|[Hne H]] H']]; [left; exists b0; tauto|left; exists b; tauto|].
      right. split; [done|]. intros b0 q0 [[= -> ->]|Hin]; [done|by apply H'].
    + intros [(b0 & [[= -> ->]|Hin] & E & Ho)|[H H']].
      * right. split; [left; split; congruence|]. intros b0 q0 Hin. by destruct (Hrow b0).
      * left. by exists b0.
      * right. split; [|by eauto]. right. split; [|done]. intros ->.
        pose proof (H' b q (or_introl eq_refl) Eq). congruence.
  - split.
    + intros [(b0 & H)|[H H']]; [left; exists b0; tauto|right; split; [done|]].
      intros b0 q0 [[= -> ->]|Hin] E; [congruence|by apply (H' b0)].
    + intros [(b0 & [[= -> ->]|Hin] & E & Ho)|[H H']]; [congruence|left; by exists b0|by eauto 6].
Qed.

Lemma restart_lookup genesis n id p :
  rows_keyed (cf_pending n) → (size (cf_pending n) <= MAX_PENDING_TRANSITIONS)%nat →
  by_id (transitions (restart env genesis n)) !! id = Some p ↔
  ∃ b, cf_pending n !! id = Some b ∧ pending_from_json env b = Some p ∧ is_open (pstatus p) = true.
Proof.
  intros Hk Hsz. cbn [restart boot_rehydrate_zone_registry boot_replay_pending_transitions transitions cf_pending
    set set_zone_registry set_transitions Datatypes.id compose].
  unfold replay_pending_transitions_from_rocks. cbn [cf_pending transitions].
  rewrite take_ge. 2:{ unfold cf_rows. by rewrite stable_sort_length, length_map_to_list. }
  rewrite replay_lookup.
  - setoid_rewrite cf_rows_elem. split; [|by left]. intros [?|[H _]]; [done|].
    cbn in H. by rewrite lookup_empty in H.
  - unfold cf_rows. rewrite stable_sort_perm. apply NoDup_fst_map_to_list.
  - intros k b q Hin%cf_rows_elem. by apply Hk.
Qed.
End boot.

Section restart.
Context `{HE : Externals, HJ : SealJson, HV : VetoJson, HO : HashOrder}.

(** C8: pending proposals survive a restart.  Take a node whose writes to the
    mirror succeed and any sequence of proposals, signatures, vetoes, pulls and
    ticks, and restart it.  If JSON reads back what is in memory and no row as
    the entry of another, and at most 1024 rows are on disk, then every proposal
    that was open is pending again, in the same phase and with the same
    signatures and vetoes, and whatever is pending after the restart is open
    and comes from a row on disk. *)
Theorem pending_survives_restart env events r final genesis :
  (∀ id, put_pending_ok env id = true) → (∀ p, is_Some (pending_json env p)) →
  let n := fold_left (handle env) events (mkNode store_new r final ∅) in
  (∀ id p b, by_id (transitions n) !! id = Some p → pending_json env p = Some b →
     pending_from_json env b = Some p) →
  rows_keyed env (cf_pending n) → (size (cf_pending n) <= MAX_PENDING_TRANSITIONS)%nat →
  let n' := restart env genesis n in
  (∀ id p, by_id (transitions n) !! id = Some p → is_open (pstatus p) = true →
     by_id (transitions n') !! id = Some p) ∧
  (∀ id p, by_id (transitions n') !! id = Some p → is_open (pstatus p) = true ∧ is_Some (cf_pending n !! id)).
Proof.
  intros Hput Hjson n Hread Hk Hsz. cbv zeta.
  assert (HM : mirrored env (fun _ => False) n).
  { apply (stable_events env _ events _ (mirrored_stable env Hput Hjson)). intros id p _ Hp. cbn in Hp.
    by rewrite lookup_empty in Hp. }
  clearbody n. split; intros id p Hp.
  - intros Ho. apply restart_lookup; [done..|]. destruct (Hjson p) as [b Hb]. exists b.
    split_and!; [by rewrite (HM id p (fun x => x) Hp Ho)|by eapply Hread|done].
  - apply restart_lookup in Hp as (b & Hb & _ & Ho); [|done..]. eauto.
Qed.
End restart.

(** ** A restart with two proposals pending *)

Module BootExamples.
Import NodeExamples.
#[local] Existing Instance forwards.
Definition both : list NodeEvent :=
  [EvPropose prop_one (Some 10) staked; EvPropose prop_two (Some 10) staked].
Definition running : TransitionNode := fold_left (handle (observer all_ok)) both start.

Lemma running_entries :
  map_to_list (by_id (transitions running)) = [(hash_of prop_two, entry_two); (hash_of prop_one, entry_one)].
Proof. by vm_compute. Qed.
Lemma running_open id p :
  by_id (transitions running) !! id = Some p → ∀ b, entry_json p = Some b → read_entry b = Some p.
Proof.
  rewrite <- elem_of_map_to_list, running_entries. intros Hin b.
  apply elem_of_cons in Hin as [[= -> ->]|Hin]; [|apply list_elem_of_singleton in Hin as [= -> ->]];
    (intros Hb; vm_compute in Hb; injection Hb as <-; by vm_compute).
Qed.
Lemma running_rows : rows_keyed (observer all_ok) (cf_pending running).
Proof.
  assert (HF : Forall (fun row => match read_entry row.2 with Some p => pid p = row.1 | None => True end)
    (map_to_list (cf_pending running))) by (vm_compute; by repeat constructor).
  rewrite Forall_forall in HF. intros id b p Hb%elem_of_map_to_list Hr. specialize (HF _ Hb). cbn in HF, Hr.
  by rewrite Hr in HF.
Qed.

Lemma pending_survives_restart_witness :
  by_id (transitions (restart (observer all_ok) ["med"] running)) !! hash_of prop_one = Some entry_one.
Proof.
  apply (pending_survives_restart (observer all_ok) both (with_genesis ["med"]) ∅ ["med"]).
  - done.
  - intros p. by eexists.
  - intros id p b Hp. by apply (running_open id).
  - exact running_rows.
  - refine (bool_decide_unpack _ _). by vm_compute.
  - apply elem_of_map_to_list. fold start. fold running. rewrite running_entries. right. by left.
  - done.
Defined.
End BootExamples.
