(* ===== verification/LedgerOps.v ===== *)
(** * Parsed ledger operations

    src/src/accounting/types.rs: the operations a record's metadata can carry. *)

From S2P Require Import Prelude F64 Types CrossZone IdleDecay Records.
Open Scope Z_scope.

Inductive ParsedLedgerOp :=
  | Mint (amount : Z) (to reason : string)
  | Transfer (amount : Z) (to : string) (memo : option string)
  | Stake (amount : Z) (purpose : StakePurpose.t)
  | Unstake (stake_record_id : string)
  | WitnessReward (amount : Z) (from to record_id : string)
  | Slash (amount : Z) (offender challenger : string) (jury : list string)
      (stake_record_id reason : string)
  | DormancyReclaim (amount : Z) (dormant_identity : string) (last_activity : f64)
  | Burn (amount : Z) (memo : option string)
  | PoolFund (amount : Z)
  | Predict (amount : Z) (zone : string) (target_epoch : Z) (claim : PredictionClaim.t)
      (predicted_value : Z)
  | XZoneLock (amount : Z) (recipient source_zone dest_zone : string)
  | XZoneClaim (transfer_id : string) (amount : Z) (recipient : string)
  | XZoneCancel (transfer_id : string)
  | XZoneReject (transfer_id : string)
  | XZoneAbort (transfer_id : string) (dest_committee_hash : hash) (dest_committee_size : Z)
      (signers : list SealFinalityWitness)
  | DormancyDeclare (target_identity : string) (last_known_active : f64)
  | DormancyHeartbeat
  | DormancyProofOfLife (target_identity signature : string)
  | WitnessRegister (zone_path : string) (bond : Z)
  | IdleDecayOp (batch : IdleDecayBatch)
  | XZoneTimeoutRefund (batch : XZoneRefundBatch)
  | XZoneStaleReap (batch : XZoneRefundBatch).
