(* ===== verification/OpMetadata.v ===== *)
(** * Ledger operations in record metadata

    src/accounting/types.rs: [extract_ledger_op], which reads an operation from
    the metadata of a record, the builders that write one, and their round
    trip. *)

From Stdlib Require Import Strings.Ascii.
From stdpp Require Import pretty.
From S2P Require Import Prelude F64 Types CrossZone IdleDecay Records LedgerOps.
Open Scope Z_scope.

(** ** Typed fields *)

Definition lookup_field (m : Metadata) (key : string) : outcome Json :=
  match m !! key with Some v => Ok v | None => Err (ELedger "missing field") end.
Definition or_error {A} (x : option A) (msg : string) : outcome A :=
  match x with Some a => Ok a | None => Err (ELedger msg) end.

(** A number, a numeric string, or a double in range. *)
Definition get_u64 (m : Metadata) (key : string) : outcome Z :=
  v ← lookup_field m key;
  match as_u64 v with
  | Some n => Ok n
  | None =>
      match as_str v with
      | Some s => or_error (parse_u64 s) "must be a positive integer"
      | None =>
          match as_f64 v with
          | Some f =>
              if f64_geb f f64_0 && f64_leb f (f64_of_Z U64.MAX) then Ok (f64_as_uint 64 f)
              else Err (ELedger "must be a positive integer")
          | None => Err (ELedger "must be a positive integer")
          end
      end
  end.
(** The amount of a record for display, saturating where [get_u64] refuses. *)
Definition parse_beat_amount (v : Json) : option Z :=
  match as_u64 v with
  | Some n => Some n
  | None =>
      match as_str v ≫= parse_u64 with
      | Some n => Some n
      | None => f64_as_uint 64 <$> as_f64 v
      end
  end.
Definition get_f64 (m : Metadata) (key : string) : outcome f64 :=
  v ← lookup_field m key; or_error (as_f64 v) "must be a number".
Definition get_string (m : Metadata) (key : string) : outcome string :=
  v ← lookup_field m key; or_error (as_str v) "must be a string".
Definition get_string_or (m : Metadata) (key default : string) : string :=
  match m !! key ≫= as_str with Some s => s | None => default end.
Definition get_memo (m : Metadata) : option string := m !! "beat_memo" ≫= as_str.
(** An array of names, or one name in the old form. *)
Definition get_jury (m : Metadata) : outcome (list string) :=
  match m !! "beat_jury" with
  | Some (JArray l) => Ok (omap as_str l)
  | Some (JString s) => Ok [s]
  | _ => Err (ELedger "missing or invalid beat_jury")
  end.

(** The [serde] forms of the compound fields and the [hex] crate.  A conversion
    to JSON can fail. *)
Class OpJson := {
  idle_batch_to_value : IdleDecayBatch → option Json;
  idle_batch_from_value : Json → option IdleDecayBatch;
  refund_batch_to_value : XZoneRefundBatch → option Json;
  refund_batch_from_value : Json → option XZoneRefundBatch;
  signers_to_value : list SealFinalityWitness → option Json;
  signers_from_value : Json → option (list SealFinalityWitness);
  hex_decode : string → option (list byte);
}.

Section metadata.
Context `{HJ : OpJson}.

Definition get_batch {A} (from_value : Json → option A) (m : Metadata) (key : string) : outcome A :=
  v ← lookup_field m key; or_error (from_value v) "invalid batch".
Definition get_committee_hash (m : Metadata) : outcome hash :=
  s ← get_string m "xzone_dest_committee_hash";
  l ← or_error (hex_decode s) "invalid dest_committee_hash hex";
  if bool_decide (length l = 32%nat) then Ok l else Err (ELedger "dest_committee_hash must be 32 bytes").
Definition get_u32 (m : Metadata) (key : string) : outcome Z :=
  n ← get_u64 m key;
  if n <=? 2 ^ 32 - 1 then Ok n else Err (ELedger "dest_committee_size overflows u32").

(** *** Reading an operation *)

Definition parse_op (m : Metadata) (op : LedgerOp.t) : outcome ParsedLedgerOp :=
  match op with
  | LedgerOp.Mint =>
      amount ← get_u64 m "beat_amount"; to ← get_string m "beat_to";
      Ok (Mint amount to (get_string_or m "beat_reason" "genesis"))
  | LedgerOp.Transfer =>
      amount ← get_u64 m "beat_amount"; to ← get_string m "beat_to"; Ok (Transfer amount to (get_memo m))
  | LedgerOp.Stake =>
      amount ← get_u64 m "beat_amount";
      purpose ← StakePurpose.from_str (get_string_or m "beat_purpose" "witness");
      Ok (Stake amount purpose)
  | LedgerOp.Unstake => id ← get_string m "beat_stake_id"; Ok (Unstake id)
  | LedgerOp.WitnessReward =>
      amount ← get_u64 m "beat_amount"; from ← get_string m "beat_from"; to ← get_string m "beat_to";
      record_id ← get_string m "beat_record_id"; Ok (WitnessReward amount from to record_id)
  | LedgerOp.Slash =>
      amount ← get_u64 m "beat_amount"; offender ← get_string m "beat_offender";
      challenger ← get_string m "beat_challenger"; jury ← get_jury m;
      stake_id ← get_string m "beat_stake_id";
      Ok (Slash amount offender challenger jury stake_id (get_string_or m "beat_reason" "protocol violation"))
  | LedgerOp.DormancyReclaim =>
      amount ← get_u64 m "beat_amount"; who ← get_string m "beat_dormant_identity";
      last ← get_f64 m "beat_last_activity"; Ok (DormancyReclaim amount who last)
  | LedgerOp.Burn => amount ← get_u64 m "beat_amount"; Ok (Burn amount (get_memo m))
  | LedgerOp.PoolFund => amount ← get_u64 m "beat_amount"; Ok (PoolFund amount)
  | LedgerOp.Predict =>
      amount ← get_u64 m "beat_amount"; zone ← get_string m "beat_predict_zone";
      target ← get_u64 m "beat_predict_epoch"; c ← get_string m "beat_predict_claim";
      claim ← PredictionClaim.from_str c; value ← get_u64 m "beat_predict_value";
      Ok (Predict amount zone target claim value)
  | LedgerOp.XZoneLock =>
      amount ← get_u64 m "beat_amount"; recipient ← get_string m "beat_to";
      source ← get_string m "beat_source_zone"; dest ← get_string m "beat_dest_zone";
      Ok (XZoneLock amount recipient source dest)
  | LedgerOp.XZoneClaim =>
      id ← get_string m "beat_transfer_id"; amount ← get_u64 m "beat_amount";
      recipient ← get_string m "beat_to"; Ok (XZoneClaim id amount recipient)
  | LedgerOp.XZoneCancel => id ← get_string m "beat_transfer_id"; Ok (XZoneCancel id)
  | LedgerOp.XZoneReject => id ← get_string m "beat_transfer_id"; Ok (XZoneReject id)
  | LedgerOp.XZoneAbort =>
      id ← get_string m "beat_transfer_id"; h ← get_committee_hash m;
      size ← get_u32 m "xzone_dest_committee_size";
      signers ← get_batch signers_from_value m "xzone_abort_signers";
      Ok (XZoneAbort id h size signers)
  | LedgerOp.DormancyDeclare =>
      who ← get_string m "beat_target_identity"; last ← get_f64 m "beat_last_known_active";
      Ok (DormancyDeclare who last)
  | LedgerOp.DormancyHeartbeat => Ok DormancyHeartbeat
  | LedgerOp.DormancyProofOfLife =>
      who ← get_string m "beat_target_identity"; sig ← get_string m "beat_proof_signature";
      Ok (DormancyProofOfLife who sig)
  | LedgerOp.WitnessRegister =>
      zone ← get_string m "beat_zone"; bond ← get_u64 m "beat_bond";
      if bond <? WITNESS_BOND_MIN then Err (ELedger "witness_register bond below minimum")
      else if bool_decide (zone = "") then Err (ELedger "witness_register beat_zone empty")
      else Ok (WitnessRegister zone bond)
  | LedgerOp.IdleDecay => b ← get_batch idle_batch_from_value m "idle_decay_batch"; Ok (IdleDecayOp b)
  | LedgerOp.XZoneTimeoutRefund =>
      b ← get_batch refund_batch_from_value m "xzone_refund_batch"; Ok (XZoneTimeoutRefund b)
  | LedgerOp.XZoneStaleReap =>
      b ← get_batch refund_batch_from_value m "xzone_reap_batch"; Ok (XZoneStaleReap b)
  end.

Definition extract_ledger_op (record : ValidationRecord) : outcome (option ParsedLedgerOp) :=
  let m := rec_metadata record in
  match m !! BEAT_OP_KEY with
  | None => Ok None
  | Some v =>
      s ← or_error (as_str v) "beat_op must be a string";
      op ← LedgerOp.from_str s;
      parsed ← parse_op m op;
      Ok (Some parsed)
  end.

(** *** Writing an operation *)

Definition json_u64 (n : Z) : Json := JString (display_u64 n).
Definition op_field (op : LedgerOp.t) : Metadata := {[ BEAT_OP_KEY := JString (LedgerOp.as_str op) ]}.
Definition with_memo (memo : option string) (m : Metadata) : Metadata :=
  match memo with Some s => <["beat_memo" := JString s]> m | None => m end.

Definition idle_decay_batch_metadata (b : IdleDecayBatch) : Metadata :=
  <["beat_amount" := json_u64 (U64.as_u64 (total_debit b))]>
  (<["idle_decay_batch" := default JNull (idle_batch_to_value b)]> (op_field LedgerOp.IdleDecay)).
Definition xzone_refund_batch_metadata (b : XZoneRefundBatch) : Metadata :=
  <["beat_amount" := json_u64 (U64.as_u64 (total_refund b))]>
  (<["xzone_refund_batch" := default JNull (refund_batch_to_value b)]> (op_field LedgerOp.XZoneTimeoutRefund)).
Definition xzone_reap_batch_metadata (b : XZoneRefundBatch) : Metadata :=
  <["beat_amount" := json_u64 (U64.as_u64 (total_refund b))]>
  (<["xzone_reap_batch" := default JNull (refund_batch_to_value b)]> (op_field LedgerOp.XZoneStaleReap)).
Definition mint_metadata (amount : Z) (to reason : string) : Metadata :=
  <["beat_amount" := json_u64 amount]> (<["beat_to" := JString to]>
  (<["beat_reason" := JString reason]> (op_field LedgerOp.Mint))).
Definition transfer_metadata (amount : Z) (to : string) (memo : option string) : Metadata :=
  with_memo memo (<["beat_amount" := json_u64 amount]> (<["beat_to" := JString to]> (op_field LedgerOp.Transfer))).
Definition stake_metadata (amount : Z) (purpose : StakePurpose.t) : Metadata :=
  <["beat_amount" := json_u64 amount]>
  (<["beat_purpose" := JString (StakePurpose.as_str purpose)]> (op_field LedgerOp.Stake)).
Definition unstake_metadata (stake_record_id : string) : Metadata :=
  <["beat_stake_id" := JString stake_record_id]> (op_field LedgerOp.Unstake).
Definition witness_register_metadata (zone_path : string) (bond : Z) : Metadata :=
  <["beat_zone" := JString zone_path]> (<["beat_bond" := json_u64 bond]> (op_field LedgerOp.WitnessRegister)).
Definition witness_reward_metadata (amount : Z) (from to record_id : string) : Metadata :=
  <["beat_amount" := json_u64 amount]> (<["beat_from" := JString from]> (<["beat_to" := JString to]>
  (<["beat_record_id" := JString record_id]> (op_field LedgerOp.WitnessReward)))).
Definition slash_metadata (amount : Z) (offender challenger : string) (jury : list string)
    (stake_record_id reason : string) : Metadata :=
  <["beat_amount" := json_u64 amount]> (<["beat_offender" := JString offender]>
  (<["beat_challenger" := JString challenger]> (<["beat_jury" := JArray (JString <$> jury)]>
  (<["beat_stake_id" := JString stake_record_id]> (<["beat_reason" := JString reason]> (op_field LedgerOp.Slash)))))).
Definition burn_metadata (amount : Z) (memo : option string) : Metadata :=
  with_memo memo (<["beat_amount" := json_u64 amount]> (op_field LedgerOp.Burn)).
Definition pool_fund_metadata (amount : Z) : Metadata :=
  <["beat_amount" := json_u64 amount]> (op_field LedgerOp.PoolFund).
Definition predict_metadata (amount : Z) (zone : string) (target_epoch : Z) (claim : PredictionClaim.t)
    (predicted_value : Z) : Metadata :=
  <["beat_amount" := json_u64 amount]> (<["beat_predict_zone" := JString zone]>
  (<["beat_predict_epoch" := json_u64 target_epoch]>
  (<["beat_predict_claim" := JString (PredictionClaim.as_str claim)]>
  (<["beat_predict_value" := json_u64 predicted_value]> (op_field LedgerOp.Predict))))).
Definition dormancy_reclaim_metadata (amount : Z) (dormant_identity : string) (last_activity : f64) : Metadata :=
  <["beat_amount" := json_u64 amount]> (<["beat_dormant_identity" := JString dormant_identity]>
  (<["beat_last_activity" := json_f64 last_activity]> (op_field LedgerOp.DormancyReclaim))).
Definition dormancy_declare_metadata (target_identity : string) (last_known_active : f64) : Metadata :=
  <["beat_target_identity" := JString target_identity]>
  (<["beat_last_known_active" := json_f64 last_known_active]> (op_field LedgerOp.DormancyDeclare)).
Definition dormancy_heartbeat_metadata : Metadata := op_field LedgerOp.DormancyHeartbeat.
Definition dormancy_proof_of_life_metadata (target_identity signature : string) : Metadata :=
  <["beat_target_identity" := JString target_identity]>
  (<["beat_proof_signature" := JString signature]> (op_field LedgerOp.DormancyProofOfLife)).
Definition xzone_lock_metadata (amount : Z) (recipient source_zone dest_zone : string) : Metadata :=
  <["beat_amount" := json_u64 amount]> (<["beat_to" := JString recipient]>
  (<["beat_source_zone" := JString source_zone]> (<["beat_dest_zone" := JString dest_zone]>
  (op_field LedgerOp.XZoneLock)))).
Definition xzone_claim_metadata (transfer_id : string) (amount : Z) (recipient : string) : Metadata :=
  <["beat_transfer_id" := JString transfer_id]> (<["beat_amount" := json_u64 amount]>
  (<["beat_to" := JString recipient]> (op_field LedgerOp.XZoneClaim))).
Definition xzone_cancel_metadata (transfer_id : string) : Metadata :=
  <["beat_transfer_id" := JString transfer_id]> (op_field LedgerOp.XZoneCancel).
Definition xzone_reject_metadata (transfer_id : string) : Metadata :=
  <["beat_transfer_id" := JString transfer_id]> (op_field LedgerOp.XZoneReject).
Definition xzone_abort_metadata (transfer_id : string) (dest_committee_hash : hash) (dest_committee_size : Z)
    (signers : list SealFinalityWitness) : Metadata :=
  <["beat_transfer_id" := JString transfer_id]>
  (<["xzone_dest_committee_hash" := JString (hex_encode dest_committee_hash)]>
  (<["xzone_dest_committee_size" := json_u64 dest_committee_size]>
  (<["xzone_abort_signers" := default (JArray []) (signers_to_value signers)]> (op_field LedgerOp.XZoneAbort)))).
End metadata.

(** ** Numbers *)

Lemma digits_of x s : Z.of_N x <= U64.MAX → u64_digits (pretty_N_go x s) 0 = u64_digits s (Z.of_N x).
Proof.
  revert s. induction x as [x IH] using (well_founded_induction N.lt_wf_0). intros s Hx.
  destruct (decide (x = 0)%N) as [->|Hn]; [by rewrite pretty_N_go_0|].
  rewrite pretty_N_go_step by lia. assert (Hd : (x `div` 10 < x)%N) by (apply N.div_lt; lia).
  rewrite IH by lia. cbn [u64_digits].
  assert (Hm : (x `mod` 10 < 10)%N) by (apply N.mod_lt; lia).
  assert (HC : Z.of_N (N_of_ascii (pretty_N_char (x `mod` 10))) - 48 = Z.of_N (x `mod` 10)).
  { revert Hm. generalize (x `mod` 10)%N as d. intros d Hd'.
    destruct (decide (d = 0 ∨ d = 1 ∨ d = 2 ∨ d = 3 ∨ d = 4 ∨ d = 5 ∨ d = 6 ∨ d = 7 ∨ d = 8 ∨ d = 9)%N) as [E|]; [|lia].
    by destruct E as [->|[->|[->|[->|[->|[->|[->|[->|[->| ->]]]]]]]]]. }
  rewrite HC. assert (E : Z.of_N (x `div` 10) * 10 + Z.of_N (x `mod` 10) = Z.of_N x).
  { pose proof (N.div_mod x 10 ltac:(lia)). lia. }
  rewrite E. replace (_ && _) with true; [done|]. symmetry. rewrite !andb_true_iff, !Z.leb_le. clear E HC. generalize dependent (x `mod` 10)%N. intros d Hm. lia.
Qed.
Lemma parse_display n : 0 <= n <= U64.MAX → parse_u64 (display_u64 n) = Some n.
Proof.
  intros Hn. assert (H : u64_digits (display_u64 n) 0 = Some n ∧ display_u64 n ≠ "").
  { unfold display_u64, pretty, pretty_N. case_decide as E; [split; [|done]; transitivity (Some 0); [done|f_equal; lia]|].
    rewrite digits_of by lia. split; [cbn; f_equal; lia|]. intros E'.
    assert (HD := digits_of (Z.to_N n) "" ltac:(lia)). rewrite E' in HD. cbn in HD. injection HD. lia. }
  destruct H as [H Hne]. unfold parse_u64. destruct (display_u64 n) as [|c s] eqn:Es; [done|].
  destruct (Ascii.eqb_spec c "+"%char) as [->|]; [done|exact H].
Qed.

(** ** The round trip *)

Section roundtrip.
Context `{HJ : OpJson}.

(** What the conversions of [serde] and [hex] promise. *)
Record json_laws : Prop := {
  idle_batch_json b : ∃ v, idle_batch_to_value b = Some v ∧ idle_batch_from_value v = Some b;
  refund_batch_json b : ∃ v, refund_batch_to_value b = Some v ∧ refund_batch_from_value v = Some b;
  signers_json l : ∃ v, signers_to_value l = Some v ∧ signers_from_value v = Some l;
  hex_decode_encode l : hex_decode (hex_encode l) = Some l;
}.

(** The builder of each operation. *)
Definition op_metadata (op : ParsedLedgerOp) : Metadata :=
  match op with
  | Mint amount to reason => mint_metadata amount to reason
  | Transfer amount to memo => transfer_metadata amount to memo
  | Stake amount purpose => stake_metadata amount purpose
  | Unstake id => unstake_metadata id
  | WitnessReward amount from to id => witness_reward_metadata amount from to id
  | Slash amount offender challenger jury id reason => slash_metadata amount offender challenger jury id reason
  | DormancyReclaim amount who last => dormancy_reclaim_metadata amount who last
  | Burn amount memo => burn_metadata amount memo
  | PoolFund amount => pool_fund_metadata amount
  | Predict amount zone target claim value => predict_metadata amount zone target claim value
  | XZoneLock amount recipient source dest => xzone_lock_metadata amount recipient source dest
  | XZoneClaim id amount recipient => xzone_claim_metadata id amount recipient
  | XZoneCancel id => xzone_cancel_metadata id
  | XZoneReject id => xzone_reject_metadata id
  | XZoneAbort id h size signers => xzone_abort_metadata id h size signers
  | DormancyDeclare who last => dormancy_declare_metadata who last
  | DormancyHeartbeat => dormancy_heartbeat_metadata
  | DormancyProofOfLife who sig => dormancy_proof_of_life_metadata who sig
  | WitnessRegister zone bond => witness_register_metadata zone bond
  | IdleDecayOp b => idle_decay_batch_metadata b
  | XZoneTimeoutRefund b => xzone_refund_batch_metadata b
  | XZoneStaleReap b => xzone_reap_batch_metadata b
  end.

Definition u64 (n : Z) : Prop := 0 <= n <= U64.MAX.
(** Values of the fields' types, and what the reader asks of a registration. *)
(** Fields in the range of their types. *)
Definition fields_typed (op : ParsedLedgerOp) : Prop :=
  match op with
  | Mint n _ _ | Transfer n _ _ | Stake n _ | WitnessReward n _ _ _ | Slash n _ _ _ _ _ | Burn n _ | PoolFund n
  | XZoneLock n _ _ _ | XZoneClaim _ n _ | DormancyReclaim n _ _ | WitnessRegister _ n => u64 n
  | Predict n _ e _ v => u64 n ∧ u64 e ∧ u64 v
  | XZoneAbort _ h size _ => length h = 32%nat ∧ 0 <= size < 2 ^ 32
  | _ => True
  end.
(** What the reader accepts of them: finite times, which JSON can express, and the
    registration of a witness for a named zone with at least the minimal bond. *)
Definition readable (op : ParsedLedgerOp) : bool :=
  match op with
  | DormancyReclaim _ _ t | DormancyDeclare _ t => f64_is_finite t
  | WitnessRegister zone bond => negb (bool_decide (zone = "")) && (WITNESS_BOND_MIN <=? bond)
  | _ => true
  end.

Lemma get_json_u64 m key n : m !! key = Some (json_u64 n) → u64 n → get_u64 m key = Ok n.
Proof. intros E Hn. unfold get_u64, lookup_field. rewrite E. cbn. by rewrite parse_display. Qed.
Lemma get_json_str m key s : m !! key = Some (JString s) → get_string m key = Ok s.
Proof. intros E. unfold get_string, lookup_field. by rewrite E. Qed.
Lemma get_json_f64 m key t : m !! key = Some (json_f64 t) → f64_is_finite t = true → get_f64 m key = Ok t.
Proof. intros E Ht. unfold get_f64, lookup_field. rewrite E. unfold json_f64. by rewrite Ht. Qed.
Lemma get_json_str_or m key s d : m !! key = Some (JString s) → get_string_or m key d = s.
Proof. intros E. unfold get_string_or. by rewrite E. Qed.
Lemma get_json_batch {A} (from : Json → option A) m key v b :
  m !! key = Some v → from v = Some b → get_batch from m key = Ok b.
Proof. intros E Hb. unfold get_batch, lookup_field. rewrite E. cbn. by rewrite Hb. Qed.
Lemma get_json_memo m memo :
  m !! "beat_memo" = None → get_memo (with_memo memo m) = memo.
Proof. intros E. unfold get_memo, with_memo. destruct memo; [|by rewrite E].
  transitivity (Some (JString s) ≫= as_str); [|done]. f_equal. apply lookup_insert_eq. Qed.
Lemma purpose_roundtrip p : StakePurpose.from_str (StakePurpose.as_str p) = Ok p.
Proof. by destruct p. Qed.
Lemma claim_roundtrip c : PredictionClaim.from_str (PredictionClaim.as_str c) = Ok c.
Proof. by destruct c. Qed.

(** Reads the fields of a map built by insertions of distinct literal keys. *)
Ltac read_field :=
  match goal with
  | |- context [get_u64 ?m ?k] => erewrite (get_json_u64 m k); [|reflexivity|eassumption]
  | |- context [get_string ?m ?k] => erewrite (get_json_str m k); [|reflexivity]
  | |- context [get_f64 ?m ?k] => erewrite (get_json_f64 m k); [|reflexivity|eassumption]
  | |- context [get_string_or ?m ?k ?d] => erewrite (get_json_str_or m k _ d); [|reflexivity]
  | |- context [get_memo (with_memo ?memo ?m)] => rewrite (get_json_memo m memo) by reflexivity
  end; cbn [mbind outcome_bind].

(** The tag each builder writes. *)
Definition op_tag (op : ParsedLedgerOp) : LedgerOp.t :=
  match op with
  | Mint _ _ _ => LedgerOp.Mint
  | Transfer _ _ _ => LedgerOp.Transfer
  | Stake _ _ => LedgerOp.Stake
  | Unstake _ => LedgerOp.Unstake
  | WitnessReward _ _ _ _ => LedgerOp.WitnessReward
  | Slash _ _ _ _ _ _ => LedgerOp.Slash
  | DormancyReclaim _ _ _ => LedgerOp.DormancyReclaim
  | Burn _ _ => LedgerOp.Burn
  | PoolFund _ => LedgerOp.PoolFund
  | Predict _ _ _ _ _ => LedgerOp.Predict
  | XZoneLock _ _ _ _ => LedgerOp.XZoneLock
  | XZoneClaim _ _ _ => LedgerOp.XZoneClaim
  | XZoneCancel _ => LedgerOp.XZoneCancel
  | XZoneReject _ => LedgerOp.XZoneReject
  | XZoneAbort _ _ _ _ => LedgerOp.XZoneAbort
  | DormancyDeclare _ _ => LedgerOp.DormancyDeclare
  | DormancyHeartbeat => LedgerOp.DormancyHeartbeat
  | DormancyProofOfLife _ _ => LedgerOp.DormancyProofOfLife
  | WitnessRegister _ _ => LedgerOp.WitnessRegister
  | IdleDecayOp _ => LedgerOp.IdleDecay
  | XZoneTimeoutRefund _ => LedgerOp.XZoneTimeoutRefund
  | XZoneStaleReap _ => LedgerOp.XZoneStaleReap
  end.
Lemma op_tag_written op : op_metadata op !! BEAT_OP_KEY = Some (JString (LedgerOp.as_str (op_tag op))).
Proof. destruct op; try reflexivity; by destruct memo. Qed.

Lemma jury_roundtrip jury m :
  m !! "beat_jury" = Some (JArray (JString <$> jury)) → get_jury m = Ok jury.
Proof. intros E. unfold get_jury. rewrite E. f_equal. clear. induction jury as [|j l IH]; [done|]. cbn. f_equal. exact IH. Qed.
Lemma parse_op_metadata op :
  json_laws → fields_typed op → readable op = true → parse_op (op_metadata op) (op_tag op) = Ok op.
Proof.
  intros [Hi Hr Hs Hx] Hok Hrd. destruct op; cbn [op_metadata fields_typed readable op_tag parse_op] in *.
  all: destruct_and?; try (destruct memo as [memo|]).
  all: repeat read_field; try done.
  - by rewrite purpose_roundtrip.
  - by rewrite (jury_roundtrip jury).
  - by rewrite claim_roundtrip.
  - unfold get_committee_hash, get_u32. repeat read_field. rewrite Hx. cbn. rewrite bool_decide_true by done. cbn.
    destruct (Hs signers) as (v & Hv & Hv'). erewrite (get_json_u64 _ _ dest_committee_size); [|reflexivity|].
    + cbn [mbind outcome_bind]. replace (dest_committee_size <=? 2 ^ 32 - 1) with true by (symmetry; lia).
      rewrite (get_json_batch signers_from_value _ _ v signers); [done| |done].
      unfold xzone_abort_metadata. by rewrite Hv.
    + unfold u64, U64.MAX. lia.
  - apply andb_true_iff in Hrd as [Hz%negb_true_iff Hb%Z.leb_le].
    rewrite (proj2 (Z.ltb_ge _ _)), Hz by done. done.
  - destruct (Hi batch) as (v & Hv & Hv'). rewrite (get_json_batch idle_batch_from_value _ _ v batch); [done| |done].
    unfold idle_decay_batch_metadata. by rewrite Hv.
  - destruct (Hr batch) as (v & Hv & Hv'). rewrite (get_json_batch refund_batch_from_value _ _ v batch); [done| |done].
    unfold xzone_refund_batch_metadata. by rewrite Hv.
  - destruct (Hr batch) as (v & Hv & Hv'). rewrite (get_json_batch refund_batch_from_value _ _ v batch); [done| |done].
    unfold xzone_reap_batch_metadata. by rewrite Hv.
Qed.

(** What the reader refuses, it refuses with an error. *)
Lemma parse_unreadable op :
  fields_typed op → readable op = false → ∃ e, parse_op (op_metadata op) (op_tag op) = Err e.
Proof.
  intros Hok Hrd. destruct op; try discriminate Hrd; cbn [op_metadata fields_typed readable op_tag parse_op] in *.
  - repeat read_field. unfold get_f64, lookup_field, dormancy_reclaim_metadata, json_f64. rewrite Hrd. by eexists.
  - repeat read_field. unfold get_f64, lookup_field, dormancy_declare_metadata, json_f64. rewrite Hrd. by eexists.
  - repeat read_field. destruct (Z.ltb_spec bond WITNESS_BOND_MIN); [by eexists|].
    apply andb_false_iff in Hrd as [Hz%negb_false_iff|Hb%Z.leb_gt]; [rewrite Hz; by eexists|lia].
Qed.

(** C24: every ledger operation survives its metadata.  For each of the 22
    operations, with integers and hashes in the range of their types, what
    [extract_ledger_op] reads from a record whose metadata the operation's
    builder wrote is that operation, unless the operation has a time that is not
    finite, or registers a witness for the empty zone or with less than the
    minimal bond: exactly these are read as an error.  Records without an
    operation read as none.  The [serde] forms of the batches and of the signers
    are assumed to be read back ([json_laws]). *)
Theorem op_metadata_roundtrip r :
  json_laws →
  (∀ op, fields_typed op → rec_metadata r = op_metadata op →
     if readable op then extract_ledger_op r = Ok (Some op) else ∃ e, extract_ledger_op r = Err e) ∧
  (rec_metadata r !! BEAT_OP_KEY = None → extract_ledger_op r = Ok None).
Proof.
  intros HL. unfold extract_ledger_op. split; [|by intros ->]. intros op Hok ->.
  rewrite op_tag_written. cbn [or_error as_str mbind outcome_bind]. rewrite LedgerOp.from_str_as_str.
  cbn [mbind outcome_bind]. destruct (readable op) eqn:Hr; [by rewrite parse_op_metadata|].
  destruct (parse_unreadable op Hok Hr) as [e ->]. by exists e.
Qed.
End roundtrip.

(** ** Examples *)

Module OpExamples.
(** Numbers for the compound fields, and plain hexadecimal. *)
Definition idle_fields (b : IdleDecayBatch) :=
  (batch_epoch b, batch_zone b, debits b, pool_credit b, staker_credits b).
Definition refund_fields (b : XZoneRefundBatch) := (refund_epoch b, refund_zone b, refunds b).
Definition sibling_fields (p : ProofSibling) := (sib_hash p, is_right p).
Definition witness_fields (w : SealFinalityWitness) :=
  (witness_pk w, signature w, sibling_fields <$> committee_proof w).
Definition numbered {A B} `{Countable B} (f : A → B) (x : A) : option Json := Some (JInt (Z.pos (encode (f x)))).
Definition unnumbered {A B} `{Countable B} (g : B → A) (v : Json) : option A :=
  match v with JInt (Z.pos p) => g <$> decode p | _ => None end.
Lemma numbered_inv {A B} `{Countable B} (f : A → B) (g : B → A) x :
  g (f x) = x → ∃ v, numbered f x = Some v ∧ unnumbered g v = Some x.
Proof. intros E. eexists. split; [done|]. cbn. by rewrite decode_encode; cbn; rewrite E. Qed.

Definition nibble (c : ascii) : option N :=
  let n := N_of_ascii c in
  if (48 <=? n)%N && (n <=? 57)%N then Some (n - 48)%N
  else if (97 <=? n)%N && (n <=? 102)%N then Some (n - 87)%N
  else None.
Fixpoint hex_bytes (s : string) : option (list byte) :=
  match s with
  | EmptyString => Some []
  | String a (String b s) =>
      x ← nibble a; y ← nibble b; c ← Byte.of_N (16 * x + y); l ← hex_bytes s; Some (c :: l)
  | _ => None
  end.
Lemma hex_bytes_encode l : hex_bytes (hex_encode l) = Some l.
Proof. induction l as [|b l IH]; [done|]. destruct b; cbn -[hex_bytes]; cbn [hex_bytes]; by rewrite IH. Qed.

#[local] Instance toy_json : OpJson := {|
  idle_batch_to_value := numbered idle_fields;
  idle_batch_from_value := unnumbered (fun '(e, z, d, p, s) => mkDecayBatch e z d p s);
  refund_batch_to_value := numbered refund_fields;
  refund_batch_from_value := unnumbered (fun '(e, z, l) => mkRefundBatch e z l);
  signers_to_value := numbered (fmap witness_fields);
  signers_from_value := unnumbered (fmap (fun '(pk, sig, l) => mkWitness pk sig ((fun '(h, r) => mkSibling h r) <$> l)));
  hex_decode := hex_bytes;
|}.
Lemma toy_laws : json_laws.
Proof.
  split; [intros b|intros b|intros l|exact hex_bytes_encode].
  - apply numbered_inv. by destruct b.
  - apply numbered_inv. by destruct b.
  - apply numbered_inv. induction l as [|[pk sig p] l IH]; [done|]. cbn. f_equal; [|exact IH]. f_equal.
    clear IH. induction p as [|[h r] p IH]; [done|]. cbn. f_equal. exact IH.
Qed.

Definition slash : ParsedLedgerOp := Slash 18446744073709551615 "mallory" "alice" ["bob"; "carol"] "stake-1" "double sign".
Definition record_of (op : ParsedLedgerOp) : ValidationRecord := mkRecord "r" f64_0 [] None None (op_metadata op) (repeat x00 32).
Definition bondless : ParsedLedgerOp := WitnessRegister "z" 1.
Lemma op_metadata_roundtrip_witness :
  extract_ledger_op (record_of slash) = Ok (Some slash) ∧ ∃ e, extract_ledger_op (record_of bondless) = Err e.
Proof.
  split.
  - assert (H : fields_typed slash) by (by vm_compute).
    exact (proj1 (op_metadata_roundtrip (record_of slash) toy_laws) slash H eq_refl).
  - assert (H : fields_typed bondless) by (by vm_compute).
    exact (proj1 (op_metadata_roundtrip (record_of bondless) toy_laws) bondless H eq_refl).
Defined.
End OpExamples.
