(* ===== verification/Ledger.v ===== *)
(** * The beat ledger

    src/src/accounting/ledger.rs: the replicated ledger state and [apply_op], the
    transition every node runs on every sealed record, one definition per
    operation.  The governance field of the state is not modelled: [apply_op]
    never reads or writes it.

    Messages carry fixed text only.  Where the code slices a caller-supplied
    string for a message or a log line the slice is kept ([prefix16], [slice16]),
    since it can panic; slices of identity hashes are dropped, those are
    hexadecimal.  Log lines are taken to be enabled. *)

From S2P Require Import Prelude F64 Types Dormancy Acquisition Velocity CircuitBreaker.
From S2P Require Import Custodial IdleDecay CrossZone Records LedgerOps.
Open Scope Z_scope.

(** ** State *)

Record AccountState := mkAccount {
  available : Z;
  staked : Z;
  total_received : Z;
  total_sent : Z;
  tx_count : Z;
  last_active : f64;
  vested_locked : Z;
  uptime_secs : Z;
  inactive_days : Z;
  witness_bonded : Z;
}.
Definition eta_account (a : AccountState) : AccountState :=
  mkAccount (available a) (staked a) (total_received a) (total_sent a) (tx_count a)
    (last_active a) (vested_locked a) (uptime_secs a) (inactive_days a) (witness_bonded a).
#[export] Hint Extern 0 (@Setter AccountState _ _) => derive_setter eta_account : typeclass_instances.
Definition account_default : AccountState := mkAccount 0 0 0 0 0 f64_0 0 0 0 0.

Record StakeEntry := mkStake {
  se_record_id : string;
  se_amount : Z;
  se_purpose : StakePurpose.t;
  se_staker : string;
  se_timestamp : f64;
  se_active : bool;
}.
Definition eta_stake (e : StakeEntry) : StakeEntry :=
  mkStake (se_record_id e) (se_amount e) (se_purpose e) (se_staker e) (se_timestamp e) (se_active e).
#[export] Hint Extern 0 (@Setter StakeEntry _ _) => derive_setter eta_stake : typeclass_instances.

Record PredictionEntry := mkPrediction {
  pe_record_id : string;
  pe_predictor : string;
  pe_amount : Z;
  pe_zone : string;
  pe_target_epoch : Z;
  pe_claim : PredictionClaim.t;
  pe_predicted_value : Z;
  pe_timestamp : f64;
  pe_outcome : option bool;
}.
Definition eta_prediction (p : PredictionEntry) : PredictionEntry :=
  mkPrediction (pe_record_id p) (pe_predictor p) (pe_amount p) (pe_zone p) (pe_target_epoch p)
    (pe_claim p) (pe_predicted_value p) (pe_timestamp p) (pe_outcome p).
#[export] Hint Extern 0 (@Setter PredictionEntry _ _) => derive_setter eta_prediction : typeclass_instances.

Record LedgerState := mkLedger {
  accounts : gmap string AccountState;
  stakes : gmap string StakeEntry;
  total_supply : Z;
  total_staked : Z;
  conservation_pool : Z;
  pool_disbursed_window : f64 * Z;
  records_processed : Z;
  velocity : VelocityTracker;
  circuit_breaker : CircuitBreaker;
  acquisition : AcquisitionTracker;
  vesting : VestingManager;
  identity_profiles : gmap string CryptoProfile;
  attestation_levels : gmap string Attestation.level;
  applied_record_ids : gset string;
  staker_index : gmap string (list string);
  active_stakes_count : Z;
  predictions : gmap string PredictionEntry;
  pending_xzone_locked : Z;
  cross_zone : CrossZoneState;
  exchange_classifier : ExchangeClassifier;
  idle_decay : IdleDecayState;
  dormancy : DormancyState;
  last_applied_ts : f64;
  stake_mutation_seq : Z;
  smt_dirty : gset string;
  pending_witness_registrations : list (string * string * list byte * Z * Z);
}.
Definition eta_ledger (s : LedgerState) : LedgerState :=
  mkLedger (accounts s) (stakes s) (total_supply s) (total_staked s) (conservation_pool s)
    (pool_disbursed_window s) (records_processed s) (velocity s) (circuit_breaker s)
    (acquisition s) (vesting s) (identity_profiles s) (attestation_levels s)
    (applied_record_ids s) (staker_index s) (active_stakes_count s) (predictions s)
    (pending_xzone_locked s) (cross_zone s) (exchange_classifier s) (idle_decay s)
    (dormancy s) (last_applied_ts s) (stake_mutation_seq s) (smt_dirty s)
    (pending_witness_registrations s).
#[export] Hint Extern 0 (@Setter LedgerState _ _) => derive_setter eta_ledger : typeclass_instances.

Definition ledger_new : LedgerState :=
  mkLedger ∅ ∅ 0 0 0 (f64_0, 0) 0 velocity_new breaker_new acquisition_new vesting_new ∅ ∅ ∅ ∅
    0 ∅ 0 crosszone_new classifier_new idle_decay_new Dormancy.new f64_0 0 ∅ [].

Notation L := (M LedgerState).

(** [clone()] drops the set of applied ids. *)
Definition ledger_clone (s : LedgerState) : LedgerState := s <| applied_record_ids := ∅ |>.

(** ** Reading the state *)

Definition account (s : LedgerState) (who : string) : AccountState :=
  default account_default (accounts s !! who).
Definition balance (s : LedgerState) (who : string) : Z := available (account s who).
Definition staked_of (s : LedgerState) (who : string) : Z := staked (account s who).

Definition circulating_supply (s : LedgerState) : Z :=
  U64.sat_sub (U64.sat_sub (total_supply s) (total_staked s)) (conservation_pool s).

Definition pool_cap (s : LedgerState) : Z :=
  U64.as_u64 (total_supply s * CONSERVATION_POOL_MAX_FRACTION_NUM
              / CONSERVATION_POOL_MAX_FRACTION_DEN).
Definition pool_headroom (s : LedgerState) : Z := U64.sat_sub (pool_cap s) (conservation_pool s).

Definition MONTH_SECS : f64 := Eval vm_compute in f64_of_Z (30 * 24 * 3600).
Definition pool_monthly_remaining (s : LedgerState) (now : f64) : Z :=
  let '(window_start, disbursed) := pool_disbursed_window s in
  let monthly_cap := conservation_pool s / 100 in
  if f64_geb (f64_sub now window_start) MONTH_SECS then monthly_cap
  else U64.sat_sub monthly_cap disbursed.
Definition record_pool_disbursement (amount : Z) (now : f64) (s : LedgerState) : LedgerState :=
  s <| pool_disbursed_window ::= fun '(window_start, disbursed) =>
    if f64_geb (f64_sub now window_start) MONTH_SECS then (now, amount)
    else (window_start, U64.sat_add disbursed amount) |>.

Definition stakes_for (s : LedgerState) (who : string) : list StakeEntry :=
  match staker_index s !! who with
  | Some ids => filter (fun e => se_active e = true) (omap (fun rid => stakes s !! rid) ids)
  | None => []
  end.

Definition is_single_sig (s : LedgerState) (who : string) : bool :=
  match identity_profiles s !! who with Some ProfileA => false | _ => true end.

Definition register_identity_profile (who : string) (p : CryptoProfile) (s : LedgerState) : LedgerState :=
  s <| identity_profiles ::= insert who p |>.
Definition register_identity_attestation (who : string) (l : Attestation.level) (s : LedgerState) :
    LedgerState :=
  match attestation_levels s !! who with
  | Some existing =>
      if Attestation.rank l <=? Attestation.rank existing then s
      else s <| attestation_levels ::= insert who l |>
  | None => s <| attestation_levels ::= insert who l |>
  end.

(** [rebuild_staker_index]: from the stakes alone. *)
Definition rebuild_staker_index (s : LedgerState) : LedgerState :=
  let active := filter (fun kv => se_active kv.2 = true) (map_to_list (stakes s)) in
  s <| staker_index := foldl (fun m kv =>
         <[se_staker kv.2 := default [] (m !! se_staker kv.2) ++ [kv.1]]> m) ∅ active |>
    <| active_stakes_count := Z.of_nat (length active) |>.

(** ** Touching an account *)

(** [accounts.entry(who).or_default()]: an unknown account comes into being. *)
Definition entry_or_default (who : string) : L AccountState :=
  s ← get;
  modify (fun s => s <| accounts ::= insert who (account s who) |>);;
  mret (account s who).
Definition put_account (who : string) (a : AccountState) : L unit :=
  modify (fun s => s <| accounts ::= insert who a |>).
(** [account.total()] *)
Definition account_total (a : AccountState) : L Z := add_u64 (available a) (staked a).

(** The bookkeeping fields of a credit and of a debit. *)
Definition note_received (amount : Z) (a : AccountState) : AccountState :=
  a <| total_received ::= fun v => U64.sat_add v amount |>.
Definition note_sent (amount : Z) (a : AccountState) : AccountState :=
  a <| total_sent ::= fun v => U64.sat_add v amount |>.
Definition unnote_sent (amount : Z) (a : AccountState) : AccountState :=
  a <| total_sent ::= fun v => U64.sat_sub v amount |>.
Definition touch (ts : f64) (a : AccountState) : AccountState :=
  a <| tx_count ::= fun v => U64.sat_add v 1 |> <| last_active := ts |>.

(** [state.velocity.record_balance(who, account.total(), ts)] *)
Definition track_balance (who : string) (a : AccountState) (ts : f64) : L unit :=
  t ← account_total a;
  modify (fun s => s <| velocity ::= velocity_record_balance who t ts |>).

Definition err (msg : string) : ElaraError := ELedger msg.

Definition in_sandbox (zone : string) : bool :=
  String.prefix "sandbox/" zone || bool_decide (zone = "sandbox").

(** Removing a stake from the index of its staker. *)
Definition unindex_stake (who rid : string) (s : LedgerState) : LedgerState :=
  s <| staker_index ::= fun idx =>
    match idx !! who with
    | Some ids =>
        let ids := filter (fun i => i ≠ rid) ids in
        if bool_decide (ids = []) then delete who idx else <[who := ids]> idx
    | None => idx
    end |>.
Definition bump_stake_seq (s : LedgerState) : LedgerState :=
  s <| stake_mutation_seq ::= fun v => U64.wrapping_add v 1 |>.

(** ** Operations *)

Section apply.
Context `{Externals}.
Variables (record : ValidationRecord) (genesis_authority : string).

Let ts : f64 := rec_timestamp record.
Let creator : string := creator_identity_hash record.
Let privileged : bool := is_privileged_emitter creator genesis_authority.

Definition apply_mint (amount : Z) (to reason : string) : L unit :=
  require privileged (err "unauthorized mint");;
  s ← get;
  let supply_before := total_supply s in
  require (negb (String.prefix "genesis:" reason && (MAX_SUPPLY <=? supply_before)))
    (err "duplicate genesis mint rejected");;
  require ((supply_before + amount <=? U64.MAX) && (supply_before + amount <=? MAX_SUPPLY))
    (err "mint would exceed max supply");;
  a ← entry_or_default to;
  av ← add_u64 (available a) amount;
  let a := touch ts (note_received amount (a <| available := av |>)) in
  put_account to a;;
  track_balance to a ts;;
  supply ← add_u64 supply_before amount;
  modify (fun s => s <| total_supply := supply |>);;
  modify (fun s => s <| acquisition ::= Acquisition.record_inflow to amount ts |>);;
  let single_triggers := requires_vesting amount supply_before in
  let cumulative_triggers :=
    cumulative_exceeds_threshold (vesting s) to amount supply_before ts in
  modify (fun s => s <| vesting ::= record_mint to amount ts |>);;
  when (single_triggers || cumulative_triggers)
    (modify (fun s => s <| vesting ::= add_vesting to (rec_id record) amount ts |>)).

(** The trackers a transfer feeds: acquisition, circuit breaker, exchange
    classification and idle decay. *)
Definition track_transfer (amount : Z) (to : string) : L unit :=
  modify (fun s => s <| acquisition ::= Acquisition.record_inflow to amount ts |>);;
  modify (fun s =>
    let circulating := circulating_supply s in
    s <| circuit_breaker ::= fun b => update_level circulating ts (record_volume amount ts b) |>);;
  modify (fun s => s <| exchange_classifier ::= Custodial.record_transfer creator to amount |>);;
  modify (fun s => s <| exchange_classifier ::= fun c => (reclassify creator (staked_of s creator) c).2 |>);;
  modify (fun s => s <| exchange_classifier ::= fun c => (reclassify to (staked_of s to) c).2 |>);;
  s ← get;
  when (is_classified (exchange_classifier s) creator)
    (modify (fun s => s <| idle_decay ::= idle_record_outflow creator amount ts |>);;
     bal ← account_total (account s creator);
     modify (fun s => s <| idle_decay ::= idle_record_balance creator bal ts |>));;
  when (is_classified (exchange_classifier s) to)
    (modify (fun s => s <| idle_decay ::= idle_record_inflow to amount ts |>);;
     bal ← account_total (account s to);
     modify (fun s => s <| idle_decay ::= idle_record_balance to bal ts |>)).

(** Vesting: only the unlocked part of the balance can be sent. *)
Definition check_unlocked (amount sender_available : Z) : L unit :=
  s ← get;
  transferable ← transferable_balance (vesting s) creator sender_available ts;
  when (transferable <? amount)
    (locked_balance (vesting s) creator ts;;
     throw (err "insufficient unlocked balance")).

Definition apply_transfer (amount : Z) (to : string) : L unit :=
  require (negb (amount =? 0)) (err "transfer amount must be > 0");;
  require (bool_decide (creator ≠ to)) (err "cannot transfer to self");;
  s ← get;
  let sender_available := available (account s creator) in
  require (amount <=? sender_available) (err "insufficient balance");;
  when (negb privileged) (check_unlocked amount sender_available);;
  require (negb (privileged && (MAX_SUPPLY <=? total_supply s) && (MAX_SUPPLY / 100 <? amount)))
    (err "genesis transfer exceeds 1% cap");;
  (* debit *)
  a ← entry_or_default creator;
  av ← sub_u64 (available a) amount;
  let a := touch ts (note_sent amount (a <| available := av |>)) in
  put_account creator a;;
  sender_new_total ← account_total a;
  modify (fun s => s <| velocity ::= velocity_record_outflow creator amount ts |>);;
  modify (fun s => s <| velocity ::= velocity_record_balance creator sender_new_total ts |>);;
  (* credit *)
  b ← entry_or_default to;
  bv ← add_u64 (available b) amount;
  let b := touch ts (note_received amount (b <| available := bv |>)) in
  put_account to b;;
  recipient_new_total ← account_total b;
  modify (fun s => s <| velocity ::= velocity_record_balance to recipient_new_total ts |>);;
  track_transfer amount to.

Definition apply_stake (amount : Z) (purpose : StakePurpose.t) : L unit :=
  require (MIN_STAKE <=? amount) (err "stake amount below minimum");;
  s ← get;
  require (negb (bool_decide (purpose = StakePurpose.Governance)
                 && is_classified (exchange_classifier s) creator))
    (err "classified exchanges cannot stake for governance");;
  a ← entry_or_default creator;
  require (amount <=? available a) (err "insufficient balance for stake");;
  av ← sub_u64 (available a) amount;
  st ← add_u64 (staked a) amount;
  let a := touch ts (note_sent amount (a <| available := av |> <| staked := st |>)) in
  put_account creator a;;
  track_balance creator a ts;;
  modify (fun s => s <| stakes ::= insert (rec_id record)
    (mkStake (rec_id record) amount purpose creator ts true) |>);;
  modify (fun s => s <| staker_index ::= insert creator
    (default [] (staker_index s !! creator) ++ [rec_id record]) |>);;
  modify (fun s => s <| active_stakes_count ::= fun v => U64.sat_add v 1 |>);;
  total ← add_u64 (total_staked s) amount;
  modify (fun s => bump_stake_seq (s <| total_staked := total |>)).

Definition apply_unstake (rid : string) : L unit :=
  s ← get;
  stake ← ok_or (stakes s !! rid) (err "stake not found");
  require (se_active stake) (err "stake already unstaked");;
  require (bool_decide (se_staker stake = creator)) (err "unstake denied");;
  let elapsed := f64_sub ts (se_timestamp stake) in
  require (negb (f64_ltb elapsed UNSTAKE_COOLDOWN)) (err "unstake cooldown");;
  a ← entry_or_default creator;
  st ← sub_u64 (staked a) (se_amount stake);
  av ← add_u64 (available a) (se_amount stake);
  let a := touch ts (note_received (se_amount stake) (a <| staked := st |> <| available := av |>)) in
  put_account creator a;;
  track_balance creator a ts;;
  modify (fun s => s <| stakes ::= insert rid (stake <| se_active := false |>) |>);;
  modify (unindex_stake creator rid);;
  modify (fun s => s <| active_stakes_count ::= fun v => U64.sat_sub v 1 |>);;
  total ← sub_u64 (total_staked s) (se_amount stake);
  modify (fun s => bump_stake_seq (s <| total_staked := total |>)).

Definition apply_witness_reward (amount : Z) (from to : string) : L unit :=
  require (negb (amount =? 0)) (err "witness reward must be > 0");;
  require (amount <=? MAX_WITNESS_REWARD) (err "witness reward exceeds max");;
  require (bool_decide (from ≠ to)) (err "witness cannot reward self");;
  require privileged (err "only genesis authority can create witness reward records");;
  s ← get;
  require (negb (is_classified (exchange_classifier s) to))
    (err "classified exchanges are ineligible for witness rewards");;
  require (amount <=? conservation_pool s) (err "conservation pool insufficient for reward");;
  pool ← sub_u64 (conservation_pool s) amount;
  modify (fun s => s <| conservation_pool := pool |>);;
  modify (record_pool_disbursement amount ts);;
  a ← entry_or_default to;
  av ← add_u64 (available a) amount;
  let a := touch ts (note_received amount (a <| available := av |>)) in
  put_account to a;;
  modify (fun s => s <| exchange_classifier ::= record_witness_activity to |>);;
  track_balance to a ts.

(** The shares of a slash: half to the pool, three tenths to the challenger, the
    remainder to the jury. *)
Definition max_slash_of (stake_amount : Z) : Z :=
  U64.as_u64 (stake_amount * MAX_SLASH_PERCENTAGE_NUM / MAX_SLASH_PERCENTAGE_DEN).
Definition slash_pool_share (actual : Z) : Z :=
  U64.as_u64 (actual * SLASH_POOL_FRACTION_NUM / SLASH_POOL_FRACTION_DEN).
Definition slash_challenger_share (actual : Z) : Z :=
  U64.as_u64 (actual * SLASH_CHALLENGER_FRACTION_NUM / SLASH_CHALLENGER_FRACTION_DEN).

(** The jurors in order; the first ones absorb the division dust. *)
Fixpoint credit_jury (per_juror remainder : Z) (jury : list string) : L unit :=
  match jury with
  | [] => mret tt
  | juror :: jury =>
      let dust := if 0 <? remainder then 1 else 0 in
      juror_amount ← add_u64 per_juror dust;
      a ← entry_or_default juror;
      av ← add_u64 (available a) juror_amount;
      put_account juror (touch ts (note_received juror_amount (a <| available := av |>)));;
      credit_jury per_juror (remainder - dust) jury
  end.

(** Credits the pool up to its cap; what does not fit is returned. *)
Definition credit_pool_capped (amount : Z) : L Z :=
  s ← get;
  let pool_actual := Z.min amount (pool_headroom s) in
  pool ← add_u64 (conservation_pool s) pool_actual;
  modify (fun s => s <| conservation_pool := pool |>);;
  sub_u64 amount pool_actual.

(** The offender's account and stake entry. *)
Definition slash_stake (actual_slash : Z) (offender rid : string) (stake : StakeEntry) : L unit :=
  a ← entry_or_default offender;
  st ← sub_u64 (staked a) actual_slash;
  put_account offender (touch ts (note_sent actual_slash (a <| staked := st |>)));;
  (if se_amount stake <=? actual_slash then
     modify (fun s => s <| stakes ::= insert rid (stake <| se_active := false |> <| se_amount := 0 |>) |>);;
     modify (unindex_stake offender rid);;
     modify (fun s => s <| active_stakes_count ::= fun v => U64.sat_sub v 1 |>)
   else
     left ← sub_u64 (se_amount stake) actual_slash;
     modify (fun s => s <| stakes ::= insert rid (stake <| se_amount := left |>) |>));;
  s ← get;
  total ← sub_u64 (total_staked s) actual_slash;
  modify (fun s => bump_stake_seq (s <| total_staked := total |>)).

(** The challenger, the jury (the pool when there is none), then the pool. *)
Definition slash_credits (pool_share challenger_share jury_share : Z) (challenger : string)
    (jury : list string) : L unit :=
  c ← entry_or_default challenger;
  cv ← add_u64 (available c) challenger_share;
  put_account challenger (touch ts (note_received challenger_share (c <| available := cv |>)));;
  pool_credit ←
    (match jury with
     | [] => add_u64 pool_share jury_share
     | _ =>
         let n := Z.of_nat (length jury) in
         let per_juror := jury_share / n in
         product ← mul_u64 per_juror n;
         remainder ← sub_u64 jury_share product;
         credit_jury per_juror remainder jury;;
         mret pool_share
     end);
  overflow ← credit_pool_capped pool_credit;
  when (0 <? overflow)
    (c ← entry_or_default challenger;
     cv ← add_u64 (available c) overflow;
     put_account challenger (note_received overflow (c <| available := cv |>))).

Definition apply_slash (amount : Z) (offender challenger : string) (jury : list string)
    (rid : string) : L unit :=
  require privileged (err "unauthorized slash");;
  s ← get;
  stake ← ok_or (stakes s !! rid) (err "stake not found");
  require (se_active stake) (err "stake already inactive");;
  (if bool_decide (se_staker stake = offender) then mret tt
   else prefix16 (se_staker stake);; prefix16 offender;; throw (err "slash target mismatch"));;
  let actual_slash := Z.min (Z.min amount (max_slash_of (se_amount stake))) (se_amount stake) in
  require (negb (actual_slash =? 0)) (err "slash amount is zero");;
  let pool_share := slash_pool_share actual_slash in
  let challenger_share := slash_challenger_share actual_slash in
  rest ← sub_u64 actual_slash pool_share;
  jury_share ← sub_u64 rest challenger_share;
  slash_stake actual_slash offender rid stake;;
  slash_credits pool_share challenger_share jury_share challenger jury.

(** ** Idle decay *)

Fixpoint check_debits (debits : list (string * Z)) : L unit :=
  match debits with
  | [] => mret tt
  | (who, amt) :: debits =>
      s ← get;
      (if balance s who <? amt then prefix16 who;; throw (err "idle_decay debit exceeds available")
       else mret tt);;
      check_debits debits
  end.
Fixpoint apply_debits (collected : Z) (debits : list (string * Z)) : L Z :=
  match debits with
  | [] => mret collected
  | (who, amt) :: debits =>
      s ← get;
      (match accounts s !! who with
       | Some a =>
           av ← sub_u64 (available a) amt;
           put_account who (a <| available := av |>)
       | None => mret tt
       end);;
      collected ← add_u64 collected amt;
      apply_debits collected debits
  end.
Fixpoint apply_staker_credits (distributed : Z) (credits : list (string * Z)) : L Z :=
  match credits with
  | [] => mret distributed
  | (who, amt) :: credits =>
      a ← entry_or_default who;
      av ← add_u64 (available a) amt;
      put_account who (a <| available := av |>);;
      distributed ← add_u64 distributed amt;
      apply_staker_credits distributed credits
  end.

Definition apply_idle_decay_batch (batch : IdleDecayBatch) (now : f64) : L unit :=
  require (is_conserved batch) (err "idle_decay batch not conserved");;
  check_debits (debits batch);;
  collected ← apply_debits 0 (debits batch);
  s ← get;
  pool ← add_u64 (conservation_pool s) (pool_credit batch);
  modify (fun s => s <| conservation_pool := pool |>);;
  distributed ← apply_staker_credits 0 (staker_credits batch);
  zoom idle_decay (note_applied_batch collected (pool_credit batch) distributed);;
  modify (fun s => s <| idle_decay ::= prune_all now |>).

Definition apply_idle_decay (batch : IdleDecayBatch) : L unit :=
  require privileged (err "unauthorized idle_decay");;
  apply_idle_decay_batch batch ts.

(** ** Cross-zone operations *)

(** The refund of one released transfer to its sender. *)
Definition refund_account (who : string) (amount : Z) : L unit :=
  a ← entry_or_default who;
  av ← add_u64 (available a) amount;
  let a := touch ts (unnote_sent amount (a <| available := av |>)) in
  put_account who a;;
  track_balance who a ts;;
  modify (fun s => s <| pending_xzone_locked ::= fun v => U64.sat_sub v amount |>).

Definition apply_xzone_timeout_refund (batch : XZoneRefundBatch) : L unit :=
  require privileged (err "unauthorized xzone timeout refund");;
  applied ← zoom cross_zone (apply_refund_batch batch);
  for_each (fun '(who, amount) => refund_account who amount) applied.

Definition apply_xzone_stale_reap (batch : XZoneRefundBatch) : L unit :=
  require privileged (err "unauthorized xzone stale reap");;
  applied ← zoom cross_zone (apply_reap_batch batch);
  for_each (fun '(who, amount) => refund_account who amount) applied.

Definition apply_xzone_lock (amount : Z) (recipient source_zone dest_zone : string) : L unit :=
  require (bool_decide (source_zone ≠ dest_zone))
    (err "cross-zone lock: source and dest zones must differ");;
  a ← entry_or_default creator;
  require (amount <=? available a) (err "insufficient balance for cross-zone lock");;
  zoom cross_zone (lock_transfer (rec_id record) creator recipient amount
    (zone_new source_zone) (zone_new dest_zone) ts (rec_hash record));;
  a ← entry_or_default creator;
  av ← sub_u64 (available a) amount;
  let a := touch ts (note_sent amount (a <| available := av |>)) in
  put_account creator a;;
  track_balance creator a ts;;
  modify (fun s => s <| pending_xzone_locked ::= fun v => U64.sat_add v amount |>);;
  slice16 creator;; prefix16 recipient;; slice16 (rec_id record).

Definition apply_xzone_claim (tid recipient : string) : L unit :=
  claimed ← zoom cross_zone (claim_transfer tid recipient (rec_id record) ts);
  let amount := CrossZone.amount claimed in
  a ← entry_or_default recipient;
  av ← add_u64 (available a) amount;
  let a := touch ts (note_received amount (a <| available := av |>)) in
  put_account recipient a;;
  track_balance recipient a ts;;
  modify (fun s => s <| pending_xzone_locked ::= fun v => U64.sat_sub v amount |>);;
  prefix16 recipient;; prefix16 tid.

Definition apply_xzone_cancel (tid : string) : L unit :=
  '(_, _, amount) ← zoom cross_zone (cancel_transfer tid creator);
  a ← entry_or_default creator;
  av ← add_u64 (available a) amount;
  let a := touch ts (unnote_sent amount (a <| available := av |>)) in
  put_account creator a;;
  track_balance creator a ts;;
  modify (fun s => s <| pending_xzone_locked ::= fun v => U64.sat_sub v amount |>);;
  prefix16 tid.

(** Abort and reject refund the sender and count the record for its creator. *)
Definition refund_and_count (who : string) (amount : Z) : L unit :=
  a ← entry_or_default who;
  av ← add_u64 (available a) amount;
  let a := unnote_sent amount (a <| available := av |>) <| last_active := ts |> in
  put_account who a;;
  track_balance who a ts;;
  c ← entry_or_default creator;
  put_account creator (touch ts c);;
  modify (fun s => s <| pending_xzone_locked ::= fun v => U64.sat_sub v amount |>).

Definition apply_xzone_abort (tid : string) (dest_committee_hash : hash)
    (dest_committee_size : Z) (signers : list SealFinalityWitness) : L unit :=
  s ← get;
  pending ← ok_or (pending (cross_zone s) !! tid) (err "xzone_abort: transfer not found");
  match verify_abort_quorum (source_seal_wire_version pending) tid (dest_zone pending)
          (source_seal_epoch pending) dest_committee_hash dest_committee_size signers
          (dest_finality_committee pending) with
  | Ok _ =>
      '(_, who, amount) ← zoom cross_zone (abort_transfer tid);
      refund_and_count who amount;;
      prefix16 tid
  | _ => throw (err "xzone_abort: B-committee proof rejected")
  end.

Definition apply_xzone_reject (tid : string) : L unit :=
  '(_, who, amount) ← zoom cross_zone (reject_transfer tid creator);
  refund_and_count who amount;;
  prefix16 tid.

(** ** Burn, pool and predictions *)

Definition apply_burn (amount : Z) : L unit :=
  require privileged (err "only genesis authority can execute burn");;
  require (negb (amount =? 0)) (err "burn amount must be > 0");;
  a ← entry_or_default creator;
  require (amount <=? available a) (err "insufficient balance for burn");;
  av ← sub_u64 (available a) amount;
  put_account creator (touch ts (note_sent amount (a <| available := av |>)));;
  s ← get;
  pool ← add_u64 (conservation_pool s) amount;
  modify (fun s => s <| conservation_pool := pool |>).

Definition apply_pool_fund (amount : Z) : L unit :=
  require privileged (err "unauthorized pool_fund");;
  require (negb (amount =? 0)) (err "pool_fund amount must be > 0");;
  a ← entry_or_default creator;
  require (amount <=? available a) (err "insufficient balance for pool_fund");;
  av ← sub_u64 (available a) amount;
  put_account creator (touch ts (note_sent amount (a <| available := av |>)));;
  overflow ← credit_pool_capped amount;
  when (0 <? overflow)
    (a ← entry_or_default creator;
     av ← add_u64 (available a) overflow;
     put_account creator (unnote_sent overflow (a <| available := av |>))).

Definition apply_predict (amount : Z) (zone : string) (target_epoch : Z)
    (claim : PredictionClaim.t) (predicted_value : Z) : L unit :=
  require (in_sandbox zone || (MIN_PREDICTION_STAKE <=? amount))
    (err "prediction stake below minimum");;
  (if 0 <? amount then
     a ← entry_or_default creator;
     require (amount <=? available a) (err "insufficient balance for prediction");;
     av ← sub_u64 (available a) amount;
     let a := touch ts (note_sent amount (a <| available := av |>)) in
     put_account creator a;;
     track_balance creator a ts
   else
     a ← entry_or_default creator;
     put_account creator (touch ts a));;
  modify (fun s => s <| predictions ::= insert (rec_id record)
    (mkPrediction (rec_id record) creator amount zone target_epoch claim predicted_value ts None) |>).

(** ** Dormancy *)

(** [|a - b| > 1.0] *)
Definition off_by_more_than_1 (a b : f64) : bool :=
  f64_gtb (f64_abs (f64_sub a b)) (f64_of_Z 1).

Definition apply_dormancy_reclaim (amount : Z) (who : string) (last_activity : f64) : L unit :=
  require privileged (err "unauthorized dormancy reclaim");;
  s ← get;
  match accounts s !! who with
  | None => prefix16 who;; throw (err "dormant identity not found")
  | Some dormant =>
      let time_since_active := f64_sub ts (last_active dormant) in
      require (negb (f64_ltb time_since_active DORMANCY_THRESHOLD)) (err "identity not dormant");;
      require (negb (off_by_more_than_1 last_activity (last_active dormant)))
        (err "last_activity mismatch");;
      (match phase (dormancy s) who with
       | Active => prefix16 who;; throw (err "dormancy reclaim requires Phase 2 declaration")
       | Reclaimed => prefix16 who;; throw (err "dormancy reclaim already executed")
       | Dormant => mret tt
       end);;
      require (eligible_for_reclamation (dormancy s) who ts) (err "wake-up window not yet expired");;
      let actual_reclaim := Z.min amount (available dormant) in
      require (negb (actual_reclaim =? 0)) (err "dormancy reclaim amount is zero");;
      av ← sub_u64 (available dormant) actual_reclaim;
      put_account who (note_sent actual_reclaim (dormant <| available := av |>)
                         <| tx_count ::= fun v => U64.sat_add v 1 |>);;
      overflow ← credit_pool_capped actual_reclaim;
      when (0 <? overflow)
        (s ← get;
         a ← ok_or (accounts s !! who) (err "dormancy reclaim overflow-refund: account vanished");
         av ← add_u64 (available a) overflow;
         put_account who (unnote_sent overflow (a <| available := av |>)));;
      modify (fun s => s <| dormancy ::= record_reclamation who actual_reclaim |>)
  end.

Definition apply_dormancy_declare (target : string) (last_known : f64) : L unit :=
  s ← get;
  match accounts s !! target with
  | None => prefix16 target;; throw (err "declare target not found")
  | Some a =>
      require (negb (off_by_more_than_1 last_known (last_active a))) (err "last_known_active mismatch");;
      zoom dormancy (declare target creator last_known ts DORMANCY_MIN_WITNESSES);;
      prefix16 target
  end.

(** [if let Some(account) = accounts.get_mut(who) { account.last_active = ts }] *)
Definition reset_last_active (who : string) : L unit :=
  modify (fun s => s <| accounts ::= alter (fun a => a <| last_active := ts |>) who |>).

Definition apply_dormancy_heartbeat : L unit :=
  zoom dormancy (wake_up creator ts);;
  reset_last_active creator.

Definition apply_dormancy_proof_of_life (target : string) : L unit :=
  zoom dormancy (wake_up target ts);;
  reset_last_active target;;
  prefix16 target.

(** ** Witness registration *)

Definition apply_witness_register (zone_path : string) (bond : Z) : L unit :=
  a ← entry_or_default creator;
  require (bond <=? available a) (err "witness_register: insufficient balance");;
  av ← sub_u64 (available a) bond;
  put_account creator (touch ts (a <| available := av |>
                                   <| witness_bonded ::= fun v => U64.sat_add v bond |>));;
  let registered_epoch := f64_as_uint 64 ts / 60 in
  modify (fun s => s <| pending_witness_registrations ::= fun l =>
    l ++ [(zone_path, creator, rec_public_key record, bond, registered_epoch)] |>).

(** ** The transition *)

(** Profile and attestation of the creator, before the operation. *)
Definition register_creator (s : LedgerState) : LedgerState :=
  let s :=
    if bool_decide (is_Some (rec_sphincs_signature record)) && bool_decide (is_Some (rec_sphincs_pk record))
    then register_identity_profile creator ProfileA s
    else match identity_profiles s !! creator with
         | None => register_identity_profile creator ProfileB s
         | Some _ => s
         end in
  match extract_attestation_level record with
  | Some level => register_identity_attestation creator level s
  | None => s
  end.

Definition apply_body (op : ParsedLedgerOp) : L unit :=
  match op with
  | Mint amount to reason => apply_mint amount to reason
  | Transfer amount to _ => apply_transfer amount to
  | Stake amount purpose => apply_stake amount purpose
  | Unstake rid => apply_unstake rid
  | WitnessReward amount from to _ => apply_witness_reward amount from to
  | Slash amount offender challenger jury rid _ => apply_slash amount offender challenger jury rid
  | IdleDecayOp batch => apply_idle_decay batch
  | XZoneTimeoutRefund batch => apply_xzone_timeout_refund batch
  | XZoneStaleReap batch => apply_xzone_stale_reap batch
  | Burn amount _ => apply_burn amount
  | DormancyReclaim amount who last => apply_dormancy_reclaim amount who last
  | PoolFund amount => apply_pool_fund amount
  | Predict amount zone epoch claim value => apply_predict amount zone epoch claim value
  | XZoneLock amount recipient source dest => apply_xzone_lock amount recipient source dest
  | XZoneClaim tid _ recipient => apply_xzone_claim tid recipient
  | XZoneCancel tid => apply_xzone_cancel tid
  | XZoneAbort tid h n signers => apply_xzone_abort tid h n signers
  | XZoneReject tid => apply_xzone_reject tid
  | DormancyDeclare target last => apply_dormancy_declare target last
  | DormancyHeartbeat => apply_dormancy_heartbeat
  | WitnessRegister zone bond => apply_witness_register zone bond
  | DormancyProofOfLife target _ => apply_dormancy_proof_of_life target
  end.

(** The accounts beside the creator whose leaf must be refreshed. *)
Definition dirty_accounts (op : ParsedLedgerOp) (s : LedgerState) : list string :=
  match op with
  | Mint _ to _ | Transfer _ to _ => [to]
  | WitnessReward _ from to _ => [to; from]
  | XZoneLock _ recipient _ _ => [recipient]
  | XZoneClaim _ _ recipient => [recipient]
  | XZoneReject tid | XZoneAbort tid _ _ _ =>
      from_option (fun t => [sender t]) [] (pending (cross_zone s) !! tid)
  | DormancyReclaim _ who _ => [who]
  | DormancyDeclare target _ | DormancyProofOfLife target _ => [target]
  | Slash _ offender challenger jury _ _ => offender :: challenger :: jury
  | IdleDecayOp batch => (debits batch).*1 ++ (staker_credits batch).*1
  | XZoneTimeoutRefund batch | XZoneStaleReap batch => (refunds batch).*1.*2
  | Stake _ _ | Unstake _ | Burn _ _ | PoolFund _ | Predict _ _ _ _ _ | DormancyHeartbeat
  | XZoneCancel _ | WitnessRegister _ _ => []
  end.

Definition finish (op : ParsedLedgerOp) : L unit :=
  s ← get;
  n ← add_u64 (records_processed s) 1;
  modify (fun s => s <| records_processed := n |>);;
  modify (fun s => s <| applied_record_ids ::= union {[ rec_id record ]} |>);;
  when (f64_gtb ts (last_applied_ts s)) (modify (fun s => s <| last_applied_ts := ts |>));;
  modify (fun s => s <| smt_dirty ::= union {[ creator ]} |>);;
  modify (fun s => s <| smt_dirty ::= union (list_to_set (dirty_accounts op s)) |>).

Definition apply_op (op : ParsedLedgerOp) : L unit :=
  s ← get;
  if bool_decide (rec_id record ∈ applied_record_ids s) then mret tt
  else
    modify register_creator;;
    apply_body op;;
    finish op.
End apply.

(** ** Replay *)

Section replay.
Context `{Externals} (genesis_authority : string).

Fixpoint derive_loop (records : list (ValidationRecord * ParsedLedgerOp)) : L unit :=
  match records with
  | [] => mret tt
  | (r, op) :: records => apply_op r genesis_authority op;; derive_loop records
  end.
Definition derive_ledger (records : list (ValidationRecord * ParsedLedgerOp)) : outcome LedgerState :=
  match derive_loop records ledger_new with
  | (Ok _, s) => Ok s
  | (Err e, _) => Err e
  | (Panic, _) => Panic
  end.

(** One tolerant pass: failures are collected, the state keeps what they left. *)
Fixpoint tolerant_pass (records : list (ValidationRecord * ParsedLedgerOp)) (s : LedgerState) :
    outcome (LedgerState * list (ValidationRecord * ParsedLedgerOp)) :=
  match records with
  | [] => Ok (s, [])
  | (r, op) :: records =>
      match apply_op r genesis_authority op s with
      | (Ok _, s) => tolerant_pass records s
      | (Err _, s) =>
          '(s, failed) ← tolerant_pass records s;
          Ok (s, (r, op) :: failed)
      | (Panic, _) => Panic
      end
  end.

(** A first pass over all records and a second one over those that failed. *)
Definition derive_ledger_tolerant (records : list (ValidationRecord * ParsedLedgerOp)) :
    outcome (LedgerState * Z) :=
  '(s, failed) ← tolerant_pass records ledger_new;
  '(s, still_failed) ← tolerant_pass failed s;
  Ok (s, Z.of_nat (length still_failed)).
End replay.
