(* ===== verification/LedgerSeal.v ===== *)
(** * Ledger transitions at the epoch seal

    src/src/accounting/ledger.rs, outside [apply_op]: evaluation of predictions,
    the genesis validator baseline, the producer's idle-decay computation, and
    the legacy in-place expiry of cross-zone locks. *)

From S2P Require Import Prelude F64 Types Acquisition Custodial IdleDecay CrossZone Records.
From S2P Require Import LedgerOps Ledger.
Open Scope Z_scope.

(** ** Legacy expiry *)

Definition process_expired_xzone (now : f64) : L Z :=
  refunds ← zoom cross_zone (process_expired now);
  for_each (fun '(tid, who, amount) =>
    a ← entry_or_default who;
    av ← add_u64 (available a) amount;
    put_account who (a <| available := av |> <| last_active := now |>);;
    modify (fun s => s <| pending_xzone_locked ::= fun v => U64.sat_sub v amount |>);;
    prefix16 who;; prefix16 tid) refunds;;
  mret (Z.of_nat (length refunds)).

(** ** Predictions *)

(** [|predicted - actual| / max(actual, 1) <= num/den], cross-multiplied. *)
Definition within_margin (predicted actual margin_num margin_den : Z) : bool :=
  let diff := Z.abs (predicted - actual) in
  let denom := Z.max actual 1 in
  U64.sat_mul128 diff margin_den <=? U64.sat_mul128 margin_num denom.

Definition evaluate_claim (claim : PredictionClaim.t) (predicted actual_record_count
    actual_identity_count : Z) : bool :=
  match claim with
  | PredictionClaim.Active => Bool.eqb (0 <? actual_record_count) (0 <? predicted)
  | PredictionClaim.Volume =>
      within_margin predicted actual_record_count PREDICTION_MARGIN_NUM PREDICTION_MARGIN_DEN
  | PredictionClaim.IdentityCount =>
      within_margin predicted actual_identity_count PREDICTION_MARGIN_NUM PREDICTION_MARGIN_DEN
  end.

Definition prediction_reward (amount : Z) (stake_reward_multiplier : f64) : Z :=
  let base_reward :=
    U64.as_u64 (amount * PREDICTION_REWARD_RATE_NUM / PREDICTION_REWARD_RATE_DEN) in
  let mult_q := f64_as_uint 128 (f64_mul stake_reward_multiplier (f64_of_Z 1000000000)) in
  U64.as_u64 (U64.sat_mul128 base_reward mult_q / 1000000000).

Definition mark_dirty (who : string) : L unit :=
  modify (fun s => s <| smt_dirty ::= union {[ who ]} |>).

(** Correct, wrong, rewarded, confiscated. *)
Definition tally := (Z * Z * Z * Z)%type.

Definition settle_correct (p : PredictionEntry) : L Z :=
  s ← get;
  let restr := restrictions (exchange_classifier s) (pe_predictor p) in
  let reward := prediction_reward (pe_amount p) (stake_reward_multiplier restr) in
  let actual_reward := Z.min reward (conservation_pool s) in
  pool ← sub_u64 (conservation_pool s) actual_reward;
  modify (fun s => s <| conservation_pool := pool |>);;
  a ← entry_or_default (pe_predictor p);
  payout ← add_u64 (pe_amount p) actual_reward;
  av ← add_u64 (available a) payout;
  put_account (pe_predictor p)
    (note_received actual_reward (note_received (pe_amount p) (a <| available := av |>)));;
  mark_dirty (pe_predictor p);;
  mret actual_reward.

Definition settle_wrong (p : PredictionEntry) : L Z :=
  s ← get;
  let pool_actual := Z.min (pe_amount p) (pool_headroom s) in
  overflow ← credit_pool_capped (pe_amount p);
  when (0 <? overflow)
    (a ← entry_or_default (pe_predictor p);
     av ← add_u64 (available a) overflow;
     put_account (pe_predictor p) (unnote_sent overflow (a <| available := av |>));;
     mark_dirty (pe_predictor p));;
  mret pool_actual.

Definition mark_outcome (pid : string) (outcome : bool) : L unit :=
  modify (fun s => s <| predictions ::= alter (fun p => p <| pe_outcome := Some outcome |>) pid |>).

Fixpoint evaluate_loop (records identities : Z) (pids : list string) (t : tally) : L tally :=
  match pids with
  | [] => mret t
  | pid :: pids =>
      let '(correct, wrong, rewarded, confiscated) := t in
      s ← get;
      match predictions s !! pid with
      | None => evaluate_loop records identities pids t
      | Some p =>
          let is_correct := evaluate_claim (pe_claim p) (pe_predicted_value p) records identities in
          t ← (if is_correct then
                 correct ← add_u64 correct 1;
                 r ← settle_correct p;
                 rewarded ← add_u64 rewarded r;
                 mret (correct, wrong, rewarded, confiscated)
               else
                 wrong ← add_u64 wrong 1;
                 c ← settle_wrong p;
                 confiscated ← add_u64 confiscated c;
                 mret (correct, wrong, rewarded, confiscated));
          mark_outcome pid is_correct;;
          evaluate_loop records identities pids t
      end
  end.

Definition string_le (a b : string) : Prop := String.leb a b = true.
#[global] Instance string_le_dec : RelDecision string_le.
Proof. intros a b. unfold string_le. apply _. Defined.

Definition is_due (zone : string) (epoch : Z) (p : PredictionEntry) : bool :=
  bool_decide (pe_outcome p = None) && bool_decide (pe_zone p = zone) && (pe_target_epoch p =? epoch).
(** The record ids of the due predictions, sorted. *)
Definition due_predictions (s : LedgerState) (zone : string) (epoch : Z) : list string :=
  merge_sort string_le
    (pe_record_id <$> filter (fun p => is_due zone epoch p = true) (map_to_list (predictions s)).*2).

Definition evaluate_predictions (zone : string) (epoch actual_record_count actual_identity_count : Z) :
    L tally :=
  s ← get;
  evaluate_loop actual_record_count actual_identity_count (due_predictions s zone epoch) (0, 0, 0, 0).

(** ** Genesis validators *)

Definition GENESIS_STAKE_RECORD_PREFIX : string := "genesis-stake:".

Definition apply_genesis_validator (genesis_authority : string) (v : GenesisValidator) : L bool :=
  s ← get;
  if gv_stake v =? 0 then mret false
  else
    let rid := (GENESIS_STAKE_RECORD_PREFIX ++ gv_identity v)%string in
    if bool_decide (is_Some (stakes s !! rid)) then mret false
    else if balance s genesis_authority <? gv_stake v then mret false
    else
      (match accounts s !! genesis_authority with
       | Some auth =>
           av ← sub_u64 (available auth) (gv_stake v);
           put_account genesis_authority (auth <| available := av |>)
       | None => mret tt
       end);;
      a ← entry_or_default (gv_identity v);
      st ← add_u64 (staked a) (gv_stake v);
      put_account (gv_identity v) (a <| staked := st |>);;
      mark_dirty genesis_authority;;
      mark_dirty (gv_identity v);;
      modify (fun s => s <| stakes ::= insert rid
        (mkStake rid (gv_stake v) StakePurpose.Witness (gv_identity v) f64_0 true) |>);;
      modify (fun s => s <| staker_index ::= insert (gv_identity v)
        (default [] (staker_index s !! gv_identity v) ++ [rid]) |>);;
      modify (fun s => s <| active_stakes_count ::= fun v => U64.sat_add v 1 |>);;
      total ← add_u64 (total_staked s) (gv_stake v);
      modify (fun s => bump_stake_seq (s <| total_staked := total |>));;
      mret true.

(** Returns the number of validators newly applied. *)
Fixpoint apply_genesis_validators (genesis_authority : string) (vs : list GenesisValidator) : L nat :=
  match vs with
  | [] => mret 0%nat
  | v :: vs =>
      applied ← apply_genesis_validator genesis_authority v;
      n ← apply_genesis_validators genesis_authority vs;
      mret (if applied : bool then S n else n)
  end.

(** ** The producer's idle-decay batch *)

(** Staker weights: the summed amounts of the indexed stakes, positive ones. *)
Definition staker_weights (s : LedgerState) : list (string * Z) :=
  filter (fun kv => 0 < kv.2)
    ((fun kv => (kv.1, zsum (se_amount <$> omap (fun sid => stakes s !! sid) kv.2)))
     <$> map_to_list (staker_index s)).

(** Phase 1: what each classified exchange owes, with the pool's part. *)
Definition deduction_of (s : LedgerState) (duration_secs : Z) (now : f64) (who : string) :
    option (string * Z * Z) :=
  if bool_decide (tracker_count (idle_decay s) who = 0%nat) then None
  else
    let bal := balance s who in
    if bal <? MIN_IDLE_DECAY_BALANCE then None
    else
      a ← assess_amount (idle_decay s) who bal duration_secs now;
      let deduct := Z.min (idle_decay_micros a) bal in
      if deduct =? 0 then None
      else Some (who, deduct, Z.min (pool_micros a) deduct).

(** Phase 2: the floor share of every staker, the dust back to the pool. *)
Fixpoint split_stakers (share total_weight : Z) (stakers : list (string * Z))
    (credits : gmap string Z) (distributed : Z) : outcome (gmap string Z * Z) :=
  match stakers with
  | [] => Ok (credits, distributed)
  | (who, weight) :: stakers =>
      let part := U64.as_u64 (share * weight / total_weight) in
      if 0 <? part then
        let credit := default 0 (credits !! who) + part in
        if U64.MAX <? credit then Panic
        else if U64.MAX <? distributed + part then Panic
        else split_stakers share total_weight stakers (<[who := credit]> credits) (distributed + part)
      else split_stakers share total_weight stakers credits distributed
  end.
Fixpoint accumulate (stakers : list (string * Z)) (total_weight : Z)
    (deductions : list (string * Z * Z)) (pool : Z) (credits : gmap string Z) :
    outcome (Z * gmap string Z) :=
  match deductions with
  | [] => Ok (pool, credits)
  | (_, deduct, pool_share) :: deductions =>
      if U64.MAX <? pool + pool_share then Panic
      else
        let pool := pool + pool_share in
        let staker_share := deduct - pool_share in
        if (0 <? staker_share) && (0 <? total_weight) then
          '(credits, distributed) ← split_stakers staker_share total_weight stakers credits 0;
          if staker_share <? distributed then Panic
          else if U64.MAX <? pool + (staker_share - distributed) then Panic
          else accumulate stakers total_weight deductions (pool + (staker_share - distributed)) credits
        else if 0 <? staker_share then
          if U64.MAX <? pool + staker_share then Panic
          else accumulate stakers total_weight deductions (pool + staker_share) credits
        else accumulate stakers total_weight deductions pool credits
  end.

Definition by_key (a b : string * Z) : Prop := String.leb a.1 b.1 = true.
#[global] Instance by_key_dec : RelDecision by_key.
Proof. intros a b. unfold by_key. apply _. Defined.

Definition compute_idle_decay_batch (s : LedgerState) (zone : string) (epoch : Z)
    (now epoch_duration_secs : f64) : outcome (option IdleDecayBatch) :=
  let duration_secs := f64_as_uint 64 (f64_max epoch_duration_secs f64_0) in
  if duration_secs =? 0 then Ok None
  else
    let stakers := staker_weights s in
    let total_weight := zsum stakers.*2 in
    let deductions := omap (deduction_of s duration_secs now)
                        (classified_identities (exchange_classifier s)) in
    match deductions with
    | [] => Ok None
    | _ =>
        '(pool_credit, credits) ← accumulate stakers total_weight deductions 0 ∅;
        Ok (Some (mkDecayBatch epoch zone
          (merge_sort by_key (deductions.*1)) pool_credit
          (merge_sort by_key (map_to_list credits))))
    end.
