(* ===== verification/LedgerInv.v ===== *)
(** * The ledger invariant

    The conservation law of src/src/accounting/ledger.rs with everything it needs
    to be inductive: every unit of supply is in an available balance, a stake, a
    witness bond, the conservation pool, a locked cross-zone transfer or an open
    prediction; stakes, their index and their counters agree; the vesting,
    dormancy and cross-zone components are well formed. *)

From S2P Require Import Prelude F64 Types Dormancy Acquisition Velocity CircuitBreaker.
From S2P Require Import Custodial IdleDecay CrossZone CrossZoneInv Records LedgerOps Ledger.
From S2P Require Import LedgerSeal.
Open Scope Z_scope.

(** ** Account maps *)

Notation accts := (gmap string AccountState).

(** The account an identity has, or would have. *)
Definition acc (m : accts) (who : string) : AccountState := default account_default (m !! who).

Record nonneg_account (a : AccountState) : Prop := {
  nn_available : 0 <= available a;
  nn_staked : 0 <= staked a;
  nn_bonded : 0 <= witness_bonded a;
}.
Definition nonneg_accts (m : accts) : Prop := ∀ who, nonneg_account (acc m who).

(** Everything an account holds. *)
Definition holdings (a : AccountState) : Z := available a + staked a + witness_bonded a.

Lemma acc_insert m k a who : acc (<[k:=a]> m) who = if decide (k = who) then a else acc m who.
Proof. unfold acc. rewrite lookup_insert. by case_decide. Qed.

Lemma account_acc s who : account s who = acc (accounts s) who.
Proof. done. Qed.

Lemma msum_acct (f : AccountState → Z) m k a :
  f account_default = 0 → msum f (<[k:=a]> m) = msum f m + f a - f (acc m k).
Proof. intros H. rewrite msum_insert. unfold acc. destruct (m !! k); simpl; lia. Qed.

Lemma nonneg_accts_insert m k a : nonneg_accts m → nonneg_account a → nonneg_accts (<[k:=a]> m).
Proof. intros H Ha who. rewrite acc_insert. by case_decide. Qed.

Lemma nonneg_accts_empty : nonneg_accts ∅.
Proof. intros who. by split. Qed.

Lemma acc_le (f : AccountState → Z) m who :
  (∀ who, 0 <= f (acc m who)) → f account_default = 0 → f (acc m who) <= msum f m.
Proof.
  intros Hm H0. assert (Hf : map_Forall (fun _ a => 0 <= f a) m).
  { intros k a E. specialize (Hm k). unfold acc in Hm. by rewrite E in Hm. }
  pose proof (msum_nonneg f m Hf). unfold acc. destruct (m !! who) as [a|] eqn:E; simpl; [|lia].
  by eapply msum_lookup_le.
Qed.

(** The three sums bound every account. *)
Lemma acc_bounds m who : nonneg_accts m →
  (0 <= available (acc m who) <= msum available m) ∧
  (0 <= staked (acc m who) <= msum staked m) ∧
  (0 <= witness_bonded (acc m who) <= msum witness_bonded m).
Proof.
  intros H. destruct (H who) as [Ha Hs Hb].
  pose proof (acc_le available m who (fun w => nn_available _ (H w)) eq_refl).
  pose proof (acc_le staked m who (fun w => nn_staked _ (H w)) eq_refl).
  pose proof (acc_le witness_bonded m who (fun w => nn_bonded _ (H w)) eq_refl). lia.
Qed.

Lemma acc_pair m k j : nonneg_accts m → k ≠ j →
  available (acc m k) + available (acc m j) <= msum available m.
Proof.
  intros H Hne. pose proof (acc_bounds (<[k := account_default]> m) j) as B.
  rewrite acc_insert, decide_False, !msum_acct in B by done. simpl in B.
  destruct B as [B _]; [by apply nonneg_accts_insert|lia].
Qed.

(** Maps that differ in default entries only. *)
Definition same_accts (m m' : accts) : Prop := ∀ who, acc m' who = acc m who.

Lemma same_accts_msum f m m' : f account_default = 0 → same_accts m m' → msum f m' = msum f m.
Proof.
  intros H0. revert m'. induction m as [|k a m Hk IH] using map_ind; intros m' H.
  - clear -H0 H. induction m' as [|k a m Hk IH] using map_ind; [done|].
    rewrite msum_insert_new by done. pose proof (H k) as E. rewrite acc_insert, decide_True in E by done.
    rewrite IH; [rewrite E; change (acc ∅ k) with account_default; lia|]. intros who. specialize (H who). rewrite acc_insert in H.
    case_decide; [|done]. subst. unfold acc. by rewrite Hk.
  - rewrite msum_insert_new by done. rewrite <- (IH (delete k m')).
    + pose proof (H k) as E. rewrite acc_insert, decide_True in E by done.
      unfold acc in E. destruct (m' !! k) as [b|] eqn:Eb; simpl in E.
      * subst. by rewrite (msum_delete f k a m' Eb).
      * rewrite delete_id by done. subst. lia.
    + intros who. specialize (H who). rewrite acc_insert in H. unfold acc in *.
      destruct (decide (who = k)) as [->|].
      * by rewrite lookup_delete_eq, Hk.
      * rewrite lookup_delete_ne by done. by case_decide.
Qed.

Lemma same_accts_refl m : same_accts m m.
Proof. done. Qed.
Lemma same_accts_entry m k : same_accts m (<[k := acc m k]> m).
Proof. intros who. rewrite acc_insert. case_decide; by subst. Qed.
#[export] Hint Resolve same_accts_refl same_accts_entry : elara.

Lemma wp_entry_or_default who Q s :
  Q (Ok (acc (accounts s) who)) (s <| accounts ::= insert who (acc (accounts s) who) |>) →
  wp (entry_or_default who) Q s.
Proof. done. Qed.

Lemma set_accounts_same s : s <| accounts := accounts s |> = s.
Proof. by destruct s. Qed.
Lemma set_pool_same s : s <| conservation_pool := conservation_pool s |> = s.
Proof. by destruct s. Qed.

(** [d] units credited to available balances of accounts in [ws]. *)
Record credited (m m' : accts) (ws : list string) (d : Z) : Prop := {
  cr_available who : available (acc m who) <= available (acc m' who);
  cr_staked who : staked (acc m' who) = staked (acc m who);
  cr_bonded who : witness_bonded (acc m' who) = witness_bonded (acc m who);
  cr_touched who : who ∉ ws → acc m' who = acc m who;
  cr_sum : msum available m' = msum available m + d;
  cr_sum_staked : msum staked m' = msum staked m;
  cr_sum_bonded : msum witness_bonded m' = msum witness_bonded m;
}.

Lemma credited_refl m ws : credited m m ws 0.
Proof. split; intros; lia || done. Qed.

Lemma credited_trans m1 m2 m3 ws d d' :
  credited m1 m2 ws d → credited m2 m3 ws d' → credited m1 m3 ws (d + d').
Proof.
  intros [] []. split; intros; try (etrans; [eauto|eauto]); try congruence; try lia.
  rewrite cr_touched1, cr_touched0 by done. done.
Qed.

Lemma credited_weaken m m' ws ws' d : credited m m' ws d → ws ⊆ ws' → credited m m' ws' d.
Proof. intros [] Hs. split; try done. intros who Hw. apply cr_touched0. set_solver. Qed.

(** One credit, through [entry().or_default()]. *)
Lemma credited_put m k a d ws :
  available a = available (acc m k) + d → staked a = staked (acc m k) →
  witness_bonded a = witness_bonded (acc m k) → 0 <= d → k ∈ ws →
  credited m (<[k := a]> (<[k := acc m k]> m)) ws d.
Proof.
  intros Ha Hs Hb Hd Hk. rewrite insert_insert_eq.
  split; intros; rewrite ?acc_insert, ?msum_acct by done; try lia;
    destruct (decide _); subst; try done; lia.
Qed.

Lemma credited_nonneg m m' ws d : nonneg_accts m → credited m m' ws d → nonneg_accts m'.
Proof.
  intros Hm [] who. destruct (Hm who). specialize (cr_available0 who).
  split; rewrite ?cr_staked0, ?cr_bonded0; lia.
Qed.

(** Of an account written back, only what it holds matters below. *)
Lemma wp_put_account who a Q s :
  (∀ a', available a' = available a → staked a' = staked a → witness_bonded a' = witness_bonded a →
     Q (Ok tt) (s <| accounts ::= insert who a' |>)) →
  wp (put_account who a) Q s.
Proof. intros HQ. by apply HQ. Qed.

Lemma wp_modify_velocity f Q (s : LedgerState) :
  (∀ v, Q (Ok tt) (s <| velocity := v |>)) → wp (modify (fun s => s <| velocity ::= f |>)) Q s.
Proof. intros HQ. apply wp_modify, HQ. Qed.

Lemma wp_track_balance who a ts Q s :
  (available a + staked a <= U64.MAX → ∀ v, Q (Ok tt) (s <| velocity := v |>)) →
  (U64.MAX < available a + staked a → Q Panic s) → wp (track_balance who a ts) Q s.
Proof.
  intros HOk HP. unfold track_balance, account_total. apply wp_bind, wp_add_u64; intros Hs; [|by apply HP].
  by apply wp_modify_velocity, HOk.
Qed.

(** ** The parts of the invariant *)

Definition open_amount (p : PredictionEntry) : Z :=
  if bool_decide (pe_outcome p = None) then pe_amount p else 0.
Definition active_amount (who : string) (e : StakeEntry) : Z :=
  if se_active e && bool_decide (se_staker e = who) then se_amount e else 0.
Definition active_any (e : StakeEntry) : Z := if se_active e then se_amount e else 0.
Definition active_one (e : StakeEntry) : Z := if se_active e then 1 else 0.

(** Where the supply is. *)
Definition value (s : LedgerState) : Z :=
  msum available (accounts s) + msum staked (accounts s) + msum witness_bonded (accounts s)
  + conservation_pool s + pending_xzone_locked s + msum open_amount (predictions s).

Record Money (s : LedgerState) : Prop := {
  m_accounts : nonneg_accts (accounts s);
  m_pool : 0 <= conservation_pool s;
  m_predictions : map_Forall (fun _ p => 0 <= pe_amount p) (predictions s);
  m_xzone : XInv (cross_zone s);
  m_locked : pending_xzone_locked s = total_locked (cross_zone s);
  m_staked : msum staked (accounts s) = total_staked s;
  m_value : value s = total_supply s;
  m_supply : 0 <= total_supply s <= MAX_SUPPLY;
}.

Lemma nonneg_msum (f : AccountState → Z) m : (∀ who, 0 <= f (acc m who)) → 0 <= msum f m.
Proof.
  intros Hm. apply msum_nonneg. intros k a E. specialize (Hm k). unfold acc in Hm.
  by rewrite E in Hm.
Qed.

(** Every part of the supply is a non-negative amount below the maximum. *)
Lemma Money_parts s : Money s →
  0 <= msum available (accounts s) ∧ 0 <= msum staked (accounts s) ∧
  0 <= msum witness_bonded (accounts s) ∧ 0 <= conservation_pool s ∧
  0 <= pending_xzone_locked s ∧ 0 <= msum open_amount (predictions s) ∧
  msum available (accounts s) + msum staked (accounts s) + msum witness_bonded (accounts s)
  + conservation_pool s + pending_xzone_locked s + msum open_amount (predictions s)
  = total_supply s ∧ total_supply s <= MAX_SUPPLY ∧ total_staked s = msum staked (accounts s).
Proof.
  intros []. repeat split; try done; try lia.
  - apply nonneg_msum. intros who. apply m_accounts0.
  - apply nonneg_msum. intros who. apply m_accounts0.
  - apply nonneg_msum. intros who. apply m_accounts0.
  - rewrite m_locked0. by apply XInv_total_nonneg.
  - apply msum_nonneg. intros k p E. unfold open_amount. case_match; [by eapply m_predictions0|lia].
Qed.

(** The index lists exactly the active stakes of every staker, once. *)
Definition index_ok (st : gmap string StakeEntry) (idx : gmap string (list string)) : Prop :=
  ∀ who, NoDup (default [] (idx !! who)) ∧
    ∀ rid, rid ∈ default [] (idx !! who) ↔
           ∃ e, st !! rid = Some e ∧ se_active e = true ∧ se_staker e = who.

Record StakesOk (s : LedgerState) : Prop := {
  st_amounts : map_Forall (fun _ e => 0 <= se_amount e ∧ (se_active e = true → 0 < se_amount e)) (stakes s);
  st_of who : staked (acc (accounts s) who) = msum (active_amount who) (stakes s);
  st_total : total_staked s = msum active_any (stakes s);
  st_index : index_ok (stakes s) (staker_index s);
  st_count : active_stakes_count s = msum active_one (stakes s);
}.

Lemma index_ok_add st idx rid e :
  index_ok st idx → st !! rid = None → se_active e = true →
  index_ok (<[rid := e]> st)
    (<[se_staker e := default [] (idx !! se_staker e) ++ [rid]]> idx).
Proof.
  intros Hix Hr Ha who. destruct (Hix who) as [Hnd Hin].
  assert (Hnot : rid ∉ default [] (idx !! who)) by (rewrite Hin, Hr; by intros (?&?&_)).
  destruct (decide (se_staker e = who)) as [<-|Hne].
  - rewrite lookup_insert_eq. simpl. split.
    + apply NoDup_app. split; [done|]. split; [|apply NoDup_singleton]. set_solver.
    + intros r. rewrite elem_of_app, list_elem_of_singleton, Hin.
      destruct (decide (r = rid)) as [->|].
      * rewrite lookup_insert_eq. naive_solver.
      * rewrite lookup_insert_ne by done. naive_solver.
  - rewrite lookup_insert_ne by done. split; [done|]. intros r. rewrite Hin.
    destruct (decide (r = rid)) as [->|].
    + rewrite Hr, lookup_insert_eq. naive_solver.
    + by rewrite lookup_insert_ne by done.
Qed.

Lemma index_ok_remove s rid e e' :
  index_ok (stakes s) (staker_index s) → stakes s !! rid = Some e → se_active e' = false →
  index_ok (<[rid := e']> (stakes s)) (staker_index (unindex_stake (se_staker e) rid s)).
Proof.
  intros Hix Hr Ha who. destruct (Hix who) as [Hnd Hin]. simpl.
  assert (E : default [] (match staker_index s !! se_staker e with
      | Some ids => if bool_decide (filter (fun i => i ≠ rid) ids = []) then
                      delete (se_staker e) (staker_index s)
                    else <[se_staker e := filter (fun i => i ≠ rid) ids]> (staker_index s)
      | None => staker_index s end !! who) =
    if decide (se_staker e = who) then filter (fun i => i ≠ rid) (default [] (staker_index s !! who))
    else default [] (staker_index s !! who)).
  { case_decide as Hd; [subst|]; destruct (staker_index s !! se_staker e) as [ids|] eqn:Ei; simpl;
      rewrite ?Ei; try done; case_bool_decide as Hf;
      rewrite ?lookup_delete_eq, ?lookup_insert_eq, ?lookup_delete_ne, ?lookup_insert_ne by done; done. }
  rewrite E. clear E. split; [case_decide; [by apply NoDup_filter|done]|].
  intros r. destruct (decide (r = rid)) as [->|Hne].
  - rewrite lookup_insert_eq. split; [|intros (x&[= <-]&?&?); congruence]. intros Hx. exfalso. revert Hx.
    case_decide; [rewrite list_elem_of_filter; naive_solver|]. rewrite Hin, Hr. naive_solver.
  - rewrite lookup_insert_ne, <- Hin by done. case_decide; [|done].
    rewrite list_elem_of_filter. naive_solver.
Qed.

Lemma index_ok_update st idx rid e e' :
  index_ok st idx → st !! rid = Some e → se_active e' = se_active e → se_staker e' = se_staker e →
  index_ok (<[rid := e']> st) idx.
Proof.
  intros Hix Hr Ha Hs who. destruct (Hix who) as [Hnd Hin]. split; [done|].
  intros r. rewrite Hin. destruct (decide (r = rid)) as [->|].
  - rewrite Hr, lookup_insert_eq.
    split; intros (x&[= <-]&?&?); eexists; split_and!; done || congruence.
  - by rewrite lookup_insert_ne by done.
Qed.

(** Active stakes are positive, so there are no more of them than staked units. *)
Lemma active_count_le s : StakesOk s → 0 <= active_stakes_count s <= total_staked s.
Proof.
  intros [Ha _ Ht _ Hc]. rewrite Ht, Hc. clear -Ha.
  induction (stakes s) as [|k e m Hk IH] using map_ind; [done|].
  apply map_Forall_insert in Ha as [[H1 H2] Ha]; [|done]. specialize (IH Ha).
  rewrite !msum_insert_new by done. unfold active_one at 1 3, active_any at 1.
  destruct (se_active e); [specialize (H2 eq_refl)|]; lia.
Qed.

(** [ids]: record ids being applied. *)
Record Side (ids : gset string) (s : LedgerState) : Prop := {
  sd_vesting : vesting_wf (vesting s);
  sd_granted who : granted (vesting s) who <= total_supply s;
  sd_dormancy : Dormancy.wf (dormancy s);
  sd_stake_ids rid : is_Some (stakes s !! rid) →
    rid ∈ applied_record_ids s ∪ ids ∨ String.prefix GENESIS_STAKE_RECORD_PREFIX rid = true;
  sd_prediction_ids rid : is_Some (predictions s !! rid) → rid ∈ applied_record_ids s ∪ ids;
  sd_prediction_keys : map_Forall (fun k p => pe_record_id p = k) (predictions s);
}.

Record Inv (ids : gset string) (s : LedgerState) : Prop := {
  inv_money :> Money s;
  inv_stakes :> StakesOk s;
  inv_side :> Side ids s;
}.

Lemma index_ok_empty : index_ok ∅ ∅.
Proof.
  intros who. rewrite lookup_empty. simpl. split; [constructor|].
  intros rid. split; [by intros ?%elem_of_nil|intros (e&E&_); by rewrite lookup_empty in E].
Qed.

Lemma Inv_new : Inv ∅ ledger_new.
Proof.
  assert (E : ∀ A rid, is_Some ((∅ : gmap string A) !! rid) → False)
    by (intros A rid [? Hr]; by rewrite lookup_empty in Hr).
  split; split; simpl;
    eauto using nonneg_accts_empty, map_Forall_empty, XInv_new, index_ok_empty, vesting_wf_new,
      Dormancy.wf_new; try done; intros ? []%E.
Qed.

(** ** Fields the invariant reads, with the bookkeeping of [apply_op]

    The velocity, acquisition, exchange and idle-decay trackers, the circuit
    breaker and the profile maps are not among them. *)

Definition core (s : LedgerState) :=
  (records_processed s, smt_dirty s, accounts s, stakes s, total_supply s, total_staked s, conservation_pool s, vesting s,
   applied_record_ids s, staker_index s, active_stakes_count s, predictions s,
   pending_xzone_locked s, cross_zone s, dormancy s).

Lemma Inv_core ids s s' : core s' = core s → Inv ids s → Inv ids s'.
Proof.
  intros E I. destruct s, s'. unfold core in E; simpl in E. simplify_eq.
  destruct I as [[] [] []]. by split; split.
Qed.

Lemma wp_modify_core f Q s :
  core (f s) = core s → (∀ s', core s' = core s → Q (Ok tt) s') → wp (modify f) Q s.
Proof. intros E HQ. by apply wp_modify, HQ. Qed.

Lemma core_accounts s s' : core s' = core s → accounts s' = accounts s.
Proof. unfold core. intros E. by simplify_eq. Qed.

(** ** Failed operations

    An operation that returns an error may have created default entries in the
    account map, nothing else. *)

Record unchanged (s s' : LedgerState) : Prop := {
  un_accounts : same_accts (accounts s) (accounts s');
  un_rest : s' = s <| accounts := accounts s' |>;
}.

Lemma unchanged_refl s : unchanged s s.
Proof. split; [done|by destruct s]. Qed.
Lemma unchanged_entry s who : unchanged s (s <| accounts ::= insert who (acc (accounts s) who) |>).
Proof. split; simpl; auto with elara. Qed.
#[export] Hint Resolve unchanged_refl unchanged_entry : elara.

Lemma StakesOk_transfer s s' :
  StakesOk s → stakes s' = stakes s → staker_index s' = staker_index s →
  total_staked s' = total_staked s → active_stakes_count s' = active_stakes_count s →
  (∀ who, staked (acc (accounts s') who) = staked (acc (accounts s) who)) → StakesOk s'.
Proof.
  intros [H1 H2 H3 H4 H5] Es Ei Et Ec Ea. split; rewrite ?Es, ?Ei, ?Et, ?Ec; try done.
  intros who. by rewrite Ea.
Qed.

Lemma Side_transfer ids s s' :
  Side ids s → vesting s' = vesting s → total_supply s <= total_supply s' →
  Dormancy.wf (dormancy s') → stakes s' = stakes s → predictions s' = predictions s →
  applied_record_ids s' = applied_record_ids s → Side ids s'.
Proof.
  intros [H1 H2 H3 H4 H5 H6] Ev Et Hd Es Ep Ea. split; rewrite ?Ev, ?Es, ?Ep, ?Ea; try done.
  intros who. specialize (H2 who). lia.
Qed.

Lemma Inv_unchanged ids s s' : Inv ids s → unchanged s s' → Inv ids s'.
Proof.
  intros [[] S D] [Ha E]. rewrite E. split.
  - split; simpl; try done.
    + intros who. rewrite Ha. apply m_accounts0.
    + by rewrite (same_accts_msum staked _ _ eq_refl Ha).
    + unfold value in *; simpl.
      rewrite !(same_accts_msum _ _ _ eq_refl Ha). done.
  - eapply StakesOk_transfer; [done..|]. intros who. simpl. by rewrite Ha.
  - eapply Side_transfer; try done; apply D.
Qed.

Lemma Side_weaken ids s : Side ∅ s → Side ids s.
Proof.
  intros []. split; try done.
  - intros rid Hr. apply sd_stake_ids0 in Hr. set_solver.
  - intros rid Hr. apply sd_prediction_ids0 in Hr. set_solver.
Qed.

Lemma Inv_weaken ids s : Inv ∅ s → Inv ids s.
Proof. intros []. by split; [| |apply Side_weaken]. Qed.

(** ** What an operation may do *)

Section contract.
Context `{Externals}.
Variables (record : ValidationRecord) (genesis_authority : string).
Let creator : string := creator_identity_hash record.

(** The integer arguments of an operation are [u64] values. *)
Definition op_typed (op : ParsedLedgerOp) : Prop :=
  match op with
  | Mint amount _ _ | Transfer amount _ _ | Stake amount _ | WitnessReward amount _ _ _
  | Slash amount _ _ _ _ _ | DormancyReclaim amount _ _ | Burn amount _ | PoolFund amount
  | Predict amount _ _ _ _ | XZoneLock amount _ _ _ | WitnessRegister _ amount => U64.is_u64 amount
  | IdleDecayOp b =>
      Forall (fun d => U64.is_u64 d.2) (debits b) ∧ U64.is_u64 (pool_credit b) ∧
      Forall (fun d => U64.is_u64 d.2) (staker_credits b)
  | _ => True
  end.

(** Text the operation slices for a message or a log line. *)
Definition texts_ok (op : ParsedLedgerOp) (s : LedgerState) : Prop :=
  match op with
  | XZoneLock _ recipient _ _ =>
      prefix16_ok recipient = true ∧ prefix16_ok (rec_id record) = true ∧
      (16 <= String.length (rec_id record))%nat
  | XZoneClaim tid _ recipient => prefix16_ok recipient = true ∧ prefix16_ok tid = true
  | XZoneCancel tid | XZoneAbort tid _ _ _ | XZoneReject tid => prefix16_ok tid = true
  | DormancyReclaim _ who _ | DormancyDeclare who _ | DormancyProofOfLife who _ =>
      prefix16_ok who = true
  | Slash _ offender _ _ rid _ =>
      prefix16_ok offender = true ∧ ∀ e, stakes s !! rid = Some e → prefix16_ok (se_staker e) = true
  | IdleDecayOp b => Forall (fun d => prefix16_ok d.1 = true) (debits b)
  | _ => True
  end.

(** Room in the lifetime counters, which the code bumps with plain [+=]. *)
Definition counters_ok (op : ParsedLedgerOp) (s : LedgerState) : Prop :=
  match op with
  | XZoneTimeoutRefund b | XZoneStaleReap b =>
      counters_below (cross_zone s) (Z.of_nat (length (refunds b)))
  | XZoneLock _ _ _ _ | XZoneClaim _ _ _ | XZoneCancel _ | XZoneAbort _ _ _ _ | XZoneReject _ =>
      counters_below (cross_zone s) 1
  | IdleDecayOp b =>
      NoDup (debits b).*1 ∧
      total_collected (idle_decay s) + total_debit b <= U64.MAX ∧
      total_pooled (idle_decay s) + pool_credit b <= U64.MAX ∧
      total_distributed (idle_decay s) + total_staker_credit b <= U64.MAX
  | _ => True
  end.

Definition safe (op : ParsedLedgerOp) (s : LedgerState) : Prop :=
  texts_ok op s ∧ counters_ok op s.

Definition minted (op : ParsedLedgerOp) : Z :=
  match op with Mint amount _ _ => amount | _ => 0 end.

(** The accounts beside the creator's that the operation may touch. *)
Definition touched (op : ParsedLedgerOp) (s : LedgerState) : list string :=
  match op with
  | XZoneTimeoutRefund b | XZoneStaleReap b =>
      omap (fun tid => sender <$> pending (cross_zone s) !! tid) (refunds b).*1.*1
  | _ => dirty_accounts op s
  end.

Record frame (op : ParsedLedgerOp) (s s' : LedgerState) : Prop := {
  fr_supply : total_supply s' = total_supply s + minted op;
  fr_touched who : who ∉ creator :: touched op s → acc (accounts s') who = acc (accounts s) who;
  fr_owner who : is_privileged_emitter creator genesis_authority = false → who ≠ creator →
    available (acc (accounts s) who) <= available (acc (accounts s') who) ∧
    staked (acc (accounts s') who) = staked (acc (accounts s) who) ∧
    witness_bonded (acc (accounts s') who) = witness_bonded (acc (accounts s) who);
  fr_rest : (applied_record_ids s', records_processed s', smt_dirty s') =
            (applied_record_ids s, records_processed s, smt_dirty s);
  fr_senders tid t : pending (cross_zone s) !! tid = Some t →
    ∃ t', pending (cross_zone s') !! tid = Some t' ∧ sender t' = sender t;
}.

Lemma frame_core op s s1 s' : core s' = core s1 → frame op s s1 → frame op s s'.
Proof.
  intros E F. destruct s1, s'. unfold core in E; simpl in E. simplify_eq.
  destruct F. by split.
Qed.

(** What running the body of an operation from [s] may lead to. *)
Definition post (op : ParsedLedgerOp) (s : LedgerState) (o : outcome unit) (s' : LedgerState) : Prop :=
  match o with
  | Ok _ => Inv {[ rec_id record ]} s' ∧ frame op s s'
  | Err _ => unchanged s s'
  | Panic => ¬ safe op s
  end.
End contract.
