(* ===== verification/LedgerSpec.v ===== *)
(** * Every ledger operation meets its contract

    For each body of [apply_op] in src/src/accounting/ledger.rs: run on a state
    that satisfies the invariant it ends in such a state, leaves the state alone
    on an error, and panics only outside the safe cases. *)

From S2P Require Import Prelude F64 Types Dormancy Acquisition Velocity CircuitBreaker.
From S2P Require Import Custodial IdleDecay CrossZone CrossZoneInv Records LedgerOps Ledger.
From S2P Require Import LedgerSeal LedgerInv.
Open Scope Z_scope.

(** ** Automation *)

(** One step of a ledger computation. *)
Ltac lstep :=
  lazymatch goal with
  | |- wp (modify (fun s => set velocity _ s)) _ _ => apply wp_modify_velocity; intro
  | |- wp (entry_or_default _) _ _ => apply wp_entry_or_default
  | |- wp (put_account _ _) _ _ => apply wp_put_account; intros
  | |- wp (track_balance _ _ _) _ _ => apply wp_track_balance; intros
  | |- wp (account_total _) _ _ => unfold account_total
  | |- _ => wp_step
  end; cbv beta match.

(** The bounds of every account the arithmetic mentions. *)
Ltac acc_facts m Hm :=
  repeat match goal with
  | |- context [acc m ?who] =>
      lazymatch goal with
      | _ : _ <= available (acc m who) <= _ |- _ => fail
      | _ => pose proof (acc_bounds m who Hm) as (?&?&?)
      end
  | _ : context [acc m ?who] |- _ =>
      lazymatch goal with
      | _ : _ <= available (acc m who) <= _ |- _ => fail
      | _ => pose proof (acc_bounds m who Hm) as (?&?&?)
      end
  end.

(** Sums and lookups of updated account maps, down to the original map. *)
Ltac acc_norm :=
  rewrite ?account_acc in *; simpl in *; rewrite ?insert_insert_eq in *;
  rewrite ?msum_acct in * by done; simpl in *; rewrite ?acc_insert in *;
  rewrite ?decide_True in * by done.

Ltac unfold_consts :=
  unfold U64.sat_add, U64.sat_sub, U64.is_u64, U64.MAX, MAX_SUPPLY, BASE_UNITS_PER_BEAT in *.


(** A movement between available balances, bonds and the pool. *)
Lemma Inv_move ids s s' :
  Inv ids s → nonneg_accts (accounts s') → 0 <= conservation_pool s' →
  stakes s' = stakes s → staker_index s' = staker_index s →
  active_stakes_count s' = active_stakes_count s → total_staked s' = total_staked s →
  predictions s' = predictions s → cross_zone s' = cross_zone s →
  pending_xzone_locked s' = pending_xzone_locked s → vesting s' = vesting s →
  Dormancy.wf (dormancy s') → applied_record_ids s' = applied_record_ids s →
  (∀ who, staked (acc (accounts s') who) = staked (acc (accounts s) who)) →
  msum staked (accounts s') = msum staked (accounts s) → total_supply s' = total_supply s →
  msum available (accounts s') + msum witness_bonded (accounts s') + conservation_pool s' =
  msum available (accounts s) + msum witness_bonded (accounts s) + conservation_pool s →
  Inv ids s'.
Proof.
  intros [[] S D] Hn Hp Es Ei Ec Et Epr Ex Epe Ev Hd Ea Hst Hss Hsup Hv. split.
  - split; rewrite ?Epr, ?Ex, ?Epe, ?Et, ?Hss, ?Hsup; try done.
    unfold value in *. rewrite Epr, Epe, Hss. lia.
  - by eapply StakesOk_transfer.
  - eapply Side_transfer; try done. lia.
Qed.

(** The accounts of the state reached, read off the original ones. *)
Ltac acc_cases := acc_norm; repeat case_decide; subst; simpl in *.

Ltac solve_nonneg m Hn :=
  simpl; repeat apply nonneg_accts_insert; try done; split; acc_cases; acc_facts m Hn; lia.

Ltac solve_move s I Hn :=
  eapply Inv_move; [by apply Inv_weaken, I|..]; try done;
  lazymatch goal with
  | |- nonneg_accts _ => solve_nonneg (accounts s) Hn
  | |- Dormancy.wf _ => apply I
  | _ => intros; acc_cases; lia
  end.

(** The frame of an operation with a known set of touched accounts. *)
Ltac solve_frame :=
  split; simpl;
  [ lia
  | let w := fresh in let Hw := fresh in
    intros w Hw; rewrite ?not_elem_of_cons in Hw; acc_cases; naive_solver
  | intros; acc_cases; try done; try congruence; lia
  | done
  | eauto ].

(** Overflow cannot happen: the supply bounds every sum. *)
Ltac no_overflow s Hn I :=
  lazymatch goal with |- ¬ _ => idtac end;
  exfalso; pose proof (Money_parts s I) as (?&?&?&?&?&?&?&?&?);
  acc_cases; acc_facts (accounts s) Hn; unfold_consts; lia.

Tactic Notation "lbegin" ident(I) ident(T) ident(Hn) :=
  intros I T; unfold op_typed, U64.is_u64 in T; unfold LedgerInv.post;
  let s := lazymatch type of I with Inv _ ?s => s end in
  pose proof (m_accounts s I) as Hn; pose proof (m_pool s I).
Ltac lrun := cbv zeta; repeat lstep; auto with elara; bools.

Section spec.
Context `{Externals}.
Variables (record : ValidationRecord) (genesis_authority : string).
Notation creator := (creator_identity_hash record).
Notation post := (post record genesis_authority).
Notation privileged := (is_privileged_emitter creator genesis_authority).




Lemma apply_burn_spec amount memo s :
  Inv ∅ s → op_typed (Burn amount memo) →
  wp (apply_burn record genesis_authority amount) (post (Burn amount memo) s) s.
Proof.
  lbegin I T Hn. unfold apply_burn. lrun; try (no_overflow s Hn I).
  split; [solve_move s I Hn|solve_frame].
Qed.

Lemma apply_witness_register_spec zone bond s :
  Inv ∅ s → op_typed (WitnessRegister zone bond) →
  wp (apply_witness_register record zone bond) (post (WitnessRegister zone bond) s) s.
Proof.
  lbegin I T Hn. unfold apply_witness_register. lrun; try (no_overflow s Hn I).
  pose proof (Money_parts s I) as (?&?&?&?&?&?&?&?&?).
  pose proof (acc_bounds (accounts s) creator Hn) as (?&?&?).
  assert (U64.sat_add (witness_bonded (acc (accounts s) creator)) bond =
          witness_bonded (acc (accounts s) creator) + bond) as Hb by (unfold_consts; lia).
  split; [|solve_frame].
  eapply Inv_move; [by apply Inv_weaken, I|..]; try done; intros; simpl; rewrite ?Hb; try apply I.
  - solve_nonneg (accounts s) Hn.
  - acc_cases; lia.
  - acc_cases; lia.
  - acc_cases; lia.
Qed.

Lemma apply_witness_reward_spec amount from to rid s :
  Inv ∅ s → op_typed (WitnessReward amount from to rid) →
  wp (apply_witness_reward record genesis_authority amount from to)
    (post (WitnessReward amount from to rid) s) s.
Proof.
  lbegin I T Hn. unfold apply_witness_reward. lrun; try (no_overflow s Hn I).
  split; [solve_move s I Hn|solve_frame].
Qed.


Lemma wp_track_transfer amount to Q s :
  (∀ who, available (acc (accounts s) who) + staked (acc (accounts s) who) <= U64.MAX) →
  (∀ s', core s' = core s → Q (Ok tt) s') → wp (track_transfer record amount to) Q s.
Proof.
  intros Hb HQ. unfold track_transfer. cbv zeta.
  do 5 (apply wp_bind, wp_modify_core; [reflexivity|intros]).
  apply wp_bind, wp_get. 
  assert (E : core s'3 = core s) by congruence. clear -Hb HQ E. revert E. generalize s'3. intros s1 E.
  assert (Ht : ∀ who s' (Q : outcome unit → LedgerState → Prop) f, core s' = core s → (∀ s'', core s'' = core s' → Q (Ok tt) s'') →
    wp (modify (fun s => s <| idle_decay ::= f |>);;
     bal ← account_total (account s1 who);
     modify (fun s => s <| idle_decay ::= idle_record_balance who bal (rec_timestamp record) |>)) Q s').
  { intros who s' Q' f E' HQ'. apply wp_bind, wp_modify_core; [reflexivity|intros s2 E2].
    unfold account_total. rewrite account_acc, (core_accounts _ _ E). specialize (Hb who).
    apply wp_bind, wp_add_u64; intros; [|lia]. apply wp_modify_core; [reflexivity|].
    intros s3 E3. apply HQ'. congruence. }
  apply wp_bind, wp_when; intros.
  - apply Ht; [done|]. intros s2 E2. apply wp_when; intros; [apply Ht|]; try congruence.
    intros. apply HQ. congruence. apply HQ. congruence.
  - apply wp_when; intros; [apply Ht|]; try congruence.
    intros. apply HQ. congruence. apply HQ. congruence.
Qed.

Lemma wp_check_unlocked amount av Q s :
  Side ∅ s → total_supply s <= MAX_SUPPLY → Q (Ok tt) s → (∀ e, Q (Err e) s) →
  wp (when (negb privileged) (check_unlocked record amount av)) Q s.
Proof.
  intros D Hs HOk HErr. apply wp_when; intros _; [|done].
  assert (granted (vesting s) creator <= U64.MAX)
    by (pose proof (sd_granted ∅ s D creator); unfold_consts; lia).
  unfold check_unlocked. cbv zeta. do 2 lstep. apply wp_bind, wp_transferable_balance; [apply D|done|].
  intros t _. apply wp_when; intros _; [|done].
  apply wp_bind, wp_locked_balance; [apply D|done|]. intros l _. by apply wp_throw.
Qed.

Lemma apply_transfer_spec amount to memo s :
  Inv ∅ s → op_typed (Transfer amount to memo) →
  wp (apply_transfer record genesis_authority amount to) (post (Transfer amount to memo) s) s.
Proof.
  lbegin I T Hn. unfold apply_transfer. cbv zeta.
  do 2 (lstep; lstep; [|auto with elara]).
  do 2 lstep.
  lstep; lstep; [|auto with elara]. 
  apply wp_bind, wp_check_unlocked; [apply I|apply (m_supply s I)| |auto with elara].
  bools. pose proof (acc_pair _ creator to Hn ltac:(done)).
  repeat lstep; auto with elara; bools; try (no_overflow s Hn I).
  apply wp_track_transfer.
  - intros who. pose proof (Money_parts s I) as (?&?&?&?&?&?&?&?&?).
    acc_cases; acc_facts (accounts s) Hn; unfold_consts; lia.
  - intros s' E. split; [eapply Inv_core; [done|solve_move s I Hn]|eapply frame_core; [done|solve_frame]].
Qed.

Lemma apply_mint_spec amount to reason s :
  Inv ∅ s → op_typed (Mint amount to reason) →
  wp (apply_mint record genesis_authority amount to reason) (post (Mint amount to reason) s) s.
Proof.
  lbegin I T Hn. unfold apply_mint. lrun; try (no_overflow s Hn I).
  all: pose proof (m_supply s I); split; [|solve_frame]; split;
    [ destruct (inv_money _ _ I); split; simpl; try done; try lia;
      [solve_nonneg (accounts s) Hn|acc_cases; lia|unfold value in *; acc_cases; lia]
    | eapply StakesOk_transfer; [apply I|done..|]; intros who; acc_cases; lia | ].
  all: destruct (inv_side _ _ (Inv_weaken {[rec_id record]} s I)) as [V1 V2 V3 V4 V5 V6];
    split; simpl; try done; intros;
    rewrite ?granted_add_vesting, ?granted_record_mint; auto with elara lia.
  all: specialize (V2 who); repeat case_decide; lia.
Qed.

(** ** Stakes *)

Lemma fresh_stake s :
  Inv ∅ s → rec_id record ∉ applied_record_ids s →
  String.prefix GENESIS_STAKE_RECORD_PREFIX (rec_id record) = false →
  stakes s !! rec_id record = None.
Proof.
  intros I Hf Hg. apply eq_None_not_Some. intros Hs.
  apply (sd_stake_ids ∅ s I) in Hs as [Hs|Hs]; [set_solver|congruence].
Qed.

Lemma apply_stake_spec amount purpose s :
  Inv ∅ s → op_typed (Stake amount purpose) → rec_id record ∉ applied_record_ids s →
  String.prefix GENESIS_STAKE_RECORD_PREFIX (rec_id record) = false →
  wp (apply_stake record amount purpose) (post (Stake amount purpose) s) s.
Proof.
  lbegin I T Hn. intros Hfr Hgen. pose proof (fresh_stake s I Hfr Hgen) as Hnone.
  unfold apply_stake. lrun; try (no_overflow s Hn I).
  pose proof (active_count_le s I). pose proof (Money_parts s I) as (?&?&?&?&?&?&?&?&?).
  split; [|solve_frame]. split.
  - destruct (inv_money _ _ I); split; simpl; try done; try lia;
      [solve_nonneg (accounts s) Hn|acc_cases; lia|unfold value in *; acc_cases; lia].
  - destruct (inv_stakes _ _ I) as [S1 S2 S3 S4 S5]. split; simpl.
    + apply map_Forall_insert_2; [simpl|done]. unfold MIN_STAKE, BASE_UNITS_PER_BEAT in *. lia.
    + intros who. rewrite msum_insert_new by done. unfold active_amount at 1. simpl.
      rewrite <- S2. case_bool_decide; acc_cases; done || lia.
    + rewrite msum_insert_new by done. unfold active_any at 1. simpl. lia.
    + by apply (index_ok_add _ _ _ (mkStake (rec_id record) amount purpose creator _ true)).
    + rewrite msum_insert_new by done. unfold active_one at 1. simpl. unfold_consts. lia.
  - destruct (inv_side _ _ (Inv_weaken {[rec_id record]} s I)) as [V1 V2 V3 V4 V5 V6].
    split; simpl; try done. intros rid. rewrite lookup_insert.
    destruct (decide (rec_id record = rid)); intros Hs; [|by apply V4]. left. rewrite elem_of_union, elem_of_singleton. auto.
Qed.

Lemma active_amount_le s rid e :
  StakesOk s → stakes s !! rid = Some e → se_active e = true →
  0 < se_amount e <= staked (acc (accounts s) (se_staker e)).
Proof.
  intros S E Ha. destruct (st_amounts s S _ _ E) as [? Hp]. specialize (Hp Ha).
  rewrite (st_of s S).
  pose proof (msum_lookup_le (active_amount (se_staker e)) rid e (stakes s)) as Hle.
  unfold active_amount in Hle at 2. rewrite Ha, bool_decide_eq_true_2 in Hle by done. simpl in Hle.
  split; [lia|]. apply Hle; [|done]. intros k x Ex. unfold active_amount. case_match; [|lia].
  by eapply (st_amounts s S).
Qed.

(** An active stake is reduced or closed. *)
Lemma StakesOk_change s s' rid e e' :
  StakesOk s → stakes s !! rid = Some e → stakes s' = <[rid := e']> (stakes s) →
  se_active e = true → se_staker e' = se_staker e →
  0 <= se_amount e' → (se_active e' = true → 0 < se_amount e') →
  (∀ who, staked (acc (accounts s') who) =
    staked (acc (accounts s) who) - if decide (se_staker e = who) then se_amount e - active_any e' else 0) →
  total_staked s' = total_staked s - (se_amount e - active_any e') →
  index_ok (<[rid := e']> (stakes s)) (staker_index s') →
  active_stakes_count s' = active_stakes_count s - (1 - active_one e') → StakesOk s'.
Proof.
  intros [S1 S2 S3 S4 S5] E Es Ha Hst H0 Hp Hof Ht Hix Hc. split; rewrite ?Es; try done.
  - by apply map_Forall_insert_2.
  - intros who. rewrite Hof, S2, msum_insert, E. simpl. unfold active_amount, active_any.
    rewrite Ha, Hst. simpl.
    destruct (decide (se_staker e = who)); [rewrite bool_decide_eq_true_2 by done
      |rewrite bool_decide_eq_false_2 by done]; destruct (se_active e'); simpl; lia.
  - rewrite Ht, S3, msum_insert, E. simpl.
    assert (active_any e = se_amount e) by (unfold active_any; by rewrite Ha). lia.
  - rewrite Hc, S5, msum_insert, E. simpl.
    assert (active_one e = 1) by (unfold active_one; by rewrite Ha). lia.
Qed.

Lemma active_count_pos s rid e :
  StakesOk s → stakes s !! rid = Some e → se_active e = true → 1 <= active_stakes_count s.
Proof.
  intros S E Ha. rewrite (st_count s S).
  pose proof (msum_lookup_le active_one rid e (stakes s)) as Hle.
  unfold active_one in Hle at 2. rewrite Ha in Hle. apply Hle; [|done].
  intros k x _. unfold active_one. case_match; lia.
Qed.

Lemma Side_stakes ids s s' rid :
  Side ids s → is_Some (stakes s !! rid) → (∀ r, r ≠ rid → stakes s' !! r = stakes s !! r) →
  vesting s' = vesting s → total_supply s' = total_supply s → dormancy s' = dormancy s →
  predictions s' = predictions s → applied_record_ids s' = applied_record_ids s → Side ids s'.
Proof.
  intros [V1 V2 V3 V4 V5 V6] Hr Hs Ev Et Ed Ep Ea. split; rewrite ?Ev, ?Et, ?Ed, ?Ep, ?Ea; try done.
  intros r Hx. apply V4. destruct (decide (r = rid)) as [->|]; [done|]. by rewrite <- Hs.
Qed.

Lemma apply_unstake_spec rid s :
  Inv ∅ s → op_typed (Unstake rid) → wp (apply_unstake record rid) (post (Unstake rid) s) s.
Proof.
  lbegin I T Hn. unfold apply_unstake. cbv zeta. do 2 lstep. lstep. lstep; [|auto with elara].
  rename a into e. do 2 (lstep; lstep; [|auto with elara]). bools.
  pose proof (active_amount_le s rid e I ltac:(done) ltac:(done)) as Hle.
  pose proof (active_count_pos s rid e I ltac:(done) ltac:(done)) as Hpos.
  assert (Est : se_staker e = creator) by done. rewrite Est in Hle.
  pose proof (active_count_le s I). lrun; try (no_overflow s Hn I).
  split; [|solve_frame]. split.
  - destruct (inv_money _ _ I); split; simpl; try done; try lia;
      [solve_nonneg (accounts s) Hn|acc_cases; lia|unfold value in *; acc_cases; lia].
  - eapply (StakesOk_change s _ rid e (e <| se_active := false |>));
      [apply I|done|done|done|done| |done|..]; simpl.
    + lia.
    + intros who. rewrite Est. unfold active_any; simpl. acc_cases; lia.
    + unfold active_any; simpl. lia.
    + rewrite <- Est. apply (index_ok_remove _ _ e); [apply I|done|done].
    + unfold active_one, U64.sat_sub; simpl. lia.
  - apply (Side_stakes _ s _ rid); try done; [by apply Inv_weaken|].
    intros r Hr. simpl. by rewrite lookup_insert_ne.
Qed.
End spec.
