(* ===== verification/LedgerSpecPool.v ===== *)
(** * Contracts of the pool, slash, prediction and dormancy operations

    The bodies of [apply_op] in src/src/accounting/ledger.rs that credit the
    conservation pool up to its cap, with the overflow handed back. *)

From S2P Require Import Prelude F64 Types Dormancy Acquisition Velocity CircuitBreaker.
From S2P Require Import Custodial IdleDecay CrossZone CrossZoneInv Records LedgerOps Ledger.
From S2P Require Import LedgerSeal LedgerInv LedgerSpec.
Open Scope Z_scope.

(** ** Shared helpers *)

Lemma wp_credit_pool_capped amount Q s :
  0 <= amount → 0 <= conservation_pool s → conservation_pool s + amount <= U64.MAX →
  (∀ p, 0 <= p <= amount → p = Z.min amount (pool_headroom s) →
     Q (Ok (amount - p)) (s <| conservation_pool := conservation_pool s + p |>)) →
  wp (credit_pool_capped amount) Q s.
Proof.
  intros Ha Hp Hb HQ. unfold credit_pool_capped. cbv zeta.
  assert (0 <= Z.min amount (pool_headroom s) <= amount)
    by (unfold pool_headroom, U64.sat_sub; lia).
  repeat lstep; try lia. by apply HQ.
Qed.

(** A decoration of an account that leaves its holdings alone. *)
Definition cosmetic (f : AccountState → AccountState) : Prop :=
  ∀ a, available (f a) = available a ∧ staked (f a) = staked a ∧ witness_bonded (f a) = witness_bonded a.

Lemma wp_credit_one who d f ws Q s :
  nonneg_accts (accounts s) → 0 <= d → msum available (accounts s) + d <= U64.MAX →
  who ∈ ws → cosmetic f →
  (∀ m, credited (accounts s) m ws d → Q (Ok tt) (s <| accounts := m |>)) →
  wp (c ← entry_or_default who; cv ← add_u64 (available c) d;
      put_account who (f (c <| available := cv |>))) Q s.
Proof.
  intros Hn Hd Hb Hw Hf HQ. pose proof (acc_bounds _ who Hn) as (?&?&?).
  repeat (lstep; try lia). edestruct Hf as (Ea&Es&Eb); rewrite Ea, Es, Eb in *.
  by apply HQ, credited_put.
Qed.

Lemma wp_prefix16 {S} t (Q : outcome unit → S → Prop) s :
  Q (Ok tt) s → (prefix16_ok t = false → Q Panic s) → wp (prefix16 t) Q s.
Proof. intros HOk HP. unfold prefix16, wp, mret. destruct (prefix16_ok t); [done|by apply HP]. Qed.

Lemma wp_slice16 {S} t (Q : outcome unit → S → Prop) s :
  Q (Ok tt) s → (slice16_ok t = false → Q Panic s) → wp (slice16 t) Q s.
Proof. intros HOk HP. unfold slice16, wp, mret. destruct (slice16_ok t); [done|by apply HP]. Qed.

Section pool.
Context `{Externals}.
Variables (record : ValidationRecord) (genesis_authority : string).
Notation creator := (creator_identity_hash record).
Notation post := (post record genesis_authority).

(** ** Jury and slash *)

Lemma wp_credit_jury per rem jury : ∀ Q s ws,
  0 <= per → 0 <= rem → nonneg_accts (accounts s) → jury ⊆ ws →
  msum available (accounts s) + per * Z.of_nat (length jury) + Z.min rem (Z.of_nat (length jury)) <= U64.MAX →
  (∀ m, credited (accounts s) m ws
          (per * Z.of_nat (length jury) + Z.min rem (Z.of_nat (length jury))) →
        Q (Ok tt) (s <| accounts := m |>)) →
  wp (credit_jury record per rem jury) Q s.
Proof.
  revert rem. induction jury as [|j jury IH]; intros rem Q s ws Hper Hrem Hn Hws Hb HQ;
    cbn [credit_jury]; cbv zeta.
  - apply wp_ret. rewrite <- (set_accounts_same s). apply HQ.
    change (Z.of_nat (length [])) with 0. replace (per * 0 + Z.min rem 0) with 0 by lia.
    apply credited_refl.
  - pose proof (acc_bounds _ j Hn) as (?&?&?). cbn [length] in *. rewrite Nat2Z.inj_succ in *.
    set (dust := if 0 <? rem then 1 else 0) in *.
    assert (Hdust : 0 <= dust <= 1 ∧ dust <= rem ∧
      dust + Z.min (rem - dust) (Z.of_nat (length jury)) = Z.min rem (Z.succ (Z.of_nat (length jury))))
      by (subst dust; destruct (Z.ltb_spec 0 rem); lia).
    assert (0 <= per * Z.of_nat (length jury)) by (apply Z.mul_nonneg_nonneg; lia).
    repeat lstep; try lia. cbn in *.
    assert (Hc : credited (accounts s) (<[j:=a']> (<[j:=acc (accounts s) j]> (accounts s))) ws (per + dust)).
    { apply credited_put; try done; [lia|set_solver]. }
    apply (IH (rem - dust) _ _ ws); try lia; cbn.
    + by eapply credited_nonneg.
    + set_solver.
    + rewrite (cr_sum _ _ _ _ Hc). lia.
    + intros m Hm. replace (per * Z.succ _ + _) with
        ((per + dust) + (per * Z.of_nat (length jury) + Z.min (rem - dust) (Z.of_nat (length jury))))
        in HQ by lia.
      apply (HQ m). by eapply credited_trans.
Qed.

Lemma wp_jury_share pool_share jury_share jury (Q : outcome Z → LedgerState → Prop) s ws :
  0 <= pool_share → 0 <= jury_share → nonneg_accts (accounts s) → jury ⊆ ws →
  msum available (accounts s) + jury_share + pool_share <= U64.MAX →
  (∀ m c, pool_share <= c <= pool_share + jury_share →
     credited (accounts s) m ws (pool_share + jury_share - c) →
     Q (Ok c) (s <| accounts := m |>)) →
  wp (match jury with
      | [] => add_u64 pool_share jury_share
      | _ =>
          product ← mul_u64 (jury_share / Z.of_nat (length jury)) (Z.of_nat (length jury));
          remainder ← sub_u64 jury_share product;
          credit_jury record (jury_share / Z.of_nat (length jury)) remainder jury;;
          mret pool_share
      end) Q s.
Proof.
  intros Hp Hj Hn Hws Hb HQ. pose proof (nonneg_msum available _ (fun w => nn_available _ (Hn w))).
  destruct jury as [|j jury].
  - lstep; [|lia]. rewrite <- (set_accounts_same s). apply HQ; [lia|].
    replace (_ - _) with 0 by lia. apply credited_refl.
  - set (n := Z.of_nat (length (j :: jury))).
    assert (0 < n) by (subst n; simpl; lia).
    pose proof (Z.div_mod jury_share n). pose proof (Z.mod_pos_bound jury_share n).
    assert (0 <= jury_share / n) by (apply Z.div_pos; lia).
    repeat (lstep; try lia).
    apply wp_credit_jury with (ws := ws); try done; fold n; try lia.
    intros m Hm. lstep. apply HQ; [lia|]. revert Hm. fold n.
    by replace (_ + _) with (pool_share + jury_share - pool_share) by lia.
Qed.

Lemma wp_slash_credits pool_share challenger_share jury_share challenger jury Q s :
  0 <= pool_share → 0 <= challenger_share → 0 <= jury_share →
  nonneg_accts (accounts s) → 0 <= conservation_pool s →
  msum available (accounts s) + conservation_pool s + pool_share + challenger_share + jury_share <= U64.MAX →
  (∀ m p, 0 <= p → credited (accounts s) m (challenger :: jury)
            (pool_share + challenger_share + jury_share - p) →
     Q (Ok tt) (s <| accounts := m |> <| conservation_pool := conservation_pool s + p |>)) →
  wp (slash_credits record pool_share challenger_share jury_share challenger jury) Q s.
Proof.
  intros Hps Hcs Hjs Hn Hp Hb HQ. unfold slash_credits. cbv zeta.
  pose proof (acc_bounds _ challenger Hn) as (?&?&?).
  pose proof (nonneg_msum available _ (fun w => nn_available _ (Hn w))).
  do 4 (lstep; try lia). lstep. lstep. cbn in *.
  match goal with |- wp _ _ ?st =>
    assert (H1c : credited (accounts s) (accounts st) (challenger :: jury) challenger_share)
      by (by apply credited_put; try done; set_solver) end.
  cbn in H1c. lstep. apply wp_jury_share with (ws := challenger :: jury); try done; cbn.
  { by eapply credited_nonneg. }
  { set_solver. }
  { rewrite (cr_sum _ _ _ _ H1c). lia. }
  intros m c Hc Hm. pose proof (credited_trans _ _ _ _ _ _ H1c Hm) as H2c.
  assert (Hnm : nonneg_accts m) by (by eapply credited_nonneg).
  lstep. apply wp_credit_pool_capped; cbn; [lia|lia|lia|].
  intros p Hpp _. lstep; bools.
  - apply wp_credit_one with (ws := challenger :: jury); cbn;
      [done|lia|rewrite (cr_sum _ _ _ _ H2c); lia|set_solver|done|].
    intros m' Hm'. apply (HQ m' p); [lia|].
    replace (_ - p) with (challenger_share + (pool_share + jury_share - c) + (c - p)) by lia.
    by eapply credited_trans.
  - apply (HQ m p); [lia|].
    by replace (_ - p) with (challenger_share + (pool_share + jury_share - c)) by lia.
Qed.

Lemma slash_shares_ok a : 0 <= a <= U64.MAX →
  0 <= slash_pool_share a ∧ 0 <= slash_challenger_share a ∧
  slash_pool_share a + slash_challenger_share a <= a.
Proof.
  intros Ha. unfold slash_pool_share, slash_challenger_share, SLASH_POOL_FRACTION_NUM,
    SLASH_POOL_FRACTION_DEN, SLASH_CHALLENGER_FRACTION_NUM, SLASH_CHALLENGER_FRACTION_DEN.
  rewrite !U64.as_u64_small by (unfold U64.MAX in *; split; [apply Z.div_pos; lia|];
    apply Z.div_le_upper_bound; lia).
  pose proof (Z.div_mod (a * 1) 2). pose proof (Z.mod_pos_bound (a * 1) 2).
  pose proof (Z.div_mod (a * 3) 10). pose proof (Z.mod_pos_bound (a * 3) 10). lia.
Qed.

Lemma max_slash_below a : 0 < a <= U64.MAX → 0 <= max_slash_of a < a.
Proof.
  intros Ha. unfold max_slash_of, MAX_SLASH_PERCENTAGE_NUM, MAX_SLASH_PERCENTAGE_DEN.
  rewrite U64.as_u64_small by (unfold U64.MAX in *; split; [apply Z.div_pos; lia|];
    apply Z.div_le_upper_bound; lia).
  pose proof (Z.div_mod (a * 1) 2). pose proof (Z.mod_pos_bound (a * 1) 2). lia.
Qed.

(** The offender's side of a slash: a partial reduction of an active stake. *)
Lemma wp_slash_stake actual offender rid e Q s :
  Inv ∅ s → stakes s !! rid = Some e → se_active e = true → se_staker e = offender →
  0 < actual < se_amount e →
  (∀ s',
     (∀ who, available (acc (accounts s') who) = available (acc (accounts s) who) ∧
             witness_bonded (acc (accounts s') who) = witness_bonded (acc (accounts s) who) ∧
             0 <= staked (acc (accounts s') who) <= staked (acc (accounts s) who)) →
     (∀ who, who ≠ offender → acc (accounts s') who = acc (accounts s) who) →
     msum available (accounts s') = msum available (accounts s) →
     msum witness_bonded (accounts s') = msum witness_bonded (accounts s) →
     msum staked (accounts s') = msum staked (accounts s) - actual →
     total_staked s' = total_staked s - actual → StakesOk s' → Side ∅ s' →
     conservation_pool s' = conservation_pool s → predictions s' = predictions s →
     cross_zone s' = cross_zone s → pending_xzone_locked s' = pending_xzone_locked s →
     total_supply s' = total_supply s →
     (applied_record_ids s', records_processed s', smt_dirty s') =
       (applied_record_ids s, records_processed s, smt_dirty s) →
     Q (Ok tt) s') →
  wp (slash_stake record actual offender rid e) Q s.
Proof.
  intros I E Ha <- Hact HQ. pose proof (m_accounts s I) as Hn.
  pose proof (active_amount_le s rid e I E Ha) as Hle.
  pose proof (Money_parts s I) as (?&?&?&?&?&?&?&?&?).
  pose proof (acc_bounds _ (se_staker e) Hn) as (?&?&?).
  unfold slash_stake. cbv zeta. repeat (lstep; bools; cbn in *; try lia).
  apply HQ; cbn; try done; try lia.
  - intros who. acc_facts (accounts s) Hn. acc_cases; lia.
  - intros who Hw. acc_cases; done.
  - acc_cases; lia.
  - acc_cases; lia.
  - acc_cases; lia.
  - eapply (StakesOk_change s _ rid e (e <| se_amount := se_amount e - actual |>));
      [apply I|done|done|done|done| |intros; cbn; lia|..]; cbn.
    + lia.
    + intros who. unfold active_any; simpl. rewrite Ha. acc_cases; lia.
    + unfold active_any; simpl. rewrite Ha. lia.
    + apply (index_ok_update _ _ _ e); [apply I|done|done|done].
    + unfold active_one; simpl. rewrite Ha. lia.
  - apply (Side_stakes _ s _ rid); try done; [apply I|].
    intros r Hr. simpl. by rewrite lookup_insert_ne.
Qed.

Lemma apply_slash_spec amount offender challenger jury rid reason s :
  Inv ∅ s → op_typed (Slash amount offender challenger jury rid reason) →
  wp (apply_slash record genesis_authority amount offender challenger jury rid)
    (post (Slash amount offender challenger jury rid reason) s) s.
Proof.
  lbegin I T Hn. unfold apply_slash. cbv zeta.
  pose proof (Money_parts s I) as (?&?&?&?&?&?&?&?&?).
  lstep. lstep; [|auto with elara]. do 3 lstep. lstep; [|auto with elara]. rename a into e.
  lstep. lstep; [|auto with elara]. lstep.
  pose proof (active_amount_le s rid e I ltac:(done) ltac:(done)) as Hle.
  pose proof (acc_bounds _ (se_staker e) Hn) as (?&?&?).
  assert (HMAX : MAX_SUPPLY <= U64.MAX) by done.
  pose proof (max_slash_below (se_amount e) ltac:(lia)).
  lstep; bools.
  2: { lstep. apply wp_prefix16. 2: { intros Hx [[_ Hs] _]. cbn in Hs. rewrite (Hs e) in Hx; done. }
       lstep. apply wp_prefix16. 2: { intros Hx [[Hs _] _]. cbn in Hs. congruence. }
       lstep. auto with elara. }
  set (actual := Z.min (Z.min amount (max_slash_of (se_amount e))) (se_amount e)) in *.
  do 2 lstep. lstep; [|auto with elara]. bools.
  pose proof (slash_shares_ok actual ltac:(lia)) as (?&?&?).
  do 4 (lstep; try lia). lstep. eapply wp_slash_stake; [done..|lia|].
  intros s1 Hacc Hoth Ea Eb Est Ets HSt HSd Ep Epr Ecz Epx Esup Eids.
  assert (Hn1 : nonneg_accts (accounts s1)).
  { intros who. destruct (Hacc who) as (Ea1&Eb1&?). destruct (Hn who). split; rewrite ?Ea1, ?Eb1; lia. }
  apply wp_slash_credits; try lia; [done|].
  intros m p Hp Hc. split.
  - split.
    + destruct (inv_money _ _ I). split; cbn; rewrite ?Epr, ?Ecz, ?Epx, ?Esup, ?Ets; try done; try lia.
      * by eapply credited_nonneg; [apply Hn1|].
      * rewrite (cr_sum_staked _ _ _ _ Hc). lia.
      * unfold value in *. cbn. rewrite Ep, (cr_sum_staked _ _ _ _ Hc),
          (cr_sum_bonded _ _ _ _ Hc), (cr_sum _ _ _ _ Hc). lia.
    + eapply StakesOk_transfer; [done..|]. intros who. cbn. apply (cr_staked _ _ _ _ Hc).
    + eapply Side_weaken, Side_transfer; [apply HSd|done|cbn; lia|apply HSd|done..].
  - split; cbn; [lia| |congruence|done|rewrite Ecz; eauto].
    intros who Hw. rewrite !not_elem_of_cons in Hw.
    rewrite (cr_touched _ _ _ _ Hc), Hoth; [done|naive_solver|].
    rewrite not_elem_of_cons. naive_solver.
Qed.

(** ** Pool funding *)

Lemma apply_pool_fund_spec amount s :
  Inv ∅ s → op_typed (PoolFund amount) →
  wp (apply_pool_fund record genesis_authority amount) (post (PoolFund amount) s) s.
Proof.
  lbegin I T Hn. unfold apply_pool_fund. cbv zeta.
  pose proof (Money_parts s I) as (?&?&?&?&?&?&?&?&?).
  pose proof (acc_bounds _ creator Hn) as (?&?&?).
  assert (HMAX : MAX_SUPPLY <= U64.MAX) by done.
  repeat (lazymatch goal with |- wp (credit_pool_capped _ ≫= _) _ _ => fail | _ => lstep end);
    auto with elara; bools; try (no_overflow s Hn I).
  lstep. apply wp_credit_pool_capped; cbn in *; [lia|lia|lia|].
  intros p Hp _. lrun; cbn in *; try (no_overflow s Hn I);
    (split; [solve_move s I Hn|solve_frame]).
Qed.

(** ** Predictions *)

Lemma apply_predict_spec amount zone epoch claim value_ s :
  Inv ∅ s → op_typed (Predict amount zone epoch claim value_) →
  rec_id record ∉ applied_record_ids s →
  wp (apply_predict record amount zone epoch claim value_)
    (post (Predict amount zone epoch claim value_) s) s.
Proof.
  lbegin I T Hn. intros Hfr. unfold apply_predict.
  assert (Hnone : predictions s !! rec_id record = None).
  { apply eq_None_not_Some. intros Hs. apply (sd_prediction_ids ∅ s I) in Hs. set_solver. }
  lrun; try (no_overflow s Hn I); (split; [|solve_frame]; split).
  all: try (eapply StakesOk_transfer; [apply I|done..|]; intros who; acc_cases; lia).
  all: try (destruct (inv_side _ _ (Inv_weaken {[rec_id record]} s I)) as [V1 V2 V3 V4 V5 V6];
    split; cbn; try done; [|by apply map_Forall_insert_2];
    intros rid; rewrite lookup_insert; destruct (decide (rec_id record = rid)); intros Hs; [|by apply V5];
    rewrite elem_of_union, elem_of_singleton; auto).
  all: destruct (inv_money _ _ I); split; cbn; try done; try lia;
    [solve_nonneg (accounts s) Hn|by apply map_Forall_insert_2; [apply T|]|acc_cases; lia|].
  all: unfold value in *; cbn; rewrite (msum_insert_new open_amount) by done;
    unfold open_amount at 1; cbn; acc_cases; lia.
Qed.

(** ** Dormancy *)

Lemma apply_dormancy_declare_spec target last s :
  Inv ∅ s → op_typed (DormancyDeclare target last) →
  wp (apply_dormancy_declare record target last) (post (DormancyDeclare target last) s) s.
Proof.
  lbegin I T Hn. unfold apply_dormancy_declare. cbv zeta. do 2 lstep.
  destruct (accounts s !! target) as [a|] eqn:E.
  - lstep. lstep; [|auto with elara]. lstep. apply wp_zoom.
    eapply wp_mono; [apply Dormancy.declare_spec|]. intros o d Hd.
    destruct o; [|subst; destruct s; apply unchanged_refl|done].
    destruct Hd as (Hp&Hw&He&->). apply wp_prefix16; [|intros Hx [Hs _]; cbn in Hs; congruence].
    split; [|solve_frame]. eapply Inv_move; [by apply Inv_weaken, I|..]; try done; try apply I.
    apply Dormancy.wf_declared; [apply I|done..].
  - lstep. apply wp_prefix16; [lstep; auto with elara|intros Hx [Hs _]; cbn in Hs; congruence].
Qed.

(** Resetting [last_active] moves no value. *)
Definition reset_in (who : string) (ts : f64) (m : accts) : accts :=
  alter (fun a => a <| last_active := ts |>) who m.
#[local] Arguments reset_in : simpl never.

Lemma reset_acc m who ts k :
  available (acc (reset_in who ts m) k) = available (acc m k) ∧
  staked (acc (reset_in who ts m) k) = staked (acc m k) ∧
  witness_bonded (acc (reset_in who ts m) k) = witness_bonded (acc m k) ∧
  (k ≠ who → acc (reset_in who ts m) k = acc m k).
Proof.
  unfold acc, reset_in. destruct (decide (k = who)) as [->|].
  - rewrite lookup_alter_eq. by destruct (m !! who).
  - by rewrite lookup_alter_ne by done.
Qed.

Lemma Inv_woken s who ts :
  Inv ∅ s → phase (dormancy s) who = Dormant →
  Inv {[ rec_id record ]}
    (s <| dormancy ::= fun d => d <| phases ::= delete who |> <| declarations ::= delete who |> |>
       <| accounts ::= reset_in who ts |>).
Proof.
  intros I Hp. pose proof (m_accounts s I) as Hn.
  eapply Inv_move; [by apply Inv_weaken, I|..]; try done; cbn.
  - intros k. destruct (reset_acc (accounts s) who ts k) as (Ea&Es&Eb&_). destruct (Hn k).
    split; rewrite ?Ea, ?Es, ?Eb; lia.
  - apply I.
  - apply Dormancy.wf_woken; [apply I|done].
  - intros k. by destruct (reset_acc (accounts s) who ts k) as (Ea&Es&Eb&_).
  - unfold reset_in. by rewrite msum_alter.
  - unfold reset_in. by rewrite !msum_alter.
Qed.

Lemma apply_dormancy_heartbeat_spec s :
  Inv ∅ s → op_typed DormancyHeartbeat →
  wp (apply_dormancy_heartbeat record) (post DormancyHeartbeat s) s.
Proof.
  lbegin I T Hn. unfold apply_dormancy_heartbeat, reset_last_active. cbv zeta.
  lstep. apply wp_zoom. eapply wp_mono; [apply Dormancy.wake_up_spec|]. intros o d Hd.
  destruct o; [|subst; destruct s; apply unchanged_refl|done]. destruct Hd as (Hp&_&->).
  lstep.
  split; [by apply Inv_woken|]. split; [cbn; lia| | |done|cbn; eauto];
    intros who; destruct (reset_acc (accounts s) creator (rec_timestamp record) who) as (Ea&Es&Eb&Eo).
  - intros [Hw _]%not_elem_of_cons. exact (Eo Hw).
  - intros _ _. exact (conj (Z.eq_le_incl _ _ (eq_sym Ea)) (conj Es Eb)).
Qed.

Lemma apply_dormancy_proof_of_life_spec target sig s :
  Inv ∅ s → op_typed (DormancyProofOfLife target sig) →
  wp (apply_dormancy_proof_of_life record target) (post (DormancyProofOfLife target sig) s) s.
Proof.
  lbegin I T Hn. unfold apply_dormancy_proof_of_life, reset_last_active. cbv zeta.
  lstep. apply wp_zoom. eapply wp_mono; [apply Dormancy.wake_up_spec|]. intros o d Hd.
  destruct o; [|subst; destruct s; apply unchanged_refl|done]. destruct Hd as (Hp&_&->).
  do 2 lstep.
  apply wp_prefix16; [|intros Hx [Hs _]; cbn in Hs; congruence].
  split; [by apply Inv_woken|]. split; [cbn; lia| | |done|cbn; eauto];
    intros who; destruct (reset_acc (accounts s) target (rec_timestamp record) who) as (Ea&Es&Eb&Eo).
  - intros [_ [Hw _]%not_elem_of_cons]%not_elem_of_cons. exact (Eo Hw).
  - intros _ _. exact (conj (Z.eq_le_incl _ _ (eq_sym Ea)) (conj Es Eb)).
Qed.

Lemma apply_dormancy_reclaim_spec amount who last s :
  Inv ∅ s → op_typed (DormancyReclaim amount who last) →
  wp (apply_dormancy_reclaim record genesis_authority amount who last)
    (post (DormancyReclaim amount who last) s) s.
Proof.
  lbegin I T Hn. unfold apply_dormancy_reclaim. cbv zeta.
  pose proof (Money_parts s I) as (?&?&?&?&?&?&?&?&?).
  pose proof (acc_bounds _ who Hn) as (?&?&?).
  assert (HMAX : MAX_SUPPLY <= U64.MAX) by done.
  lstep. lstep; [|auto with elara]. do 2 lstep.
  destruct (accounts s !! who) as [a|] eqn:E.
  2: { lstep. apply wp_prefix16; [lstep; auto with elara|intros Hx [Hs _]; cbn in Hs; congruence]. }
  assert (Ea : acc (accounts s) who = a) by (unfold acc; by rewrite E). rewrite Ea in *.
  do 2 (lstep; lstep; [|auto with elara]). lstep.
  destruct (phase (dormancy s) who).
  1, 3: lstep; apply wp_prefix16; [lstep; auto with elara|intros Hx [Hs _]; cbn in Hs; congruence].
  lstep.
  do 2 (lstep; lstep; [|auto with elara]). bools.
  set (r := Z.min amount (available a)) in *. do 2 (lstep; try lia). do 3 lstep.
  apply wp_credit_pool_capped; [lia|cbn; lia|cbn; lia|]. intros p Hp _. cbn [conservation_pool] in *.
  assert (Hfin : ∀ a2 s2, accounts s2 = <[who := a2]> (accounts s) →
    conservation_pool s2 = conservation_pool s + p →
    available a2 = available a - p → staked a2 = staked a → witness_bonded a2 = witness_bonded a →
    s2 = s <| accounts := accounts s2 |> <| conservation_pool := conservation_pool s2 |> →
    post (DormancyReclaim amount who last) s (Ok tt)
      (s2 <| dormancy ::= record_reclamation who r |>)).
  { intros a2 s2 E2 Ep2 Ha2 Hs2 Hb2 ->. rewrite E2, Ep2. split; [|subst; solve_frame].
    eapply Inv_move; [by apply Inv_weaken, I|..]; try done; cbn; rewrite ?E2;
      try (intros; acc_cases; lia); try (apply Dormancy.wf_reclamation, I).
    apply nonneg_accts_insert; [done|split; lia]. }
  lstep. lstep; bools.
  - do 4 lstep; 
      [|match goal with H : _ !! who = None |- _ => cbn in H; by rewrite lookup_insert_eq in H end].
    match goal with H : _ !! who = Some _ |- _ => cbn in H; rewrite lookup_insert_eq in H; injection H as <- end.
    do 2 (lstep; try (cbn in *; lia)).
    do 2 lstep. eapply Hfin; [cbn; by rewrite insert_insert_eq|..]; cbn in *; done || lia.
  - lstep. eapply Hfin; [done|..]; cbn in *; done || lia.
Qed.

(** ** Idle decay *)

Lemma wp_check_debits l : ∀ (Q : outcome unit → LedgerState → Prop) s,
  (Forall (fun d => d.2 <= available (acc (accounts s) d.1)) l → Q (Ok tt) s) →
  (∀ e, Q (Err e) s) → (¬ Forall (fun d => prefix16_ok d.1 = true) l → Q Panic s) →
  wp (check_debits l) Q s.
Proof.
  induction l as [|[who amt] l IH]; intros Q s HOk HErr HP; cbn [check_debits].
  - apply wp_ret, HOk. constructor.
  - do 3 lstep. lstep; bools.
    + lstep. apply wp_prefix16; [by lstep|]. intros Hx. apply HP. intros Hf.
      inversion_clear Hf. cbn in *. congruence.
    + lstep. apply IH; [|done|].
      * intros Hf. apply HOk. by constructor.
      * intros Hx. apply HP. intros Hf. by inversion_clear Hf.
Qed.

(** Debits of available balances: what they leave. *)
Record debited (m m' : accts) (l : list (string * Z)) : Prop := {
  db_nonneg : nonneg_accts m';
  db_staked who : staked (acc m' who) = staked (acc m who);
  db_bonded who : witness_bonded (acc m' who) = witness_bonded (acc m who);
  db_touched who : who ∉ l.*1 → acc m' who = acc m who;
  db_sum : msum available m' = msum available m - zsum l.*2;
  db_sum_staked : msum staked m' = msum staked m;
  db_sum_bonded : msum witness_bonded m' = msum witness_bonded m;
}.

Definition debits_fit (m : accts) (l : list (string * Z)) : Prop :=
  NoDup l.*1 ∧ Forall (fun d => d.2 <= available (acc m d.1)) l.

Lemma wp_apply_debits l : ∀ c (Q : outcome Z → LedgerState → Prop) s,
  nonneg_accts (accounts s) → Forall (fun d => 0 <= d.2) l →
  Forall (fun d => accounts s !! d.1 = None → d.2 = 0) l →
  0 <= c → c + msum available (accounts s) <= U64.MAX →
  (∀ m, debited (accounts s) m l → Q (Ok (c + zsum l.*2)) (s <| accounts := m |>)) →
  (¬ debits_fit (accounts s) l → ∀ s', Q Panic s') →
  wp (apply_debits c l) Q s.
Proof.
  induction l as [|[who amt] l IH]; intros c Q s Hn Hp Hz Hc Hb HOk HP; cbn [apply_debits].
  - apply wp_ret. rewrite <- (set_accounts_same s). cbn in HOk. rewrite Z.add_0_r in HOk.
    apply HOk. split; intros; cbn; done || lia.
  - apply Forall_cons in Hp as [H0 Hp]. apply Forall_cons in Hz as [Hz0 Hz]. cbn in *.
    pose proof (acc_bounds _ who Hn) as (?&?&?).
    do 3 lstep. destruct (accounts s !! who) as [a|] eqn:E.
    + assert (Ea : acc (accounts s) who = a) by (unfold acc; by rewrite E). rewrite Ea in *.
      lstep. lstep.
      2: { apply HP. intros [_ Hf]. apply Forall_cons in Hf as [Hf _]. cbn in Hf. rewrite Ea in Hf. lia. }
      do 2 lstep. lstep; [|lia].
      apply IH; cbn in *; try done; try lia.
      * apply nonneg_accts_insert; [done|]. split; lia.
      * eapply Forall_impl; [exact Hz|]. intros [w x] Hx. cbn in *. rewrite lookup_insert.
        by case_decide.
      * rewrite msum_acct, Ea by done. lia.
      * intros m [D1 D2 D3 D4 D5 D6 D7]. rewrite <- Z.add_assoc. apply (HOk m).
        rewrite msum_acct, Ea in D5, D6, D7 by done.
        unfold zsum in *. split; cbn; try done; try lia.
        -- intros w. rewrite D2, acc_insert. case_decide; subst; congruence.
        -- intros w. rewrite D3, acc_insert. case_decide; subst; congruence.
        -- intros w [Hw1 Hw2]%not_elem_of_cons. rewrite D4, acc_insert by done. by case_decide.
      * intros Hx s'. apply HP. intros [Hnd Hf]. apply Hx. apply NoDup_cons in Hnd as [Hni Hnd].
        split; [done|]. apply Forall_cons in Hf as [_ Hf]. apply Forall_forall. intros [w x] Hin. cbn.
        rewrite acc_insert. rewrite Forall_forall in Hf. case_decide; subst; [|exact (Hf _ Hin)].
        destruct Hni. by apply (list_elem_of_fmap_2 fst _ (w, x)).
    + rewrite (Hz0 eq_refl) in *. do 3 lstep; [|lia]. apply IH; try done; try lia.
      * intros m [D1 D2 D3 D4 D5 D6 D7]. rewrite <- Z.add_assoc. apply (HOk m).
        split; cbn; try done. intros w [Hw1 Hw2]%not_elem_of_cons. by apply D4.
      * intros Hx s'. apply HP. intros [Hnd Hf]. apply Hx. apply NoDup_cons in Hnd as [Hni Hnd].
        split; [done|]. by apply Forall_cons in Hf as [_ Hf].
Qed.

Lemma wp_apply_staker_credits l : ∀ d (Q : outcome Z → LedgerState → Prop) s ws,
  nonneg_accts (accounts s) → Forall (fun x => 0 <= x.2) l → l.*1 ⊆ ws → 0 <= d →
  msum available (accounts s) + zsum l.*2 <= U64.MAX → d + zsum l.*2 <= U64.MAX →
  (∀ m, credited (accounts s) m ws (zsum l.*2) → Q (Ok (d + zsum l.*2)) (s <| accounts := m |>)) →
  wp (apply_staker_credits d l) Q s.
Proof.
  induction l as [|[who amt] l IH]; intros d Q s ws Hn Hp Hws Hd Hb Hb' HQ; cbn [apply_staker_credits].
  - apply wp_ret. rewrite <- (set_accounts_same s). cbn in HQ. rewrite Z.add_0_r in HQ.
    apply HQ, credited_refl.
  - apply Forall_cons in Hp as [H0 Hp]. cbn in H0, Hws, Hb, Hb'.
    assert (0 <= zsum l.*2) by (apply zsum_nonneg, Forall_fmap; done). unfold zsum in *.
    pose proof (acc_bounds _ who Hn) as (?&?&?).
    pose proof (nonneg_msum available _ (fun w => nn_available _ (Hn w))).
    repeat (lazymatch goal with |- wp (apply_staker_credits _ _) _ _ => fail | _ => lstep end; try lia).
    assert (Hc : credited (accounts s) (<[who:=a']> (<[who:=acc (accounts s) who]> (accounts s))) ws amt)
      by (apply credited_put; try done; set_solver).
    apply (IH (d + amt) _ _ ws); cbn in *; try lia; try done.
    + by eapply credited_nonneg; [apply Hn|].
    + set_solver.
    + rewrite (cr_sum _ _ _ _ Hc). lia.
    + intros m Hm. rewrite <- Z.add_assoc. apply (HQ m). by eapply credited_trans.
Qed.

Lemma apply_idle_decay_batch_spec batch now (Q : outcome unit → LedgerState → Prop) s :
  Inv ∅ s → op_typed (IdleDecayOp batch) →
  (∀ s' m1 m2, total_debit batch = total_credit batch → debited (accounts s) m1 (debits batch) →
     credited m1 m2 (staker_credits batch).*1 (total_staker_credit batch) →
     core s' = core (s <| accounts := m2 |>
                       <| conservation_pool := conservation_pool s + pool_credit batch |>) →
     Q (Ok tt) s') →
  (∀ e, Q (Err e) s) →
  (¬ safe record (IdleDecayOp batch) s → ∀ s', Q Panic s') →
  wp (apply_idle_decay_batch batch now) Q s.
Proof.
  intros I (Td&Tp&Tc) HOk HErr HP. pose proof (m_accounts s I) as Hn.
  pose proof (Money_parts s I) as (?&?&?&?&?&?&?&?&?).
  assert (HMAX : MAX_SUPPLY <= U64.MAX) by done.
  assert (Hd0 : Forall (fun d => 0 <= d.2) (debits batch)) by (eapply Forall_impl; [done|]; intros ? []; done).
  assert (Hc0 : Forall (fun d => 0 <= d.2) (staker_credits batch)) by (eapply Forall_impl; [done|]; intros ? []; done).
  assert (0 <= zsum (staker_credits batch).*2) by (apply zsum_nonneg, Forall_fmap; done).
  unfold apply_idle_decay_batch. lstep. lstep; [|done]. bools.
  unfold is_conserved, total_debit, total_credit, total_staker_credit in *. bools.
  lstep. apply wp_check_debits; [|done|intros Hx; apply HP; intros [Ht _]; by apply Hx].
  intros Hfit. lstep. apply wp_apply_debits; try done; try lia.
  { rewrite Forall_forall in Hfit, Hd0. apply Forall_forall. intros d Hin E.
    specialize (Hfit d Hin). specialize (Hd0 d Hin). unfold acc in Hfit. rewrite E in Hfit. cbn in Hfit. lia. }
  2: { intros Hx. apply HP. intros [_ [Hnd _]]. by apply Hx. }
  intros m1 D. pose proof (db_sum _ _ _ D). pose proof (db_nonneg _ _ _ D) as Hn1.
  pose proof (nonneg_msum available _ (fun w => nn_available _ (Hn1 w))). unfold U64.is_u64 in Tp.
  do 3 lstep. lstep; [|cbn in *; lia]. do 3 lstep.
  apply wp_apply_staker_credits with (ws := (staker_credits batch).*1); cbn; try done; try lia.
  intros m2 C. lstep. apply wp_zoom. unfold note_applied_batch. 
  repeat (lstep; try (apply HP; cbn in *; intros [_ (_&?&?&?)]; unfold total_debit, total_staker_credit in *; lia)).
  apply (HOk _ m1 m2); done.
Qed.

Lemma apply_idle_decay_spec batch s :
  Inv ∅ s → op_typed (IdleDecayOp batch) →
  wp (apply_idle_decay record genesis_authority batch) (post (IdleDecayOp batch) s) s.
Proof.
  intros I T. unfold apply_idle_decay, LedgerInv.post. cbv zeta. lstep. lstep; [|auto with elara].
  destruct T as (Td&Tp&Tc). unfold U64.is_u64 in Tp.
  apply apply_idle_decay_batch_spec; [done|done| |auto with elara|done].
  intros s' m1 m2 Hcons D C E. unfold total_credit, total_debit, total_staker_credit in *.
  pose proof (m_pool s I). destruct D as [D1 D2 D3 D4 D5 D6 D7]. destruct C as [C1 C2 C3 C4 C5 C6 C7].
  split; [eapply Inv_core; [done|]|eapply frame_core; [done|]].
  - eapply Inv_move; [by apply Inv_weaken, I|..]; try done; cbn; try lia; try apply I.
    + eapply (credited_nonneg m1); [done|by split].
    + intros who. by rewrite C2, D2.
  - split; cbn; [lia| |congruence|done|eauto].
    intros who [_ Hw]%not_elem_of_cons. rewrite not_elem_of_app in Hw.
    rewrite C4, D4; naive_solver.
Qed.
End pool.
