(* ===== verification/LedgerSpecX.v ===== *)
(** * Contracts of the cross-zone operations

    The bodies of [apply_op] in src/src/accounting/ledger.rs that lock, claim,
    cancel, abort, reject and refund cross-zone transfers, on top of the
    specifications of src/src/accounting/cross_zone.rs. *)

From S2P Require Import Prelude F64 Types Dormancy Acquisition Velocity CircuitBreaker.
From S2P Require Import Custodial IdleDecay CrossZone CrossZoneInv Records LedgerOps Ledger.
From S2P Require Import LedgerSeal LedgerInv LedgerSpec LedgerSpecPool.
Open Scope Z_scope.

Section xzone.
Context `{Externals}.
Variables (record : ValidationRecord) (genesis_authority : string).
Notation creator := (creator_identity_hash record).
Notation post := (post record genesis_authority).

(** ** Releases *)

(** [d] units left the locked total and were credited. *)
Definition drained (s : LedgerState) (cz : CrossZoneState) (m : accts) (d : Z) : LedgerState :=
  s <| cross_zone := cz |> <| accounts := m |> <| pending_xzone_locked ::= fun v => U64.sat_sub v d |>.

Lemma Inv_drained ids s cz m ws d :
  Inv ids s → XInv cz → total_locked cz = total_locked (cross_zone s) - d →
  0 <= d <= total_locked (cross_zone s) → credited (accounts s) m ws d → Inv ids (drained s cz m d).
Proof.
  intros [M S D] Hx Ht Hd C. pose proof (credited_nonneg _ _ _ _ (m_accounts s M) C).
  destruct M, C as [C1 C2 C3 C4 C5 C6 C7]. split.
  - unfold value in *. split; unfold value; cbn; unfold U64.sat_sub; try done; lia.
  - eapply StakesOk_transfer; [done..|]. intros who. apply C2.
  - eapply Side_transfer; try done; apply D.
Qed.

Lemma frame_drained op s cz m ws d :
  minted op = 0 → ws ⊆ creator :: touched op s → credited (accounts s) m ws d →
  (∀ tid t, pending (cross_zone s) !! tid = Some t →
     ∃ t', pending cz !! tid = Some t' ∧ sender t' = sender t) →
  frame record genesis_authority op s (drained s cz m d).
Proof.
  intros Hm Hws [C1 C2 C3 C4 C5 C6 C7] Hs. split; cbn; try done; [lia|].
  intros who Hw. apply C4. set_solver.
Qed.

Lemma released_senders s s' i t st tid x :
  released s s' i t st → pending s !! tid = Some x →
  ∃ x', pending s' !! tid = Some x' ∧ sender x' = sender x.
Proof.
  intros R E. destruct (rel_pending _ _ _ _ _ R) as (t'&->&_&_&_&Es).
  destruct (decide (tid = i)) as [->|].
  - rewrite lookup_insert_eq. pose proof (rel_old _ _ _ _ _ R). naive_solver.
  - rewrite lookup_insert_ne by done. eauto.
Qed.

Lemma Inv_locked_amount s tid t st cz :
  Money s → released (cross_zone s) cz tid t st → 0 <= amount t <= pending_xzone_locked s.
Proof.
  intros M R. rewrite (m_locked s M).
  eapply XInv_locked_le; [apply M|apply R|apply R].
Qed.

Lemma post_released op s s' cz m ws tid t st :
  Inv ∅ s → released (cross_zone s) cz tid t st →
  credited (accounts s) m ws (amount t) → ws ⊆ creator :: touched op s → minted op = 0 →
  core s' = core (drained s cz m (amount t)) → post op s (Ok tt) s'.
Proof.
  intros I R C Hws Hm E. pose proof (Inv_locked_amount s tid t _ _ I R) as Ha.
  rewrite (m_locked s I) in Ha. split; [eapply Inv_core|eapply frame_core]; try done.
  - eapply Inv_drained; [by apply Inv_weaken|apply R|apply R|done|done].
  - eapply frame_drained; try done. intros tid' t' Et. by eapply released_senders.
Qed.

(** The error and panic cases of a cross-zone transition. *)
Lemma zoom_unchanged s : unchanged s (s <| cross_zone := cross_zone s |>).
Proof. destruct s; apply unchanged_refl. Qed.

(** Runs the ledger's part of a transition up to its log line. *)
Ltac xrun s Hn I :=
  repeat (lazymatch goal with |- wp (prefix16 _ ≫= _) _ _ => fail | |- wp (prefix16 _) _ _ => fail
          | _ => lstep end); try (no_overflow s Hn I).

Ltac xbegin s I Hn :=
  pose proof (Money_parts s I) as (?&?&?&?&?&?&?&?&?);
  assert (MAX_SUPPLY <= U64.MAX) by done.

Lemma apply_xzone_cancel_spec tid s :
  Inv ∅ s → op_typed (XZoneCancel tid) →
  wp (apply_xzone_cancel record tid) (post (XZoneCancel tid) s) s.
Proof.
  lbegin I T Hn. unfold apply_xzone_cancel. cbv zeta. xbegin s I Hn.
  pose proof (acc_bounds _ creator Hn) as (?&?&?).
  lstep. apply wp_zoom, wp_cancel_transfer; [apply I| |intros; apply zoom_unchanged
    |intros Hx s' [_ Hc]; by apply Hx].
  intros t cz Hsnd _ R. unfold refund_of. cbv beta match.
  pose proof (Inv_locked_amount s tid t _ _ I R). xrun s Hn I.
  apply wp_prefix16; [|intros Hx [Hs _]; cbn in Hs; congruence].
  eapply (post_released _ s _ cz _ [creator]); [done|done| |set_solver|done|reflexivity].
  apply credited_put; cbn in *; done || lia || set_solver.
Qed.

Lemma apply_xzone_claim_spec tid amount_ recipient s :
  Inv ∅ s → op_typed (XZoneClaim tid amount_ recipient) →
  wp (apply_xzone_claim record tid recipient) (post (XZoneClaim tid amount_ recipient) s) s.
Proof.
  lbegin I T Hn. unfold apply_xzone_claim. cbv zeta. xbegin s I Hn.
  pose proof (acc_bounds _ recipient Hn) as (?&?&?).
  lstep. apply wp_zoom, wp_claim_transfer; [apply I| |intros; apply zoom_unchanged
    |intros Hx s' [_ Hc]; by apply Hx].
  intros t t' cz Hrcp _ _ _ _ Ha Hs Hr R.
  pose proof (Inv_locked_amount s tid t _ _ I R). rewrite Ha in *. xrun s Hn I.
  lstep. apply wp_prefix16; [|intros Hx [[Hs1 Hs2] _]; cbn in Hs1; congruence].
  apply wp_prefix16; [|intros Hx [[Hs1 Hs2] _]; cbn in Hs2; congruence].
  eapply (post_released _ s _ cz _ [recipient]); [done|done| |set_solver|done|reflexivity].
  apply credited_put; cbn in *; done || lia || set_solver.
Qed.

(** Refund to the sender, then the record counted for its creator. *)
Lemma wp_refund_and_count who d Q s :
  nonneg_accts (accounts s) → 0 <= d →
  msum available (accounts s) + msum staked (accounts s) + d <= U64.MAX →
  (∀ m s', credited (accounts s) m [who; creator] d →
     core s' = core (s <| accounts := m |> <| pending_xzone_locked ::= fun v => U64.sat_sub v d |>) →
     Q (Ok tt) s') →
  wp (refund_and_count record who d) Q s.
Proof.
  intros Hn Hd Hb HQ. unfold refund_and_count. cbv zeta.
  pose proof (acc_bounds _ who Hn) as (?&?&?).
  repeat (lstep; try (cbn in *; lia)).
  eapply HQ; [|reflexivity].
  replace d with (d + 0) by lia. eapply credited_trans; apply credited_put; cbn in *; done || lia || set_solver.
Qed.

Lemma apply_xzone_reject_spec tid s :
  Inv ∅ s → op_typed (XZoneReject tid) →
  wp (apply_xzone_reject record tid) (post (XZoneReject tid) s) s.
Proof.
  lbegin I T Hn. unfold apply_xzone_reject. cbv zeta. xbegin s I Hn.
  lstep. apply wp_zoom, wp_reject_transfer; [apply I| |intros; apply zoom_unchanged
    |intros Hx s' [_ Hc]; by apply Hx].
  intros t cz _ _ R. unfold refund_of. cbv beta match.
  pose proof (Inv_locked_amount s tid t _ _ I R).
  lstep. apply wp_refund_and_count; [done|lia|cbn; lia|]. intros m s' C E.
  apply wp_prefix16; [|intros Hx [Hs _]; cbn in Hs; congruence].
  eapply (post_released _ s _ cz _ [sender t; creator]); [done|done|done| |done|done].
  cbn. rewrite (rel_old _ _ _ _ _ R). set_solver.
Qed.

Lemma apply_xzone_abort_spec tid h n signers s :
  Inv ∅ s → op_typed (XZoneAbort tid h n signers) →
  wp (apply_xzone_abort record tid h n signers) (post (XZoneAbort tid h n signers) s) s.
Proof.
  lbegin I T Hn. unfold apply_xzone_abort. cbv zeta. xbegin s I Hn.
  do 3 lstep. lstep; [|auto with elara]. destruct (verify_abort_quorum _ _ _ _ _ _ _ _);
    [|lstep; auto with elara..].
  lstep. apply wp_zoom, wp_abort_transfer; [apply I| |intros; apply zoom_unchanged
    |intros Hx s' [_ Hc]; by apply Hx].
  intros t cz _ _ R. unfold refund_of. cbv beta match.
  pose proof (Inv_locked_amount s tid t _ _ I R).
  lstep. apply wp_refund_and_count; [done|lia|cbn; lia|]. intros m s' C E.
  apply wp_prefix16; [|intros Hx [Hs _]; cbn in Hs; congruence].
  eapply (post_released _ s _ cz _ [sender t; creator]); [done|done|done| |done|done].
  cbn. rewrite (rel_old _ _ _ _ _ R). set_solver.
Qed.

(** ** Batches *)

Lemma sat_sub_sub v a b : 0 <= b → U64.sat_sub (U64.sat_sub v a) b = U64.sat_sub v (a + b).
Proof. intros Hb. unfold U64.sat_sub. lia. Qed.

Lemma core_pending s s' : core s' = core s → pending_xzone_locked s' = pending_xzone_locked s.
Proof. unfold core. intros E. by simplify_eq. Qed.
Lemma core_drain s s' m f : core s' = core s →
  core (s' <| accounts := m |> <| pending_xzone_locked ::= f |>) =
  core (s <| accounts := m |> <| pending_xzone_locked ::= f |>).
Proof. unfold core. intros E. simplify_eq. cbn. congruence. Qed.

Lemma wp_refund_account who d Q s ws :
  nonneg_accts (accounts s) → 0 <= d → who ∈ ws →
  msum available (accounts s) + msum staked (accounts s) + d <= U64.MAX →
  (∀ m s', credited (accounts s) m ws d →
     core s' = core (s <| accounts := m |> <| pending_xzone_locked ::= fun v => U64.sat_sub v d |>) →
     Q (Ok tt) s') →
  wp (refund_account record who d) Q s.
Proof.
  intros Hn Hd Hw Hb HQ. unfold refund_account. cbv zeta.
  pose proof (acc_bounds _ who Hn) as (?&?&?).
  repeat (lstep; try (cbn in *; lia)).
  eapply HQ; [|reflexivity]. apply credited_put; cbn in *; done || lia.
Qed.

Lemma wp_refund_accounts l : ∀ Q s ws,
  nonneg_accts (accounts s) → Forall (fun x => 0 <= x.2) l → l.*1 ⊆ ws →
  msum available (accounts s) + msum staked (accounts s) + zsum l.*2 <= U64.MAX →
  (∀ m s', credited (accounts s) m ws (zsum l.*2) →
     core s' = core (s <| accounts := m |>
                       <| pending_xzone_locked ::= fun v => U64.sat_sub v (zsum l.*2) |>) →
     Q (Ok tt) s') →
  0 <= pending_xzone_locked s →
  wp (for_each (fun '(who, amount) => refund_account record who amount) l) Q s.
Proof.
  induction l as [|[who d] l IH]; intros Q s ws Hn Hp Hws Hb HQ Hpend; cbn [for_each].
  - apply wp_ret. apply (HQ (accounts s)); [apply credited_refl|]. rewrite set_accounts_same.
    unfold core; cbn. do 3 f_equal. unfold U64.sat_sub. lia.
  - apply Forall_cons in Hp as [H0 Hp]. cbn in H0, Hws, Hb.
    assert (0 <= zsum l.*2) by (apply zsum_nonneg, Forall_fmap; done). fold (zsum l.*2) in Hb.
    apply wp_bind, (wp_refund_account _ _ _ _ ws); [done|done|set_solver|lia|].
    intros m s' C E. pose proof (core_accounts _ _ E) as Ea. cbn in Ea.
    apply (IH _ _ ws); rewrite ?Ea; try done.
    + by eapply credited_nonneg; [apply Hn|].
    + set_solver.
    + rewrite (cr_sum _ _ _ _ C), (cr_sum_staked _ _ _ _ C). lia.
    + intros m2 s2 C2 E2. apply (HQ m2); [by eapply credited_trans|]. rewrite E2.
      rewrite (core_drain _ _ _ _ E). unfold core; cbn. do 3 f_equal. by apply sat_sub_sub.
    + rewrite (core_pending _ _ E). cbn. unfold U64.sat_sub. lia.
Qed.

(** A batch of releases, refunded. *)
Lemma wp_batch_refunds op ok f b s :
  Inv ∅ s → (op = XZoneTimeoutRefund b ∨ op = XZoneStaleReap b) → entry_ok f ok →
  wp (applied ← zoom cross_zone (apply_entries f (refunds b));
      for_each (fun '(who, amount) => refund_account record who amount) applied) (post op s) s.
Proof.
  intros I Hop Hf. pose proof (m_accounts s I) as Hn. xbegin s I Hn.
  lstep. apply wp_zoom, (wp_apply_entries _ _ _ Hf); [apply I| |].
  2: { intros Hx s' [_ Hc]. apply Hx. destruct Hop; by subst. }
  intros ts cz Hts Hr. pose proof (releases_senders _ _ _ Hr) as Hsn.
  destruct (releases_sound _ _ _ Hr (m_xzone s I)) as (HX&Ht&Hpos&_).
  set (l := (fun t => (sender t, amount t)) <$> ts).
  assert (E2 : l.*2 = amount <$> ts) by (unfold l; rewrite <- list_fmap_compose; done).
  assert (E1 : l.*1 = sender <$> ts) by (unfold l; rewrite <- list_fmap_compose; done).
  pose proof (XInv_total_nonneg _ HX). pose proof (m_locked s I) as Hl.
  assert (0 <= zsum (amount <$> ts)) by (by apply zsum_nonneg, Forall_fmap).
  assert (Hws : l.*1 ⊆ touched op s).
  { rewrite E1. intros who (t&->&Hin)%list_elem_of_fmap. rewrite Forall_forall in Hts, Hsn.
    destruct (Hts _ Hin) as [_ Hid]. destruct (Hsn _ Hin) as (x&Ex&<-).
    destruct Hop as [->| ->]; cbn; apply list_elem_of_omap; exists (transfer_id t); by rewrite Ex. }
  apply (wp_refund_accounts l _ _ (touched op s)); cbn [accounts set pending_xzone_locked]; try done.
  - unfold l. apply Forall_fmap. done.
  - rewrite E2. lia.
  - rewrite E2. intros m s' C E. split; [eapply Inv_core|eapply frame_core]; [exact E| |exact E|].
    + eapply (Inv_drained _ s cz m); [by apply Inv_weaken|done|done|lia|done].
    + eapply (frame_drained _ s cz m); [by destruct Hop; subst| |done|]; [set_solver|].
      clear -Hr. induction Hr as [|s0 s1 s2 t ts R Rs IH]; [eauto|].
      intros tid x Ex. destruct (released_senders _ _ _ _ _ _ _ R Ex) as (y&Ey&Hy).
      destruct (IH _ _ Ey) as (z&Ez&Hz). exists z. split; congruence.
Qed.

Lemma apply_xzone_timeout_refund_spec b s :
  Inv ∅ s → wp (apply_xzone_timeout_refund record genesis_authority b) (post (XZoneTimeoutRefund b) s) s.
Proof.
  intros I. unfold apply_xzone_timeout_refund. cbv zeta. lstep. lstep; [|apply unchanged_refl].
  apply (wp_batch_refunds _ unsealed); auto using refund_entry_ok.
Qed.

Lemma apply_xzone_stale_reap_spec b s :
  Inv ∅ s → wp (apply_xzone_stale_reap record genesis_authority b) (post (XZoneStaleReap b) s) s.
Proof.
  intros I. unfold apply_xzone_stale_reap. cbv zeta. lstep. lstep; [|apply unchanged_refl].
  eapply wp_batch_refunds; eauto using reap_entry_ok.
Qed.

(** ** Lock *)

Lemma apply_xzone_lock_spec amt recipient source dest s :
  Inv ∅ s → op_typed (XZoneLock amt recipient source dest) →
  wp (apply_xzone_lock record amt recipient source dest) (post (XZoneLock amt recipient source dest) s) s.
Proof.
  lbegin I T Hn. unfold apply_xzone_lock. cbv zeta. xbegin s I Hn.
  pose proof (acc_bounds _ creator Hn) as (?&?&?). pose proof (m_locked s I).
  lstep. lstep; [|auto with elara]. do 3 lstep. lstep; [|auto with elara]. bools.
  lstep. apply wp_zoom, wp_lock_transfer; [apply I|lia|cbn; lia| | |].
  2: { intros e. split; cbn; auto with elara. }
  2: { intros Hx s' [_ Hc]. by apply Hx. }
  intros t cz Hnone Ep Hpos Hst Hid Hsnd Hrcp Ha _ _ _ Et HX.
  repeat (lazymatch goal with |- wp (slice16 _ ≫= _) _ _ => fail | _ => lstep end); try (no_overflow s Hn I).
  assert (Hcr : slice16_ok creator = true).
  { unfold slice16_ok. rewrite creator_identity_hash_length. apply hex_prefix16_ok. }
  lstep. apply wp_slice16; [|congruence].
  lstep. apply wp_prefix16; [|intros Hx [[Hs _] _]; cbn in Hs; congruence].
  apply wp_slice16.
  2: { unfold slice16_ok. intros Hx [(_&Hs1&Hs2) _]. rewrite Hs1 in Hx. bools. cbn in *. lia. }
  cbn in Ep, Et, Hnone. assert (Hsat : U64.sat_add (pending_xzone_locked s) amt = pending_xzone_locked s + amt)
    by (unfold U64.sat_add; lia).
  split; [split|].
  - destruct (inv_money _ _ I). split; cbn; rewrite ?Hsat; try done; try lia.
    + solve_nonneg (accounts s) Hn.
    + acc_cases; lia.
    + unfold value in *. cbn. rewrite ?Hsat. acc_cases; lia.
  - eapply StakesOk_transfer; [apply I|done..|]. intros who. acc_cases; lia.
  - eapply Side_transfer; [by apply Side_weaken, I|done|cbn; lia|apply I|done..].
  - split; cbn; [lia| | |done|].
    + intros who Hw. rewrite ?not_elem_of_cons in Hw. acc_cases; naive_solver.
    + intros who _ Hw. acc_cases; done || lia.
    + intros tid x Ex. rewrite Ep, lookup_insert_ne by congruence. eauto.
Qed.
End xzone.
