(* ===== verification/LedgerProps.v ===== *)
(** * Properties of the ledger transition

    [apply_op] of src/src/accounting/ledger.rs as a whole, and replay: conservation
    of the supply, absence of panics, atomic errors, idempotence, who may mint or
    debit, and which leaves of the account tree are marked dirty. *)

From S2P Require Import Prelude F64 Types Dormancy Acquisition Velocity CircuitBreaker.
From S2P Require Import Custodial IdleDecay CrossZone CrossZoneInv Records LedgerOps Ledger.
From S2P Require Import LedgerSeal LedgerInv LedgerSpec LedgerSpecPool LedgerSpecX.
Open Scope Z_scope.

Section transition.
Context `{Externals}.
Variables (record : ValidationRecord) (genesis_authority : string).
Notation creator := (creator_identity_hash record).
Notation privileged := (is_privileged_emitter creator genesis_authority).

(** Record ids are not in the name space of the genesis stakes. *)
Definition id_ok (r : ValidationRecord) : Prop :=
  String.prefix GENESIS_STAKE_RECORD_PREFIX (rec_id r) = false.

Lemma apply_body_spec op s :
  Inv ∅ s → op_typed op → rec_id record ∉ applied_record_ids s → id_ok record →
  wp (apply_body record genesis_authority op) (post record genesis_authority op s) s.
Proof.
  intros I T Hfr Hid. destruct op; cbn [apply_body];
    eauto using apply_mint_spec, apply_transfer_spec, apply_stake_spec, apply_unstake_spec,
      apply_witness_reward_spec, apply_slash_spec, apply_dormancy_reclaim_spec, apply_burn_spec,
      apply_pool_fund_spec, apply_predict_spec, apply_xzone_lock_spec, apply_xzone_claim_spec,
      apply_xzone_cancel_spec, apply_xzone_reject_spec, apply_xzone_abort_spec,
      apply_dormancy_declare_spec, apply_dormancy_heartbeat_spec, apply_dormancy_proof_of_life_spec,
      apply_witness_register_spec, apply_idle_decay_spec, apply_xzone_timeout_refund_spec,
      apply_xzone_stale_reap_spec.
Qed.

Lemma core_register_creator s : core (register_creator record s) = core s.
Proof.
  unfold register_creator, register_identity_profile, register_identity_attestation.
  by repeat case_match.
Qed.

(** Registration touches the creator's profile and attestation level only. *)
Lemma register_creator_only s :
  let s1 := register_creator record s in
  s1 = s <| identity_profiles := identity_profiles s1 |> <| attestation_levels := attestation_levels s1 |> ∧
  ∀ who, who ≠ creator →
    identity_profiles s1 !! who = identity_profiles s !! who ∧ attestation_levels s1 !! who = attestation_levels s !! who.
Proof.
  cbv zeta. unfold register_creator, register_identity_profile, register_identity_attestation.
  split; [by destruct s; repeat case_match|]. intros who Hne.
  repeat case_match; cbn; by rewrite ?lookup_insert_ne.
Qed.

Lemma idle_decay_register_creator s : idle_decay (register_creator record s) = idle_decay s.
Proof.
  unfold register_creator, register_identity_profile, register_identity_attestation.
  by repeat case_match.
Qed.

(** The result of [apply_op] on a record not seen before. *)
Definition op_post (op : ParsedLedgerOp) (s : LedgerState) (o : outcome unit) (s' : LedgerState) : Prop :=
  match o with
  | Ok _ =>
      ∃ s1, Inv {[ rec_id record ]} s1 ∧
        frame record genesis_authority op (register_creator record s) s1 ∧
        accounts s' = accounts s1 ∧ total_supply s' = total_supply s1 ∧
        cross_zone s' = cross_zone s1 ∧ Inv ∅ s' ∧
        applied_record_ids s' = {[ rec_id record ]} ∪ applied_record_ids s ∧
        records_processed s' = records_processed s + 1 ∧ records_processed s' <= U64.MAX ∧
        smt_dirty s' = list_to_set (dirty_accounts op s1) ∪ ({[ creator ]} ∪ smt_dirty s1)
  | Err _ => unchanged (register_creator record s) s'
  | Panic => safe record op s → records_processed s = U64.MAX
  end.

Lemma Inv_finish s1 n ts d :
  Inv {[ rec_id record ]} s1 →
  Inv ∅ (s1 <| records_processed := n |> <| applied_record_ids ::= union {[ rec_id record ]} |>
            <| last_applied_ts := ts |> <| smt_dirty := d |>).
Proof.
  intros [[] [] [V1 V2 V3 V4 V5 V6]]. split; split; try done; cbn.
  - intros rid Hr. apply V4 in Hr as [Hr|Hr]; [left|by right]. set_solver.
  - intros rid Hr. apply V5 in Hr. set_solver.
Qed.

Lemma set_last_applied_same s : s <| last_applied_ts := last_applied_ts s |> = s.
Proof. by destruct s. Qed.

Lemma apply_op_fresh op s :
  Inv ∅ s → op_typed op → id_ok record → rec_id record ∉ applied_record_ids s →
  0 <= records_processed s <= U64.MAX →
  wp (apply_op record genesis_authority op) (op_post op s) s.
Proof.
  intros I T Hid Hfr Hn. pose proof (core_register_creator s) as Ec.
  set (s0 := register_creator record s) in *.
  assert (I0 : Inv ∅ s0) by (by eapply Inv_core).
  assert (Es : (applied_record_ids s0, records_processed s0, stakes s0, cross_zone s0) =
               (applied_record_ids s, records_processed s, stakes s, cross_zone s))
    by (unfold core in Ec; congruence). injection Es as Ea En Est Ecz.
  assert (Eid : idle_decay s0 = idle_decay s) by apply idle_decay_register_creator.
  unfold apply_op. do 2 lstep. rewrite bool_decide_eq_false_2 by done. do 2 lstep. fold s0. lstep.
  eapply wp_mono; [apply apply_body_spec; [done|done|by rewrite Ea|done]|].
  intros [[]|e|] s1 Hpost; [|done|].
  2: { intros [Ht Hc]. destruct Hpost. split; destruct op; cbn in *; by rewrite ?Est, ?Ecz, ?Eid. }
  destruct Hpost as [I1 F]. pose proof (fr_rest _ _ _ _ _ F) as Er. injection Er as Ea1 En1 Ed1.
  rewrite Ea in Ea1. rewrite En in En1.
  assert (Hfin : ∀ t s', records_processed s1 + 1 <= U64.MAX → s' = s1 <| records_processed := records_processed s1 + 1 |>
      <| applied_record_ids ::= union {[ rec_id record ]} |> <| last_applied_ts := t |>
      <| smt_dirty := list_to_set (dirty_accounts op s1) ∪ ({[ creator ]} ∪ smt_dirty s1) |> →
      op_post op s (Ok tt) s').
  { intros t s' Hmax ->. exists s1.
    split_and!; try done; cbn; [by apply Inv_finish|by rewrite Ea1|by rewrite En1]. }
  assert (Hd : ∀ s', cross_zone s' = cross_zone s1 → dirty_accounts op s' = dirty_accounts op s1).
  { intros s' E'. destruct op; cbn; by rewrite ?E'. }
  unfold finish. cbv zeta. do 3 lstep. lstep; [|intros _; lia]. do 5 lstep. lstep.
  - repeat lstep. eapply Hfin; [done|]. rewrite Hd by done. reflexivity.
  - repeat lstep. apply (Hfin (last_applied_ts s1)); [done|]. rewrite Hd by done. by destruct s1.
Qed.

(** The invariant between records. *)
Definition LInv (s : LedgerState) : Prop := Inv ∅ s ∧ U64.is_u64 (records_processed s).

(** The condition under which the transfer machine takes a lock: an amount that
    an account holds fits. *)
Lemma ledger_lock_fits s who amt :
  LInv s → amt <= available (account s who) → total_locked (cross_zone s) + amt <= U64.MAX.
Proof.
  intros [I _] Ha. pose proof (Money_parts s I) as (?&?&?&?&?&?&?&?&?).
  pose proof (acc_bounds (accounts s) who (m_accounts s I)) as (?&?&?). rewrite account_acc in Ha.
  pose proof (m_locked s I). unfold MAX_SUPPLY, BASE_UNITS_PER_BEAT, U64.MAX in *. lia.
Qed.

(** What a record must satisfy whatever it carries: [u64] amounts, an id outside
    the genesis name space. *)
Definition well_typed (op : ParsedLedgerOp) : Prop := op_typed op ∧ id_ok record.

Lemma apply_op_spec op s o s' :
  LInv s → well_typed op → apply_op record genesis_authority op s = (o, s') →
  (rec_id record ∈ applied_record_ids s ∧ o = Ok tt ∧ s' = s) ∨
  (rec_id record ∉ applied_record_ids s ∧ op_post op s o s').
Proof.
  intros [I Hn] [T Hid] E. destruct (decide (rec_id record ∈ applied_record_ids s)) as [Hin|Hin].
  - left. unfold apply_op, get, mbind, M_bind in E. rewrite bool_decide_eq_true_2 in E by done.
    by injection E as <- <-.
  - right. split; [done|]. exact (wp_run _ _ _ _ _ (apply_op_fresh op s I T Hid Hin Hn) E).
Qed.

Lemma apply_op_LInv op s o s' :
  LInv s → well_typed op → apply_op record genesis_authority op s = (o, s') → o ≠ Panic → LInv s'.
Proof.
  intros HL T E Hp. pose proof HL as [I Hn].
  destruct (apply_op_spec op s o s' HL T E) as [(_&_&->)|[_ Q]]; [done|].
  destruct o as [[]|e|]; [..|done]; cbn in Q.
  - destruct Q as (s1&_&_&_&_&_&I'&_&E1&E2&_). split; [done|].
    unfold U64.is_u64 in *. lia.
  - pose proof (core_register_creator s) as Ec. split.
    + eapply Inv_unchanged; [|done]. by eapply Inv_core.
    + rewrite (un_rest _ _ Q). unfold core in Ec. cbn. congruence.
Qed.

Lemma apply_op_no_panic_aux op s :
  LInv s → well_typed op → safe record op s → records_processed s < U64.MAX →
  (apply_op record genesis_authority op s).1 ≠ Panic.
Proof.
  intros HL T Hs Hr. destruct (apply_op record genesis_authority op s) as [o s'] eqn:E. cbn. intros ->.
  destruct (apply_op_spec op s Panic s' HL T E) as [(_&?&_)|[_ Q]]; [done|]. specialize (Q Hs). lia.
Qed.

(** Operations only the genesis authority may emit. *)
Definition requires_authority (op : ParsedLedgerOp) : bool :=
  match op with
  | Mint _ _ _ | WitnessReward _ _ _ _ | Slash _ _ _ _ _ _ | IdleDecayOp _ | XZoneTimeoutRefund _
  | XZoneStaleReap _ | Burn _ _ | PoolFund _ | DormancyReclaim _ _ _ => true
  | _ => false
  end.

Lemma require_false {S} e (s : S) : require false e s = (Err e, s).
Proof. done. Qed.
Lemma require_bind {S B} (b : bool) e (f : unit → M S B) s :
  (require b e ≫= f) s = if b then f tt s else (Err e, s).
Proof. by destruct b. Qed.

Lemma unauthorized_body op s :
  requires_authority op = true → privileged = false →
  ∃ e, apply_body record genesis_authority op s = (Err e, s).
Proof.
  intros Hr Hp. destruct op; try done; cbn [apply_body];
    unfold apply_mint, apply_witness_reward, apply_slash, apply_idle_decay, apply_xzone_timeout_refund,
      apply_xzone_stale_reap, apply_burn, apply_pool_fund, apply_dormancy_reclaim;
    cbv zeta; rewrite !require_bind, ?Hp; repeat case_match; eauto.
Qed.

(** ** Properties *)

(** C1: the ledger transition conserves the supply and keeps every invariant.
    From a state in which every unit of [total_supply] is in an available
    balance, a stake, a witness bond, the conservation pool, a locked cross-zone
    transfer or an open prediction (and stakes, index, counters, cross-zone,
    vesting and dormancy state are consistent), applying any of the 22 operations
    ends, unless it panics, in such a state, whether it succeeds or fails. *)
Theorem apply_op_conserves op s o s' :
  LInv s → well_typed op → apply_op record genesis_authority op s = (o, s') → o ≠ Panic → LInv s'.
Proof. apply apply_op_LInv. Qed.

(** C9: the ledger transition never panics outside the documented hazards. If
    the texts it slices for messages are cut at character boundaries, the record
    id of a lock has sixteen bytes, the lifetime counters have room and an idle-decay batch names no account twice
    ([safe]), no arithmetic in any of the operations overflows or underflows. *)
Theorem apply_op_no_panic op s :
  LInv s → well_typed op → safe record op s → records_processed s < U64.MAX →
  (apply_op record genesis_authority op s).1 ≠ Panic.
Proof.
  apply apply_op_no_panic_aux.
Qed.

(** C36: errors are atomic. When an operation is refused, every account has the
    balances and counters it had, and every other part of the ledger is as before,
    from the stakes and pools to the velocity windows, the acquisition times, the
    idle decay and the counters, although the code mutates in place and returns
    early. A failed record leaves no trace but account entries that equal the
    default, and the profile and attestation level of its creator. *)
Theorem apply_op_error_atomic op s e s' :
  LInv s → well_typed op → apply_op record genesis_authority op s = (Err e, s') →
  (∀ who, account s' who = account s who) ∧
  s' = s <| accounts := accounts s' |> <| identity_profiles := identity_profiles s' |>
         <| attestation_levels := attestation_levels s' |> ∧
  (∀ who, who ≠ creator → identity_profiles s' !! who = identity_profiles s !! who ∧
                          attestation_levels s' !! who = attestation_levels s !! who).
Proof.
  intros HL T E. destruct (apply_op_spec op s (Err e) s' HL T E) as [(_&?&_)|[_ [Ha Er]]]; [done|].
  pose proof (core_register_creator s) as Ec. destruct (register_creator_only s) as [HR HO]. split_and!.
  - intros who. rewrite !account_acc, (Ha who). by rewrite (core_accounts _ _ Ec).
  - rewrite HR in Er. revert Er. generalize (register_creator record s). intros s1 ->. by destruct s.
  - intros who Hne. rewrite Er. by apply HO.
Qed.

(** Records are applied at most once. After a record has been applied, any
    record with its id, whatever it carries and whoever signed it, is accepted
    without effect. *)
Theorem apply_op_idempotent op s s' r2 ga2 op2 :
  LInv s → well_typed op → apply_op record genesis_authority op s = (Ok tt, s') →
  rec_id r2 = rec_id record → apply_op r2 ga2 op2 s' = (Ok tt, s').
Proof.
  intros HL T E Hr2. assert (Hin : rec_id r2 ∈ applied_record_ids s').
  { rewrite Hr2. destruct (apply_op_spec op s _ s' HL T E) as [(?&_&->)|[_ Q]]; [done|].
    destruct Q as (s1&_&_&_&_&_&_&->&_). set_solver. }
  unfold apply_op, get, mbind, M_bind. by rewrite bool_decide_eq_true_2.
Qed.

(** C38: supply enters only by an authorised mint. A successful operation on a
    fresh record changes [total_supply] by exactly the amount it mints, which is
    zero unless it is a mint by the genesis authority, and the supply never
    passes [MAX_SUPPLY]. *)
Theorem supply_only_minted op s s' :
  LInv s → well_typed op → rec_id record ∉ applied_record_ids s →
  apply_op record genesis_authority op s = (Ok tt, s') →
  total_supply s' = total_supply s + minted op ∧ total_supply s' <= MAX_SUPPLY ∧
  (minted op ≠ 0 → privileged = true).
Proof.
  intros HL T Hfr E. destruct (apply_op_spec op s _ s' HL T E) as [(?&_&_)|[_ Q]]; [done|].
  destruct Q as (s1&I1&F&_&Et&_&I'&_). pose proof (core_register_creator s) as Ec.
  split_and!; [|apply (m_supply s' I')|].
  - rewrite Et, (fr_supply _ _ _ _ _ F). unfold core in Ec. congruence.
  - intros Hm. destruct (privileged) eqn:Hp; [done|].
    assert (Hr : requires_authority op = true) by (by destruct op).
    destruct (unauthorized_body op (register_creator record s) Hr Hp) as [e He].
    unfold apply_op, get, modify, mbind, M_bind in E. rewrite bool_decide_eq_false_2 in E by done.
    by rewrite He in E.
Qed.

(** C37: only the owner or the genesis authority can take from an account. A
    record of anyone else never lowers another account's available balance and
    leaves its stake and witness bond as they were. *)
Theorem only_owner_or_authority_debits op s o s' who :
  LInv s → well_typed op → apply_op record genesis_authority op s = (o, s') → o ≠ Panic →
  privileged = false → who ≠ creator →
  available (account s who) <= available (account s' who) ∧
  staked (account s' who) = staked (account s who) ∧
  witness_bonded (account s' who) = witness_bonded (account s who).
Proof.
  intros HL T E Ho Hp Hw. pose proof (core_accounts _ _ (core_register_creator s)) as Ea.
  destruct (apply_op_spec op s o s' HL T E) as [(_&_&->)|[_ Q]]; [done|].
  rewrite !account_acc. destruct o as [[]|e|]; [|rewrite (un_accounts _ _ Q who), Ea; done|done].
  destruct Q as (s1&_&F&->&_). rewrite <- Ea. by apply (fr_owner _ _ _ _ _ F).
Qed.

(** Privileged operations of anyone but the genesis authority are refused,
    with the state of every account, stake and pool as it was. *)
Theorem unauthorized_refused op s :
  requires_authority op = true → privileged = false → rec_id record ∉ applied_record_ids s →
  ∃ e s', apply_op record genesis_authority op s = (Err e, s') ∧ core s' = core s.
Proof.
  intros Hr Hp Hfr. destruct (unauthorized_body op (register_creator record s) Hr Hp) as [e He].
  exists e, (register_creator record s). split; [|apply core_register_creator].
  unfold apply_op, get, modify, mbind, M_bind. by rewrite bool_decide_eq_false_2, He by done.
Qed.

(** The refund batch names the live sender of every transfer it releases. *)
Definition batch_agrees (op : ParsedLedgerOp) (s : LedgerState) : Prop :=
  match op with
  | XZoneTimeoutRefund b | XZoneStaleReap b =>
      Forall (fun e => ∀ t, pending (cross_zone s) !! e.1.1 = Some t → sender t = e.1.2) (refunds b)
  | _ => True
  end.

Lemma touched_dirty op s s1 who :
  batch_agrees op s →
  (∀ tid t, pending (cross_zone s) !! tid = Some t →
     ∃ t', pending (cross_zone s1) !! tid = Some t' ∧ sender t' = sender t) →
  who ∈ touched op s → who ∈ dirty_accounts op s1.
Proof.
  intros Hb Hs. destruct op; cbn; try done.
  1, 2: destruct (pending (cross_zone s) !! transfer_id) as [t|] eqn:E; [|intros ?%elem_of_nil; done];
    destruct (Hs _ _ E) as (t'&->&Et); cbn; by rewrite Et.
  all: rewrite list_elem_of_omap; intros (tid&Hin&Hsn);
    apply list_elem_of_fmap in Hin as ([tid' snd]&->&Hin);
    apply list_elem_of_fmap in Hin as ([[tid2 snd2] d]&[= -> ->]&Hin); cbn in Hsn;
    destruct (pending (cross_zone s) !! tid2) as [t|] eqn:E; [|done]; injection Hsn as <-;
    cbn in Hb; rewrite Forall_forall in Hb; rewrite (Hb _ Hin t E);
    apply list_elem_of_fmap; exists (tid2, snd2); split; [done|];
    apply list_elem_of_fmap; by exists (tid2, snd2, d).
Qed.

(** C39: the account tree misses no change. After a successful operation, every
    account whose state changed is marked dirty, so its leaf of the sparse Merkle
    tree is recomputed (for refund batches, provided they name the live
    senders). *)
Theorem smt_dirty_complete op s s' who :
  LInv s → well_typed op → batch_agrees op s → apply_op record genesis_authority op s = (Ok tt, s') →
  account s' who ≠ account s who → who ∈ smt_dirty s'.
Proof.
  intros HL T Hb E Hch. pose proof (core_register_creator s) as Ec.
  destruct (apply_op_spec op s _ s' HL T E) as [(_&_&->)|[_ Q]]; [done|].
  destruct Q as (s1&_&F&Ea&_&Ex&_&_&_&_&->). rewrite !account_acc, Ea in Hch.
  assert (Eacc : accounts (register_creator record s) = accounts s) by (exact (core_accounts _ _ Ec)).
  assert (Ecz : cross_zone (register_creator record s) = cross_zone s) by (unfold core in Ec; congruence).
  destruct (decide (who ∈ creator :: touched op (register_creator record s))) as [Hin|Hin].
  - apply elem_of_cons in Hin as [->|Hin]; [set_solver|].
    apply elem_of_union_l, elem_of_list_to_set. eapply touched_dirty; [| |exact Hin].
    + destruct op; try done; cbn in *; by rewrite Ecz.
    + apply (fr_senders _ _ _ _ _ F).
  - destruct Hch. rewrite <- Eacc. by apply (fr_touched _ _ _ _ _ F).
Qed.
End transition.

Lemma LInv_new : LInv ledger_new.
Proof. split; [apply Inv_new|done]. Qed.

(** ** Replay *)

Section replay.
Context `{Externals} (genesis_authority : string).
Notation records := (list (ValidationRecord * ParsedLedgerOp)).

Definition records_typed : records → Prop := Forall (fun x => well_typed x.1 x.2).

(** Operations that slice no caller text and bump no lifetime counter. *)
Definition always_safe (op : ParsedLedgerOp) : Prop :=
  match op with
  | Mint _ _ _ | Transfer _ _ _ | Stake _ _ | Unstake _ | WitnessReward _ _ _ _ | Burn _ _
  | PoolFund _ | Predict _ _ _ _ _ | DormancyHeartbeat | WitnessRegister _ _ => True
  | _ => False
  end.

Lemma always_safe_safe r op s : always_safe op → safe r op s.
Proof. by destruct op. Qed.

Lemma apply_op_processed r op s o s' :
  LInv s → well_typed r op → apply_op r genesis_authority op s = (o, s') → o ≠ Panic →
  records_processed s' <= records_processed s + 1.
Proof.
  intros HL T E Hp. destruct (apply_op_spec r genesis_authority op s o s' HL T E) as [(_&_&->)|[_ Q]]; [lia|].
  destruct o as [[]|e|]; [..|done].
  - destruct Q as (s1&_&_&_&_&_&_&_&->&_). lia.
  - rewrite (un_rest _ _ Q). pose proof (core_register_creator r s) as Ec. unfold core in Ec. cbn.
    replace (records_processed (register_creator r s)) with (records_processed s) by congruence. lia.
Qed.

Lemma tolerant_pass_LInv (l : records) : ∀ s s' failed,
  records_typed l → LInv s → tolerant_pass genesis_authority l s = Ok (s', failed) →
  LInv s' ∧ records_typed failed.
Proof.
  induction l as [|[r op] l IH]; intros s s' failed Hl HL E; cbn in E.
  - injection E as <- <-. by split.
  - apply Forall_cons in Hl as [Ht Hl].
    destruct (apply_op r genesis_authority op s) as [o s1] eqn:E1. destruct o as [[]|e|]; [..|done].
    + eapply IH; [done| |done]. by eapply apply_op_LInv.
    + apply outcome_bind_Ok in E as ([s2 f2]&E2&[= <- <-]).
      assert (HL1 : LInv s1) by (by eapply apply_op_LInv).
      destruct (IH _ _ _ Hl HL1 E2). split; [done|]. by constructor.
Qed.

Lemma tolerant_pass_total (l : records) : ∀ s,
  records_typed l → Forall (fun x => always_safe x.2) l → LInv s →
  records_processed s + Z.of_nat (length l) < U64.MAX →
  ∃ s' failed, tolerant_pass genesis_authority l s = Ok (s', failed) ∧ LInv s' ∧
    records_typed failed ∧ Forall (fun x => always_safe x.2) failed ∧
    (length failed <= length l)%nat ∧
    records_processed s' <= records_processed s + Z.of_nat (length l).
Proof.
  induction l as [|[r op] l IH]; intros s Hl Hs HL Hn; cbn [tolerant_pass length] in *.
  - exists s, []. split_and!; try done; lia.
  - apply Forall_cons in Hl as [Ht Hl]. apply Forall_cons in Hs as [Hs0 Hs].
    pose proof (apply_op_no_panic_aux r genesis_authority op s HL Ht (always_safe_safe r op s Hs0)
      ltac:(lia)) as Hp.
    destruct (apply_op r genesis_authority op s) as [o s1] eqn:E1. cbn in Hp.
    pose proof (apply_op_LInv r genesis_authority op s o s1 HL Ht E1 Hp) as HL1.
    pose proof (apply_op_processed r op s o s1 HL Ht E1 Hp).
    destruct (IH s1 Hl Hs HL1 ltac:(lia)) as (s2&f2&->&HL2&Hf&Hfs&Hlen&Hr). destruct o as [[]|e|]; [..|done].
    + exists s2, f2. split_and!; try done; lia.
    + exists s2, ((r, op) :: f2). split_and!; try done; cbn; try lia; by constructor.
Qed.

(** C40: replay reproduces a conserved ledger. Whatever well-typed records
    [derive_ledger_tolerant] replays from the empty ledger, and whatever of them
    fail in the first and second pass, the ledger it returns satisfies the
    invariant; and on records of the operations that slice no caller text and
    bump no lifetime counter it always returns, never a panic, with at most as
    many failures as records. *)
Theorem replay_conserves (l : records) :
  records_typed l →
  (∀ s n, derive_ledger_tolerant genesis_authority l = Ok (s, n) → LInv s) ∧
  (Forall (fun x => always_safe x.2) l → 2 * Z.of_nat (length l) < U64.MAX →
   ∃ s n, derive_ledger_tolerant genesis_authority l = Ok (s, n) ∧ LInv s ∧
          0 <= n <= Z.of_nat (length l)).
Proof.
  intros Hl. split.
  - intros s n E. unfold derive_ledger_tolerant in E.
    apply outcome_bind_Ok in E as ([s1 f1]&E1&E). apply outcome_bind_Ok in E as ([s2 f2]&E2&[= <- _]).
    destruct (tolerant_pass_LInv _ _ _ _ Hl LInv_new E1) as [HL1 Hf1].
    by eapply tolerant_pass_LInv.
  - intros Hs Hn. unfold derive_ledger_tolerant.
    destruct (tolerant_pass_total l ledger_new Hl Hs LInv_new) as (s1&f1&->&HL1&Hf1&Hs1&Hl1&Hr1);
      [cbn; lia|]. cbn in Hr1.
    destruct (tolerant_pass_total f1 s1 Hf1 Hs1 HL1) as (s2&f2&E2&HL2&_&_&Hl2&_); [lia|].
    exists s2, (Z.of_nat (length f2)). cbn. rewrite E2. split_and!; try done; lia.
Qed.
End replay.

(** ** Examples: a genesis mint, then a transfer *)

Module LedgerExamples.
#[local] Instance ex_externals : Externals := toy_externals.

Definition ex_record (id : string) (key : byte) : ValidationRecord :=
  mkRecord id (f64_of_Z 1000) [key] None None ∅ [].
Definition ex_authority : string := creator_identity_hash (ex_record "" Byte.x01).
Definition ex_mint : ParsedLedgerOp := Mint 5000 ex_authority "genesis: first".
Definition ex_transfer : ParsedLedgerOp := Transfer 20 "bob" None.

Definition ex_minted : LedgerState :=
  Eval vm_compute in (apply_op (ex_record "record-one-000000" Byte.x01) ex_authority ex_mint ledger_new).2.

Lemma ex_minted_eq :
  apply_op (ex_record "record-one-000000" Byte.x01) ex_authority ex_mint ledger_new = (Ok tt, ex_minted).
Proof. vm_cast_no_check (eq_refl (Ok tt, ex_minted)). Qed.

Lemma ex_minted_LInv : LInv ex_minted.
Proof.
  eapply apply_op_LInv; [apply LInv_new| |exact ex_minted_eq|done].
  by split; [split|].
Qed.

Lemma apply_op_conserves_witness :
  LInv ex_minted ∧ total_supply ex_minted = 5000.
Proof.
  split; [|reflexivity].
  apply (apply_op_conserves (ex_record "record-one-000000" Byte.x01) ex_authority ex_mint ledger_new
    (Ok tt) ex_minted); [exact LInv_new|by split; [split|]|exact ex_minted_eq|discriminate].
Defined.

Definition ex_sent : LedgerState :=
  Eval vm_compute in (apply_op (ex_record "record-two-000000" Byte.x01) ex_authority ex_transfer ex_minted).2.

Lemma ex_sent_eq :
  apply_op (ex_record "record-two-000000" Byte.x01) ex_authority ex_transfer ex_minted = (Ok tt, ex_sent).
Proof. vm_cast_no_check (eq_refl (Ok tt, ex_sent)). Qed.

Lemma ex_transfer_typed k id :
  String.prefix GENESIS_STAKE_RECORD_PREFIX id = false → well_typed (ex_record id k) ex_transfer.
Proof. by split; [split|]. Qed.

Lemma apply_op_no_panic_witness :
  (apply_op (ex_record "record-two-000000" Byte.x01) ex_authority ex_transfer ex_minted).1 ≠ Panic.
Proof.
  apply (apply_op_no_panic (ex_record "record-two-000000" Byte.x01) ex_authority ex_transfer ex_minted);
    [exact ex_minted_LInv|by apply ex_transfer_typed|done|reflexivity].
Defined.

(** A stranger with no balance. *)
Definition ex_refused : LedgerState :=
  Eval vm_compute in (apply_op (ex_record "record-two-000000" Byte.x02) ex_authority ex_transfer ex_minted).2.

Lemma ex_refused_eq :
  apply_op (ex_record "record-two-000000" Byte.x02) ex_authority ex_transfer ex_minted =
  (Err (ELedger "insufficient balance"), ex_refused).
Proof. vm_cast_no_check (eq_refl (@Err unit (ELedger "insufficient balance"), ex_refused)). Qed.

Lemma apply_op_error_atomic_witness :
  account ex_refused ex_authority = account ex_minted ex_authority ∧ velocity ex_refused = velocity ex_minted.
Proof.
  destruct (apply_op_error_atomic (ex_record "record-two-000000" Byte.x02) ex_authority ex_transfer
    ex_minted (ELedger "insufficient balance") ex_refused) as (Ha & Hs & _);
    [exact ex_minted_LInv|by apply ex_transfer_typed|exact ex_refused_eq|].
  split; [apply Ha|by rewrite Hs].
Defined.

Lemma apply_op_idempotent_witness :
  apply_op (ex_record "record-two-000000" Byte.x02) "other" (Unstake "x") ex_sent = (Ok tt, ex_sent).
Proof.
  apply (apply_op_idempotent (ex_record "record-two-000000" Byte.x01) ex_authority ex_transfer ex_minted);
    [exact ex_minted_LInv|by apply ex_transfer_typed|exact ex_sent_eq|reflexivity].
Defined.

Lemma supply_only_minted_witness : total_supply ex_minted = 0 + 5000.
Proof.
  apply (supply_only_minted (ex_record "record-one-000000" Byte.x01) ex_authority ex_mint ledger_new);
    [exact LInv_new|by split; [split|]|by vm_compute|exact ex_minted_eq].
Defined.

(** The stranger's failing transfer takes nothing from the authority. *)
Lemma only_owner_or_authority_debits_witness :
  available (account ex_minted ex_authority) <= available (account ex_refused ex_authority).
Proof.
  apply (only_owner_or_authority_debits (ex_record "record-two-000000" Byte.x02) ex_authority
    ex_transfer ex_minted (Err (ELedger "insufficient balance")) ex_refused ex_authority);
    [exact ex_minted_LInv|by apply ex_transfer_typed|exact ex_refused_eq|discriminate
    |by vm_compute|by vm_compute].
Defined.

Lemma unauthorized_refused_witness :
  ∃ e s', apply_op (ex_record "record-two-000000" Byte.x02) ex_authority ex_mint ex_minted = (Err e, s')
    ∧ core s' = core ex_minted.
Proof.
  apply (unauthorized_refused (ex_record "record-two-000000" Byte.x02) ex_authority ex_mint ex_minted);
    [reflexivity|by vm_compute|by vm_compute].
Defined.

Lemma smt_dirty_complete_witness : "bob"%string ∈ smt_dirty ex_sent.
Proof.
  apply (smt_dirty_complete (ex_record "record-two-000000" Byte.x01) ex_authority ex_transfer ex_minted);
    [exact ex_minted_LInv|by apply ex_transfer_typed|exact I|exact ex_sent_eq|by vm_compute].
Defined.

Lemma replay_conserves_witness :
  ∃ s n, derive_ledger_tolerant ex_authority
    [(ex_record "record-two-000000" Byte.x01, ex_transfer);
     (ex_record "record-one-000000" Byte.x01, ex_mint)] = Ok (s, n) ∧ LInv s ∧ 0 <= n <= 2.
Proof.
  apply (replay_conserves ex_authority
    [(ex_record "record-two-000000" Byte.x01, ex_transfer);
     (ex_record "record-one-000000" Byte.x01, ex_mint)]);
    [repeat constructor; vm_compute; discriminate|repeat constructor|reflexivity].
Defined.
End LedgerExamples.
