(* ===== verification/Validation.v ===== *)
(** * Admission of ledger operations

    src/accounting/validate.rs: the pre-flight checks a node runs on an operation
    before it is stored or gossiped.  They read the ledger and change nothing;
    the verdict is [Ok] or the reason of a refusal. *)

From S2P Require Import Prelude F64 Types Dormancy Acquisition Velocity CircuitBreaker Custodial IdleDecay CrossZone Records LedgerOps Ledger.
Open Scope Z_scope.

Definition PROFILE_B_TRANSFER_CAP : Z := 1000 * BASE_UNITS_PER_BEAT.
(** src/pins.rs *)
Definition PINNED_CHAIN_ANCHORS_NETWORK_ID : string := "testnet".
Definition PINNED_GENESIS_MINT_ID : string := "019f36c4-4e9b-7733-9b63-35006ca6c0dc".

(** [ValidationResult::ok] and [ValidationResult::fail] *)
Definition unless (bad : bool) (msg : string) : L unit := require (negb bad) (ELedger msg).
(** A check of a tracker, its error as the reason. *)
Definition passes (o : outcome unit) : L unit := lift o.

Definition batch_is_empty (b : IdleDecayBatch) : bool := bool_decide (debits b = []).
Definition refund_is_empty (b : XZoneRefundBatch) : bool := bool_decide (refunds b = []).

Definition pinned_genesis_mint_admits (record : ValidationRecord) (op : ParsedLedgerOp) (network_id : string) : bool :=
  match op with
  | Mint _ _ reason =>
      if negb (String.prefix "genesis:" reason) then true
      else if bool_decide (network_id ≠ PINNED_CHAIN_ANCHORS_NETWORK_ID) then true
      else bool_decide (rec_id record = PINNED_GENESIS_MINT_ID)
  | _ => true
  end.

Section validate.
Context `{Externals}.
Context (actor genesis_authority : string) (now : f64).
Let privileged : bool := is_privileged_emitter actor genesis_authority.

Definition check_balance (amount : Z) : L unit :=
  s ← get; unless (balance s actor <? amount) "insufficient balance".

Definition validate_mint (amount : Z) : L unit :=
  unless (negb privileged) "only genesis authority can mint";;
  unless (amount =? 0) "mint amount must be > 0";;
  s ← get;
  unless (U64.MAX <? total_supply s + amount) "mint would overflow";;
  unless (MAX_SUPPLY <? total_supply s + amount) "would exceed max supply".

(** The rate limits of the node, which read its own trackers. *)
Definition check_rate_limits (amount : Z) (to : string) : L unit :=
  s ← get;
  let r := restrictions (exchange_classifier s) actor in
  let circulating := circulating_supply s in
  let weight_q := f64_as_uint 128 (f64_mul (circuit_breaker_weight r) (f64_of_Z 1000000000)) in
  let weighted := Z.min (U64.sat_mul128 amount weight_q / 1000000000) U64.MAX in
  passes (check_transfer (circuit_breaker s) weighted circulating);;
  total ← account_total (account s actor);
  let multiplier := f64_mul (velocity_multiplier (circuit_breaker s)) (restr_velocity_multiplier r) in
  passes (check_velocity (velocity s) actor amount total now multiplier);;
  passes (check_acquisition (acquisition s) to amount circulating now genesis_authority).
Definition validate_transfer (amount : Z) (to : string) (enforce_rate_limits : bool) : L unit :=
  unless (amount =? 0) "transfer amount must be > 0";;
  unless (bool_decide (actor = to)) "cannot transfer to self";;
  s ← get;
  let bal := balance s actor in
  unless (bal <? amount) "insufficient balance";;
  unless (negb privileged && is_single_sig s actor && (PROFILE_B_TRANSFER_CAP <? amount)) "Profile B transfer cap exceeded";;
  when (negb privileged)
    (transferable ← transferable_balance (vesting s) actor bal now;
     when (transferable <? amount)
       (locked_balance (vesting s) actor now;; throw (ELedger "insufficient unlocked balance"));;
     when enforce_rate_limits (check_rate_limits amount to)).

Definition validate_stake (amount : Z) : L unit :=
  unless (amount <? MIN_STAKE) "stake amount below minimum";;
  s ← get;
  unless (balance s actor <? amount) "insufficient balance for stake".
Definition validate_unstake (rid : string) : L unit :=
  s ← get;
  stake ← ok_or (stakes s !! rid) (ELedger "stake not found");
  unless (negb (se_active stake)) "stake already unstaked";;
  unless (bool_decide (se_staker stake ≠ actor)) "you do not own this stake";;
  unless (f64_ltb (f64_sub now (se_timestamp stake)) UNSTAKE_COOLDOWN) "cooldown not elapsed".
Definition validate_witness_reward (amount : Z) (from to : string) : L unit :=
  unless (amount =? 0) "witness reward must be > 0";;
  unless (MAX_WITNESS_REWARD <? amount) "witness reward exceeds max";;
  unless (bool_decide (from = to)) "witness cannot reward self";;
  unless (negb privileged) "only genesis authority can create witness reward records";;
  s ← get;
  unless (conservation_pool s <? amount) "conservation pool insufficient".
Definition validate_slash (amount : Z) (offender rid : string) : L unit :=
  unless (negb privileged) "only genesis authority can slash";;
  unless (amount =? 0) "slash amount must be > 0";;
  s ← get;
  stake ← ok_or (stakes s !! rid) (ELedger "stake not found");
  unless (negb (se_active stake)) "stake is not active";;
  unless (bool_decide (se_staker stake ≠ offender)) "offender does not own stake".
Definition validate_dormancy_reclaim (amount : Z) (who : string) (last_activity : f64) : L unit :=
  unless (negb privileged) "only genesis authority can reclaim dormant beats";;
  unless (amount =? 0) "reclaim amount must be > 0";;
  s ← get;
  a ← ok_or (accounts s !! who) (ELedger "dormant identity not found");
  unless (available a =? 0) "dormant identity has no available balance";;
  unless (f64_ltb (f64_sub now (last_active a)) DORMANCY_THRESHOLD) "identity not dormant";;
  unless (off_by_more_than_1 last_activity (last_active a)) "last_activity timestamp mismatch";;
  match phase (dormancy s) who with
  | Active => throw (ELedger "reclaim rejected: no DormancyDeclare for this identity")
  | Reclaimed => throw (ELedger "reclaim rejected: already reclaimed")
  | Dormant => unless (negb (eligible_for_reclamation (dormancy s) who now)) "wake-up window has not yet expired"
  end.
Definition validate_dormancy_declare (target : string) (last_known : f64) : L unit :=
  s ← get;
  a ← ok_or (accounts s !! target) (ELedger "declare target not found");
  match phase (dormancy s) target with
  | Active =>
      unless (f64_ltb (f64_sub now (last_active a)) DORMANCY_THRESHOLD) "target not dormant yet";;
      unless (off_by_more_than_1 last_known (last_active a)) "last_known_active mismatch"
  | Dormant => throw (ELedger "declare rejected: identity already declared dormant")
  | Reclaimed => throw (ELedger "declare rejected: identity already reclaimed")
  end.
Definition validate_burn (amount : Z) : L unit :=
  unless (negb privileged) "only genesis authority can execute burn";;
  unless (amount =? 0) "burn amount must be > 0";;
  s ← get;
  unless (balance s actor <? amount) "insufficient balance for burn".
(** Heartbeats and proofs of life: only a dormant identity wakes up. *)
Definition validate_wake (who : string) : L unit :=
  s ← get;
  match phase (dormancy s) who with
  | Dormant => mret tt
  | Active => throw (ELedger "already Active")
  | Reclaimed => throw (ELedger "already Reclaimed")
  end.
Definition validate_idle_decay (batch : IdleDecayBatch) : L unit :=
  unless (negb privileged) "only genesis authority can impose idle_decay";;
  unless (batch_is_empty batch) "idle_decay batch is empty";;
  unless (negb (is_conserved batch)) "idle_decay batch not conserved".
Definition validate_refund_batch (batch : XZoneRefundBatch) : L unit :=
  unless (negb privileged) "only genesis authority can emit xzone timeout refund / stale reap";;
  unless (refund_is_empty batch) "xzone timeout refund / reap batch is empty".
Definition validate_pool_fund (amount : Z) : L unit :=
  unless (negb privileged) "only genesis authority can fund pool";;
  unless (amount =? 0) "pool_fund amount must be > 0";;
  s ← get;
  unless (balance s actor <? amount) "insufficient balance for pool_fund".
Definition validate_predict (amount : Z) (zone : string) : L unit :=
  unless (negb (in_sandbox zone) && (amount <? MIN_PREDICTION_STAKE)) "prediction stake below minimum";;
  s ← get;
  when (0 <? amount) (unless (balance s actor <? amount) "insufficient balance for prediction").
Definition validate_xzone_lock (amount : Z) (source_zone dest_zone : string) (enforce_rate_limits : bool) : L unit :=
  unless (bool_decide (source_zone = dest_zone)) "source and dest zones must differ";;
  unless (amount =? 0) "amount must be > 0";;
  s ← get;
  unless (balance s actor <? amount) "insufficient balance for cross-zone lock";;
  when (enforce_rate_limits && negb privileged && is_classified (exchange_classifier s) actor)
    (total ← account_total (account s actor);
     passes (check_velocity (velocity s) actor amount total now
       (f64_mul (velocity_multiplier (circuit_breaker s))
          (restr_velocity_multiplier (restrictions (exchange_classifier s) actor))))).
Definition validate_xzone_claim (tid : string) (amount : Z) : L unit :=
  unless (amount =? 0) "cross-zone claim: amount must be > 0";;
  s ← get;
  match pending (cross_zone s) !! tid with
  | Some t => unless (negb (amount =? CrossZone.amount t)) "amount does not match the locked transfer"
  | None => mret tt
  end.
(** Cancel and reject. *)
Definition validate_known_transfer (tid : string) : L unit :=
  unless (bool_decide (tid = "")) "transfer_id required";;
  s ← get;
  unless (bool_decide (pending (cross_zone s) !! tid = None)) "transfer not found".
Definition validate_xzone_abort (tid : string) (dest_committee_hash : hash) (dest_committee_size : Z)
    (signers : list SealFinalityWitness) : L unit :=
  unless (bool_decide (tid = "")) "transfer_id required";;
  unless (dest_committee_size =? 0) "dest_committee_size must be > 0";;
  unless (bool_decide (signers = [])) "signers required";;
  s ← get;
  t ← ok_or (pending (cross_zone s) !! tid) (ELedger "transfer not found");
  unless (negb (bool_decide (status t = Locked))) "transfer not in Locked state";;
  unless (bool_decide (merkle_proof t = []) || (source_seal_epoch t =? 0)) "transfer not sealed yet";;
  match verify_abort_quorum (source_seal_wire_version t) tid (dest_zone t) (source_seal_epoch t)
          dest_committee_hash dest_committee_size signers (dest_finality_committee t) with
  | Ok _ => mret tt
  | _ => throw (ELedger "proof rejected")
  end.
Definition validate_witness_register (zone_path : string) (bond : Z) : L unit :=
  unless (bond <? WITNESS_BOND_MIN) "bond below minimum";;
  unless (bool_decide (zone_path = "")) "zone_path empty";;
  s ← get;
  unless (balance s actor <? bond) "insufficient balance".

Definition validate_op (op : ParsedLedgerOp) (enforce_rate_limits : bool) : L unit :=
  match op with
  | Mint amount _ _ => validate_mint amount
  | Transfer amount to _ => validate_transfer amount to enforce_rate_limits
  | Stake amount _ => validate_stake amount
  | Unstake rid => validate_unstake rid
  | WitnessReward amount from to _ => validate_witness_reward amount from to
  | Slash amount offender _ _ rid _ => validate_slash amount offender rid
  | DormancyReclaim amount who last => validate_dormancy_reclaim amount who last
  | Burn amount _ => validate_burn amount
  | IdleDecayOp batch => validate_idle_decay batch
  | XZoneTimeoutRefund batch | XZoneStaleReap batch => validate_refund_batch batch
  | PoolFund amount => validate_pool_fund amount
  | Predict amount zone _ _ _ => validate_predict amount zone
  | XZoneLock amount _ source dest => validate_xzone_lock amount source dest enforce_rate_limits
  | XZoneClaim tid amount _ => validate_xzone_claim tid amount
  | XZoneCancel tid => validate_known_transfer tid
  | XZoneReject tid => validate_known_transfer tid
  | XZoneAbort tid h n signers => validate_xzone_abort tid h n signers
  | DormancyDeclare target last => validate_dormancy_declare target last
  | DormancyHeartbeat => validate_wake actor
  | DormancyProofOfLife target _ => validate_wake target
  | WitnessRegister zone bond => validate_witness_register zone bond
  end.
End validate.
