(* ===== verification/ValidationProps.v ===== *)
(** * Admission: results

    The pre-flight checks against the transition itself: what passes them is
    applied, and what they refuse would not have been. *)

From S2P Require Import Prelude F64 Types Dormancy Acquisition Velocity CircuitBreaker Custodial IdleDecay.
From S2P Require Import CrossZone Records LedgerOps Ledger LedgerInv LedgerSpec LedgerProps Validation.
Open Scope Z_scope.

(** ** Computations that do not refuse *)

Definition no_error {A} (o : outcome A) : Prop := match o with Err _ => False | _ => True end.
Definition calm {S A} (m : M S A) : Prop := ∀ s, wp m (fun o _ => no_error o) s.

Lemma calm_bind {S A B} (m : M S A) (f : A → M S B) : calm m → (∀ a, calm (f a)) → calm (m ≫= f).
Proof. intros Hm Hf s. apply wp_bind. eapply wp_mono; [apply Hm|]. intros [a| |] s' H; [apply Hf|done..]. Qed.
Lemma calm_ret {S A} (a : A) : calm (mret a : M S A).
Proof. by intros s. Qed.
Lemma calm_get {S} : calm (get : M S S).
Proof. by intros s. Qed.
Lemma calm_modify {S} (f : S → S) : calm (modify f).
Proof. by intros s. Qed.
Lemma calm_add {S} a b : calm (add_u64 a b : M S Z).
Proof. intros s. by apply wp_add_u64. Qed.
Lemma calm_sub {S} a b : calm (sub_u64 a b : M S Z).
Proof. intros s. by apply wp_sub_u64. Qed.
Lemma calm_mul {S} a b : calm (mul_u64 a b : M S Z).
Proof. intros s. by apply wp_mul_u64. Qed.
Lemma calm_when {S} b (m : M S unit) : calm m → calm (when b m).
Proof. intros Hm s. apply wp_when; [intros _; apply Hm|done]. Qed.
Lemma calm_if {S A} (b : bool) (m m' : M S A) : calm m → calm m' → calm (if b then m else m').
Proof. by destruct b. Qed.
Lemma calm_sum {S} l acc : calm (sum_u64 l acc : M S Z).
Proof.
  revert acc. induction l as [|x l IH]; intros acc; cbn [sum_u64]; [apply calm_ret|].
  apply calm_bind; [apply calm_add|]. intros n. apply IH.
Qed.
Lemma calm_prefix {S} x : calm (prefix16 x : M S unit).
Proof. intros s. unfold prefix16. by destruct (prefix16_ok x). Qed.
Lemma calm_slice {S} x : calm (slice16 x : M S unit).
Proof. intros s. unfold slice16. by destruct (slice16_ok x). Qed.
Lemma calm_entry who : calm (entry_or_default who).
Proof. by intros s. Qed.
Lemma calm_put who a : calm (put_account who a).
Proof. by intros s. Qed.
Lemma calm_total a : calm (account_total a).
Proof. apply calm_add. Qed.
Lemma calm_track who a t : calm (track_balance who a t).
Proof. apply calm_bind; [apply calm_total|]. intros n. apply calm_modify. Qed.
Create HintDb calm.
#[export] Hint Resolve calm_ret calm_get calm_modify calm_add calm_sub calm_mul calm_sum calm_prefix calm_slice calm_entry calm_put calm_total calm_track : calm.

(** Closes a computation whose steps are all calm. *)
Ltac calm :=
  repeat match goal with
  | |- wp ?m _ ?s => refine ((_ : calm m) s)
  | |- calm (_ ≫= _) => apply calm_bind; [|intros ?]
  | |- calm (when _ _) => apply calm_when
  | |- calm (if _ then _ else _) => apply calm_if
  | |- calm (let _ := _ in _) => cbv zeta
  | |- calm (match ?x with _ => _ end) => destruct x
  | |- calm _ => solve [auto with calm]
  end.

Section tracked.
Context `{Externals} (record : ValidationRecord) (genesis_authority : string).
Lemma calm_track_transfer amount to : calm (track_transfer record amount to).
Proof. unfold track_transfer. cbv zeta. calm. Qed.
Lemma calm_pool_capped amount : calm (credit_pool_capped amount).
Proof. unfold credit_pool_capped. calm. Qed.
Lemma calm_jury n r jury : calm (credit_jury record n r jury).
Proof. revert r. induction jury as [|j l IH]; intros r; cbn [credit_jury]; calm; apply IH. Qed.
Lemma calm_slash_stake a o rid st : calm (slash_stake record a o rid st).
Proof. unfold slash_stake. calm. Qed.
Lemma calm_slash_credits p c j ch jury : calm (slash_credits record p c j ch jury).
Proof. unfold slash_credits. calm; try apply calm_jury; apply calm_pool_capped. Qed.
Lemma calm_refund who n : calm (refund_and_count record who n).
Proof. unfold refund_and_count. calm. Qed.
Lemma calm_finish op : calm (finish record op).
Proof. unfold finish. cbv zeta. calm. Qed.
End tracked.
#[export] Hint Resolve calm_track_transfer calm_pool_capped calm_jury calm_slash_stake calm_slash_credits calm_refund calm_finish : calm.

Lemma calm_zoom {T} (proj : LedgerState → T) `{!Setter proj} {A} (m : M T A) : calm m → calm (zoom proj m).
Proof. intros Hm s. apply wp_zoom. eapply wp_mono; [apply Hm|]. by intros [] t. Qed.
Lemma calm_for_each {S A} (f : A → M S unit) l : (∀ x, calm (f x)) → calm (for_each f l).
Proof.
  intros Hf. induction l as [|x l IH]; cbn [for_each]; [apply calm_ret|].
  apply calm_bind; [apply Hf|]. by intros _.
Qed.
Lemma calm_bump_refunded : calm bump_refunded.
Proof. unfold bump_refunded. calm. Qed.
Lemma calm_release tid t st : calm (release tid t st).
Proof. unfold release, put_transfer. calm. Qed.
#[export] Hint Resolve calm_bump_refunded calm_release : calm.
Lemma calm_entries f l : (∀ e, calm (f e)) → calm (apply_entries f l).
Proof.
  intros Hf. induction l as [|e l IH]; cbn [apply_entries]; [apply calm_ret|].
  apply calm_bind; [apply Hf|]. intros a. apply calm_bind; [apply IH|]. intros r. apply calm_ret.
Qed.
Lemma calm_refund_batch b : calm (apply_refund_batch b).
Proof. apply calm_entries. intros e. unfold apply_refund_entry. cbv zeta. calm. Qed.
Lemma calm_reap_batch b : calm (apply_reap_batch b).
Proof. apply calm_entries. intros e. unfold apply_reap_entry. cbv zeta. calm. Qed.
Lemma calm_debits c l : calm (apply_debits c l).
Proof.
  revert c. induction l as [|[who amt] l IH]; intros c; cbn [apply_debits]; [apply calm_ret|]. calm; apply IH.
Qed.
Lemma calm_credits c l : calm (apply_staker_credits c l).
Proof.
  revert c. induction l as [|[who amt] l IH]; intros c; cbn [apply_staker_credits]; [apply calm_ret|].
  calm; apply IH.
Qed.
Lemma calm_note_batch c p d : calm (note_applied_batch c p d).
Proof. unfold note_applied_batch. calm. Qed.
Lemma calm_refund_account `{Externals} record who n : calm (refund_account record who n).
Proof. unfold refund_account. calm. Qed.
#[export] Hint Resolve calm_refund_batch calm_reap_batch calm_debits calm_credits calm_note_batch calm_refund_account : calm.

(** ** Reading an admission *)

Section run.
Context {S : Type}.
Lemma run_get {B} (f : S → M S B) (s : S) : (get ≫= f) s = f s s.
Proof. done. Qed.
Lemma run_ret {A B} (a : A) (f : A → M S B) (s : S) : (mret a ≫= f) s = f a s.
Proof. done. Qed.
Lemma run_ok_or {A B} (x : option A) e (f : A → M S B) (s : S) :
  (ok_or x e ≫= f) s = match x with Some a => f a s | None => (Err e, s) end.
Proof. by destruct x. Qed.
Lemma run_throw {A B} e (f : A → M S B) (s : S) : (throw e ≫= f) s = (Err e, s).
Proof. done. Qed.
End run.
Lemma run_unless_bind {B} b msg (f : unit → L B) s :
  (unless b msg ≫= f) s = if b then (Err (ELedger msg), s) else f tt s.
Proof. by destruct b. Qed.
Lemma run_unless b msg s : unless b msg s = (if b then Err (ELedger msg) else Ok tt, s).
Proof. by destruct b. Qed.

(** ** What admission leaves to the transition *)

Section admission.
Context `{Externals}.
Variables (record : ValidationRecord) (genesis_authority : string).
Notation creator := (creator_identity_hash record).
Notation ts := (rec_timestamp record).
Notation privileged := (is_privileged_emitter creator genesis_authority).

Definition wake_expired (who : string) (s : LedgerState) : bool :=
  from_option (fun d => f64_gtb ts (wakeup_deadline d)) false (declarations (dormancy s) !! who).
Definition returnable (tid : string) (party : PendingTransfer → string) (s : LedgerState) : bool :=
  from_option (fun t => is_locked t && unsealed t && bool_decide (creator = party t)) false
    (pending (cross_zone s) !! tid).
Definition claimable (tid who : string) (s : LedgerState) : bool :=
  match pending (cross_zone s) !! tid with
  | Some t =>
      is_locked t && bool_decide (who = recipient t) && negb (f64_gtb ts (expires_at t)) && negb (unsealed t) &&
      verify_seal_inclusion_proof (source_seal_wire_version t) (lock_record_hash t)
        (merkle_proof t) (source_merkle_root t) &&
      match verify_finality_quorum (source_seal_wire_version t) (source_zone t) (source_seal_epoch t)
              (source_merkle_root t) (source_committee_hash t) (source_committee_size t)
              (source_seal_signers t) with Ok _ => true | _ => false end
  | None => false
  end.

(** The rules the transition alone enforces. *)
Definition late_refusal (op : ParsedLedgerOp) (s : LedgerState) : bool :=
  match op with
  | Transfer amount _ _ => privileged && (MAX_SUPPLY <=? total_supply s) && (MAX_SUPPLY / 100 <? amount)
  | Stake _ purpose =>
      bool_decide (purpose = StakePurpose.Governance) && is_classified (exchange_classifier s) creator
  | WitnessReward _ _ to _ => is_classified (exchange_classifier s) to
  | Slash amount _ _ _ rid _ =>
      from_option (fun e => Z.min amount (Z.min (max_slash_of (se_amount e)) (se_amount e)) =? 0) false (stakes s !! rid)
  | IdleDecayOp batch => existsb (fun d => balance s d.1 <? d.2) (debits batch)
  | XZoneLock _ _ source dest =>
      bool_decide (zone_new source = zone_new dest) ||
      bool_decide (is_Some (pending (cross_zone s) !! rec_id record))
  | XZoneClaim tid _ who => negb (claimable tid who s)
  | XZoneCancel tid => negb (returnable tid sender s)
  | XZoneReject tid => negb (returnable tid recipient s)
  | DormancyDeclare _ last => negb (eligible_for_declaration last ts)
  | DormancyHeartbeat => wake_expired creator s
  | DormancyProofOfLife target _ => wake_expired target s
  | _ => false
  end.

(** Two states that differ in profiles and attestations only. *)
Record same_view (s s0 : LedgerState) : Prop := {
  sv_accounts : accounts s0 = accounts s;
  sv_stakes : stakes s0 = stakes s;
  sv_supply : total_supply s0 = total_supply s;
  sv_pool : conservation_pool s0 = conservation_pool s;
  sv_xzone : cross_zone s0 = cross_zone s;
  sv_dormancy : dormancy s0 = dormancy s;
  sv_vesting : vesting s0 = vesting s;
  sv_classifier : exchange_classifier s0 = exchange_classifier s;
}.
Lemma same_view_register s : same_view s (register_creator record s).
Proof.
  unfold register_creator, register_identity_profile, register_identity_attestation.
  by repeat case_match.
Qed.

Notation admitted op b s := (validate_op creator genesis_authority ts op b s = (Ok tt, s)).
Notation runs op s := (wp (apply_body record genesis_authority op) (fun o _ => no_error o) s).

(** The checks an admission has passed, as hypotheses. *)
Ltac admits Ha :=
  repeat (cbv beta zeta in Ha; first
    [ rewrite run_get in Ha
    | rewrite run_unless_bind in Ha;
      match type of Ha with (if ?b then _ else _) = _ => destruct b eqn:?; [discriminate Ha|] end
    | rewrite run_unless in Ha;
      match type of Ha with (if ?b then _ else _, _) = _ => destruct b eqn:?; [discriminate Ha|] end
    | rewrite run_ok_or in Ha;
      match type of Ha with (match ?x with _ => _ end) = _ => destruct x eqn:?; [|discriminate Ha] end ]).
(** The state after the registration of the creator, seen as the one validated. *)
Ltac view V :=
  cbn in *; unfold balance in *; rewrite ?account_acc in *;
  rewrite ?(sv_accounts _ _ V), ?(sv_stakes _ _ V), ?(sv_supply _ _ V), ?(sv_pool _ _ V), ?(sv_xzone _ _ V),
    ?(sv_dormancy _ _ V), ?(sv_vesting _ _ V), ?(sv_classifier _ _ V) in *.
Ltac goes := repeat (cbv beta zeta; first [solve [calm] | lstep]).
Ltac refused V := unfold U64.is_u64 in *; view V; bools; try tauto; try congruence; try lia.

Lemma admitted_mint amount to reason b s s0 :
  same_view s s0 → U64.is_u64 amount → admitted (Mint amount to reason) b s → runs (Mint amount to reason) s0.
Proof.
  intros V T Ha. cbn [validate_op apply_body] in *. unfold validate_mint in Ha. admits Ha. unfold apply_mint. goes.
  all: refused V.
Qed.

Lemma admitted_stake amount purpose b s s0 :
  same_view s s0 → admitted (Stake amount purpose) b s → late_refusal (Stake amount purpose) s = false →
  runs (Stake amount purpose) s0.
Proof.
  intros V Ha L. cbn [validate_op apply_body late_refusal] in *. unfold validate_stake in Ha. admits Ha.
  unfold apply_stake. apply andb_false_iff in L. goes. all: refused V. destruct L; bools; congruence.
Qed.
Lemma admitted_unstake rid b s s0 :
  same_view s s0 → admitted (Unstake rid) b s → runs (Unstake rid) s0.
Proof.
  intros V Ha. cbn [validate_op apply_body] in *. unfold validate_unstake in Ha. admits Ha.
  unfold apply_unstake. goes. all: refused V.
Qed.
Lemma admitted_reward amount from to rid b s s0 :
  same_view s s0 → admitted (WitnessReward amount from to rid) b s →
  late_refusal (WitnessReward amount from to rid) s = false → runs (WitnessReward amount from to rid) s0.
Proof.
  intros V Ha L. cbn [validate_op apply_body late_refusal] in *. unfold validate_witness_reward in Ha. admits Ha.
  unfold apply_witness_reward. goes. all: refused V.
Qed.
Lemma admitted_burn amount memo b s s0 :
  same_view s s0 → admitted (Burn amount memo) b s → runs (Burn amount memo) s0.
Proof.
  intros V Ha. cbn [validate_op apply_body] in *. unfold validate_burn in Ha. admits Ha.
  unfold apply_burn. goes. all: refused V.
Qed.
Lemma admitted_pool_fund amount b s s0 :
  same_view s s0 → admitted (PoolFund amount) b s → runs (PoolFund amount) s0.
Proof.
  intros V Ha. cbn [validate_op apply_body] in *. unfold validate_pool_fund in Ha. admits Ha.
  unfold apply_pool_fund. goes. all: refused V.
Qed.
Lemma admitted_register zone bond b s s0 :
  same_view s s0 → admitted (WitnessRegister zone bond) b s → runs (WitnessRegister zone bond) s0.
Proof.
  intros V Ha. cbn [validate_op apply_body] in *. unfold validate_witness_register in Ha. admits Ha.
  unfold apply_witness_register. goes. all: refused V.
Qed.

Lemma admitted_predict amount zone epoch claim value b s s0 :
  same_view s s0 → admitted (Predict amount zone epoch claim value) b s →
  runs (Predict amount zone epoch claim value) s0.
Proof.
  intros V Ha. cbn [validate_op apply_body] in *. unfold validate_predict in Ha. admits Ha.
  destruct (0 <? amount) eqn:Hp; unfold apply_predict; rewrite Hp; cbn [when] in Ha; admits Ha; goes; refused V.
Qed.
Lemma admitted_slash amount offender challenger jury rid reason b s s0 :
  same_view s s0 → admitted (Slash amount offender challenger jury rid reason) b s →
  late_refusal (Slash amount offender challenger jury rid reason) s = false →
  runs (Slash amount offender challenger jury rid reason) s0.
Proof.
  intros V Ha L. cbn [validate_op apply_body late_refusal] in *. unfold validate_slash in Ha. admits Ha.
  unfold apply_slash. goes. all: try case_bool_decide. all: goes. all: refused V.
  rewrite Z.min_assoc in L. by simplify_eq.
Qed.
Lemma admitted_refunds batch b s s0 :
  same_view s s0 → admitted (XZoneTimeoutRefund batch) b s → runs (XZoneTimeoutRefund batch) s0.
Proof.
  intros V Ha. cbn [validate_op apply_body] in *. unfold validate_refund_batch in Ha. admits Ha.
  unfold apply_xzone_timeout_refund. lstep. lstep; [|refused V]. refine ((_ : calm _) _). apply calm_bind; [apply calm_zoom; auto with calm|].
  intros l. apply calm_for_each. intros [who n]. auto with calm.
Qed.
Lemma admitted_reap batch b s s0 :
  same_view s s0 → admitted (XZoneStaleReap batch) b s → runs (XZoneStaleReap batch) s0.
Proof.
  intros V Ha. cbn [validate_op apply_body] in *. unfold validate_refund_batch in Ha. admits Ha.
  unfold apply_xzone_stale_reap. lstep. lstep; [|refused V]. refine ((_ : calm _) _). apply calm_bind; [apply calm_zoom; auto with calm|].
  intros l. apply calm_for_each. intros [who n]. auto with calm.
Qed.
Lemma admitted_lock amount who src dst b s s0 :
  same_view s s0 → admitted (XZoneLock amount who src dst) b s →
  late_refusal (XZoneLock amount who src dst) s = false → runs (XZoneLock amount who src dst) s0.
Proof.
  intros V Ha L. cbn [validate_op apply_body late_refusal] in *. unfold validate_xzone_lock in Ha. admits Ha. clear Ha.
  unfold apply_xzone_lock, lock_transfer. goes; [apply wp_zoom; goes|..]; refused V.
  all: repeat case_bool_decide; goes; refused V.
Qed.

Lemma admitted_declare target last b s s0 :
  same_view s s0 → admitted (DormancyDeclare target last) b s →
  late_refusal (DormancyDeclare target last) s = false → runs (DormancyDeclare target last) s0.
Proof.
  intros V Ha L. cbn [validate_op apply_body late_refusal] in *. unfold validate_dormancy_declare in Ha. admits Ha.
  destruct (phase (dormancy s) target) eqn:Hp; [|discriminate Ha..]. admits Ha.
  unfold apply_dormancy_declare, declare. lstep. lstep. rewrite (sv_accounts _ _ V), Heqo.
  goes; [apply wp_zoom; goes|]; refused V. rewrite Hp.
  cbn. rewrite L. cbn. goes.
Qed.
Lemma wakes who s s0 : same_view s s0 → phase (dormancy s) who = Dormant → wake_expired who s = false →
  wp (zoom dormancy (wake_up who ts)) (fun o _ => no_error o) s0.
Proof.
  intros V Hp L. apply wp_zoom. unfold wake_up. lstep. lstep. rewrite (sv_dormancy _ _ V), Hp.
  unfold wake_expired in L. destruct (declarations (dormancy s) !! who); cbn in *; rewrite ?L; by cbn; goes.
Qed.
Lemma admitted_wake who s : validate_wake who s = (Ok tt, s) → phase (dormancy s) who = Dormant.
Proof. unfold validate_wake. intros Ha. admits Ha. by destruct (phase (dormancy s) who). Qed.
Lemma admitted_heartbeat b s s0 :
  same_view s s0 → admitted DormancyHeartbeat b s → late_refusal DormancyHeartbeat s = false → runs DormancyHeartbeat s0.
Proof.
  intros V Ha L. apply admitted_wake in Ha. cbn [apply_body]. unfold apply_dormancy_heartbeat, reset_last_active.
  lstep. eapply wp_mono; [by eapply wakes|]. intros [] s1 Hs; goes; done.
Qed.
Lemma admitted_proof target sig b s s0 :
  same_view s s0 → admitted (DormancyProofOfLife target sig) b s →
  late_refusal (DormancyProofOfLife target sig) s = false → runs (DormancyProofOfLife target sig) s0.
Proof.
  intros V Ha L. apply admitted_wake in Ha. cbn [apply_body]. unfold apply_dormancy_proof_of_life, reset_last_active.
  lstep. eapply wp_mono; [by eapply wakes|]. intros [] s1 Hs; goes; done.
Qed.

Lemma checks_debits l s s0 : same_view s s0 →
  existsb (fun d => balance s d.1 <? d.2) l = false → check_debits l s0 = (Ok tt, s0).
Proof.
  intros V. induction l as [|[who amt] l IH]; cbn; [done|]. intros [Hb Hl]%orb_false_iff.
  unfold balance in *. rewrite run_get, account_acc, (sv_accounts _ _ V), <- account_acc, Hb, run_ret. by apply IH.
Qed.
Lemma wp_ran (m k : L unit) Q s : m s = (Ok tt, s) → wp k Q s → wp (m;; k) Q s.
Proof. intros E Hk. apply wp_bind. unfold wp at 1. by rewrite E. Qed.
Lemma admitted_idle batch b s s0 :
  same_view s s0 → admitted (IdleDecayOp batch) b s → late_refusal (IdleDecayOp batch) s = false →
  runs (IdleDecayOp batch) s0.
Proof.
  intros V Ha L. cbn [validate_op apply_body late_refusal] in *. unfold validate_idle_decay in Ha. admits Ha.
  unfold apply_idle_decay, apply_idle_decay_batch. lstep. lstep; [|refused V]. lstep. lstep; [|refused V].
  apply wp_ran; [by eapply checks_debits|]. refine ((_ : calm _) _). calm. apply calm_zoom, calm_note_batch.
Qed.

Lemma sum_run {S} l acc : ∃ o, ∀ s : S, (sum_u64 l acc : M S Z) s = (o, s).
Proof.
  revert acc. induction l as [|x l IH]; intros acc; cbn [sum_u64]; [by eexists|].
  unfold add_u64, mbind, M_bind. destruct (acc + x <=? U64.MAX); [apply IH|by exists Panic].
Qed.
Lemma transferable_run v who n : ∃ o, ∀ s : LedgerState, transferable_balance v who n ts s = (o, s).
Proof.
  unfold transferable_balance, locked_balance. destruct (schedules v !! who) as [l|]; [|by eexists].
  destruct (sum_run (S := LedgerState) ((fun e => locked e ts) <$> l) 0) as [o Ho]. unfold mbind, M_bind.
  destruct o; eexists; intros s; by rewrite Ho.
Qed.
Lemma admitted_transfer amount to memo b s s0 :
  same_view s s0 → admitted (Transfer amount to memo) b s → late_refusal (Transfer amount to memo) s = false →
  runs (Transfer amount to memo) s0.
Proof.
  intros V Ha L. cbn [validate_op apply_body late_refusal] in *. unfold validate_transfer in Ha. admits Ha.
  destruct (transferable_run (vesting s) creator (balance s creator)) as [o Ho].
  assert (Hc : privileged = false → ∀ s', vesting s' = vesting s →
    wp (check_unlocked record amount (balance s creator)) (fun o _ => no_error o) s').
  { intros Hp s' Hv. rewrite Hp in Ha. cbn [negb when] in Ha. unfold mbind, M_bind in Ha. rewrite Ho in Ha.
    unfold check_unlocked. lstep. lstep. rewrite Hv. lstep. unfold wp at 1. rewrite Ho.
    destruct o as [n|e|]; [|discriminate Ha..|done]. cbn [fst snd].
    destruct (n <? amount) eqn:Hn; [|by cbn].
    cbn [when] in Ha. exfalso. revert Ha. clear.
    destruct (locked_balance (vesting s) creator ts s) as [[] ?]; discriminate. }
  unfold apply_transfer. cbv zeta. lstep. lstep; [|refused V]. lstep. lstep; [|refused V]. do 3 lstep.
  lstep; [|refused V]. rewrite (sv_supply _ _ V), L, account_acc, (sv_accounts _ _ V), <- account_acc.
  lstep. lstep; [|goes; done || discriminate]. eapply wp_mono; [apply Hc; [by apply negb_true_iff|apply V]|].
  intros [] s1 Hs; goes; done || discriminate.
Qed.
Lemma admitted_reclaim amount who last b s s0 :
  same_view s s0 → admitted (DormancyReclaim amount who last) b s → runs (DormancyReclaim amount who last) s0.
Proof.
  intros V Ha. cbn [validate_op apply_body] in *. unfold validate_dormancy_reclaim in Ha. admits Ha.
  unfold apply_dormancy_reclaim, credit_pool_capped. lstep. lstep; [|refused V]. lstep. lstep.
  rewrite (sv_accounts _ _ V), Heqo, (sv_dormancy _ _ V).
  destruct (phase (dormancy s) who) eqn:Hp; [discriminate Ha| |discriminate Ha]. admits Ha.
  goes; try (by refused V). all: cbn in *; rewrite lookup_insert_eq in *; done.
Qed.

(** Settling a transfer the validated state holds. *)
Lemma settles {A B} (m : M CrossZoneState A) (k : A → L B) (s s0 : LedgerState) :
  same_view s s0 → wp m (fun o _ => no_error o) (cross_zone s) → (∀ a, calm (k a)) →
  wp (zoom cross_zone m ≫= k) (fun o _ => no_error o) s0.
Proof.
  intros V Hm Hk. apply wp_bind, wp_zoom. rewrite (sv_xzone _ _ V).
  eapply wp_mono; [apply Hm|]. intros [a|e|] x Hx; [apply Hk|done..].
Qed.
Lemma gets_transfer {B} tid t (k : PendingTransfer → M CrossZoneState B) x :
  pending x !! tid = Some t → (get_transfer tid ≫= k) x = k t x.
Proof. intros E. unfold get_transfer, mbind, M_bind, get. by rewrite E. Qed.
Lemma late_cancel tid s s0 :
  same_view s s0 → late_refusal (XZoneCancel tid) s = false → runs (XZoneCancel tid) s0.
Proof.
  intros V L. cbn [apply_body late_refusal] in *. apply negb_false_iff in L. unfold returnable in L.
  apply (settles _ _ s s0 V); [|intros [[tid' who] n]; calm].
  destruct (pending (cross_zone s) !! tid) as [t|] eqn:Et; [|discriminate L].
  apply andb_true_iff in L as [[Hl Hu]%andb_true_iff Hc%bool_decide_eq_true].
  unfold cancel_transfer, wp. rewrite (gets_transfer _ t), Hl, Hu, bool_decide_eq_false_2 by tauto.
  cbn [negb]. refine ((_ : calm _) _). calm.
Qed.
Lemma late_reject tid s s0 :
  same_view s s0 → late_refusal (XZoneReject tid) s = false → runs (XZoneReject tid) s0.
Proof.
  intros V L. cbn [apply_body late_refusal] in *. apply negb_false_iff in L. unfold returnable in L.
  apply (settles _ _ s s0 V); [|intros [[tid' who] n]; calm].
  destruct (pending (cross_zone s) !! tid) as [t|] eqn:Et; [|discriminate L].
  apply andb_true_iff in L as [[Hl Hu]%andb_true_iff Hc%bool_decide_eq_true].
  unfold reject_transfer, wp. rewrite (gets_transfer _ t), Hl, Hu, bool_decide_eq_false_2 by tauto.
  cbn [negb]. refine ((_ : calm _) _). calm.
Qed.
Lemma late_claim tid amount who s s0 :
  same_view s s0 → late_refusal (XZoneClaim tid amount who) s = false → runs (XZoneClaim tid amount who) s0.
Proof.
  intros V L. cbn [apply_body late_refusal] in *. apply negb_false_iff in L. unfold claimable in L.
  apply (settles _ _ s s0 V); [|intros t; cbv zeta; calm].
  destruct (pending (cross_zone s) !! tid) as [t|] eqn:Et; [|discriminate L].
  apply andb_true_iff in L as [[[[[Hl Hr%bool_decide_eq_true]%andb_true_iff
    He%negb_true_iff]%andb_true_iff Hu%negb_true_iff]%andb_true_iff Hm]%andb_true_iff Hq].
  unfold claim_transfer, wp. rewrite (gets_transfer _ t), Hl, He, Hu, Hm, bool_decide_eq_false_2 by tauto.
  cbn [negb]. destruct (verify_finality_quorum _ _ _ _ _ _ _); [|discriminate Hq..].
  refine ((_ : calm _) _). cbv zeta. calm.
Qed.
Lemma admitted_abort tid h n signers b s s0 :
  same_view s s0 → admitted (XZoneAbort tid h n signers) b s → runs (XZoneAbort tid h n signers) s0.
Proof.
  intros V Ha. cbn [validate_op apply_body] in *. unfold validate_xzone_abort in Ha. admits Ha. rename p into t.
  unfold apply_xzone_abort. lstep. lstep. rewrite (sv_xzone _ _ V), Heqo. lstep. apply wp_ret.
  destruct (verify_abort_quorum _ _ _ _ _ _ _ _); [|discriminate Ha..].
  apply (settles _ _ s s0 V); [|intros [[tid' who] m]; calm].
  unfold abort_transfer, wp. rewrite (gets_transfer _ t) by done.
  apply negb_false_iff in Heqb3. unfold is_locked, unsealed. rewrite Heqb3, Heqb4.
  cbn [negb]. refine ((_ : calm _) _). calm.
Qed.

(** An operation that is admitted and has no late refusal ends without error. *)
Lemma admitted_runs op b s s0 :
  op_typed op → same_view s s0 → admitted op b s → late_refusal op s = false → runs op s0.
Proof.
  intros T V Ha L. destruct op; eauto using admitted_mint, admitted_transfer, admitted_stake, admitted_unstake,
    admitted_reward, admitted_slash, admitted_reclaim, admitted_burn, admitted_pool_fund, admitted_predict,
    admitted_lock, late_claim, late_cancel, late_reject, admitted_abort, admitted_declare, admitted_heartbeat,
    admitted_proof, admitted_register, admitted_idle, admitted_refunds, admitted_reap.
Qed.

(** ** What only admission refuses *)

(** The rules of admission, rate limits apart, the transition does not have. *)
Definition admission_only (op : ParsedLedgerOp) (s : LedgerState) : bool :=
  match op with
  | Mint amount _ _ => amount =? 0
  | Transfer amount _ _ => negb privileged && is_single_sig s creator && (PROFILE_B_TRANSFER_CAP <? amount)
  | IdleDecayOp batch => batch_is_empty batch
  | XZoneTimeoutRefund batch | XZoneStaleReap batch => refund_is_empty batch
  | XZoneLock amount _ _ _ => false
  | XZoneClaim tid amount _ =>
      (amount =? 0) || from_option (fun t => negb (amount =? CrossZone.amount t)) false (pending (cross_zone s) !! tid)
  | XZoneCancel tid | XZoneReject tid => bool_decide (tid = "")
  | XZoneAbort tid _ _ signers => bool_decide (tid = "") || bool_decide (signers = [])
  | DormancyDeclare target _ => f64_ltb (f64_sub ts (last_active (account s target))) DORMANCY_THRESHOLD
  | WitnessRegister zone bond => (bond <? WITNESS_BOND_MIN) || bool_decide (zone = "")
  | _ => false
  end.

Notation passed op s := (admitted op false s ∧ late_refusal op s = false).
Notation shows op s s0 :=
  (wp (apply_body record genesis_authority op) (fun o _ => o = Ok tt → passed op s) s0).

Lemma wp_any {S A} (m : M S A) (Q : outcome A → S → Prop) s : (∀ o s', Q o s') → wp m Q s.
Proof. intros HQ. apply HQ. Qed.

(** Runs the transition up to its last guard. *)
Ltac guards := repeat (cbv beta zeta; match goal with
  | E : Err _ = Ok _ |- _ => discriminate E
  | |- context [require _ _] => lstep
  end).
(** Runs the admission on guards the transition has passed. *)
Ltac pass_guard V :=
  lazymatch goal with |- (if ?b then _ else _) = _ => destruct b eqn:?; [exfalso; by refused V|]
                | |- (if ?b then _ else _, _) = _ => destruct b eqn:?; [exfalso; by refused V|]
                    | |- _ => idtac end.
Ltac pass V :=
  repeat (cbv beta zeta; first
    [ rewrite run_get | rewrite run_ok_or
    | rewrite run_unless_bind; pass_guard V | rewrite run_unless; pass_guard V ]).
Ltac shown V :=
  match goal with |- context [_ = Ok tt → ?P] =>
    cut P; [let E := fresh in intros E; apply wp_any; intros [] ?; try (apply wp_any; intros ? ?); by intros _
           |split; [pass V|]]
  end.

Lemma shows_mint amount to reason s s0 :
  same_view s s0 → admission_only (Mint amount to reason) s = false → shows (Mint amount to reason) s s0.
Proof.
  intros V A. cbn [validate_op apply_body late_refusal admission_only] in *. unfold apply_mint, validate_mint.
  guards. by shown V.
Qed.
Lemma shows_stake amount purpose s s0 : same_view s s0 → shows (Stake amount purpose) s s0.
Proof.
  intros V. cbn [validate_op apply_body late_refusal admission_only] in *. unfold apply_stake, validate_stake.
  guards. shown V; [done|]. rewrite <- (sv_classifier _ _ V). by apply negb_true_iff.
Qed.
Lemma shows_unstake rid s s0 : same_view s s0 → shows (Unstake rid) s s0.
Proof.
  intros V. cbn [validate_op apply_body late_refusal admission_only] in *. unfold apply_unstake, validate_unstake.
  guards. shown V; [|done]. rewrite <- (sv_stakes _ _ V), H0. by pass V.
Qed.
Lemma shows_reward amount from to rid s s0 : same_view s s0 → shows (WitnessReward amount from to rid) s s0.
Proof.
  intros V. cbn [validate_op apply_body late_refusal admission_only] in *.
  unfold apply_witness_reward, validate_witness_reward.
  guards. shown V; [done|]. rewrite <- (sv_classifier _ _ V). by apply negb_true_iff.
Qed.
Lemma shows_burn amount memo s s0 : same_view s s0 → shows (Burn amount memo) s s0.
Proof.
  intros V. cbn [validate_op apply_body late_refusal admission_only] in *. unfold apply_burn, validate_burn.
  guards. by shown V.
Qed.
Lemma shows_pool_fund amount s s0 : same_view s s0 → shows (PoolFund amount) s s0.
Proof.
  intros V. cbn [validate_op apply_body late_refusal admission_only] in *. unfold apply_pool_fund, validate_pool_fund.
  guards. by shown V.
Qed.
Lemma shows_register zone bond s s0 :
  same_view s s0 → admission_only (WitnessRegister zone bond) s = false → shows (WitnessRegister zone bond) s s0.
Proof.
  intros V A. cbn [validate_op apply_body late_refusal admission_only] in *.
  unfold apply_witness_register, validate_witness_register. apply orb_false_iff in A as [A1 A2].
  guards. by shown V.
Qed.
Lemma shows_predict amount zone epoch claim value s s0 :
  same_view s s0 → shows (Predict amount zone epoch claim value) s s0.
Proof.
  intros V. cbn [validate_op apply_body late_refusal admission_only] in *. unfold apply_predict, validate_predict.
  destruct (0 <? amount) eqn:Hp; cbv match; guards; shown V; cbn [when]; try by pass V.
Qed.
Lemma shows_refunds batch s s0 :
  same_view s s0 → admission_only (XZoneTimeoutRefund batch) s = false → shows (XZoneTimeoutRefund batch) s s0.
Proof.
  intros V A. cbn [validate_op apply_body late_refusal admission_only] in *.
  unfold apply_xzone_timeout_refund, validate_refund_batch. guards. by shown V.
Qed.
Lemma shows_reap batch s s0 :
  same_view s s0 → admission_only (XZoneStaleReap batch) s = false → shows (XZoneStaleReap batch) s s0.
Proof.
  intros V A. cbn [validate_op apply_body late_refusal admission_only] in *.
  unfold apply_xzone_stale_reap, validate_refund_batch. guards. by shown V.
Qed.
Lemma shows_slash amount offender challenger jury rid reason s s0 : 
  Inv ∅ s → op_typed (Slash amount offender challenger jury rid reason) →
  same_view s s0 → shows (Slash amount offender challenger jury rid reason) s s0.
Proof.
  intros I T V. cbn [validate_op apply_body late_refusal admission_only] in *. unfold apply_slash, validate_slash.
  guards.
  - assert (Hz : amount <> 0).
    { intros ->. rewrite (sv_stakes _ _ V) in H1. destruct (st_amounts s I _ _ H1) as [_ Hp].
      apply Hp in H2. assert (0 <= max_slash_of (se_amount a)) by (apply Z.mod_pos_bound; done). bools. lia. }
    shown V.
    + rewrite <- (sv_stakes _ _ V), H1. by pass V.
    + rewrite <- (sv_stakes _ _ V), H1. cbn. rewrite Z.min_assoc. by apply negb_true_iff.
  - unfold prefix16. destruct (prefix16_ok (se_staker a)), (prefix16_ok offender); done.
Qed.

Lemma shows_lock amount who src dst s s0 :
  U64.is_u64 amount → same_view s s0 → shows (XZoneLock amount who src dst) s s0.
Proof.
  intros T V. cbn [validate_op apply_body late_refusal admission_only] in *.
  unfold apply_xzone_lock, validate_xzone_lock, lock_transfer. guards. lstep. apply wp_zoom. cbn [cross_zone set].
  do 2 lstep. change (cross_zone (s0 <| accounts ::= _ |>)) with (cross_zone s0). rewrite (sv_xzone _ _ V).
  destruct (bool_decide (is_Some _)) eqn:Hp; [apply wp_throw; discriminate|].
  destruct (amount =? 0) eqn:Hz; [apply wp_throw; discriminate|].
  destruct (bool_decide (zone_new src = _)) eqn:Hd; [apply wp_throw; discriminate|].
  by shown V.
Qed.
Lemma shows_transfer amount to memo s s0 :
  same_view s s0 → admission_only (Transfer amount to memo) s = false → shows (Transfer amount to memo) s s0.
Proof.
  intros V A. cbn [validate_op apply_body late_refusal admission_only] in *. unfold apply_transfer, validate_transfer.
  destruct (transferable_run (vesting s) creator (balance s creator)) as [o Ho].
  cbv zeta. lstep. lstep; [|done]. lstep. lstep; [|done]. do 3 lstep. lstep; [|done].
  rewrite (sv_supply _ _ V), account_acc, (sv_accounts _ _ V), <- account_acc in *.
  lstep. assert (Hc : wp (when (negb privileged) (check_unlocked record amount (available (account s creator))))
    (fun o' _ => o' = Ok tt → privileged = false → ∃ n, o = Ok n ∧ amount <= n) s0).
  { lstep; [|by intros; bools; congruence]. unfold check_unlocked. lstep. lstep. rewrite (sv_vesting _ _ V). lstep.
    unfold wp at 1. change (available (account s creator)) with (balance s creator). rewrite Ho.
    destruct o as [n|e|]; [|done..]. cbn [fst snd]. lstep; [|intros; exists n; bools; by split].
    lstep. apply wp_any. intros [] s'; [by lstep|done..]. }
  eapply wp_mono; [apply Hc|]. intros [[]|e|] s1 Hs; [|done..]. specialize (Hs eq_refl). lstep. lstep; [|done].
  shown V; [|by apply negb_true_iff].
  destruct privileged eqn:Hp; [done|]. destruct (Hs eq_refl) as (n&->&Hn). cbn [negb when].
  unfold mbind, M_bind. rewrite Ho. by rewrite (proj2 (Z.ltb_ge _ _)).
Qed.
Lemma shows_reclaim amount who last s s0 :
  Inv ∅ s → U64.is_u64 amount → same_view s s0 → shows (DormancyReclaim amount who last) s s0.
Proof.
  intros I T V. cbn [validate_op apply_body late_refusal admission_only] in *.
  unfold apply_dormancy_reclaim, validate_dormancy_reclaim. lstep. lstep; [|done]. lstep. lstep.
  rewrite (sv_accounts _ _ V), (sv_dormancy _ _ V).
  destruct (accounts s !! who) as [a|] eqn:Ea; [|lstep; unfold prefix16; by destruct (prefix16_ok who)].
  pose proof (nn_available _ (m_accounts s I who)) as Hn. unfold acc in Hn. rewrite Ea in Hn. cbn in Hn.
  guards. unfold prefix16.
  destruct (phase (dormancy s) who) eqn:Hp; [by destruct (prefix16_ok who)| |by destruct (prefix16_ok who)].
  guards. shown V; [|done]. rewrite Ea. pass V. rewrite Hp. by pass V.
Qed.
Lemma shows_declare target last s s0 :
  same_view s s0 → admission_only (DormancyDeclare target last) s = false → shows (DormancyDeclare target last) s s0.
Proof.
  intros V A. cbn [validate_op apply_body late_refusal admission_only] in *.
  unfold apply_dormancy_declare, validate_dormancy_declare. lstep. lstep. rewrite (sv_accounts _ _ V).
  unfold account in A.
  destruct (accounts s !! target) as [a|] eqn:Ea; [|lstep; unfold prefix16; by destruct (prefix16_ok target)].
  guards. lstep. apply wp_zoom. unfold declare. do 2 lstep. rewrite (sv_dormancy _ _ V).
  destruct (phase (dormancy s) target) eqn:Hp; [|by apply wp_throw..].
  destruct (eligible_for_declaration last ts) eqn:He; [|by apply wp_throw].
  shown V; [|done]. rewrite Ea, Hp. cbn in A. by pass V.
Qed.
Lemma shows_wake who s s0 : same_view s s0 →
  wp (zoom dormancy (wake_up who ts))
    (fun o _ => o = Ok tt → validate_wake who s = (Ok tt, s) ∧ wake_expired who s = false) s0.
Proof.
  intros V. apply wp_zoom. unfold wake_up, validate_wake, wake_expired. do 2 lstep. rewrite (sv_dormancy _ _ V), run_get.
  destruct (phase (dormancy s) who); [by apply wp_throw| |by apply wp_throw].
  destruct (declarations (dormancy s) !! who) as [d|]; cbn; [|done]. by destruct (f64_gtb ts (wakeup_deadline d)).
Qed.
Lemma shows_heartbeat s s0 : same_view s s0 → shows DormancyHeartbeat s s0.
Proof.
  intros V. cbn [apply_body]. unfold apply_dormancy_heartbeat. lstep.
  eapply wp_mono; [by apply (shows_wake creator s)|]. intros [[]|e|] s1 Hs; [|done..]. apply wp_any. intros _ _ _. by apply Hs.
Qed.
Lemma shows_proof target sig s s0 : same_view s s0 → shows (DormancyProofOfLife target sig) s s0.
Proof.
  intros V. cbn [apply_body]. unfold apply_dormancy_proof_of_life. lstep.
  eapply wp_mono; [by apply (shows_wake target s)|]. intros [[]|e|] s1 Hs; [|done..]. apply wp_any. intros _ _ _. by apply Hs.
Qed.
Lemma debits_check l s s0 : same_view s s0 → 
  wp (check_debits l) (fun o _ => o = Ok tt → existsb (fun d => balance s d.1 <? d.2) l = false) s0.
Proof.
  intros V. revert s0 V. induction l as [|[who amt] l IH]; intros s0 V; cbn [check_debits existsb fst snd]; [done|].
  lstep. lstep. replace (balance s0 who) with (balance s who) by (unfold balance; by rewrite !account_acc, (sv_accounts _ _ V)).
  destruct (balance s who <? amt); [lstep; lstep; unfold prefix16; by destruct (prefix16_ok who)|].
  lstep. lstep. by apply IH.
Qed.
Lemma shows_idle batch s s0 :
  same_view s s0 → admission_only (IdleDecayOp batch) s = false → shows (IdleDecayOp batch) s s0.
Proof.
  intros V A. cbn [validate_op apply_body late_refusal admission_only] in *.
  unfold apply_idle_decay, apply_idle_decay_batch, validate_idle_decay. guards.
  lstep. eapply wp_mono; [by apply (debits_check _ s)|]. intros [[]|e|] s1 Hs; [|done..]. specialize (Hs eq_refl).
  by shown V.
Qed.

Definition ends_ok {A} (o : outcome A) : Prop := match o with Ok _ => True | _ => False end.
Lemma shows_settled {A B} (m : M CrossZoneState A) (k : A → L B) (P : Prop) (s s0 : LedgerState) b :
  same_view s s0 → wp m (fun o _ => ends_ok o → P) (cross_zone s) →
  wp (zoom cross_zone m ≫= k) (fun o _ => o = Ok b → P) s0.
Proof.
  intros V Hm. apply wp_bind, wp_zoom. rewrite (sv_xzone _ _ V).
  eapply wp_mono; [apply Hm|]. intros [a|e|] x Hx; [|done..]. apply wp_any. intros _ _ _. by apply Hx.
Qed.
(** A check inside the cross-zone state, passed or refused. *)
Ltac gate b := destruct b eqn:?; [apply wp_throw; by intros []|].
Lemma shows_get {B} tid (k : PendingTransfer → M CrossZoneState B) (P : Prop) x :
  (∀ t, pending x !! tid = Some t → wp (k t) (fun o _ => ends_ok o → P) x) →
  wp (get_transfer tid ≫= k) (fun o _ => ends_ok o → P) x.
Proof. intros Hk. unfold get_transfer. do 4 lstep; [by apply Hk|done]. Qed.
Lemma shows_cancel tid s s0 :
  same_view s s0 → admission_only (XZoneCancel tid) s = false → shows (XZoneCancel tid) s s0.
Proof.
  intros V A. cbn [validate_op apply_body late_refusal admission_only] in *. unfold apply_xzone_cancel.
  eapply shows_settled; [done|]. apply shows_get. intros t Et.
  gate (negb (is_locked t)). gate (bool_decide (creator ≠ sender t)). gate (negb (unsealed t)).
  apply wp_any. intros _ _ _. unfold validate_known_transfer, returnable. split.
  - by pass V.
  - rewrite Et. cbn. bools. rewrite Heqb, Heqb1, bool_decide_eq_true_2; done.
Qed.
Lemma shows_reject tid s s0 :
  same_view s s0 → admission_only (XZoneReject tid) s = false → shows (XZoneReject tid) s s0.
Proof.
  intros V A. cbn [validate_op apply_body late_refusal admission_only] in *. unfold apply_xzone_reject.
  eapply shows_settled; [done|]. apply shows_get. intros t Et.
  gate (negb (is_locked t)). gate (bool_decide (creator ≠ recipient t)). gate (negb (unsealed t)).
  apply wp_any. intros _ _ _. unfold validate_known_transfer, returnable. split.
  - by pass V.
  - rewrite Et. cbn. bools. rewrite Heqb, Heqb1, bool_decide_eq_true_2; done.
Qed.
Lemma shows_claim tid amount who s s0 :
  same_view s s0 → admission_only (XZoneClaim tid amount who) s = false → shows (XZoneClaim tid amount who) s s0.
Proof.
  intros V A. cbn [validate_op apply_body late_refusal admission_only] in *. unfold apply_xzone_claim.
  apply orb_false_iff in A as [A1 A2].
  eapply shows_settled; [done|]. apply shows_get. intros t Et. rewrite Et in A2. cbn in A2.
  gate (negb (is_locked t)). gate (bool_decide (who ≠ recipient t)). gate (f64_gtb ts (expires_at t)).
  gate (unsealed t). match goal with |- context [negb ?v] => gate (negb v) end.
  destruct (verify_finality_quorum _ _ _ _ _ _ _) eqn:Hq; [|apply wp_throw; by intros []..].
  apply wp_any. intros _ _ _. unfold validate_xzone_claim, claimable. split.
  - pass V. rewrite Et. by pass V.
  - rewrite Et, Hq. bools. rewrite Heqb, Heqb1, Heqb2, Heqb3, bool_decide_eq_true_2; done.
Qed.
Lemma shows_abort tid h n signers s s0 :
  same_view s s0 → admission_only (XZoneAbort tid h n signers) s = false → shows (XZoneAbort tid h n signers) s s0.
Proof.
  intros V A. cbn [validate_op apply_body late_refusal admission_only] in *. unfold apply_xzone_abort.
  apply orb_false_iff in A as [A1 A2]. lstep. lstep. rewrite (sv_xzone _ _ V).
  destruct (pending (cross_zone s) !! tid) as [t|] eqn:Et; [|lstep; by apply wp_throw]. lstep. apply wp_ret.
  destruct (verify_abort_quorum _ _ _ _ _ _ _ _) as [[]| |] eqn:Hq; [|by apply wp_throw..].
  eapply shows_settled; [done|]. apply shows_get. intros t' Et'. rewrite Et in Et'. injection Et' as <-.
  gate (negb (is_locked t)). gate (unsealed t || (source_seal_epoch t =? 0)). apply wp_any. intros _ _ _.
  assert (Hn : (n =? 0) = false).
  { unfold verify_abort_quorum in Hq. destruct (dest_finality_committee t) as [[ch cn]|]; [|done].
    repeat case_match; try done. apply negb_false_iff, Z.eqb_eq in H1. by subst. }
  unfold is_locked in Heqb. split; [|done]. unfold validate_xzone_abort. pass V. rewrite Et.
  pass V. unfold unsealed in Heqb0. by rewrite run_unless_bind, Heqb0, Hq.
Qed.

Lemma applied_shows op s s0 :
  Inv ∅ s → op_typed op → same_view s s0 → admission_only op s = false → shows op s s0.
Proof.
  intros I T V A. destruct op; eauto using shows_mint, shows_transfer, shows_stake, shows_unstake,
    shows_reward, shows_slash, shows_reclaim, shows_burn, shows_pool_fund, shows_predict, shows_lock, shows_claim,
    shows_cancel, shows_reject, shows_abort, shows_declare, shows_heartbeat, shows_proof, shows_register,
    shows_idle, shows_refunds, shows_reap.
Qed.

(** Applying a record not seen before. *)
Lemma apply_op_new op s : rec_id record ∉ applied_record_ids s →
  apply_op record genesis_authority op s =
  (apply_body record genesis_authority op;; finish record op) (register_creator record s).
Proof. intros Hid. unfold apply_op. rewrite run_get. by rewrite bool_decide_eq_false_2. Qed.

Lemma admitted_no_error op b s :
  LInv s → well_typed record op → admitted op b s → late_refusal op s = false →
  no_error (apply_op record genesis_authority op s).1.
Proof.
  intros HL T Ha L. destruct (decide (rec_id record ∈ applied_record_ids s)) as [Hid|Hid].
  { unfold apply_op. rewrite run_get. by rewrite bool_decide_eq_true_2. }
  rewrite apply_op_new by done.
  enough (wp (apply_body record genesis_authority op;; finish record op) (fun o _ => no_error o)
    (register_creator record s)) as Hw by exact Hw.
  apply wp_bind. eapply wp_mono; [eapply admitted_runs; [apply T|apply same_view_register|done..]|].
  intros [[]|e|] s1 H1; [apply calm_finish|done..].
Qed.

Lemma applied_admitted op s :
  LInv s → well_typed record op → rec_id record ∉ applied_record_ids s → admission_only op s = false →
  (apply_op record genesis_authority op s).1 = Ok tt → passed op s.
Proof.
  intros [I _] T Hid A. rewrite apply_op_new by done.
  enough (wp (apply_body record genesis_authority op;; finish record op) (fun o _ => o = Ok tt → passed op s)
    (register_creator record s)) as Hw by exact Hw.
  apply wp_bind. eapply wp_mono; [eapply applied_shows; [done|apply T|apply same_view_register|done]|].
  intros [[]|e|] s1 H1; [|done..]. apply wp_any. intros _ _ _. by apply H1.
Qed.

(** Admission reads the ledger and changes nothing. *)
Definition reads {A} (m : L A) : Prop := ∀ s, (m s).2 = s.
Lemma reads_bind {A B} (m : L A) (f : A → L B) : reads m → (∀ a, reads (f a)) → reads (m ≫= f).
Proof.
  intros Hm Hf s. unfold mbind, M_bind. specialize (Hm s). destruct (m s) as [[a|e|] s']; cbn in *; subst; [apply Hf|done..].
Qed.
Lemma reads_get : reads get.
Proof. done. Qed.
Lemma reads_ret {A} (a : A) : reads (mret a).
Proof. done. Qed.
Lemma reads_throw {A} e : reads (throw e : L A).
Proof. done. Qed.
Lemma reads_ok_or {A} (x : option A) e : reads (ok_or x e).
Proof. by destruct x. Qed.
Lemma reads_unless c msg : reads (unless c msg).
Proof. by destruct c. Qed.
Lemma reads_passes o : reads (passes o).
Proof. done. Qed.
Lemma reads_total a : reads (account_total a).
Proof. intros s. unfold account_total, add_u64. by case_match. Qed.
Lemma reads_sum l acc : reads (sum_u64 l acc).
Proof. intros s. destruct (sum_run (S := LedgerState) l acc) as [o Ho]. by rewrite Ho. Qed.
Lemma reads_locked v who n : reads (locked_balance v who n).
Proof. unfold locked_balance. destruct (schedules v !! who); [apply reads_sum|apply reads_ret]. Qed.
Lemma reads_when c m : reads m → reads (when c m).
Proof. by destruct c. Qed.
Ltac reads :=
  repeat match goal with
  | |- reads (_ ≫= _) => apply reads_bind; [|intros ?]
  | |- reads (when _ _) => apply reads_when
  | |- reads (let _ := _ in _) => cbv zeta
  | |- reads (transferable_balance _ _ _ _) => unfold transferable_balance
  | |- reads (match ?x with _ => _ end) => destruct x
  | |- reads _ => auto using reads_get, reads_ret, reads_throw, reads_ok_or, reads_unless, reads_passes,
      reads_total, reads_locked
  end.
Lemma validate_op_reads who op b : reads (validate_op who genesis_authority ts op b).
Proof.
  destruct op; cbn [validate_op];
    unfold validate_mint, validate_transfer, check_rate_limits, validate_stake, validate_unstake, validate_witness_reward,
      validate_slash, validate_dormancy_reclaim, validate_dormancy_declare, validate_burn, validate_wake,
      validate_idle_decay, validate_refund_batch, validate_pool_fund, validate_predict, validate_xzone_lock,
      validate_xzone_claim, validate_known_transfer, validate_xzone_abort, validate_witness_register; cbv zeta; reads.
Qed.

(** C35: admission decides what the transition does.  An operation that passes
    [validate_op] and meets none of the rules left to the transition
    ([late_refusal]) is not refused; it is applied, unless it meets one of the
    hazards on which the transition panics ([safe] excludes them: a text cut for a
    message elsewhere than at a character boundary, a lock whose record id has
    less than sixteen bytes, a lifetime counter at its end, an idle-decay batch
    that names an account twice) or the count of records is at its end.  Admission
    does not look for these hazards ([admitted_batch_panics]).  And an operation
    that is applied for the first time would have been admitted without rate
    limits and meets none of the late rules, unless it falls under a rule only
    admission has ([admission_only]). *)
Theorem admission_exact op s :
  LInv s → well_typed record op →
  (∀ b, (validate_op creator genesis_authority ts op b s).1 = Ok tt → late_refusal op s = false →
    (∀ e, (apply_op record genesis_authority op s).1 ≠ Err e) ∧
    (safe record op s → records_processed s < U64.MAX → (apply_op record genesis_authority op s).1 = Ok tt)) ∧
  (rec_id record ∉ applied_record_ids s → admission_only op s = false →
    (apply_op record genesis_authority op s).1 = Ok tt →
    (validate_op creator genesis_authority ts op false s).1 = Ok tt ∧ late_refusal op s = false).
Proof.
  intros HL T. split.
  - intros b Ha L. assert (HA : admitted op b s).
    { rewrite <- Ha. pose proof (validate_op_reads creator op b s) as E. destruct (validate_op _ _ _ _ _ _); cbn in *; by subst. }
    pose proof (admitted_no_error op b s HL T HA L) as Hn. split; [intros e E; by rewrite E in Hn|].
    intros Hs Hr. pose proof (apply_op_no_panic_aux record genesis_authority op s HL T Hs Hr) as Hp.
    by destruct (apply_op _ _ _ _) as [[[]| |] ?].
  - intros Hid A Ha. destruct (applied_admitted op s HL T Hid A Ha) as [-> ?]. done.
Qed.
End admission.

(** ** Example: the authority's transfer *)

Module AdmissionExamples.
Import LedgerExamples.
#[local] Existing Instance ex_externals.

Definition ex_tx : ValidationRecord := ex_record "record-two-000000" Byte.x01.

Lemma admission_exact_witness :
  (apply_op ex_tx ex_authority ex_transfer ex_minted).1 = Ok tt ∧
  (validate_op ex_authority ex_authority (f64_of_Z 1000) ex_transfer false ex_minted).1 = Ok tt ∧
  late_refusal ex_tx ex_authority ex_transfer ex_minted = false.
Proof.
  destruct (admission_exact ex_tx ex_authority ex_transfer ex_minted ex_minted_LInv
    ltac:(by apply ex_transfer_typed)) as [Hadmit Happly].
  assert (Ha : (apply_op ex_tx ex_authority ex_transfer ex_minted).1 = Ok tt).
  { apply (Hadmit true); [by vm_compute|by vm_compute|done|reflexivity]. }
  split; [exact Ha|]. apply Happly; [by vm_compute|by vm_compute|exact Ha].
Defined.

(** A batch that debits one account twice is admitted, meets no late rule, and
    makes the transition panic. *)
Definition ex_twice : ParsedLedgerOp :=
  IdleDecayOp (mkDecayBatch 1 "z" [(ex_authority, 3000); (ex_authority, 3000)] 6000 []).
Theorem admitted_batch_panics :
  (validate_op ex_authority ex_authority (f64_of_Z 1000) ex_twice true ex_minted).1 = Ok tt ∧
  late_refusal ex_tx ex_authority ex_twice ex_minted = false ∧
  prefix16_ok ex_authority = true ∧
  (apply_op ex_tx ex_authority ex_twice ex_minted).1 = Panic.
Proof. by vm_compute. Qed.

(** A stranger's transfer is refused, a zero mint by admission alone. *)
Example stranger_refused :
  (validate_op "stranger" ex_authority (f64_of_Z 1000) ex_transfer false ex_minted).1 =
  Err (ELedger "insufficient balance").
Proof. by vm_compute. Qed.
Example zero_mint_refused :
  (validate_op ex_authority ex_authority (f64_of_Z 1000) (Mint 0 "bob" "") false ex_minted).1 =
  Err (ELedger "mint amount must be > 0") ∧
  (apply_op ex_tx ex_authority (Mint 0 "bob" "") ex_minted).1 = Ok tt.
Proof. by vm_compute. Qed.
End AdmissionExamples.
