(* ===== verification/StakeProps.v ===== *)
(** * Properties of stakes, their index, and genesis validators

    src/src/accounting/ledger.rs: [stakes_for], [rebuild_staker_index] and
    [apply_genesis_validators]. *)

From S2P Require Import Prelude F64 Types Dormancy Acquisition Velocity CircuitBreaker.
From S2P Require Import Custodial IdleDecay CrossZone CrossZoneInv Records LedgerOps Ledger.
From S2P Require Import LedgerSeal LedgerInv LedgerSpec LedgerSpecPool LedgerProps.
Open Scope Z_scope.

(** ** Summing a map over the keys of a list *)

Section key_sums.
Context {V : Type} (f : V → Z) (P : V → Prop) `{!∀ v, Decision (P v)}.

(** A duplicate-free list of exactly the keys whose value satisfies [P]. *)
Definition lists_keys (ids : list string) (m : gmap string V) : Prop :=
  NoDup ids ∧ ∀ k, k ∈ ids ↔ ∃ v, m !! k = Some v ∧ P v.

Lemma lists_keys_perm ids ids' m : lists_keys ids m → lists_keys ids' m → ids ≡ₚ ids'.
Proof.
  intros [Hn Hi] [Hn' Hi']. apply NoDup_Permutation; [done|done|]. intros k. by rewrite Hi, Hi'.
Qed.

Lemma lists_keys_filter m :
  lists_keys (filter (fun kv => P kv.2) (map_to_list m)).*1 m.
Proof.
  split.
  - apply (NoDup_fmap_fst _); [|apply NoDup_filter, NoDup_map_to_list].
    intros k v1 v2 [_ H1]%list_elem_of_filter [_ H2]%list_elem_of_filter.
    apply elem_of_map_to_list in H1, H2. congruence.
  - intros k. rewrite list_elem_of_fmap. split.
    + intros ([k' v]&->&[HP Hin]%list_elem_of_filter). apply elem_of_map_to_list in Hin. eauto.
    + intros (v&E&HP). exists (k, v). split; [done|]. apply list_elem_of_filter.
      split; [done|by apply elem_of_map_to_list].
Qed.

Lemma omap_filter_keys (m : gmap string V) :
  omap (fun k => m !! k) (filter (fun kv => P kv.2) (map_to_list m)).*1 =
  (filter (fun kv => P kv.2) (map_to_list m)).*2.
Proof.
  assert (HF : Forall (fun kv => m !! kv.1 = Some kv.2) (filter (fun kv => P kv.2) (map_to_list m))).
  { apply Forall_forall. intros [k v] [_ Hin]%list_elem_of_filter. by apply elem_of_map_to_list. }
  revert HF. generalize (filter (fun kv : string * V => P kv.2) (map_to_list m)) as l.
  induction 1 as [|[k v] l E _ IH]; [done|]. csimpl. simpl in E. by rewrite E, IH.
Qed.

Lemma lists_keys_omap ids m :
  lists_keys ids m → omap (fun k => m !! k) ids ≡ₚ (filter (fun kv => P kv.2) (map_to_list m)).*2.
Proof.
  intros Hk. rewrite <- omap_filter_keys. apply omap_Permutation.
  eapply lists_keys_perm; [done|apply lists_keys_filter].
Qed.

Lemma lists_keys_sum ids m :
  lists_keys ids m →
  zsum (f <$> omap (fun k => m !! k) ids) = msum (fun v => if decide (P v) then f v else 0) m.
Proof.
  intros Hk. rewrite (zsum_perm _ _ (fmap_Permutation f _ _ (lists_keys_omap _ _ Hk))).
  rewrite msum_map_to_list.
  induction (map_to_list m) as [|[k v] l IH]; [done|].
  rewrite filter_cons. csimpl. case_decide; csimpl; unfold zsum in *; lia.
Qed.
End key_sums.

Definition active_of (who : string) (e : StakeEntry) : Prop :=
  se_active e = true ∧ se_staker e = who.
#[global] Instance active_of_dec who e : Decision (active_of who e).
Proof. apply _. Defined.

Lemma index_lists st idx who :
  index_ok st idx → lists_keys (active_of who) (default [] (idx !! who)) st.
Proof. intros H. apply H. Qed.

Lemma stakes_for_omap s who :
  StakesOk s →
  stakes_for s who = omap (fun rid => stakes s !! rid) (default [] (staker_index s !! who)).
Proof.
  intros S. unfold stakes_for. destruct (staker_index s !! who) as [ids|] eqn:E; [|done]. simpl.
  destruct (st_index s S who) as [_ Hin]. rewrite E in Hin. simpl in Hin.
  apply filter_all. apply Forall_forall. intros e (rid&Hr&Er)%list_elem_of_omap.
  apply Hin in Hr as (e'&Ee&Ha&_). congruence.
Qed.

(** ** Rebuilding the index *)

Definition push_stake (m : gmap string (list string)) (kv : string * StakeEntry) :
    gmap string (list string) :=
  <[se_staker kv.2 := default [] (m !! se_staker kv.2) ++ [kv.1]]> m.

Lemma foldl_push l m who :
  default [] (foldl push_stake m l !! who) =
  default [] (m !! who) ++ (filter (fun kv => se_staker kv.2 = who) l).*1.
Proof.
  revert m. induction l as [|[k e] l IH]; intros m; [by rewrite app_nil_r|].
  cbn [foldl]. rewrite IH, filter_cons. unfold push_stake; cbn [fst snd].
  destruct (decide (se_staker e = who)) as [<-|].
  - rewrite lookup_insert_eq. cbn. by rewrite <- app_assoc.
  - by rewrite lookup_insert_ne by done.
Qed.

Lemma rebuilt_index_ok s :
  index_ok (stakes s) (staker_index (rebuild_staker_index s)).
Proof.
  intros who. change (lists_keys (active_of who)
    (default [] (foldl push_stake ∅ (filter (fun kv => se_active kv.2 = true) (map_to_list (stakes s)))
                 !! who)) (stakes s)).
  rewrite foldl_push, lookup_empty, list_filter_filter. cbn [default from_option id app].
  rewrite (list_filter_iff _ (fun kv => active_of who kv.2)) by (intros []; unfold active_of; naive_solver).
  apply (lists_keys_filter (active_of who)).
Qed.

Lemma rebuilt_count s :
  active_stakes_count (rebuild_staker_index s) = msum active_one (stakes s).
Proof.
  cbn. rewrite msum_map_to_list. induction (map_to_list (stakes s)) as [|[k e] l IH]; [done|].
  rewrite filter_cons. csimpl. unfold active_one at 1. case_decide as Hd; cbn.
  - rewrite Hd. unfold zsum in *. lia.
  - destruct (se_active e); [done|]. unfold zsum in *. lia.
Qed.

(** ** Properties *)

(** A staker's indexed stakes are exactly its active ones. In every state
    that satisfies the invariant, [stakes_for] returns each active stake of an
    identity once and nothing else, and their amounts add up to the identity's
    staked balance. *)
Theorem stakes_for_exact s who :
  LInv s →
  (∀ e, e ∈ stakes_for s who ↔
        ∃ rid, stakes s !! rid = Some e ∧ se_active e = true ∧ se_staker e = who) ∧
  zsum (se_amount <$> stakes_for s who) = staked (account s who).
Proof.
  intros [I _]. rewrite (stakes_for_omap s who) by apply I.
  pose proof (index_lists _ _ who (st_index s I)) as Hk. split.
  - intros e. rewrite list_elem_of_omap. destruct Hk as [_ Hin]. split.
    + intros (rid&Hr&E). apply Hin in Hr as (e'&Ee&Ha&Hs). exists rid. split_and!; congruence.
    + intros (rid&E&Ha&Hs). exists rid. split; [|done]. apply Hin. by exists e.
  - rewrite (lists_keys_sum se_amount (active_of who)) by done.
    rewrite account_acc, (st_of s I). apply msum_ext. intros e. unfold active_amount.
    case_decide as Hd; unfold active_of in Hd;
      destruct (se_active e); case_bool_decide; naive_solver.
Qed.

(** Rebuilding the staker index agrees with maintaining it. The index that
    [rebuild_staker_index] computes from the stakes alone lists, for every
    identity, the same stakes as the one the operations maintain, and the same
    number of active stakes. *)
Theorem rebuild_agrees s who :
  LInv s →
  default [] (staker_index (rebuild_staker_index s) !! who) ≡ₚ default [] (staker_index s !! who) ∧
  active_stakes_count (rebuild_staker_index s) = active_stakes_count s.
Proof.
  intros [I _]. split.
  - eapply lists_keys_perm; [exact (index_lists _ _ who (rebuilt_index_ok s))
                            |exact (index_lists _ _ who (st_index s I))].
  - by rewrite rebuilt_count, (st_count s I).
Qed.

(** ** Genesis validators *)

Lemma prefix_app_true a b : String.prefix a (a ++ b)%string = true.
Proof.
  induction a as [|c a IH]; [by destruct b|].
  change ((if Ascii.ascii_dec c c then String.prefix a (a ++ b)%string else false) = true).
  by destruct (Ascii.ascii_dec c c).
Qed.

(** Applying one validator: nothing, or its stake out of the authority's balance. *)
Lemma wp_apply_genesis_validator ga v Q s :
  LInv s → U64.is_u64 (gv_stake v) →
  (∀ b s', LInv s' → total_supply s' = total_supply s →
     available (account s' ga) <= available (account s ga) →
     (∀ rid, is_Some (stakes s !! rid) → is_Some (stakes s' !! rid)) →
     (if b : bool then is_Some (stakes s' !! (GENESIS_STAKE_RECORD_PREFIX ++ gv_identity v)%string)
      else s' = s ∧
           (gv_stake v = 0 ∨ is_Some (stakes s !! (GENESIS_STAKE_RECORD_PREFIX ++ gv_identity v)%string)
            ∨ balance s ga < gv_stake v)) →
     Q (Ok b) s') →
  wp (apply_genesis_validator ga v) Q s.
Proof.
  intros [I Hrp] Hv HQ. pose proof (m_accounts s I) as Hn. unfold apply_genesis_validator. cbv zeta.
  do 2 lstep.
  do 3 (lstep; bools; [apply wp_ret, HQ; auto with lia; by split|]).
  match goal with H : ¬ is_Some _ |- _ => apply eq_None_not_Some in H as Hnone end.
  unfold balance in *. rewrite account_acc in *.
  destruct (accounts s !! ga) as [auth|] eqn:Ega.
  2: { exfalso. unfold acc in *. rewrite Ega in *. cbn in *. unfold U64.is_u64 in *. lia. }
  assert (Eauth : acc (accounts s) ga = auth) by (unfold acc; by rewrite Ega).
  pose proof (acc_bounds _ ga Hn) as (?&?&?). pose proof (acc_bounds _ (gv_identity v) Hn) as (?&?&?).
  pose proof (active_count_le s I). pose proof (Money_parts s I) as (?&?&?&?&?&?&?&?&?).
  assert (MAX_SUPPLY <= U64.MAX) by done. rewrite Eauth in *. unfold U64.is_u64 in Hv.
  unfold mark_dirty. repeat lstep; try (exfalso; acc_cases; lia).
  apply HQ; cbn; try done.
  - split; [|done]. split.
    + destruct (inv_money _ _ I). split; cbn; try done; try lia.
      * apply nonneg_accts_insert; [|split; acc_cases; lia].
        apply nonneg_accts_insert; [|split; acc_cases; lia].
        apply nonneg_accts_insert; [done|split; acc_cases; lia].
      * acc_cases; lia.
      * unfold value in *. acc_cases; lia.
    + destruct (inv_stakes _ _ I) as [S1 S2 S3 S4 S5]. split; cbn.
      * apply map_Forall_insert_2; [cbn; lia|done].
      * intros who. rewrite msum_insert_new by done. unfold active_amount at 1. cbn.
        rewrite <- S2. case_bool_decide; acc_cases; done || lia.
      * rewrite msum_insert_new by done. unfold active_any at 1. cbn. lia.
      * by apply (index_ok_add _ _ _ (mkStake _ (gv_stake v) StakePurpose.Witness (gv_identity v) _ true)).
      * rewrite msum_insert_new by done. unfold active_one at 1. cbn. unfold U64.sat_add. lia.
    + destruct (inv_side _ _ I) as [V1 V2 V3 V4 V5 V6]. split; cbn; try done.
      intros rid. rewrite lookup_insert. destruct (decide _) as [<-|]; [|by auto].
      intros _. right. apply prefix_app_true.
  - rewrite account_acc. cbn. acc_cases; lia.
  - intros rid Hr. rewrite lookup_insert. by destruct (decide _).
  - by rewrite lookup_insert_eq.
Qed.

(** A validator that would be skipped. *)
Definition settled (ga : string) (s : LedgerState) (v : GenesisValidator) : Prop :=
  gv_stake v = 0 ∨ is_Some (stakes s !! (GENESIS_STAKE_RECORD_PREFIX ++ gv_identity v)%string)
  ∨ balance s ga < gv_stake v.

Lemma settled_skip ga s vs :
  Forall (settled ga s) vs → apply_genesis_validators ga vs s = (Ok 0%nat, s).
Proof.
  induction 1 as [|v vs Hv _ IH]; [done|]. cbn [apply_genesis_validators].
  assert (E : apply_genesis_validator ga v s = (Ok false, s)).
  { unfold apply_genesis_validator, get, mbind, M_bind. destruct Hv as [->|[Hs|Hb]]; [done|..].
    - case_match; [done|]. by rewrite bool_decide_eq_true_2.
    - case_match; [done|]. case_bool_decide; [done|]. by destruct (Z.ltb_spec (balance s ga) (gv_stake v)); [|lia]. }
  unfold mbind, M_bind in *. by rewrite E, IH.
Qed.

Lemma wp_apply_genesis_validators ga vs : ∀ (Q : outcome nat → LedgerState → Prop) s,
  LInv s → Forall (fun v => U64.is_u64 (gv_stake v)) vs →
  (∀ n s', LInv s' → total_supply s' = total_supply s →
     available (account s' ga) <= available (account s ga) →
     (∀ rid, is_Some (stakes s !! rid) → is_Some (stakes s' !! rid)) →
     Forall (settled ga s') vs → (n <= length vs)%nat → Q (Ok n) s') →
  wp (apply_genesis_validators ga vs) Q s.
Proof.
  induction vs as [|v vs IH]; intros Q s HL Hvs HQ; cbn [apply_genesis_validators].
  - by apply wp_ret, HQ.
  - apply Forall_cons in Hvs as [Hv Hvs]. lstep. apply wp_apply_genesis_validator; [done|done|].
    intros b s1 HL1 E1 Hav1 Hst1 Hb. lstep. apply IH; [done|done|].
    intros n s2 HL2 E2 Hav2 Hst2 Hset Hn. lstep. apply HQ; try done.
    + congruence.
    + lia.
    + intros rid Hr. auto.
    + constructor; [|done]. unfold settled, balance in *. destruct b.
      * right; left. auto.
      * destruct Hb as [-> [Hb|[Hb|Hb]]]; [by left|right; left; auto|right; right; lia].
    + cbn. destruct b; lia.
Qed.

(** The genesis validator baseline is conserved and idempotent. From any
    ledger that satisfies the invariant it never panics, moves the stakes out of
    the authority's balance without changing the supply, and running it again, as
    every restart does, changes nothing. *)
Theorem genesis_validators_idempotent ga vs s :
  LInv s → Forall (fun v => U64.is_u64 (gv_stake v)) vs →
  ∃ n s', apply_genesis_validators ga vs s = (Ok n, s') ∧ LInv s' ∧ (n <= length vs)%nat ∧
    total_supply s' = total_supply s ∧ apply_genesis_validators ga vs s' = (Ok 0%nat, s').
Proof.
  intros HL Hvs.
  assert (W : wp (apply_genesis_validators ga vs) (fun o s' => ∃ n, o = Ok n ∧ LInv s' ∧
    (n <= length vs)%nat ∧ total_supply s' = total_supply s ∧
    apply_genesis_validators ga vs s' = (Ok 0%nat, s')) s).
  { apply wp_apply_genesis_validators; [done|done|]. intros n s' HL' E _ _ Hset Hn.
    exists n. split_and!; try done. by apply settled_skip. }
  unfold wp in W. destruct (apply_genesis_validators ga vs s) as [o s']. cbn in W.
  destruct W as (n&->&?). eauto.
Qed.

(** ** Witnesses, on the ledger after a genesis mint *)

Module StakeExamples.
Import LedgerExamples.

Definition ex_validators : list GenesisValidator :=
  [mkGenesisValidator "validator-1" 100; mkGenesisValidator "validator-2" 9000].

Lemma genesis_validators_idempotent_witness :
  ∃ n s', apply_genesis_validators ex_authority ex_validators ex_minted = (Ok n, s') ∧ LInv s' ∧
    (n <= 2)%nat ∧ total_supply s' = 5000 ∧
    apply_genesis_validators ex_authority ex_validators s' = (Ok 0%nat, s').
Proof.
  apply (genesis_validators_idempotent ex_authority ex_validators ex_minted);
    [exact ex_minted_LInv|repeat constructor; vm_compute; discriminate].
Defined.

Definition ex_staked : LedgerState :=
  Eval vm_compute in (apply_genesis_validators ex_authority ex_validators ex_minted).2.
Lemma ex_staked_LInv : LInv ex_staked.
Proof.
  change ex_staked with (apply_genesis_validators ex_authority ex_validators ex_minted).2.
  apply (wp_apply_genesis_validators ex_authority ex_validators (fun _ s' => LInv s') ex_minted);
    [exact ex_minted_LInv|repeat constructor; vm_compute; discriminate|done].
Qed.

Lemma stakes_for_exact_witness :
  zsum (se_amount <$> stakes_for ex_staked "validator-1") = 100.
Proof. apply (stakes_for_exact ex_staked "validator-1"). exact ex_staked_LInv. Defined.

Lemma rebuild_agrees_witness :
  default [] (staker_index (rebuild_staker_index ex_staked) !! "validator-1"%string) ≡ₚ
  ["genesis-stake:validator-1"%string].
Proof. apply (rebuild_agrees ex_staked "validator-1"). exact ex_staked_LInv. Defined.
End StakeExamples.
