(* ===== verification/SealProps.v ===== *)
(** * Properties of the epoch-seal transitions

    src/src/accounting/ledger.rs: [evaluate_predictions], [process_expired_xzone]
    and the producer [compute_idle_decay_batch]. *)

From S2P Require Import Prelude F64 Types Dormancy Acquisition Velocity CircuitBreaker.
From S2P Require Import Custodial IdleDecay CrossZone CrossZoneInv Records LedgerOps Ledger.
From S2P Require Import LedgerSeal LedgerInv LedgerSpec LedgerSpecPool LedgerSpecX LedgerProps.
From S2P Require Import StakeProps.
Open Scope Z_scope.

(** ** Predictions *)

(** The state after one prediction is settled: [d] units paid out, the pool at
    [pool], the entry marked. *)
Definition settled_state (s : LedgerState) (m : accts) (pool : Z) (dirty : gset string)
    (pid : string) (outcome : bool) : LedgerState :=
  s <| accounts := m |> <| conservation_pool := pool |> <| smt_dirty := dirty |>
    <| predictions ::= alter (fun p => p <| pe_outcome := Some outcome |>) pid |>.

Lemma LInv_settled s m pool dirty pid outcome p ws d :
  LInv s → predictions s !! pid = Some p → pe_outcome p = None →
  credited (accounts s) m ws d → 0 <= pool → d + pool = pe_amount p + conservation_pool s →
  LInv (settled_state s m pool dirty pid outcome) ∧
  msum open_amount (predictions (settled_state s m pool dirty pid outcome)) =
    msum open_amount (predictions s) - pe_amount p.
Proof.
  intros [[M S D] Hr] E Ho C Hp Hd. pose proof (credited_nonneg _ _ _ _ (m_accounts s M) C).
  assert (∃ p', settled_state s m pool dirty pid outcome =
      s <| accounts := m |> <| conservation_pool := pool |> <| smt_dirty := dirty |>
        <| predictions := <[pid := p']> (predictions s) |> ∧
      open_amount p' = 0 ∧ pe_amount p' = pe_amount p ∧ pe_record_id p' = pe_record_id p)
    as (p'&->&Ho'&Ha'&Hi').
  { exists (p <| pe_outcome := Some outcome |>). split; [|done].
    unfold settled_state; cbn. by rewrite alter_alt, E. }
  assert (Eo : msum open_amount (<[pid := p']> (predictions s)) =
    msum open_amount (predictions s) - pe_amount p).
  { rewrite msum_insert, E. cbn [from_option].
    assert (open_amount p = pe_amount p) by (unfold open_amount; by rewrite Ho). lia. }
  destruct C as [C1 C2 C3 C4 C5 C6 C7]. split; [|done]. split; [|done]. split.
  - destruct M as [M1 M2 M3 M4 M5 M6 M7 M8]. split; cbn; try done; try lia.
    + apply map_Forall_insert_2; [rewrite Ha'; by eapply M3|done].
    + unfold value in *. cbn. lia.
  - eapply StakesOk_transfer; [done..|]. intros who. apply C2.
  - destruct D as [V1 V2 V3 V4 V5 V6]. split; cbn; try done.
    + intros rid. rewrite lookup_insert. destruct (decide _) as [<-|]; [|apply V5].
      intros _. apply V5. by rewrite E.
    + apply map_Forall_insert_2; [rewrite Hi'; by eapply V6|done].
Qed.

Lemma wp_settle_correct p Q s :
  LInv s → 0 <= pe_amount p <= msum open_amount (predictions s) →
  (∀ r m, 0 <= r <= conservation_pool s →
     credited (accounts s) m [pe_predictor p] (pe_amount p + r) →
     Q (Ok r) (s <| accounts := m |> <| conservation_pool := conservation_pool s - r |>
                 <| smt_dirty ::= union {[ pe_predictor p ]} |>)) →
  wp (settle_correct p) Q s.
Proof.
  intros [I _] Hp HQ. pose proof (m_accounts s I) as Hn. pose proof (Money_parts s I) as (?&?&?&?&?&?&?&?&?).
  pose proof (acc_bounds _ (pe_predictor p) Hn) as (?&?&?). assert (MAX_SUPPLY <= U64.MAX) by done.
  unfold settle_correct, mark_dirty. cbv zeta. do 2 lstep.
  set (rw := prediction_reward _ _).
  assert (0 <= rw) by (subst rw; apply U64.as_u64_bounds).
  repeat lstep; try (exfalso; cbn in *; lia).
  apply (HQ (Z.min rw (conservation_pool s))); [lia|]. apply credited_put; cbn in *; done || lia || set_solver.
Qed.

Lemma wp_settle_wrong p Q s :
  LInv s → 0 <= pe_amount p <= msum open_amount (predictions s) →
  (∀ c m dirty, 0 <= c <= pe_amount p →
     credited (accounts s) m [pe_predictor p] (pe_amount p - c) →
     Q (Ok c) (s <| accounts := m |> <| conservation_pool := conservation_pool s + c |>
                 <| smt_dirty := dirty |>)) →
  wp (settle_wrong p) Q s.
Proof.
  intros [I _] Hp HQ. pose proof (m_accounts s I) as Hn. pose proof (Money_parts s I) as (?&?&?&?&?&?&?&?&?).
  pose proof (acc_bounds _ (pe_predictor p) Hn) as (?&?&?). assert (MAX_SUPPLY <= U64.MAX) by done.
  unfold settle_wrong, mark_dirty. cbv zeta. do 3 lstep.
  apply wp_credit_pool_capped; [lia|lia|lia|]. intros c Hc ->. lstep.
  lstep; bools.
  - repeat lstep; try (exfalso; cbn in *; lia). eapply HQ; [lia|].
    apply credited_put; cbn in *; done || lia || set_solver.
  - lstep. specialize (HQ (Z.min (pe_amount p) (pool_headroom s)) (accounts s) (smt_dirty s)).
    destruct s; apply HQ; [cbn in *; lia|]. replace (_ - _) with 0 by (cbn in *; lia).
    apply credited_refl.
Qed.

Lemma open_amount_le s pid p :
  Money s → predictions s !! pid = Some p → pe_outcome p = None →
  0 <= pe_amount p <= msum open_amount (predictions s).
Proof.
  intros M E Ho. split; [by eapply (m_predictions s M)|].
  pose proof (msum_lookup_le open_amount pid p (predictions s)) as Hle.
  assert (Hp : open_amount p = pe_amount p) by (unfold open_amount; by rewrite Ho).
  rewrite Hp in Hle. apply Hle; [|done].
  intros k x Ex. unfold open_amount. case_match; [by eapply (m_predictions s M)|lia].
Qed.

(** What the loop maintains: the tallies account for the pool, and everything
    confiscated came out of open predictions. *)
Record evaluating (pool0 open0 : Z) (s : LedgerState) (t : tally) : Prop := {
  ev_inv : LInv s;
  ev_pool : conservation_pool s = pool0 + t.2 - t.1.2;
  ev_open : t.2 + msum open_amount (predictions s) <= open0;
  ev_pos : 0 <= t.1.1.1 ∧ 0 <= t.1.1.2 ∧ 0 <= t.1.2 ∧ 0 <= t.2;
}.

(** Open predictions, listed once. *)
Definition all_open (s : LedgerState) (pids : list string) : Prop :=
  NoDup pids ∧ Forall (fun pid => ∃ p, predictions s !! pid = Some p ∧ pe_outcome p = None) pids.

(** [s'] is [s] with exactly the predictions [pids] settled. *)
Definition settles (s s' : LedgerState) (pids : list string) : Prop :=
  ∀ pid, predictions s' !! pid = predictions s !! pid ∨
         pid ∈ pids ∧ ∃ p o, predictions s !! pid = Some p ∧
                             predictions s' !! pid = Some (p <| pe_outcome := Some o |>).

Lemma wp_evaluate_loop rc ic pool0 open0 pids : ∀ t (Q : outcome tally → LedgerState → Prop) s,
  evaluating pool0 open0 s t → all_open s pids → 0 <= pool0 → pool0 + open0 <= total_supply s →
  t.1.1.1 + t.1.1.2 + Z.of_nat (length pids) <= U64.MAX →
  (∀ t' s', evaluating pool0 open0 s' t' →
     t'.1.1.1 + t'.1.1.2 = t.1.1.1 + t.1.1.2 + Z.of_nat (length pids) →
     total_supply s' = total_supply s → settles s s' pids →
     Forall (fun pid => ∃ p, predictions s' !! pid = Some p ∧ pe_outcome p ≠ None) pids →
     Q (Ok t') s') →
  wp (evaluate_loop rc ic pids t) Q s.
Proof.
  induction pids as [|pid pids IH]; intros [[[c w] r] f] Q s Ev [Hnd Hop] Hp0 Hsup Hlen HQ;
    cbn [evaluate_loop].
  - apply wp_ret, HQ; try done; [cbn; lia|]. intros pid. by left.
  - apply NoDup_cons in Hnd as [Hni Hnd]. apply Forall_cons in Hop as [(p&E&Ho) Hop].
    destruct Ev as [HL Epool Eopen Epos]. cbn in *.
    pose proof (open_amount_le s pid p (proj1 HL) E Ho) as Ha.
    pose proof (Money_parts s (proj1 HL)) as (?&?&?&?&?&?&?&?&?).
    assert (MAX_SUPPLY <= U64.MAX) by done.
    assert (Hnext : ∀ m pool dirty o t1 d,
      credited (accounts s) m [pe_predictor p] d → 0 <= pool → d + pool = pe_amount p + conservation_pool s →
      pool = pool0 + t1.2 - t1.1.2 → f <= t1.2 <= f + pe_amount p → r <= t1.1.2 →
      t1.1.1.1 + t1.1.1.2 = c + w + 1 → 0 <= t1.1.1.1 → 0 <= t1.1.1.2 →
      wp (mark_outcome pid o;; evaluate_loop rc ic pids t1) Q
        (s <| accounts := m |> <| conservation_pool := pool |> <| smt_dirty := dirty |>)).
    { intros m pool dirty o t1 d C Hpool Hd Ep Hf Hr Hcw Hc1 Hw1.
      unfold mark_outcome. do 2 lstep.
      fold (settled_state s m pool dirty pid o).
      destruct (LInv_settled s m pool dirty pid o p _ d HL E Ho C Hpool Hd) as [HL' Eo'].
      assert (Elk : ∀ k, predictions (settled_state s m pool dirty pid o) !! k =
        if decide (pid = k) then Some (p <| pe_outcome := Some o |>) else predictions s !! k).
      { intros k. unfold settled_state; cbn. rewrite alter_alt, E. apply lookup_insert. }
      set (s1 := settled_state s m pool dirty pid o) in *.
      assert (Es1 : total_supply s1 = total_supply s ∧ conservation_pool s1 = pool) by done.
      clearbody s1. destruct Es1 as [Es1 Ep1].
      apply IH; try done; try lia.
      - split; [done|lia|lia|lia].
      - split; [done|]. rewrite Forall_forall in Hop. apply Forall_forall. intros k Hk.
        destruct (Hop k Hk) as (x&Ex&Hx). exists x. rewrite Elk. case_decide; [congruence|done].
      - intros t2 s2 Ev2 Hc2 Es2 Hset2 Hall2. apply HQ; [done|lia|congruence| |].
        + intros k. destruct (Hset2 k) as [Ek|[Hk (x&o2&Ek&Ek2)]].
          * rewrite Ek, Elk. case_decide; [subst k|by left]. right. split; [by left|]. eauto.
          * right. split; [by right|]. rewrite Elk in Ek. case_decide; [congruence|]. eauto.
        + constructor; [|done]. destruct (Hset2 pid) as [Ek|[Hk _]]; [|done].
          rewrite Elk, decide_True in Ek by done. eauto. }
    do 2 lstep. rewrite E. cbv zeta. lstep. lstep.
    + lstep. lstep; [|lia]. lstep. apply wp_settle_correct; [done|done|]. intros r0 m Hr0 C.
      lstep. lstep; [|lia]. lstep. eapply Hnext; [exact C|..]; cbn; lia.
    + lstep. lstep; [|lia]. lstep. apply wp_settle_wrong; [done|done|]. intros c0 m dirty Hc0 C.
      lstep. lstep; [|lia]. lstep. eapply Hnext; [exact C|..]; cbn; lia.
Qed.

Lemma due_ids (l : list (string * PredictionEntry)) zone epoch :
  Forall (fun kv => pe_record_id kv.2 = kv.1) l →
  pe_record_id <$> filter (fun p => is_due zone epoch p = true) l.*2 =
  (filter (fun kv => is_due zone epoch kv.2 = true) l).*1.
Proof.
  induction 1 as [|[k p] l Hk _ IH]; [done|]. csimpl. rewrite !filter_cons. cbn in *.
  case_decide; csimpl; by rewrite ?IH, ?Hk.
Qed.

Lemma due_lists s zone epoch :
  LInv s → lists_keys (fun p => is_due zone epoch p = true) (due_predictions s zone epoch) (predictions s).
Proof.
  intros [I _]. destruct (lists_keys_filter (fun p => is_due zone epoch p = true) (predictions s)) as [Hn Hi].
  assert (Hp : due_predictions s zone epoch ≡ₚ
    (filter (fun kv => is_due zone epoch kv.2 = true) (map_to_list (predictions s))).*1).
  { unfold due_predictions. rewrite merge_sort_Permutation, due_ids; [done|].
    apply Forall_forall. intros [k p] Hin%elem_of_map_to_list. by apply (sd_prediction_keys ∅ s I) in Hin. }
  split; [by rewrite Hp|]. intros k. by rewrite Hp.
Qed.

Lemma due_open zone epoch p : is_due zone epoch p = true → pe_outcome p = None.
Proof. unfold is_due. intros H. by bools. Qed.

(** Sealing an epoch settles its predictions and conserves the supply. For
    any measured counts, [evaluate_predictions] runs without a panic, settles
    exactly the predictions due for the zone and epoch (none of them is due
    afterwards, every other entry is as before), counts each once, and moves
    value only between predictors and the pool, by the tallied rewards and
    confiscations. *)
Theorem evaluate_predictions_settles s zone epoch rc ic :
  LInv s → Z.of_nat (length (due_predictions s zone epoch)) <= U64.MAX →
  ∃ c w r f s', evaluate_predictions zone epoch rc ic s = (Ok (c, w, r, f), s') ∧ LInv s' ∧
    c + w = Z.of_nat (length (due_predictions s zone epoch)) ∧
    due_predictions s' zone epoch = [] ∧
    total_supply s' = total_supply s ∧ conservation_pool s' = conservation_pool s + f - r ∧
    settles s s' (due_predictions s zone epoch).
Proof.
  intros HL Hlen. pose proof (due_lists s zone epoch HL) as [Hnd Hdue].
  pose proof (Money_parts s (proj1 HL)) as (?&?&?&?&?&?&?&?&?).
  assert (W : wp (evaluate_predictions zone epoch rc ic) (fun o s' => ∃ c w r f, o = Ok (c, w, r, f) ∧ LInv s' ∧
    c + w = Z.of_nat (length (due_predictions s zone epoch)) ∧ due_predictions s' zone epoch = [] ∧
    total_supply s' = total_supply s ∧ conservation_pool s' = conservation_pool s + f - r ∧
    settles s s' (due_predictions s zone epoch)) s).
  { unfold evaluate_predictions. do 2 lstep.
    apply (wp_evaluate_loop rc ic (conservation_pool s) (msum open_amount (predictions s))); cbn; try lia.
    - split; cbn; try done; lia.
    - split; [done|]. apply Forall_forall. intros k (p&Ep&Hp%due_open)%Hdue. eauto.
    - intros [[[c w] r] f] s' [HL' Ep Eo Epos] Hcw Es Hset Hall. cbn in *.
      exists c, w, r, f. split_and!; try done.
      destruct (due_lists s' zone epoch HL') as [_ Hdue'].
      apply elem_of_nil_inv. intros k (p'&Ek&Hd')%Hdue'. rewrite Forall_forall in Hall.
      assert (Hin : k ∈ due_predictions s zone epoch).
      { destruct (Hset k) as [Ek'|[Hk _]]; [|done]. apply Hdue. exists p'. by rewrite <- Ek'. }
      destruct (Hall k Hin) as (p2&E2&Hp2). apply due_open in Hd'. congruence. }
  unfold wp in W. destruct (evaluate_predictions zone epoch rc ic s) as [o s']. cbn in W.
  destruct W as (c&w&r&f&->&?). by exists c, w, r, f, s'.
Qed.

(** ** The producer's idle-decay batch *)

Definition credit_sum (credits : gmap string Z) : Z := msum (fun x => x) credits.
Definition nonneg_credits (credits : gmap string Z) : Prop := map_Forall (fun _ x => 0 <= x) credits.

Lemma credit_sum_insert credits who x :
  credit_sum (<[who := default 0 (credits !! who) + x]> credits) = credit_sum credits + x.
Proof. unfold credit_sum. rewrite msum_insert. destruct (credits !! who); cbn; lia. Qed.

Lemma credit_le credits who : nonneg_credits credits → 0 <= default 0 (credits !! who) <= credit_sum credits.
Proof.
  intros H. destruct (credits !! who) as [x|] eqn:E; cbn.
  - split; [by eapply H|]. by apply (msum_lookup_le (fun x => x) who).
  - split; [lia|]. by apply msum_nonneg.
Qed.

(** Floor shares never add up to more than what is shared. *)
Lemma split_stakers_ok share total l : ∀ credits dist,
  0 < total → 0 <= share → Forall (fun kv => 0 < kv.2) l → nonneg_credits credits → 0 <= dist →
  dist * total + share * zsum l.*2 <= share * total →
  credit_sum credits + share <= U64.MAX + dist →
  share <= U64.MAX →
  ∃ credits' dist', split_stakers share total l credits dist = Ok (credits', dist') ∧
    nonneg_credits credits' ∧ dist <= dist' <= share ∧
    credit_sum credits' = credit_sum credits + (dist' - dist).
Proof.
  induction l as [|[who w] l IH]; intros credits dist HT Hs Hl Hc Hd Hinv Hb Hm; cbn [split_stakers].
  - exists credits, dist. cbn in Hinv. split_and!; try done; try lia. nia.
  - apply Forall_cons in Hl as [Hw Hl]. cbn in Hw, Hinv.
    assert (Hz : 0 <= zsum l.*2).
    { apply zsum_nonneg, Forall_fmap. eapply Forall_impl; [done|]. intros [? ?]; cbn; lia. }
    fold (zsum l.*2) in Hinv.
    pose proof (Z.div_mod (share * w) total ltac:(lia)). pose proof (Z.mod_pos_bound (share * w) total HT).
    set (q := share * w / total) in *.
    assert (Hq : 0 <= q) by (apply Z.div_pos; nia).
    assert (Hstep : (dist + q) * total + share * zsum l.*2 <= share * total) by nia.
    assert (Hdq : dist + q <= share) by nia.
    rewrite U64.as_u64_small by lia.
    pose proof (credit_le credits who Hc).
    destruct (Z.ltb_spec 0 q).
    + destruct (Z.ltb_spec U64.MAX (default 0 (credits !! who) + q)); [lia|].
      destruct (Z.ltb_spec U64.MAX (dist + q)); [lia|].
      destruct (IH (<[who := default 0 (credits !! who) + q]> credits) (dist + q))
        as (c'&d'&E&Hc'&Hd'&Hsum); try done; try lia.
      { apply map_Forall_insert_2; [lia|done]. }
      { rewrite credit_sum_insert. lia. }
      exists c', d'. rewrite credit_sum_insert in Hsum. split_and!; try done; lia.
    + apply IH; try done; lia.
Qed.

Definition deduction_ok (d : string * Z * Z) : Prop := 0 <= d.2 <= d.1.2.

Lemma accumulate_ok stakers total l : ∀ pool credits,
  0 <= total → total = zsum stakers.*2 → Forall (fun kv => 0 < kv.2) stakers →
  Forall deduction_ok l → 0 <= pool → nonneg_credits credits →
  pool + credit_sum credits + zsum l.*1.*2 <= U64.MAX →
  ∃ pool' credits', accumulate stakers total l pool credits = Ok (pool', credits') ∧
    0 <= pool' ∧ nonneg_credits credits' ∧
    pool' + credit_sum credits' = pool + credit_sum credits + zsum l.*1.*2.
Proof.
  induction l as [|[[who d] p] l IH]; intros pool credits HT ET Hst Hl Hp Hc Hb; cbn [accumulate].
  - exists pool, credits. cbn. split_and!; try done; lia.
  - apply Forall_cons in Hl as [[Hp0 Hpd] Hl]. cbn in Hp0, Hpd, Hb.
    assert (0 <= zsum l.*1.*2).
    { apply zsum_nonneg. rewrite !Forall_fmap. eapply Forall_impl; [done|]. intros [[? ?] ?] []. cbn in *. lia. }
    fold (zsum l.*1.*2) in Hb. pose proof (msum_nonneg (fun x => x) credits Hc) as Hcs.
    fold (credit_sum credits) in Hcs.
    destruct (Z.ltb_spec U64.MAX (pool + p)); [lia|].
    destruct (Z.ltb_spec 0 (d - p)); cbn [andb].
    + destruct (Z.ltb_spec 0 total).
      * destruct (split_stakers_ok (d - p) total stakers credits 0) as (c'&dist&->&Hc'&Hd&Hsum);
          try done; try lia. cbn.
        destruct (Z.ltb_spec (d - p) dist); [lia|].
        destruct (Z.ltb_spec U64.MAX (pool + p + (d - p - dist))); [lia|].
        destruct (IH (pool + p + (d - p - dist)) c') as (p'&c''&->&?&?&E); try done; try lia.
        exists p', c''. split_and!; try done. cbn. fold (zsum l.*1.*2). lia.
      * destruct (Z.ltb_spec U64.MAX (pool + p + (d - p))); [lia|].
        destruct (IH (pool + p + (d - p)) credits) as (p'&c''&->&?&?&E); try done; try lia.
        exists p', c''. split_and!; try done. cbn. fold (zsum l.*1.*2). lia.
    + destruct (IH (pool + p) credits) as (p'&c''&->&?&?&E); try done; try lia.
      exists p', c''. split_and!; try done. cbn. fold (zsum l.*1.*2). lia.
Qed.

(** What a classified exchange owes is at most what it has available. *)
Lemma deduction_of_ok s dur now who d :
  nonneg_accts (accounts s) → deduction_of s dur now who = Some d →
  deduction_ok d ∧ d.1.1 = who ∧ 0 < d.1.2 <= available (acc (accounts s) who).
Proof.
  intros Hn. unfold deduction_of. case_bool_decide; [done|]. case_match; [done|].
  destruct (assess_amount _ _ _ _ _) as [a|] eqn:Ea; [|done]. cbn. case_match eqn:E0; [done|].
  intros [= <-]. unfold deduction_ok. cbn. bools. unfold balance in *. rewrite account_acc in *.
  pose proof (acc_bounds _ who Hn) as (?&?&?).
  assert (0 <= idle_decay_micros a ∧ 0 <= pool_micros a).
  { unfold assess_amount in Ea. case_match; [done|]. destruct (trackers (idle_decay s) !! who); [|done].
    cbn in Ea. injection Ea as <-. cbn.
    match goal with |- 0 <= U64.as_u64 ?x ∧ _ => pose proof (U64.as_u64_bounds x) end.
    split; [lia|]. apply Z.div_pos; lia. }
  split_and!; done || lia.
Qed.

Lemma sum_distinct_le m (l : list (string * Z)) :
  nonneg_accts m → NoDup l.*1 → Forall (fun d => 0 <= d.2 <= available (acc m d.1)) l →
  zsum l.*2 <= msum available m.
Proof.
  revert m. induction l as [|[who d] l IH]; intros m Hn Hnd Hl; cbn.
  - by apply nonneg_msum, Hn.
  - cbn in Hnd. apply NoDup_cons in Hnd as [Hni Hnd]. apply Forall_cons in Hl as [Hd Hl]. cbn in Hd.
    assert (Hz : zsum l.*2 <= msum available (<[who := account_default]> m)).
    { apply IH; [by apply nonneg_accts_insert|done|]. rewrite Forall_forall in Hl. apply Forall_forall.
      intros [k x] Hin. cbn. rewrite acc_insert. case_decide; [subst|exact (Hl _ Hin)].
      destruct Hni. by apply (list_elem_of_fmap_2 fst _ (k, x)). }
    rewrite msum_acct in Hz by done. cbn in Hz. unfold zsum in *. lia.
Qed.

Lemma zsum_fst_perm {A} (l l' : list (A * Z)) : l ≡ₚ l' → zsum l.*2 = zsum l'.*2.
Proof. intros H. apply zsum_perm. by rewrite H. Qed.

Lemma deductions_NoDup s dur now l :
  nonneg_accts (accounts s) → NoDup l → NoDup (omap (deduction_of s dur now) l).*1.*1.
Proof.
  intros Hn. assert (Hsub : ∀ l, (omap (deduction_of s dur now) l).*1.*1 ⊆ l).
  { intros l' who ([k d]&->&Hin)%list_elem_of_fmap.
    apply list_elem_of_fmap in Hin as ([[k' d'] p]&[= <- <-]&(w&Hw&E)%list_elem_of_omap).
    destruct (deduction_of_ok _ _ _ _ _ Hn E) as (_&Ek&_). cbn in *. by subst. }
  induction 1 as [|who l Hni Hnd IH]; [constructor|]. csimpl.
  destruct (deduction_of s dur now who) as [[[k d] p]|] eqn:E; [|done]. csimpl.
  destruct (deduction_of_ok _ _ _ _ _ Hn E) as (_&Ek&_). cbn in Ek. subst k. constructor; [|done].
  intros Hin. by apply Hni, Hsub.
Qed.

Lemma staker_weights_pos s : Forall (fun kv => 0 < kv.2) (staker_weights s).
Proof. apply Forall_forall. intros kv Hin. by apply list_elem_of_filter in Hin as [? _]. Qed.

(** The producer's idle-decay batch is one every node accepts. On a
    consistent ledger [compute_idle_decay_batch] never panics, and a batch it
    produces debits each exchange once and within its available balance, credits
    exactly what it debits, and carries only [u64] amounts: [apply_idle_decay]
    can refuse or panic on it only for the lifetime counters. *)
Theorem producer_batch_accepted s zone epoch now dur :
  LInv s →
  ∃ ob, compute_idle_decay_batch s zone epoch now dur = Ok ob ∧
    ∀ b, ob = Some b →
      is_conserved b = true ∧ debits_fit (accounts s) (debits b) ∧ op_typed (IdleDecayOp b).
Proof.
  intros [I _]. pose proof (m_accounts s I) as Hn. pose proof (Money_parts s I) as (?&?&?&?&?&?&?&?&?).
  assert (MAX_SUPPLY <= U64.MAX) by done.
  unfold compute_idle_decay_batch. cbv zeta. case_match; [by eexists; split|].
  set (ds := omap _ _).
  assert (Hds : Forall (fun d => deduction_ok d ∧ 0 < d.1.2 <= available (acc (accounts s) d.1.1)) ds).
  { apply Forall_forall. intros d (who&_&E)%list_elem_of_omap.
    destruct (deduction_of_ok _ _ _ _ _ Hn E) as (?&->&?). done. }
  assert (Hnd : NoDup ds.*1.*1) by (apply deductions_NoDup; [done|apply (NoDup_elements (confirmed_exchanges _))]).
  assert (Hsum : zsum ds.*1.*2 <= msum available (accounts s)).
  { apply sum_distinct_le; [done|done|]. apply Forall_fmap. eapply Forall_impl; [done|].
    intros d [? ?]. cbn. lia. }
  destruct (accumulate_ok (staker_weights s) (zsum (staker_weights s).*2) ds 0 ∅)
    as (pool&credits&E&Hp&Hc&Hs); try done.
  { apply zsum_nonneg, Forall_fmap. eapply Forall_impl; [apply staker_weights_pos|]. intros ? ?. cbn in *. lia. }
  { apply staker_weights_pos. }
  { eapply Forall_impl; [done|]. by intros d [? _]. }
  { change (credit_sum ∅) with 0. lia. }
  change (credit_sum ∅) with 0 in Hs. clearbody ds.
  destruct (decide (ds = [])) as [->|Hne]; [by eexists; split|].
  assert (Hm : ∀ X (A B : X), match ds with [] => A | _ :: _ => B end = B) by (by destruct ds).
  rewrite Hm, E. clear Hm E.
  eexists; split; [done|]. intros b [= <-].
  pose proof (msum_nonneg (fun x => x) credits Hc) as Hcs. fold (credit_sum credits) in Hcs.
  pose proof (merge_sort_Permutation by_key ds.*1) as P1.
  pose proof (merge_sort_Permutation by_key (map_to_list credits)) as P2.
  assert (Hcz : zsum (map_to_list credits).*2 = credit_sum credits).
  { unfold credit_sum. rewrite msum_map_to_list. by rewrite list_fmap_id. }
  split_and!.
  - unfold is_conserved, total_debit, total_credit, total_staker_credit.
    cbn [debits IdleDecay.pool_credit staker_credits].
    rewrite (zsum_fst_perm _ _ P1), (zsum_fst_perm _ _ P2). apply Z.eqb_eq. lia.
  - split; cbn; [by rewrite P1|]. rewrite P1. apply Forall_fmap. eapply Forall_impl; [done|].
    intros d [_ ?]. cbn. lia.
  - cbn. split_and!; [|split; lia|].
    + rewrite P1. apply Forall_fmap. eapply Forall_impl; [done|]. intros d [_ ?]. unfold U64.is_u64. cbn.
      pose proof (acc_bounds _ d.1.1 Hn). lia.
    + rewrite P2. apply Forall_forall. intros [k x] Hin%elem_of_map_to_list. unfold U64.is_u64. cbn.
      pose proof (credit_le credits k Hc) as Hle. rewrite Hin in Hle. cbn in Hle. lia.
Qed.

(** ** Legacy expiry *)

Lemma wp_expire_refunds now (l : list (string * string * Z)) ws : ∀ (Q : outcome unit → LedgerState → Prop) s,
  nonneg_accts (accounts s) → Forall (fun x => 0 <= x.2) l →
  msum available (accounts s) + zsum l.*2 <= U64.MAX → zsum l.*2 <= pending_xzone_locked s →
  (∀ m s', credited (accounts s) m ws (zsum l.*2) →
     pending_xzone_locked s' = pending_xzone_locked s - zsum l.*2 →
     s' = s <| accounts := m |> <| pending_xzone_locked := pending_xzone_locked s' |> →
     Q (Ok tt) s') → l.*1.*2 ⊆ ws →
  (¬ Forall (fun x => prefix16_ok x.1.1 = true ∧ prefix16_ok x.1.2 = true) l → ∀ s', Q Panic s') →
  wp (for_each (fun '(tid, who, amount) =>
    a ← entry_or_default who;
    av ← add_u64 (available a) amount;
    put_account who (a <| available := av |> <| last_active := now |>);;
    modify (fun s => s <| pending_xzone_locked ::= fun v => U64.sat_sub v amount |>);;
    prefix16 who;; prefix16 tid) l) Q s.
Proof.
  induction l as [|[[tid who] d] l IH]; intros Q s Hn Hp Hb Hpend HQ Hws HP; cbn [for_each].
  - apply wp_ret. apply (HQ (accounts s)); [apply credited_refl|cbn; lia|by destruct s].
  - apply Forall_cons in Hp as [H0 Hp]. cbn in H0, Hb, Hpend, Hws.
    assert (0 <= zsum l.*2) by (apply zsum_nonneg, Forall_fmap; done).
    fold (zsum l.*2) in Hb, Hpend. pose proof (acc_bounds _ who Hn) as (?&?&?).
    assert (HP0 : ∀ t, prefix16_ok t = false → t = tid ∨ t = who → ∀ s', Q Panic s').
    { intros t Ht Hor. apply HP. intros Hf. apply Forall_cons in Hf as [[Hf1 Hf2] _]. cbn in *.
      destruct Hor; congruence. }
    do 3 lstep. do 2 (lstep; try lia). do 4 lstep.
    apply wp_bind, wp_prefix16; [|intros Hx; by eapply HP0; [exact Hx|right]].
    apply wp_prefix16; [|intros Hx; by eapply HP0; [exact Hx|left]].
    assert (Hc : credited (accounts s) (<[who:=a']> (<[who:=acc (accounts s) who]> (accounts s))) ws d)
      by (apply credited_put; [done|done|done|done|set_solver]).
    assert (Esat : U64.sat_sub (pending_xzone_locked s) d = pending_xzone_locked s - d)
      by (unfold U64.sat_sub; lia).
    match goal with |- wp _ _ ?st =>
      assert (Es1 : st = s <| accounts := accounts st |> <| pending_xzone_locked := pending_xzone_locked s - d |>)
        by (cbn; by rewrite Esat);
      change (accounts st) with (<[who:=a']> (<[who:=acc (accounts s) who]> (accounts s))) in Es1;
      rewrite Es1; clear Es1 end.
    revert Hc. generalize (<[who:=a']> (<[who:=acc (accounts s) who]> (accounts s))). intros m1 Hc.
    apply IH.
    + by eapply credited_nonneg; [apply Hn|].
    + done.
    + cbn. rewrite (cr_sum _ _ _ _ Hc). lia.
    + cbn. lia.
    + intros m s' C Ep ->. apply (HQ m); [by eapply credited_trans|unfold zsum in *; cbn in *; lia|done].
    + set_solver.
    + intros Hx. apply HP. intros Hf. apply Hx. by apply Forall_cons in Hf as [_ Hf].
Qed.

(** The legacy in-place expiry conserves the supply. Every expired lock that
    was never sealed is refunded to its sender exactly once and marked so; when
    the sender and transfer ids can be cut for the log and the counters have
    room, it never panics. *)
Theorem process_expired_conserves now s o s' :
  LInv s → process_expired_xzone now s = (o, s') →
  (o ≠ Panic → LInv s' ∧ (∃ n, o = Ok n) ∧
     pending (cross_zone s') = expire now <$> pending (cross_zone s)) ∧
  (counters_below (cross_zone s) (Z.of_nat (size (pending (cross_zone s)))) →
   map_Forall (fun _ t => prefix16_ok (transfer_id t) = true ∧ prefix16_ok (sender t) = true)
     (pending (cross_zone s)) → o ≠ Panic).
Proof.
  intros [I Hr] E. pose proof (m_accounts s I) as Hn. pose proof (Money_parts s I) as (?&?&?&?&?&?&?&?&?).
  assert (MAX_SUPPLY <= U64.MAX) by done. pose proof (m_locked s I) as Hl.
  set (Safe := counters_below (cross_zone s) (Z.of_nat (size (pending (cross_zone s)))) ∧
    map_Forall (fun _ t => prefix16_ok (transfer_id t) = true ∧ prefix16_ok (sender t) = true)
     (pending (cross_zone s))).
  assert (W : wp (process_expired_xzone now) (fun o s' =>
    match o with
    | Ok _ => LInv s' ∧ pending (cross_zone s') = expire now <$> pending (cross_zone s)
    | Err _ => False
    | Panic => ¬ Safe
    end) s).
  { unfold process_expired_xzone. lstep. apply wp_zoom, wp_process_expired; [apply I| |].
    2: { intros Hx s1 [Hc _]. by apply Hx. }
    intros ts cz Hts Ep Et HX. pose proof (XInv_total_nonneg _ HX).
    assert (E2 : (refund_of <$> ts).*2 = amount <$> ts) by (by rewrite <- list_fmap_compose).
    assert (0 <= zsum (amount <$> ts)).
    { apply zsum_nonneg, Forall_fmap. eapply Forall_impl; [done|]. intros t [[? _] _]. done. }
    lstep. apply (wp_expire_refunds now _ (refund_of <$> ts).*1.*2); cbn [accounts set pending_xzone_locked];
      rewrite ?E2; try done; try lia.
    - apply Forall_fmap. eapply Forall_impl; [done|]. intros t [[? _] _]. done.
    - intros m s2 C Ep2 ->. lstep. split; [|done]. split; [|done].
      eapply Inv_core; [|eapply (Inv_drained ∅ s cz m); [done|done|exact Et|lia|exact C]].
      unfold core, drained; cbn in *. do 3 f_equal. unfold U64.sat_sub. lia.
    - intros Hx s2 [_ Htx]. apply Hx. apply Forall_fmap. eapply Forall_impl; [exact Hts|].
      intros t [_ Ht]. by apply Htx in Ht. }
  pose proof (wp_run _ _ _ _ _ W E) as Q. cbn in Q. split.
  - intros Ho. destruct o as [n|e|]; [|done|done]. destruct Q. eauto.
  - intros Hc Ht ->. by apply Q.
Qed.

(** ** Witnesses *)

Module SealExamples.
Import LedgerExamples.
#[local] Existing Instance ex_externals.

(** The authority predicts that a sandbox zone stays quiet, and locks a transfer. *)
Definition ex_predict : ParsedLedgerOp := Predict 20 "sandbox" 7 PredictionClaim.Active 0.
Definition ex_lock : ParsedLedgerOp := XZoneLock 30 "carol" "zone-a" "zone-b".

Definition ex_predicted : LedgerState :=
  Eval vm_compute in (apply_op (ex_record "record-three-0000" Byte.x01) ex_authority ex_predict ex_minted).2.
Lemma ex_predicted_eq :
  apply_op (ex_record "record-three-0000" Byte.x01) ex_authority ex_predict ex_minted = (Ok tt, ex_predicted).
Proof. vm_cast_no_check (eq_refl (Ok tt, ex_predicted)). Qed.
Lemma ex_predicted_LInv : LInv ex_predicted.
Proof.
  eapply apply_op_LInv; [apply ex_minted_LInv| |exact ex_predicted_eq|done]. by split; [split|].
Qed.

Definition ex_locked : LedgerState :=
  Eval vm_compute in (apply_op (ex_record "record-four-00000" Byte.x01) ex_authority ex_lock ex_minted).2.
Lemma ex_locked_eq :
  apply_op (ex_record "record-four-00000" Byte.x01) ex_authority ex_lock ex_minted = (Ok tt, ex_locked).
Proof. vm_cast_no_check (eq_refl (Ok tt, ex_locked)). Qed.
Lemma ex_locked_LInv : LInv ex_locked.
Proof.
  eapply apply_op_LInv; [apply ex_minted_LInv| |exact ex_locked_eq|done]. by split; [split|].
Qed.

Lemma evaluate_predictions_settles_witness :
  due_predictions ex_predicted "sandbox" 7 = ["record-three-0000"%string] ∧
  ∃ c w r f s', evaluate_predictions "sandbox" 7 3 1 ex_predicted = (Ok (c, w, r, f), s') ∧ LInv s' ∧
    c + w = 1 ∧ due_predictions s' "sandbox" 7 = [].
Proof.
  split; [vm_compute; reflexivity|].
  destruct (evaluate_predictions_settles ex_predicted "sandbox" 7 3 1 ex_predicted_LInv)
    as (c&w&r&f&s'&E&HL&Hcw&Hd&_); [vm_compute; discriminate|].
  exists c, w, r, f, s'. split; [exact E|]. split; [exact HL|]. split; [exact Hcw|exact Hd].
Defined.

Lemma producer_batch_accepted_witness :
  ∃ ob, compute_idle_decay_batch ex_minted "zone-a" 3 (f64_of_Z 2000) (f64_of_Z 60) = Ok ob.
Proof.
  destruct (producer_batch_accepted ex_minted "zone-a" 3 (f64_of_Z 2000) (f64_of_Z 60) ex_minted_LInv)
    as (ob&E&_). exists ob. exact E.
Defined.

(** The lock above expires and is refunded. *)
Definition ex_expired : LedgerState :=
  Eval vm_compute in (process_expired_xzone (f64_of_Z 100000000) ex_locked).2.
Lemma process_expired_conserves_witness :
  LInv ex_expired ∧ pending_xzone_locked ex_locked = 30 ∧ pending_xzone_locked ex_expired = 0.
Proof.
  split; [|split; reflexivity].
  apply (process_expired_conserves (f64_of_Z 100000000) ex_locked (Ok 1) ex_expired ex_locked_LInv);
    [vm_compute; reflexivity|discriminate].
Defined.
End SealExamples.
