(* ===== verification/RecordSigning.v ===== *)
(** * Signing records

    The identity that signs (src/identity.rs) and the signing half of
    src/crypto/pqc.rs: a first signature over the record's signed bytes, and for
    profile A a second one by the scheme the record's version fixes. *)

From S2P Require Import Prelude F64 Types CrossZone Records Wire RecordCodec.
Open Scope Z_scope.

#[global] Instance set_vr_signature : Setter vr_signature.
Proof. derive_setter eta_WireRecord. Defined.
#[global] Instance set_vr_sig_algorithm : Setter vr_sig_algorithm.
Proof. derive_setter eta_WireRecord. Defined.

Inductive SphincsSuite := Legacy | Fips205.
#[global] Instance SphincsSuite_eq_dec : EqDecision SphincsSuite.
Proof. solve_decision. Defined.
Definition suite_algorithm (s : SphincsSuite) : Z :=
  match s with Legacy => ALG_SPHINCS_SHA2_192F | Fips205 => ALG_SLH_DSA_SHA2_192F end.
Definition LEGACY_TAG : string := "sphincs-sha2-192f-legacy".
Definition FIPS205_TAG : string := "slh-dsa-sha2-192f".
Definition suite_tag (s : SphincsSuite) : string := match s with Legacy => LEGACY_TAG | Fips205 => FIPS205_TAG end.
Definition suite_parse (tag : string) : outcome SphincsSuite :=
  if decide (tag = LEGACY_TAG) then Ok Legacy
  else if decide (tag = FIPS205_TAG) then Ok Fips205
  else Err (ECrypto "unknown sphincs_suite").

(** The third-party signers: ML-DSA from its two keys, and SPHINCS+, whose pair
    is rebuilt from the seeds in front of the secret key. *)
Class Signers := {
  ml_dsa_sign : list byte → list byte → list byte → option (list byte);
  slh_sk_bytes : nat;
  slh_pk_bytes : nat;
  slh_seed_bytes : nat;
  slh_from_seed : list byte → option (list byte * list byte);
  slh_sign : list byte → list byte → option (list byte);
}.

Record Identity := mkIdentity {
  id_public_key : list byte;
  id_profile : CryptoProfile;
  id_secret_key : option (list byte);
  id_sphincs_public_key : option (list byte);
  id_sphincs_secret_key : option (list byte);
  id_sphincs_suite : SphincsSuite;
}.

Section signing.
Context `{HSer : Serializer} `{HLeg : SecondLeg} `{HSig : Signers}.

Definition or_crypto {A} (x : option A) (msg : string) : outcome A :=
  match x with Some a => Ok a | None => Err (ECrypto msg) end.

Definition dilithium3_sign_with_pk (message secret_key public_key : list byte) : outcome (list byte) :=
  or_crypto (ml_dsa_sign message secret_key public_key) "ML-DSA-65 sign failed".
(** Refuses a pair that does not hang together, and a signature that does not
    verify. *)
Definition sphincs_sign_with_pk (message secret_key public_key : list byte) : outcome (list byte) :=
  if bool_decide (length secret_key ≠ slh_sk_bytes) || bool_decide (length public_key ≠ slh_pk_bytes)
  then Err (ECrypto "invalid SPHINCS+ keys: wrong length")
  else
    let seeds := take slh_seed_bytes secret_key in
    kp ← or_crypto (slh_from_seed seeds) "invalid SPHINCS+ keys";
    if bool_decide (kp.1 ≠ public_key)
       || bool_decide (drop slh_seed_bytes kp.2 ≠ drop slh_seed_bytes secret_key)
    then Err (ECrypto "SPHINCS+ key pair does not match its seeds: refusing to sign")
    else
      sig ← or_crypto (slh_sign seeds message) "SPHINCS+ sign failed";
      if sphincs_verify message sig public_key then Ok sig
      else Err (ECrypto "SPHINCS+ signature does not verify under its public key").

Context (self : Identity).

Definition sign (message : list byte) : outcome (list byte) :=
  sk ← or_crypto (id_secret_key self) "no secret key (public identity)";
  dilithium3_sign_with_pk message sk (id_public_key self).
Definition sign_sphincs (message : list byte) : outcome (list byte) :=
  if bool_decide (id_sphincs_suite self = Fips205)
  then Err (ECrypto "a FIPS 205 second-leg key signs only a version 8 record")
  else
    sk ← or_crypto (id_sphincs_secret_key self) "no SPHINCS+ key (Profile A only)";
    pk ← or_crypto (id_sphincs_public_key self) "no SPHINCS+ public key";
    sphincs_sign_with_pk message sk pk.
Definition dual_sign (message : list byte) : outcome (list byte * option (list byte)) :=
  first ← sign message;
  if bool_decide (id_profile self = ProfileA) then second ← sign_sphincs message; Ok (first, Some second)
  else Ok (first, None).
Definition sign_second_leg (signable : list byte) : outcome (list byte) :=
  match id_sphincs_suite self with
  | Legacy => sign_sphincs signable
  | Fips205 => Err (ECrypto "a FIPS 205 second leg is not signed yet")
  end.

Definition clear_signatures : M WireRecord unit :=
  modify (fun r => r <| vr_signature := None |> <| vr_sphincs_signature := None |>
                     <| vr_creator_sphincs_pk := None |> <| vr_sphincs_algorithm := None |>).
Definition is_profile_a : bool := bool_decide (id_profile self = ProfileA).

(** The key and the algorithm byte of the second leg, which a version 8 preimage
    commits to, before the preimage is built. *)
Definition prepare_second_leg : M WireRecord unit :=
  r ← get;
  wanted ← ok_or (record_second_leg_algorithm (vr_version r)) (ECrypto "no second-leg verifier");
  require (wanted =? suite_algorithm (id_sphincs_suite self)) (ECrypto "record version needs another algorithm");;
  modify (fun r => r <| vr_creator_sphincs_pk := id_sphincs_public_key self |>
                     <| vr_sphincs_algorithm := Some (suite_algorithm (id_sphincs_suite self)) |>).
Definition add_second_leg (signable : list byte) : M WireRecord unit :=
  sig ← lift (sign_second_leg signable);
  modify (fun r => r <| vr_sphincs_signature := Some sig |>);;
  r ← get;
  match check_second_leg r signable with
  | Ok (Some true) => mret tt
  | _ => throw (ECrypto "refusing to emit a second signature that does not verify")
  end.
Definition sign_record_fields : M WireRecord unit :=
  clear_signatures;;
  modify (fun r => r <| vr_sig_algorithm := ALG_DILITHIUM3 |>);;
  when is_profile_a prepare_second_leg;;
  r ← get;
  let signable := signable_bytes r in
  sig ← lift (sign signable);
  modify (fun r => r <| vr_signature := Some sig |>);;
  when is_profile_a (add_second_leg signable).
Definition sign_record : M WireRecord unit := fun r =>
  match sign_record_fields r with
  | (Err e, r') => (Err e, (clear_signatures r').2)
  | res => res
  end.
(** Dilithium only, whatever the profile. *)
Definition sign_record_light : M WireRecord unit :=
  clear_signatures;;
  modify (fun r => r <| vr_sig_algorithm := ALG_DILITHIUM3 |>);;
  r ← get;
  sig ← lift (sign (signable_bytes r));
  modify (fun r => r <| vr_signature := Some sig |>).
End signing.

(** ** Results *)

Section results.
Context `{HSer : Serializer} `{HLeg : SecondLeg} `{HSig : Signers}.

(** The fields a signature is not over: the signatures themselves. *)
Lemma signable_signature r x : signable_bytes (r <| vr_signature := x |>) = signable_bytes r.
Proof. done. Qed.
Lemma signable_second r x : signable_bytes (r <| vr_sphincs_signature := x |>) = signable_bytes r.
Proof. done. Qed.

(** What both signers keep of a record. *)
Definition same_content (r r' : WireRecord) : Prop :=
  vr_id r' = vr_id r ∧ vr_version r' = vr_version r ∧ vr_content_hash r' = vr_content_hash r ∧
  vr_creator_public_key r' = vr_creator_public_key r ∧ vr_timestamp r' = vr_timestamp r ∧
  vr_parents r' = vr_parents r ∧ vr_classification r' = vr_classification r ∧ vr_metadata r' = vr_metadata r ∧
  vr_zk_proof r' = vr_zk_proof r ∧ vr_zone r' = vr_zone r ∧ vr_nonce r' = vr_nonce r ∧
  vr_network_id r' = vr_network_id r.
Definition unsigned (r : WireRecord) : Prop :=
  vr_signature r = None ∧ vr_sphincs_signature r = None ∧ vr_creator_sphincs_pk r = None ∧
  vr_sphincs_algorithm r = None.

Definition signed_by (self : Identity) (r : WireRecord) : Prop :=
  (∃ sig, vr_signature r = Some sig ∧ sign self (signable_bytes r) = Ok sig) ∧
  vr_sig_algorithm r = ALG_DILITHIUM3 ∧
  if is_profile_a self then
    check_second_leg r (signable_bytes r) = Ok (Some true) ∧
    vr_sphincs_algorithm r = record_second_leg_algorithm (vr_version r) ∧
    vr_creator_sphincs_pk r = id_sphincs_public_key self
  else vr_sphincs_signature r = None ∧ vr_creator_sphincs_pk r = None ∧ vr_sphincs_algorithm r = None.

Lemma sign_no_panic self m : sign self m ≠ Panic.
Proof.
  unfold sign, dilithium3_sign_with_pk, or_crypto. destruct (id_secret_key self); [|done]. cbn. by destruct (ml_dsa_sign _ _ _).
Qed.
Lemma sign_second_no_panic self m : sign_second_leg self m ≠ Panic.
Proof.
  unfold sign_second_leg, sign_sphincs, sphincs_sign_with_pk, or_crypto. destruct (id_sphincs_suite self); [|done].
  rewrite bool_decide_false by done. destruct (id_sphincs_secret_key self); [|done]. cbn.
  destruct (id_sphincs_public_key self); [|done]. cbn. destruct (_ || _); [done|].
  destruct (slh_from_seed _); [|done]. cbn. destruct (_ || _); [done|]. destruct (slh_sign _ _); [|done]. cbn.
  by destruct (sphincs_verify _ _ _).
Qed.

(** The record with its fields set, before the first signature. *)
Definition prepared (self : Identity) (r : WireRecord) : Prop :=
  vr_signature r = None ∧ vr_sphincs_signature r = None ∧ vr_sig_algorithm r = ALG_DILITHIUM3 ∧
  if is_profile_a self then
    vr_sphincs_algorithm r = record_second_leg_algorithm (vr_version r) ∧
    vr_creator_sphincs_pk r = id_sphincs_public_key self
  else vr_creator_sphincs_pk r = None ∧ vr_sphincs_algorithm r = None.
Lemma fields_signed self r :
  wp (sign_record_fields self) (fun o r' =>
    match o with Ok _ => same_content r r' ∧ signed_by self r' | Err _ => same_content r r' | Panic => False end) r.
Proof.
  unfold sign_record_fields, clear_signatures. wp_step. wp_step. wp_step. wp_step. wp_step.
  set (r0 := _ <| vr_sig_algorithm := ALG_DILITHIUM3 |>).
  assert (HP : wp (when (is_profile_a self) (prepare_second_leg self)) (fun o r' => match o with
    | Ok _ => same_content r r' ∧ prepared self r' | Err _ => same_content r r' | Panic => False end) r0).
  { apply wp_when; intros Ha; [|by repeat split; rewrite ?Ha]. unfold prepare_second_leg. repeat wp_step; try done.
    split; [done|]. unfold prepared. rewrite Ha. bools. repeat split. etrans; [|exact (eq_sym H)]. by rewrite <- H0. }
  eapply wp_mono; [exact HP|]. clear HP. intros [[]| |] r1; [|done..]. intros [Hc Hp]. wp_step. wp_step. cbv zeta. wp_step.
  apply wp_lift. destruct (sign self (signable_bytes r1)) as [sig| |] eqn:Es; [|done|by apply sign_no_panic in Es].
  wp_step. wp_step. destruct Hp as (Hs & H2 & Hg & Hp).
  apply wp_when; intros Ha; unfold signed_by; rewrite Ha in Hp |- *.
  - unfold add_second_leg. wp_step. apply wp_lift.
    destruct (sign_second_leg self (signable_bytes r1)) as [sig2| |] eqn:E2; [|done|by apply sign_second_no_panic in E2].
    wp_step. wp_step. wp_step. wp_step.
    destruct (check_second_leg _ _) as [[[|]|]| |] eqn:Ec; repeat wp_step; try done.
    split; [done|]. split; [by exists sig|]. split; [done|]. split; [exact Ec|]. exact Hp.
  - split; [done|]. split; [by exists sig|]. done.
Qed.

Lemma sign_record_cases self r :
  match sign_record self r with
  | (Ok _, r') => same_content r r' ∧ signed_by self r'
  | (Err _, r') => same_content r r' ∧ unsigned r'
  | (Panic, _) => False
  end.
Proof.
  unfold sign_record. pose proof (fields_signed self r) as H. unfold wp in H.
  destruct (sign_record_fields self r) as [[|e|] r']; cbn in *; [done| |done]. by split.
Qed.

(** C22: a signed record carries what it was signed over.  When signing succeeds
    the first signature is over the signed bytes of the record as returned, and
    for profile A so is the second, by the scheme the version fixes, under the
    key and algorithm byte the record carries, and it verifies; when signing
    fails the record carries no signature, no second key and no second algorithm
    byte.  Either way nothing else of the record changes but the name of the first
    algorithm, which is set even on failure. *)
Theorem signatures_cover_record self r :
  match sign_record self r with
  | (Ok _, r') => same_content r r' ∧ signed_by self r'
  | (Err _, r') => same_content r r' ∧ unsigned r'
  | (Panic, _) => False
  end.
Proof. apply sign_record_cases. Qed.
End results.
