(* ===== verification/LedgerPreimage.v ===== *)
(** * The content hash of ledger records

    src/accounting/types.rs: the canonical preimage that a ledger record's
    content hash commits to, the check of the hash at ingest, and the
    construction of a signed ledger record. *)

From Stdlib Require Import Strings.Ascii.
From stdpp Require Import pretty.
From S2P Require Import Prelude Sorting F64 Types CrossZone IdleDecay Records Wire WireCodec RecordCodec RecordSigning Autoscaler LedgerOps OpMetadata.
Open Scope Z_scope.

#[global] Instance set_vr_nonce : Setter vr_nonce.
Proof. derive_setter eta_WireRecord. Defined.

(** ** The preimage *)

Definition LEDGER_PREIMAGE_V2_TAG : string := "ELARA_LEDGER_V2".

Definition display_i64 (n : Z) : string := if n <? 0 then "-" +:+ display_u64 (- n) else display_u64 n.
Definition value_as_i64 (v : Value) : option Z := match v with VNumber n => num_as_i64 n | _ => None end.
Definition value_as_f64 (v : Value) : option Z := match v with VNumber n => num_as_f64 n | _ => None end.

(** [serde_json::to_string] of a value. *)
Class ValueText := { value_to_string : Value → option string }.

Section preimage.
Context `{HT : ValueText}.

(** A numeric string reads as its decimal form. *)
Definition canonical_string (s : string) : string :=
  match parse_u64 s with Some u => display_u64 u | None => s end.
Definition canonical_preimage_value (v : Value) : string :=
  match value_as_i64 v with
  | Some i => display_i64 i
  | None =>
      match v with
      | VString s => canonical_string s
      | VBool b => if b then "true" else "false"
      | _ =>
          match value_as_f64 v with
          | Some bits => "f" +:+ display_u64 bits
          | None => default "" (value_to_string v)
          end
      end
  end.

(** [len:bytes,] *)
Definition push (s : string) : string := display_u64 (slen s) +:+ ":" +:+ s +:+ ",".
Fixpoint concat_strings (l : list string) : string :=
  match l with [] => "" | s :: l => s +:+ concat_strings l end.
Definition entry_fields (m : MetadataMap) : list string :=
  m ≫= fun kv => [kv.1; canonical_preimage_value kv.2].

Context `{HX : Externals}.
Definition preimage_fields (m : MetadataMap) (creator_public_key : list byte) (nonce : Z) : list string :=
  LEDGER_PREIMAGE_V2_TAG :: "creator" :: sha3_256_hex creator_public_key :: "nonce" :: display_u64 nonce :: entry_fields m.
Definition canonical_ledger_preimage_v2 (m : MetadataMap) (creator_public_key : list byte) (nonce : Z)
    : option string :=
  if bool_decide (BEAT_OP_KEY ∈ m.*1)
  then Some (concat_strings (push <$> preimage_fields m creator_public_key nonce))
  else None.

Definition verify_ledger_content_hash_v2 (r : WireRecord) : outcome unit :=
  match canonical_ledger_preimage_v2 (vr_metadata r) (vr_creator_public_key r) (vr_nonce r) with
  | None => Ok tt
  | Some preimage =>
      if bool_decide (vr_content_hash r ≠ sha3_256 (bytes_of preimage))
      then Err (ELedger "ledger content_hash does not commit to the record's signed metadata")
      else Ok tt
  end.

(** ** Construction *)

Context `{HSer : Serializer} `{HLeg : SecondLeg} `{HSig : Signers}.
Definition bind_network (network_id : option string) (m : MetadataMap) : MetadataMap :=
  match network_id with
  | Some net => if bool_decide (net = "") then m else map_insert "network_id" (VString net) m
  | None => m
  end.
Definition create_ledger_record_with_nonce_bound (identity : Identity) (env : Emission) (parents : list string)
    (m : MetadataMap) (nonce : Z) (network_id : option string) : outcome WireRecord :=
  let m := bind_network network_id m in
  let content := default (LEDGER_PREIMAGE_V2_TAG +:+ ",no_op")
                   (canonical_ledger_preimage_v2 m (id_public_key identity) nonce) in
  let r := create env (bytes_of content) (id_public_key identity) parents Public (Some m) in
  match sign_record identity (r <| vr_nonce := nonce |>) with
  | (Ok _, r) => Ok r
  | (Err e, _) => Err e
  | (Panic, _) => Panic
  end.
Definition create_ledger_record_with_nonce (identity : Identity) (env : Emission) (parents : list string)
    (m : MetadataMap) (nonce : Z) : outcome WireRecord :=
  create_ledger_record_with_nonce_bound identity env parents m nonce None.
Definition create_ledger_record (identity : Identity) (env : Emission) (parents : list string) (m : MetadataMap)
    : outcome WireRecord :=
  create_ledger_record_with_nonce identity env parents m 0.
End preimage.

(** ** Framing *)

Lemma append_length_inj a b x y : String.length a = String.length b → a +:+ x = b +:+ y → a = b ∧ x = y.
Proof.
  revert b. induction a as [|c a IH]; intros [|d b] Hl E; try done. cbn in *. injection E as <- E.
  injection Hl as Hl. by destruct (IH b Hl E) as [-> ->].
Qed.

(** Digits do not contain the colon that ends them. *)
Fixpoint no_colon (s : string) : bool :=
  match s with EmptyString => true | String c s => negb (Ascii.eqb c ":"%char) && no_colon s end.
Lemma colon_inj a b x y : no_colon a = true → no_colon b = true → a +:+ ":" +:+ x = b +:+ ":" +:+ y → a = b ∧ x = y.
Proof.
  revert b. induction a as [|c a IH]; intros [|d b] Ha Hb E; cbn in *.
  - by injection E.
  - injection E as <- E. by rewrite Ascii.eqb_refl in Hb.
  - injection E as -> E. by rewrite Ascii.eqb_refl in Ha.
  - apply andb_true_iff in Ha as [_ Ha], Hb as [_ Hb]. injection E as <- E. by destruct (IH b Ha Hb E) as [-> ->].
Qed.
Lemma digits_no_colon x s : no_colon s = true → no_colon (pretty_N_go x s) = true.
Proof.
  revert s. induction x as [x IH] using (well_founded_induction N.lt_wf_0). intros s Hs.
  destruct (decide (x = 0)%N) as [->|Hn]; [by rewrite pretty_N_go_0|].
  rewrite pretty_N_go_step by lia. apply IH; [apply N.div_lt; lia|]. cbn. rewrite Hs, andb_true_r.
  unfold pretty_N_char. by repeat case_match.
Qed.
Lemma display_no_colon n : no_colon (display_u64 n) = true.
Proof. unfold display_u64, pretty, pretty_N. case_decide; [done|]. by apply digits_no_colon. Qed.
Lemma display_u64_inj n n' : 0 <= n → 0 <= n' → display_u64 n = display_u64 n' → n = n'.
Proof. intros H1 H2 E%pretty_N_inj. lia. Qed.

Lemma slen_length s : slen s = Z.of_nat (String.length s).
Proof. unfold slen, bytes_of. f_equal. induction s as [|c s IH]; [done|]. cbn. by rewrite <- IH. Qed.
Lemma push_inj s s' x y : push s +:+ x = push s' +:+ y → s = s' ∧ x = y.
Proof.
  assert (HA : ∀ a b c, (a +:+ b) +:+ c = a +:+ (b +:+ c)).
  { intros a b c. induction a as [|ch a IH]; [done|]. exact (f_equal (String ch) IH). }
  unfold push. rewrite !HA. intros [E E2]%colon_inj; [|apply display_no_colon..].
  rewrite !slen_length in E. apply display_u64_inj in E; [|lia..].
  destruct (append_length_inj s s' _ _ ltac:(lia) E2) as [-> E3]. split; [done|]. by injection E3.
Qed.
Lemma push_nonempty s x : push s +:+ x ≠ "".
Proof. unfold push. destruct (display_u64 (slen s)); done. Qed.
Lemma netstrings_inj l l' : concat_strings (push <$> l) = concat_strings (push <$> l') → l = l'.
Proof.
  revert l'. induction l as [|s l IH]; intros [|s' l'] E; [done|..]; cbn in E.
  - by symmetry in E; apply push_nonempty in E.
  - by apply push_nonempty in E.
  - apply push_inj in E as [-> E]. by rewrite (IH l' E).
Qed.

(** ** What the preimage fixes *)

Section binding.
Context `{HT : ValueText} `{HX : Externals}.

Definition same_entry (x y : string * Value) : Prop :=
  x.1 = y.1 ∧ canonical_preimage_value x.2 = canonical_preimage_value y.2.
Lemma entry_fields_inj m m' : entry_fields m = entry_fields m' → Forall2 same_entry m m'.
Proof.
  revert m'. induction m as [|[k v] m IH]; intros [|[k' v'] m'] E; cbn in E; try done.
  injection E as -> Ev E. constructor; [done|]. by apply IH.
Qed.
Lemma preimage_fields_inj m pk n m' pk' n' t :
  0 <= n → 0 <= n' → canonical_ledger_preimage_v2 m pk n = Some t → canonical_ledger_preimage_v2 m' pk' n' = Some t →
  sha3_256_hex pk = sha3_256_hex pk' ∧ n = n' ∧ Forall2 same_entry m m'.
Proof.
  intros Hn Hn'. unfold canonical_ledger_preimage_v2. do 2 (case_bool_decide; [|done]). intros E1 E2. rewrite <- E2 in E1.
  apply (inj Some) in E1. apply netstrings_inj in E1. clear E2. injection E1 as E1 E2 E3. apply display_u64_inj in E2; [|done..].
  split; [done|]. split; [done|]. by apply entry_fields_inj.
Qed.

(** The metadata as the operation's reader sees it. *)
Fixpoint json_of (v : Value) : Json :=
  match v with
  | VNull => JNull
  | VBool b => JBool b
  | VNumber (PosInt n) | VNumber (NegInt n) => JInt n
  | VNumber (Float b) => JFloat (f64_of_bits b)
  | VString s => JString s
  | VArray l => JArray (map json_of l)
  | VObject l => JObject (map (fun kv => match kv with (k, v) => (k, json_of v) end) l)
  end.
Definition view (m : MetadataMap) : Metadata := list_to_map ((fun kv => (kv.1, json_of kv.2)) <$> m).

Definition amount_keys : list string :=
  ["beat_amount"; "beat_predict_epoch"; "beat_predict_value"; "beat_bond"; "xzone_dest_committee_size"].
Definition time_keys : list string := ["beat_last_activity"; "beat_last_known_active"].
Definition text_keys : list string :=
  [BEAT_OP_KEY; "beat_to"; "beat_reason"; "beat_memo"; "beat_purpose"; "beat_stake_id"; "beat_from"; "beat_record_id";
   "beat_offender"; "beat_challenger"; "beat_dormant_identity"; "beat_predict_zone"; "beat_predict_claim";
   "beat_source_zone"; "beat_dest_zone"; "beat_transfer_id"; "xzone_dest_committee_hash"; "beat_target_identity";
   "beat_proof_signature"; "beat_zone"].
Definition compound_keys : list string :=
  ["beat_jury"; "xzone_abort_signers"; "idle_decay_batch"; "xzone_refund_batch"; "xzone_reap_batch"].

Definition compound (v : Value) : Prop := match v with VArray _ | VObject _ => True | _ => False end.

(** Numbers as the wire carries them, names that are not numerals, and arrays or
    objects where they are expected: the jury is an array, not the single name of
    the old form. *)
Record unambiguous (m : MetadataMap) : Prop := {
  un_numbers k v : (k, v) ∈ m → k ∈ amount_keys ++ time_keys → match v with VNumber n => number_ok n | _ => True end;
  un_text k v : (k, v) ∈ m → k ∈ text_keys → ∃ s, v = VString s ∧ parse_u64 s = None;
  un_compound k v : (k, v) ∈ m → k ∈ compound_keys → compound v;
}.
(** Of the two records' arrays and objects, distinct ones have distinct texts. *)
Definition text_faithful (m m' : MetadataMap) : Prop :=
  ∀ k v v', k ∈ compound_keys → (k, v) ∈ m → (k, v') ∈ m' → compound v → compound v' →
  canonical_preimage_value v = canonical_preimage_value v' → v = v'.

(** Equal or both absent, up to the canonical form. *)
Lemma view_related m m' k :
  Forall2 same_entry m m' →
  (view m !! k = None ∧ view m' !! k = None) ∨
  ∃ v v', view m !! k = Some (json_of v) ∧ view m' !! k = Some (json_of v') ∧ (k, v) ∈ m ∧ (k, v') ∈ m' ∧
    canonical_preimage_value v = canonical_preimage_value v'.
Proof.
  unfold view, Metadata. induction 1 as [|[k1 v1] [k2 v2] m m' [E1 E2] _ IH]; [by left|]. cbn in E1, E2. subst k2.
  cbn [fmap list_fmap list_to_map foldr fst snd]. destruct (decide (k = k1)) as [->|Hne].
  - right. exists v1, v2. rewrite !lookup_insert_eq. repeat split; try done; by left.
  - rewrite !lookup_insert_ne by done. destruct IH as [|(v & v' & A & B & C & D & F)]; [by left|].
    right. exists v, v'. repeat split; try done; by right.
Qed.

(** *** Numbers *)

Lemma digits_bounds s acc n : 0 <= acc <= U64.MAX → u64_digits s acc = Some n → 0 <= n <= U64.MAX.
Proof.
  revert acc. induction s as [|c s IH]; intros acc Ha; cbn [u64_digits]; [intros [= <-]; lia|].
  destruct (_ && _) eqn:E; [|done]. apply IH. bools. lia.
Qed.
Lemma parse_bounds s n : parse_u64 s = Some n → 0 <= n <= U64.MAX.
Proof.
  assert (H0 : 0 <= 0 <= U64.MAX) by done.
  unfold parse_u64. destruct s as [|c s]; [done|]. destruct (Ascii.eqb c _); [destruct s; [done|]|]; by apply digits_bounds.
Qed.
Lemma display_head n c s : 0 <= n <= U64.MAX → parse_u64 (String c s) = None → display_u64 n ≠ String c s.
Proof. intros Hn Hp E. pose proof (parse_display n Hn) as H. by rewrite E, Hp in H. Qed.

(** [agree]: where both readings succeed they are equal. *)
Definition agree {A} (o o' : outcome A) : Prop := ∀ a a', o = Ok a → o' = Ok a' → a = a'.
Lemma agree_same {A} (o : outcome A) : agree o o.
Proof. intros a a' -> [= <-]. done. Qed.
Lemma agree_bind {A B} (o o' : outcome A) (f f' : A → outcome B) :
  agree o o' → (∀ a, agree (f a) (f' a)) → agree (o ≫= f) (o' ≫= f').
Proof.
  intros Ho Hf b b' Hb Hb'. apply outcome_bind_Ok in Hb as (a & Ea & Hb), Hb' as (a' & Ea' & Hb').
  rewrite (Ho a a' Ea Ea') in Hb. by apply (Hf a').
Qed.

Definition u64_of (v : Json) : outcome Z := get_u64 {[ "" := v ]} "".
(** Doubles and negative integers. *)
Definition exotic (v : Value) : Prop :=
  (∃ b, v = VNumber (Float b) ∧ canonical_preimage_value v = String "f"%char (display_u64 b) ∧ 0 <= b) ∨
  (∃ x, v = VNumber (NegInt x) ∧ canonical_preimage_value v = String "-"%char (display_u64 (- x)) ∧ x < 0).
Lemma exotic_float b : 0 <= b → exotic (VNumber (Float b)).
Proof. intros Hb. left. by exists b. Qed.
Lemma exotic_negative x : x < 0 → exotic (VNumber (NegInt x)).
Proof.
  intros Hx. right. exists x. split; [done|]. split; [|done]. unfold canonical_preimage_value, display_i64. cbn.
  by rewrite (proj2 (Z.ltb_lt _ _)) by lia.
Qed.
Lemma exotic_inj v v' : exotic v → exotic v' → canonical_preimage_value v = canonical_preimage_value v' → v = v'.
Proof.
  intros [(b & -> & -> & Hb)|(x & -> & -> & Hx)] [(b' & -> & -> & Hb')|(x' & -> & -> & Hx')]; try done; intros [= E];
    apply display_u64_inj in E; try lia; f_equal; f_equal; lia.
Qed.
Lemma exotic_not_digits v n : exotic v → 0 <= n <= U64.MAX → canonical_preimage_value v ≠ display_u64 n.
Proof.
  intros Hv Hn E. symmetry in E. revert E. destruct Hv as [(b & _ & -> & _)|(x & _ & -> & _)]; by apply display_head.
Qed.
Lemma u64_reading v n :
  match v with VNumber x => number_ok x | _ => True end → u64_of (json_of v) = Ok n →
  (canonical_preimage_value v = display_u64 n ∧ 0 <= n <= U64.MAX) ∨ exotic v.
Proof.
  unfold u64_of, get_u64, lookup_field. change ({["" := json_of v]} !! "") with (Some (json_of v)). cbn [mbind outcome_bind].
  destruct v as [|b|[x|x|x]|s|l|l]; cbn [json_of number_ok]; intros Hok; try done.
  - cbn [as_u64]. rewrite (proj2 (andb_true_iff _ _)) by (rewrite !Z.leb_le; unfold U64.MAX in *; lia). intros [= <-].
    left. split; [|unfold U64.MAX; lia]. unfold canonical_preimage_value. cbn.
    rewrite (proj2 (Z.ltb_lt _ _)) by lia. unfold display_i64. by rewrite (proj2 (Z.ltb_ge _ _)) by lia.
  - intros _. right. apply exotic_negative. lia.
  - intros _. right. apply exotic_float. lia.
  - cbn [as_u64 as_str]. destruct (parse_u64 s) as [u|] eqn:E; [|done]. intros [= <-]. left.
    split; [|by apply (parse_bounds s)]. unfold canonical_preimage_value, canonical_string. cbn. by rewrite E.
Qed.
Lemma u64_agrees v v' :
  match v with VNumber x => number_ok x | _ => True end → match v' with VNumber x => number_ok x | _ => True end →
  canonical_preimage_value v = canonical_preimage_value v' → agree (u64_of (json_of v)) (u64_of (json_of v')).
Proof.
  intros Hv Hv' E n n' Hn Hn'.
  destruct (u64_reading v n Hv Hn) as [[C B]|X], (u64_reading v' n' Hv' Hn') as [[C' B']|X'].
  - rewrite C, C' in E. by apply display_u64_inj in E; [|lia..].
  - rewrite C in E. by destruct (exotic_not_digits v' n X' B).
  - rewrite C' in E. by destruct (exotic_not_digits v n' X B').
  - rewrite (exotic_inj v v' X X' E), Hn' in Hn. by injection Hn.
Qed.
Lemma f64_agrees v v' :
  match v with VNumber x => number_ok x | _ => True end → match v' with VNumber x => number_ok x | _ => True end →
  canonical_preimage_value v = canonical_preimage_value v' →
  agree (or_error (as_f64 (json_of v)) "must be a number") (or_error (as_f64 (json_of v')) "must be a number").
Proof.
  assert (HC : ∀ v, match v with VNumber x => number_ok x | _ => True end → is_Some (as_f64 (json_of v)) →
    exotic v ∨ ∃ x, v = VNumber (PosInt x) ∧ 0 <= x <= U64.MAX ∧ canonical_preimage_value v = display_u64 x).
  { intros [|b|[x|x|x]|s|l|l]; cbn; intros Hok [y Hy]; try done.
    - right. exists x. split; [done|]. split; [unfold U64.MAX; lia|]. unfold canonical_preimage_value, display_i64. cbn.
      rewrite (proj2 (Z.ltb_lt _ _)) by lia. by rewrite (proj2 (Z.ltb_ge _ _)) by lia.
    - left. apply exotic_negative. lia.
    - left. apply exotic_float. lia. }
  intros Hv Hv' E t t' Ht Ht'.
  assert (E1 : is_Some (as_f64 (json_of v))) by (destruct (as_f64 (json_of v)); [done|by cbn in Ht]).
  assert (E2 : is_Some (as_f64 (json_of v'))) by (destruct (as_f64 (json_of v')); [done|by cbn in Ht']).
  assert (v = v') as ->; [|rewrite Ht in Ht'; by injection Ht'].
  destruct (HC v Hv E1) as [X|(x & -> & B & C)], (HC v' Hv' E2) as [X'|(x' & -> & B' & C')].
  - by apply exotic_inj.
  - rewrite C' in E. by destruct (exotic_not_digits v x' X B').
  - rewrite C in E. by destruct (exotic_not_digits v' x X' B).
  - rewrite C, C' in E. apply display_u64_inj in E; [|lia..]. by subst.
Qed.

Context (m m' : MetadataMap) (Hm : Forall2 same_entry m m') (Hu : unambiguous m) (Hu' : unambiguous m').
Context (Hf : text_faithful m m').

Lemma same_field k : k ∈ text_keys ++ compound_keys → view m !! k = view m' !! k.
Proof.
  intros Hk. destruct (view_related m m' k Hm) as [[-> ->]|(v & v' & -> & -> & Hv & Hv' & E)]; [done|].
  apply elem_of_app in Hk as [Hk|Hk]; [|by rewrite (Hf k v v' Hk Hv Hv' (un_compound m Hu k v Hv Hk) (un_compound m' Hu' k v' Hv' Hk) E)].
  destruct (un_text m Hu k v Hv Hk) as (s & -> & Hs), (un_text m' Hu' k v' Hv' Hk) as (s' & -> & Hs').
  cbn in E. unfold canonical_string in E. rewrite Hs, Hs' in E. by subst.
Qed.

Lemma agree_amount k : k ∈ amount_keys → agree (get_u64 (view m) k) (get_u64 (view m') k).
Proof.
  intros Hk. unfold get_u64, lookup_field.
  destruct (view_related m m' k Hm) as [[-> ->]|(v & v' & -> & -> & Hv & Hv' & E)]; [by intros ? ? ?|].
  apply (u64_agrees v v'); [apply (un_numbers m Hu k)|apply (un_numbers m' Hu' k)|done]; try done; apply elem_of_app; by left.
Qed.
Lemma agree_time k : k ∈ time_keys → agree (get_f64 (view m) k) (get_f64 (view m') k).
Proof.
  intros Hk. unfold get_f64, lookup_field.
  destruct (view_related m m' k Hm) as [[-> ->]|(v & v' & -> & -> & Hv & Hv' & E)]; [by intros ? ? ?|].
  apply (f64_agrees v v'); [apply (un_numbers m Hu k)|apply (un_numbers m' Hu' k)|done]; try done; apply elem_of_app; by right.
Qed.
Lemma same_string k : k ∈ text_keys → get_string (view m) k = get_string (view m') k.
Proof. intros Hk. unfold get_string, lookup_field. by rewrite same_field by (apply elem_of_app; by left). Qed.
Lemma same_string_or k d : k ∈ text_keys → get_string_or (view m) k d = get_string_or (view m') k d.
Proof. intros Hk. unfold get_string_or. by rewrite same_field by (apply elem_of_app; by left). Qed.
Lemma same_memo : get_memo (view m) = get_memo (view m').
Proof. unfold get_memo. rewrite same_field; [done|]. refine (bool_decide_unpack _ _). by vm_compute. Qed.
Lemma same_jury : get_jury (view m) = get_jury (view m').
Proof. unfold get_jury. rewrite same_field; [done|]. refine (bool_decide_unpack _ _). by vm_compute. Qed.
Lemma same_batch {A} (from : Json → option A) k :
  k ∈ compound_keys → get_batch from (view m) k = get_batch from (view m') k.
Proof. intros Hk. unfold get_batch, lookup_field. by rewrite same_field by (apply elem_of_app; by right). Qed.

Ltac listed := refine (bool_decide_unpack _ _); vm_compute; exact I.
Ltac agree_step :=
  rewrite ?same_memo, ?same_jury;
  repeat match goal with
  | |- context [get_string (view m) ?k] => rewrite (same_string k) by listed
  | |- context [get_string_or (view m) ?k ?d] => rewrite (same_string_or k d) by listed
  | |- context [get_batch ?f (view m) ?k] => rewrite (same_batch f k) by listed
  end;
  match goal with
  | |- agree ?x ?x => apply agree_same
  | |- agree (get_u64 _ ?k) _ => apply agree_amount; listed
  | |- agree (get_f64 _ ?k) _ => apply agree_time; listed
  | |- agree (_ ≫= _) (_ ≫= _) => apply agree_bind; [|intros ?]
  end.
Lemma agree_op `{HJ : OpJson} op : agree (parse_op (view m) op) (parse_op (view m') op).
Proof.
  destruct op; cbn [parse_op]; unfold get_committee_hash, get_u32; repeat agree_step.
Qed.
End binding.

(** C21: the content hash of a ledger record commits to its operation.  Let the
    preimages of two records be equal, and let their metadata have numbers as the
    wire carries them, text that is no numeral where a name is expected, and an
    array or object where one is expected; let the JSON texts of these arrays and
    objects differ when the values do.  Then the records have the same creator and
    nonce, and the operations the ledger reads from them are equal: no two such
    operations of one slot that differ in a field share a content hash without a
    collision of SHA3.  Each condition on the metadata is needed: names that are
    numerals collide ([numeric_names_collide]), and a jury in the old form, a
    string, collides with the array whose text it is ([legacy_jury_collides]). *)
Theorem content_hash_commits `{HT : ValueText} `{HX : Externals} `{HJ : OpJson} m pk n r op m' pk' n' r' op' t :
  canonical_ledger_preimage_v2 m pk n = Some t → canonical_ledger_preimage_v2 m' pk' n' = Some t →
  0 <= n → 0 <= n' → unambiguous m → unambiguous m' → text_faithful m m' →
  rec_metadata r = view m → rec_metadata r' = view m' →
  extract_ledger_op r = Ok (Some op) → extract_ledger_op r' = Ok (Some op') →
  sha3_256_hex pk = sha3_256_hex pk' ∧ n = n' ∧ op = op'.
Proof.
  intros Hc Hc' Hn Hn' Hu Hu' Hf Hr Hr' He He'.
  destruct (preimage_fields_inj m pk n m' pk' n' t Hn Hn' Hc Hc') as (E1 & E2 & HM). split; [done|]. split; [done|].
  unfold extract_ledger_op in He, He'. rewrite Hr in He. rewrite Hr' in He'.
  rewrite (same_field m m' HM Hu Hu' Hf BEAT_OP_KEY) in He by (refine (bool_decide_unpack _ _); by vm_compute).
  destruct (view m' !! BEAT_OP_KEY) as [v|]; [|done]. destruct (or_error (as_str v) _) as [s| |]; [|done..].
  cbn [mbind outcome_bind] in He, He'. destruct (LedgerOp.from_str s) as [k| |]; [|done..]. cbn [mbind outcome_bind] in He, He'.
  apply outcome_bind_Ok in He as (a & Ha & [= ->]), He' as (a' & Ha' & [= ->]).
  exact (agree_op m m' HM Hu Hu' Hf k op op' Ha Ha').
Qed.

(** ** Honest records *)

Section honest.
Context `{HT : ValueText} `{HX : Externals}.

(** What the wire makes of a value: an integer above [i64::MAX] becomes a
    double. *)
Definition wire_form (v : Value) : Value :=
  match v with
  | VNumber (PosInt n) => if n <? 2 ^ 63 then v else VNumber (Float (bits_of_f64 (f64_of_Z n)))
  | _ => v
  end.
Definition wire_forms (m : MetadataMap) : MetadataMap := (fun kv => (kv.1, wire_form kv.2)) <$> m.

Lemma encode_wire_form v : encode_json_value (wire_form v) = encode_json_value v.
Proof. destruct v as [| |[n|n|n]| | |]; try done. cbn [wire_form]. destruct (n <? 2 ^ 63) eqn:E; [done|]. cbn. by rewrite E. Qed.
Lemma canonical_wire_form v : canonical_preimage_value (wire_form v) = canonical_preimage_value v.
Proof.
  destruct v as [| |[n|n|n]| | |]; try done. cbn [wire_form]. destruct (n <? 2 ^ 63) eqn:E; [done|].
  unfold canonical_preimage_value. cbn. by rewrite E.
Qed.
Lemma encode_entries_wire m buf : for_each encode_entry (wire_forms m) buf = for_each encode_entry m buf.
Proof.
  unfold wire_forms. revert buf. induction m as [|[k v] m IH]; intros b; [done|]. cbn [fmap list_fmap for_each fst snd].
  assert (HE : encode_entry (k, wire_form v) b = encode_entry (k, v) b) by (unfold encode_entry; cbn; by rewrite encode_wire_form).
  unfold mbind, M_bind. rewrite HE. destruct (encode_entry (k, v) b) as [[] b']; [apply IH|done..].
Qed.
Lemma encode_wire_forms m buf : encode_metadata_binary (wire_forms m) buf = encode_metadata_binary m buf.
Proof.
  assert (E : length (wire_forms m) = length m) by apply length_fmap.
  unfold encode_metadata_binary. rewrite E. unfold mbind, M_bind.
  destruct (require (Z.of_nat (length m) <=? U16_MAX) _ buf) as [[] b]; try done.
  destruct (encode_count (length m) b) as [[] b']; try done. apply encode_entries_wire.
Qed.
Lemma preimage_wire_forms m pk n :
  canonical_ledger_preimage_v2 (wire_forms m) pk n = canonical_ledger_preimage_v2 m pk n.
Proof.
  unfold canonical_ledger_preimage_v2, wire_forms.
  assert (Hk : ((fun kv => (kv.1, wire_form kv.2)) <$> m).*1 = m.*1) by (rewrite <- list_fmap_compose; by apply list_fmap_ext).
  rewrite Hk. assert (HF : entry_fields ((fun kv => (kv.1, wire_form kv.2)) <$> m) = entry_fields m).
  { clear. unfold entry_fields. induction m as [|[k v] m IH]; [done|]. cbn. rewrite canonical_wire_form. do 2 f_equal. exact IH. }
  unfold preimage_fields. by rewrite HF.
Qed.

Lemma verify_only r r' :
  vr_content_hash r' = vr_content_hash r → vr_creator_public_key r' = vr_creator_public_key r → vr_nonce r' = vr_nonce r →
  vr_metadata r' = vr_metadata r ∨ vr_metadata r' = wire_forms (vr_metadata r) →
  verify_ledger_content_hash_v2 r' = verify_ledger_content_hash_v2 r.
Proof.
  intros E1 E2 E3 E4. unfold verify_ledger_content_hash_v2. rewrite E1, E2, E3.
  by destruct E4 as [->| ->]; rewrite ?preimage_wire_forms.
Qed.
Lemma created_verifies env pk parents m n :
  verify_ledger_content_hash_v2 (create env (bytes_of (default (LEDGER_PREIMAGE_V2_TAG +:+ ",no_op")
    (canonical_ledger_preimage_v2 m pk n))) pk parents Public (Some m) <| vr_nonce := n |>) = Ok tt.
Proof.
  unfold verify_ledger_content_hash_v2, create, unsigned_record. cbn.
  destruct (canonical_ledger_preimage_v2 m pk n) as [t|]; [|done]. cbn. by rewrite bool_decide_false by (by intros []).
Qed.
End honest.

(** C23: honest ledger records pass the check of their hash.  A record that
    [create_ledger_record_with_nonce_bound] returns, and whose metadata the wire
    can carry, is signed and its content hash verifies, and it still does after
    the metadata has crossed the wire.  The wire carries metadata with at most
    256 entries under sorted keys of at most 255 bytes, with UTF-8 texts of at
    most 65535 bytes, finite doubles, and values nested within the depth limit
    ([metadata_ok]).  An integer above [i64::MAX] may be the value of an entry: it
    arrives as a double, and the hash still verifies.  Inside an array or an
    object such an integer is not admitted here: it arrives as a double too, but
    there the hashed text changes ([nested_integers_change]). *)
Theorem honest_hash_accepted `{HT : ValueText} `{HX : Externals} `{HSer : Serializer} `{HLeg : SecondLeg} `{HSig : Signers}
    identity env parents m nonce network_id r :
  create_ledger_record_with_nonce_bound identity env parents m nonce network_id = Ok r →
  metadata_ok (wire_forms (vr_metadata r)) →
  signed_by identity r ∧ vr_nonce r = nonce ∧ verify_ledger_content_hash_v2 r = Ok tt ∧
  ∃ bytes m', writes (encode_metadata_binary (vr_metadata r)) bytes ∧ parses decode_metadata_binary bytes m' ∧
    verify_ledger_content_hash_v2 (r <| vr_metadata := m' |>) = Ok tt.
Proof.
  unfold create_ledger_record_with_nonce_bound. set (m0 := bind_network network_id m). cbv zeta.
  set (r0 := _ <| vr_nonce := nonce |>). pose proof (sign_record_cases identity r0) as HS.
  destruct (sign_record identity r0) as [[]r']; [|done..]. intros [= ->] Hok. destruct HS as [HC Hsig].
  destruct HC as (_ & _ & Eh & Ek & _ & _ & _ & Em & _ & _ & En & _).
  assert (HV : verify_ledger_content_hash_v2 r = Ok tt).
  { rewrite (verify_only r0 r) by auto. apply created_verifies. }
  split; [done|]. split; [done|]. split; [done|].
  destruct (codec_metadata (wire_forms (vr_metadata r)) Hok) as (bs & _ & Hw & Hp).
  exists bs, (wire_forms (vr_metadata r)). split; [intros buf; by rewrite <- encode_wire_forms, Hw|]. split; [done|].
  rewrite (verify_only r) by (try done; by right). done.
Qed.

(** ** Examples *)

Module PreimageExamples.
#[local] Existing Instance toy_externals.
#[local] Existing Instance OpExamples.toy_json.
#[local] Instance no_text : ValueText := {| value_to_string _ := None |}.
#[local] Instance toy_serializer : Serializer := {| json_to_string m := Some (concat (bytes_of <$> m.*1)) |}.
#[local] Instance toy_legs : SecondLeg :=
  {| sphincs_verify m s pk := bool_decide (s = m); slh_dsa_verify m s pk := bool_decide (s = m) |}.
(** The signature is the message. *)
#[local] Instance toy_signers : Signers :=
  {| ml_dsa_sign m sk pk := Some m; slh_sk_bytes := 4; slh_pk_bytes := 2; slh_seed_bytes := 2;
     slh_from_seed s := Some (s, s ++ s); slh_sign s m := Some m |}.

Definition transfer (amount : Value) (memo : string) : MetadataMap :=
  [("beat_amount", amount); ("beat_memo", VString memo); (BEAT_OP_KEY, VString "transfer"); ("beat_to", VString "bob")].
Definition slash (amount jury : Value) : MetadataMap :=
  [("beat_amount", amount); ("beat_challenger", VString "carol"); ("beat_jury", jury); (BEAT_OP_KEY, VString "slash");
   ("beat_offender", VString "mallory"); ("beat_stake_id", VString "s1")].
Definition reads (m : MetadataMap) : outcome (option ParsedLedgerOp) :=
  extract_ledger_op (mkRecord "r" f64_0 [] None None (view m) (repeat x00 32)).

(** The text of an array of plain names. *)
Definition quoted (v : Value) : string :=
  let q := Ascii.ascii_of_nat 34 in
  match v with VString s => String q (s +:+ String q EmptyString) | _ => "null" end.
Definition array_text (l : list Value) : string := "[" +:+ String.concat "," (quoted <$> l) +:+ "]".
#[local] Instance array_texts : ValueText :=
  {| value_to_string v := match v with VArray l => Some (array_text l) | _ => None end |}.

Definition jury : Value := VArray [VString "a"; VString "b"].
Lemma slash_unambiguous v : match v with VNumber n => number_ok n | _ => True end → unambiguous (slash v jury).
Proof.
  intros Hv. assert (HM : ∀ P : string * Value → Prop, Forall P (slash v jury) → ∀ k w, (k, w) ∈ slash v jury → P (k, w))
    by (intros P HP k w; by apply Forall_forall).
  split; intros k w Hkw Hk; revert k w Hkw Hk.
  - apply (HM (fun kv => kv.1 ∈ amount_keys ++ time_keys → match kv.2 with VNumber n => number_ok n | _ => True end)).
    by repeat constructor.
  - apply (HM (fun kv => kv.1 ∈ text_keys → ∃ s, kv.2 = VString s ∧ parse_u64 s = None)).
    repeat constructor; cbn [fst snd]; try (by eexists); intros Hk; exfalso; revert Hk; refine (bool_decide_unpack _ _); by vm_compute.
  - apply (HM (fun kv => kv.1 ∈ compound_keys → compound kv.2)).
    repeat constructor; cbn [fst snd]; intros Hk; exfalso; revert Hk; refine (bool_decide_unpack _ _); by vm_compute.
Qed.

(** The amount as a number and as text: one preimage, one operation. *)
Lemma content_hash_commits_witness :
  ∃ t op, canonical_ledger_preimage_v2 (slash (VNumber (PosInt 5)) jury) [x01] 7 = Some t ∧
    reads (slash (VNumber (PosInt 5)) jury) = Ok (Some op) ∧ reads (slash (VString "5") jury) = Ok (Some op).
Proof.
  pose (t := default "" (canonical_ledger_preimage_v2 (slash (VNumber (PosInt 5)) jury) [x01] 7)).
  pose (op v := match reads (slash v jury) with Ok (Some op) => op | _ => DormancyHeartbeat end).
  exists t, (op (VNumber (PosInt 5))). split; [by vm_compute|]. split; [by vm_compute|].
  destruct (content_hash_commits (slash (VNumber (PosInt 5)) jury) [x01] 7
    (mkRecord "r" f64_0 [] None None (view (slash (VNumber (PosInt 5)) jury)) (repeat x00 32)) (op (VNumber (PosInt 5)))
    (slash (VString "5") jury) [x01] 7
    (mkRecord "r" f64_0 [] None None (view (slash (VString "5") jury)) (repeat x00 32)) (op (VString "5")) t)
    as (_ & _ & E).
  - by vm_compute.
  - by vm_compute.
  - by vm_compute.
  - by vm_compute.
  - apply slash_unambiguous. by vm_compute.
  - by apply slash_unambiguous.
  - assert (HM : ∀ x k v, (k, v) ∈ slash x jury → compound v → compound x ∨ v = jury).
    { intros x k v. unfold slash. rewrite !elem_of_cons, elem_of_nil.
      intros [[= -> ->]|[[= -> ->]|[[= -> ->]|[[= -> ->]|[[= -> ->]|[[= -> ->]|[]]]]]]] Hc; first [done|by left|by right]. }
    intros k v v' _ Hv Hv' Hc Hc' _.
    by destruct (HM _ _ _ Hv Hc) as [[]| ->], (HM _ _ _ Hv' Hc') as [[]| ->].
  - reflexivity.
  - reflexivity.
  - by vm_compute.
  - by vm_compute.
  - rewrite E. by vm_compute.
Defined.

(** A jury of one name in the old form, whose name is the text of an array: the
    preimage is that of the array, and the juries differ. *)
Theorem legacy_jury_collides :
  let old := VString (array_text [VString "a"]) in let new := VArray [VString "a"] in
  (∃ t, canonical_ledger_preimage_v2 (slash (VString "5") old) [x01] 7 = Some t ∧
        canonical_ledger_preimage_v2 (slash (VString "5") new) [x01] 7 = Some t) ∧
  reads (slash (VString "5") old) = Ok (Some (Slash 5 "mallory" "carol" [array_text [VString "a"]] "s1" "protocol violation")) ∧
  reads (slash (VString "5") new) = Ok (Some (Slash 5 "mallory" "carol" ["a"] "s1" "protocol violation")).
Proof. split; [eexists; split; [by vm_compute|reflexivity]|by vm_compute]. Qed.

(** The documents promise that operations that differ in any field hash
    differently.  A numeral is hashed by its value, also where it is a name: the
    two transfers below have one preimage. *)
Example numeric_names_collide :
  canonical_ledger_preimage_v2 (transfer (VString "5") "7") [x01] 7
    = canonical_ledger_preimage_v2 (transfer (VString "5") "007") [x01] 7 ∧
  reads (transfer (VString "5") "7") ≠ reads (transfer (VString "5") "007").
Proof. by vm_compute. Qed.

(** An integer above [i64::MAX] inside an array crosses the wire as a double, and
    the text of the array, which is hashed, is that of another value. *)
Example nested_integers_change :
  let m := [("idle_decay_batch", VArray [VNumber (PosInt (2 ^ 63))])] in
  let '(_, buf) := encode_metadata_binary m [] in
  (decode_metadata_binary (reader_new buf)).1 =
    Ok [("idle_decay_batch", VArray [VNumber (Float (bits_of_f64 (f64_of_Z (2 ^ 63))))])].
Proof. by vm_compute. Qed.

Definition alice : Identity := mkIdentity [x01; x02] ProfileB (Some [x03]) None None Legacy.
Definition emission : Emission := mkEmission "0190-id" 1000 (Some "net").
Lemma honest_hash_accepted_witness :
  ∃ r, create_ledger_record_with_nonce_bound alice emission [] (transfer (VNumber (PosInt (2 ^ 63))) "rent") 7 (Some "net") = Ok r ∧
    verify_ledger_content_hash_v2 r = Ok tt ∧
    verify_ledger_content_hash_v2 (r <| vr_metadata := wire_forms (vr_metadata r) |>) = Ok tt.
Proof.
  destruct (create_ledger_record_with_nonce_bound alice emission [] (transfer (VNumber (PosInt (2 ^ 63))) "rent") 7 (Some "net"))
    as [r| |] eqn:E; [|exfalso; revert E; clear; by vm_compute..].
  exists r. split; [done|].
  destruct (honest_hash_accepted alice emission [] (transfer (VNumber (PosInt (2 ^ 63))) "rent") 7 (Some "net") r E)
    as (_ & _ & HV & _).
  - assert (Em : vr_metadata r = map_insert "network_id" (VString "net") (transfer (VNumber (PosInt (2 ^ 63))) "rent"))
      by (revert E; clear; intros E; vm_compute in E; by injection E as <-).
    rewrite Em. clear. split_and!; [by vm_compute|by repeat constructor|].
    repeat (constructor; [by vm_compute|]). constructor.
  - split; [done|]. rewrite <- HV. by apply verify_only; [..|right].
Defined.
End PreimageExamples.
