(* ===== verification/Governance.v ===== *)
(** * Governance

    Conviction voting, src/accounting/governance.rs: proposals with their votes
    and committees, delegation, the anchor veto, the fixed-point tally, the
    parameters a vote can change with their hard limits
    (src/accounting/limits.rs), and the tally of protocol upgrades
    (src/network/protocol_upgrade.rs).  The composition with the ledger is in
    [GovernanceLedger]. *)

From Stdlib Require Import Strings.Ascii.
From Stdlib Require Import Floats.SpecFloat.
From stdpp Require Import pretty.
From S2P Require Import Prelude Sorting F64 Types Velocity Wire Autoscaler Records LedgerOps Ledger.
Open Scope Z_scope.

(** ** Constants *)

Definition CONVICTION_TAU_SECS : f64 := f64_of_Z 604800.
Definition EXECUTION_DELAY_SECS : f64 := f64_of_Z 2592000.
Definition VOTING_PERIOD_SECS : f64 := f64_of_Z 1209600.
Definition MIN_PROPOSAL_STAKE : Z := 1000 * BASE_UNITS_PER_BEAT.
Definition MAX_ACTIVE_PROPOSALS_PER_IDENTITY : nat := 3.
Definition COMMITTEE_CHALLENGE_PERIOD_SECS : f64 := f64_of_Z 2592000.
Definition COMMITTEE_VOTING_PERIOD_SECS : f64 := f64_of_Z 1209600.
Definition ANCHOR_VETO_THRESHOLD : f64 := f64_lit 3 4.
Definition ANCHOR_VETO_MAX_PER_QUARTER : Z := 2.
Definition QUARTER_SECS : f64 := f64_of_Z 7776000.

(** ** Categories, statuses, directions *)

Module ProposalCategory.
Inductive t := ZoneLocal | Parametric | Critical | ProtocolUpgrade.
#[global] Instance t_eq_dec : EqDecision t.
Proof. solve_decision. Defined.
Definition as_str (c : t) : string :=
  match c with
  | ZoneLocal => "zone_local" | Parametric => "parameter"
  | Critical => "critical" | ProtocolUpgrade => "protocol_upgrade"
  end.
Definition parse (s : string) : outcome t :=
  if decide (s = "zone_local") then Ok ZoneLocal
  else if decide (s = "parameter") then Ok Parametric
  else if decide (s = "critical") then Ok Critical
  else if decide (s = "protocol_upgrade") then Ok ProtocolUpgrade
  else Err (EGovernance "unknown category").
End ProposalCategory.

Module ProposalStatus.
Inductive t := Active | Passed | Rejected | Expired | Executed | Cancelled | Vetoed.
#[global] Instance t_eq_dec : EqDecision t.
Proof. solve_decision. Defined.
End ProposalStatus.

Module VoteDirection.
Inductive t := For | Against | Abstain.
#[global] Instance t_eq_dec : EqDecision t.
Proof. solve_decision. Defined.
Definition as_str (d : t) : string :=
  match d with For => "for" | Against => "against" | Abstain => "abstain" end.
Definition parse (s : string) : outcome t :=
  if decide (s = "for") then Ok For
  else if decide (s = "against") then Ok Against
  else if decide (s = "abstain") then Ok Abstain
  else Err (EGovernance "unknown vote direction").
End VoteDirection.

(** Counts per status. *)
Record ProposalStatusCounts := mkCounts {
  n_active : Z;
  n_passed : Z;
  n_rejected : Z;
  n_expired : Z;
  n_executed : Z;
  n_cancelled : Z;
  n_vetoed : Z;
}.
Definition eta_counts (c : ProposalStatusCounts) :=
  mkCounts (n_active c) (n_passed c) (n_rejected c) (n_expired c) (n_executed c) (n_cancelled c) (n_vetoed c).
#[export] Hint Extern 0 (@Setter ProposalStatusCounts _ _) => derive_setter eta_counts : typeclass_instances.
Definition counts_default : ProposalStatusCounts := mkCounts 0 0 0 0 0 0 0.
Definition count_of (st : ProposalStatus.t) (c : ProposalStatusCounts) : Z :=
  match st with
  | ProposalStatus.Active => n_active c
  | ProposalStatus.Passed => n_passed c
  | ProposalStatus.Rejected => n_rejected c
  | ProposalStatus.Expired => n_expired c
  | ProposalStatus.Executed => n_executed c
  | ProposalStatus.Cancelled => n_cancelled c
  | ProposalStatus.Vetoed => n_vetoed c
  end.
Definition on_count (f : Z → Z) (st : ProposalStatus.t) (c : ProposalStatusCounts) : ProposalStatusCounts :=
  match st with
  | ProposalStatus.Active => c <| n_active ::= f |>
  | ProposalStatus.Passed => c <| n_passed ::= f |>
  | ProposalStatus.Rejected => c <| n_rejected ::= f |>
  | ProposalStatus.Expired => c <| n_expired ::= f |>
  | ProposalStatus.Executed => c <| n_executed ::= f |>
  | ProposalStatus.Cancelled => c <| n_cancelled ::= f |>
  | ProposalStatus.Vetoed => c <| n_vetoed ::= f |>
  end.
Definition inc : ProposalStatus.t → ProposalStatusCounts → ProposalStatusCounts := on_count (fun n => U64.sat_add n 1).
Definition dec : ProposalStatus.t → ProposalStatusCounts → ProposalStatusCounts := on_count (fun n => U64.sat_sub n 1).

(** ** Votes, committees, proposals, delegations *)

Record Vote := mkVote {
  vo_voter : string;
  vo_stake : Z;
  vo_direction : VoteDirection.t;
  vo_voted_at : f64;
  vo_own_stake : option Z;
}.
Definition eta_vote (v : Vote) :=
  mkVote (vo_voter v) (vo_stake v) (vo_direction v) (vo_voted_at v) (vo_own_stake v).
#[export] Hint Extern 0 (@Setter Vote _ _) => derive_setter eta_vote : typeclass_instances.

Record Committee := mkCommittee {
  members : list string;
  vrf_seed : string;
  is_revote : bool;
  selected_at : f64;
  challenge_deadline : option f64;
  challenger : option string;
}.
Definition eta_committee (c : Committee) :=
  mkCommittee (members c) (vrf_seed c) (is_revote c) (selected_at c) (challenge_deadline c) (challenger c).
#[export] Hint Extern 0 (@Setter Committee _ _) => derive_setter eta_committee : typeclass_instances.

Record Proposal := mkProposal {
  pr_id : string;
  pr_proposer : string;
  pr_category : ProposalCategory.t;
  pr_title : string;
  pr_description : string;
  pr_created_at : f64;
  pr_voting_deadline : f64;
  pr_status : ProposalStatus.t;
  pr_passed_at : option f64;
  pr_votes : list Vote;
  pr_committee : option Committee;
}.
Definition eta_proposal (p : Proposal) :=
  mkProposal (pr_id p) (pr_proposer p) (pr_category p) (pr_title p) (pr_description p) (pr_created_at p)
    (pr_voting_deadline p) (pr_status p) (pr_passed_at p) (pr_votes p) (pr_committee p).
#[export] Hint Extern 0 (@Setter Proposal _ _) => derive_setter eta_proposal : typeclass_instances.

Definition is_voting_open (p : Proposal) (now : f64) : bool :=
  bool_decide (pr_status p = ProposalStatus.Active) && f64_ltb now (pr_voting_deadline p).
Definition has_voted (p : Proposal) (voter : string) : bool :=
  bool_decide (voter ∈ vo_voter <$> pr_votes p).
Definition can_execute (p : Proposal) (now : f64) : bool :=
  if bool_decide (pr_status p = ProposalStatus.Passed) then
    match pr_passed_at p with
    | Some t => f64_geb now (f64_add t EXECUTION_DELAY_SECS)
    | None => false
    end
  else false.
Definition is_committee_member (p : Proposal) (voter : string) : bool :=
  match pr_committee p with Some c => bool_decide (voter ∈ members c) | None => true end.

Record DelegationEntry := mkDelegation {
  de_delegator : string;
  de_delegate : string;
  de_created_at : f64;
  de_active : bool;
}.
Definition eta_delegation (d : DelegationEntry) :=
  mkDelegation (de_delegator d) (de_delegate d) (de_created_at d) (de_active d).
#[export] Hint Extern 0 (@Setter DelegationEntry _ _) => derive_setter eta_delegation : typeclass_instances.

(** ** Choosing a committee *)

Section committee.
Context `{HE : Externals}.

(** The first eight bytes of the hash, little endian, as a fraction of [u64::MAX]. *)
Definition committee_score (seed : string) (candidate : string * f64) : f64 :=
  let h := sha3_256 (bytes_of (seed ++ ":" ++ candidate.1)) in
  let raw := f64_div (f64_of_Z (from_be (reverse (take 8 h)))) (f64_of_Z U64.MAX) in
  f64_mul raw (f64_max candidate.2 (f64_lit 1 100)).
(** Descending by [total_cmp]. *)
Definition score_geb (x y : f64 * string) : bool :=
  total_key (bits_of_f64 y.1) <=? total_key (bits_of_f64 x.1).
Definition select_committee (seed : string) (candidates : list (string * f64)) (committee_size : nat) : list string :=
  if bool_decide (candidates = []) || bool_decide (committee_size = 0%nat) then []
  else
    let size := Nat.min committee_size (length candidates) in
    let scored := (fun c => (committee_score seed c, c.1)) <$> candidates in
    (take size (stable_sort score_geb scored)).*2.
End committee.

(** ** The anchor veto *)

Record AnchorVetoSignal := mkSignal {
  sg_anchor : string;
  sg_zone : string;
  sg_at : f64;
}.
Record AnchorVetoState := mkVetoes {
  signals : gmap string (list AnchorVetoSignal);
  vetoes_by_quarter : gmap (string * Z) Z;
}.
Definition eta_vetoes (s : AnchorVetoState) := mkVetoes (signals s) (vetoes_by_quarter s).
#[export] Hint Extern 0 (@Setter AnchorVetoState _ _) => derive_setter eta_vetoes : typeclass_instances.
Definition vetoes_new : AnchorVetoState := mkVetoes ∅ ∅.

Definition quarter_start (timestamp : f64) : Z :=
  let quarter := f64_as_uint 64 QUARTER_SECS in
  f64_as_uint 64 timestamp / quarter * quarter.
Definition rate_limited (zone : string) (timestamp : f64) (s : AnchorVetoState) : bool :=
  ANCHOR_VETO_MAX_PER_QUARTER <=? default 0 (vetoes_by_quarter s !! (zone, quarter_start timestamp)).
Definition signals_for (pid : string) (s : AnchorVetoState) : list AnchorVetoSignal := default [] (signals s !! pid).
Definition has_signaled (anchor : string) (l : list AnchorVetoSignal) : bool :=
  bool_decide (anchor ∈ sg_anchor <$> l).
Definition signal_veto (pid anchor zone : string) (timestamp : f64) : M AnchorVetoState bool :=
  l ← gets (signals_for pid);
  if has_signaled anchor l then modify (fun s => s <| signals ::= insert pid l |>);; mret false
  else modify (fun s => s <| signals ::= insert pid (l ++ [mkSignal anchor zone timestamp]) |>);; mret true.
Definition check_threshold (pid : string) (total_anchor_nodes : Z) (s : AnchorVetoState) : bool :=
  if total_anchor_nodes =? 0 then false
  else f64_gtb (f64_div (f64_of_Z (Z.of_nat (length (signals_for pid s)))) (f64_of_Z total_anchor_nodes))
         ANCHOR_VETO_THRESHOLD.
Definition record_veto (zone : string) (timestamp : f64) : M AnchorVetoState unit :=
  let key := (zone, quarter_start timestamp) in
  n ← gets (fun s => default 0 (vetoes_by_quarter s !! key));
  n ← add_u64 n 1;
  modify (fun s => s <| vetoes_by_quarter ::= insert key n |>).
Definition signal_count (pid : string) (s : AnchorVetoState) : nat := length (signals_for pid s).
Definition rebuild_from_signals (l : list (string * AnchorVetoSignal)) : AnchorVetoState :=
  fold_left (fun s kv =>
    let old := signals_for kv.1 s in
    s <| signals ::= insert kv.1 (if has_signaled (sg_anchor kv.2) old then old else old ++ [kv.2]) |>)
    l vetoes_new.

(** ** Parameters a vote can change *)

(** The text forms of doubles, [str::parse] and [to_string]. *)
Class FloatText := {
  parse_f64 : string → option f64;
  display_f64 : f64 → string;
}.

Definition MAX_PROPAGATION_RATE_PER_HOUR : Z := 10000.
Definition MIN_RECORD_RETENTION_SECS : f64 := f64_of_Z 604800.
Definition MAX_EPOCH_SEAL_INTERVAL_SECS : f64 := f64_of_Z 3600.
Definition MAX_WITNESS_REWARD_MICROS : Z := 100 * BASE_UNITS_PER_BEAT.

Record GovernableParams := mkParams {
  propagation_rate_limit_per_hour : Z;
  epoch_seal_interval_secs : f64;
  witness_reward_micros : Z;
  record_retention_secs : f64;
  stake_throughput_ratio : Z;
}.
Definition eta_params (p : GovernableParams) :=
  mkParams (propagation_rate_limit_per_hour p) (epoch_seal_interval_secs p) (witness_reward_micros p)
    (record_retention_secs p) (stake_throughput_ratio p).
#[export] Hint Extern 0 (@Setter GovernableParams _ _) => derive_setter eta_params : typeclass_instances.
Definition params_default : GovernableParams := mkParams 120 (f64_of_Z 300) 1000000000 f64_0 100000000.

Record ParamChange := mkParamChange {
  pc_name : string;
  pc_old_value : string;
  pc_new_value : string;
  pc_proposal_id : string;
  pc_applied_at : f64;
}.

Section params.
Context `{HF : FloatText}.

(** [value.parse().map_err(..)?] *)
Definition parsed {A} (x : option A) : outcome A :=
  match x with Some a => Ok a | None => Err (EGovernance "invalid value") end.
Definition limit (ok : bool) : outcome unit := if ok then Ok tt else Err (EGovernance "hard limit violation").

Definition validate_param_change (name value : string) : outcome unit :=
  if decide (name = "propagation_rate_limit_per_hour") then
    v ← parsed (parse_u64 value); limit (v <=? MAX_PROPAGATION_RATE_PER_HOUR)
  else if decide (name = "epoch_seal_interval_secs") then
    v ← parsed (parse_f64 value);
    limit (negb (f64_gtb v MAX_EPOCH_SEAL_INTERVAL_SECS) && negb (f64_leb v f64_0))
  else if decide (name = "witness_reward_micros") then
    v ← parsed (parse_u64 value); limit (v <=? MAX_WITNESS_REWARD_MICROS)
  else if decide (name = "record_retention_secs") then
    v ← parsed (parse_f64 value);
    limit (negb (f64_gtb v f64_0 && f64_ltb v MIN_RECORD_RETENTION_SECS))
  else if decide (name = "stake_throughput_ratio") then
    v ← parsed (parse_u64 value); limit (negb (v =? 0))
  else Ok tt.

Definition params_apply (name value : string) (p : GovernableParams) : outcome GovernableParams :=
  if decide (name = "propagation_rate_limit_per_hour") then
    v ← parsed (parse_u64 value); Ok (p <| propagation_rate_limit_per_hour := v |>)
  else if decide (name = "epoch_seal_interval_secs") then
    v ← parsed (parse_f64 value); Ok (p <| epoch_seal_interval_secs := v |>)
  else if decide (name = "witness_reward_micros") then
    v ← parsed (parse_u64 value); Ok (p <| witness_reward_micros := v |>)
  else if decide (name = "record_retention_secs") then
    v ← parsed (parse_f64 value); Ok (p <| record_retention_secs := v |>)
  else if decide (name = "stake_throughput_ratio") then
    v ← parsed (parse_u64 value); Ok (p <| stake_throughput_ratio := v |>)
  else Err (EGovernance "unrecognized parameter").
Definition params_get (name : string) (p : GovernableParams) : option string :=
  if decide (name = "propagation_rate_limit_per_hour") then Some (display_u64 (propagation_rate_limit_per_hour p))
  else if decide (name = "epoch_seal_interval_secs") then Some (display_f64 (epoch_seal_interval_secs p))
  else if decide (name = "witness_reward_micros") then Some (display_u64 (witness_reward_micros p))
  else if decide (name = "record_retention_secs") then Some (display_f64 (record_retention_secs p))
  else if decide (name = "stake_throughput_ratio") then Some (display_u64 (stake_throughput_ratio p))
  else None.
End params.

(** ** Conviction in fixed point *)

Definition CONVICTION_Q : Z := 1000000000.
Definition E_INV_Q : Z := 367879441.
Definition SUPERMAJORITY_NUM : Z := 67.
Definition SUPERMAJORITY_DEN : Z := 100.
Definition PARTICIPATION_NUM : Z := 1.
Definition PARTICIPATION_DEN : Z := 4.
Definition sat_add128 (a b : Z) : Z := Z.min U64.U128_MAX (a + b).

Definition secs_floor (t : f64) : Z :=
  if f64_is_finite t && f64_gtb t f64_0 then f64_as_uint 64 t else 0.

(** The series for [e^-r]: [fuel] terms remain, the next is term [n]; the loop
    ends at a term that rounds to zero. *)
Fixpoint maclaurin (fuel : nat) (n term acc r_q : Z) (subtract : bool) : Z :=
  match fuel with
  | O => acc
  | S fuel =>
      let denom := U64.sat_mul128 n CONVICTION_Q in
      let term := (U64.sat_mul128 term r_q + denom / 2) / denom in
      if term =? 0 then acc
      else maclaurin fuel (n + 1) term
             (if subtract then U64.sat_sub acc term else sat_add128 acc term) r_q (negb subtract)
  end.
(** [k] multiplications by [1/e], rounded. *)
Fixpoint exp_steps (k : nat) (acc : Z) : Z :=
  match k with
  | O => acc
  | S k => exp_steps k ((U64.sat_mul128 acc E_INV_Q + CONVICTION_Q / 2) / CONVICTION_Q)
  end.
Definition one_minus_exp_neg_q (t_secs tau_secs : Z) : Z :=
  if (t_secs =? 0) || (tau_secs =? 0) then 0
  else
    let q := CONVICTION_Q in
    let x_q := U64.sat_mul128 t_secs q / tau_secs in
    let k := x_q / q in
    if 42 <=? k then q
    else
      let exp_r_q := maclaurin 16 1 q q (x_q mod q) true in
      let exp_k_q := exp_steps (Z.to_nat k) q in
      let exp_x_q := (U64.sat_mul128 exp_k_q exp_r_q + q / 2) / q in
      U64.sat_sub q (Z.min exp_x_q q).

Definition conviction_q (stake duration_secs : Z) : Z :=
  if (duration_secs =? 0) || (stake =? 0) then 0
  else U64.sat_mul128 stake (one_minus_exp_neg_q duration_secs (f64_as_uint 64 CONVICTION_TAU_SECS)).
Definition dampened_power_q (conviction : Z) : Z := Z.sqrt (U64.sat_mul128 conviction CONVICTION_Q).
Definition identity_cap_q (total_power_q : Z) (voter_count : Z) : Z :=
  if voter_count <=? 1 then U64.U128_MAX
  else
    let sqrt_n_q := Z.sqrt (U64.sat_mul128 (U64.sat_mul128 voter_count CONVICTION_Q) CONVICTION_Q) in
    if sqrt_n_q =? 0 then U64.U128_MAX
    else U64.sat_mul128 total_power_q CONVICTION_Q / sqrt_n_q.

(** *** Decay of voting power on outflow (display paths only) *)

Definition DECAY_OUTFLOW_WINDOW_SECS : f64 := f64_of_Z 2592000.
Definition DECAY_PEAK_STAKED_WINDOW_SECS : f64 := f64_of_Z 7776000.
Definition DECAY_OUTFLOW_THRESHOLD : f64 := f64_lit 5 100.
Definition DECAY_MULTIPLIER : f64 := f64_of_Z 3.
Definition DECAY_FLOOR : f64 := f64_lit 1 100.
Definition governance_decay_multiplier (velocity : VelocityTracker) (staked_balance : Z) (identity : string)
    (now : f64) : f64 :=
  if staked_balance =? 0 then DECAY_FLOOR
  else
    let outflow := outflow_in_custom_window velocity identity now DECAY_OUTFLOW_WINDOW_SECS in
    if outflow =? 0 then f64_of_Z 1
    else
      let peak := peak_balance_in_window velocity identity now DECAY_PEAK_STAKED_WINDOW_SECS in
      let denominator := f64_max (f64_of_Z staked_balance) (f64_of_Z peak) in
      if f64_leb denominator f64_0 then DECAY_FLOOR
      else
        let ratio := f64_div (f64_of_Z outflow) denominator in
        if f64_leb ratio DECAY_OUTFLOW_THRESHOLD then f64_of_Z 1
        else f64_max (f64_sub (f64_of_Z 1) (f64_mul ratio DECAY_MULTIPLIER)) DECAY_FLOOR.

(** [x.round() as u128]: half away from zero, then the saturating cast. *)
Definition round_as_u128 (x : f64) : Z :=
  match x with
  | S754_infinity false => U64.U128_MAX
  | S754_finite false m e =>
      Z.min U64.U128_MAX (if 0 <=? e then Z.pos m * 2 ^ e else (2 * Z.pos m + 2 ^ (- e)) / 2 ^ (1 - e))
  | _ => 0
  end.

(** *** The tally *)

Record VoteTally := mkTally {
  for_conviction_q : Z;
  against_conviction_q : Z;
  abstain_conviction_q : Z;
  voter_count : Z;
  raw_participating_stake : Z;
}.
Definition vote_key (v : Vote) : string * Z := (vo_voter v, total_key (bits_of_f64 (vo_voted_at v))).
Definition vote_key_leb (x y : string * Z) : bool :=
  match String.compare x.1 y.1 with Lt => true | Gt => false | Eq => x.2 <=? y.2 end.

Definition decayed (decay_factors : option (gmap string f64)) (voter : string) (power_q : Z) : Z :=
  match decay_factors ≫= fun df => df !! voter with
  | Some d =>
      if f64_eqb d (f64_of_Z 1) then power_q
      else U64.sat_mul128 power_q (round_as_u128 (f64_mul (f64_max d f64_0) (f64_of_Z CONVICTION_Q))) / CONVICTION_Q
  | None => power_q
  end.
Definition vote_power (now : f64) (decay_factors : option (gmap string f64)) (v : Vote) : VoteDirection.t * Z :=
  let duration := U64.sat_sub (secs_floor now) (secs_floor (vo_voted_at v)) in
  (vo_direction v, decayed decay_factors (vo_voter v) (dampened_power_q (conviction_q (vo_stake v) duration))).
(** The capped powers of one direction. *)
Definition power_for (d : VoteDirection.t) (cap_q : Z) (powers : list (VoteDirection.t * Z)) : Z :=
  fold_left sat_add128 ((fun p => Z.min p.2 cap_q) <$> filter (fun p : VoteDirection.t * Z => p.1 = d) powers) 0.
Definition tally_votes {S} (p : Proposal) (now : f64) (decay_factors : option (gmap string f64)) : M S VoteTally :=
  if bool_decide (pr_votes p = []) then mret (mkTally 0 0 0 0 0)
  else
    raw ← sum_u64 (vo_stake <$> pr_votes p) 0;
    let powers := vote_power now decay_factors <$> stable_sort (by_key_leb vote_key vote_key_leb) (pr_votes p) in
    let total := fold_left sat_add128 powers.*2 0 in
    let cap := identity_cap_q total (Z.of_nat (length powers)) in
    mret (mkTally (power_for VoteDirection.For cap powers) (power_for VoteDirection.Against cap powers)
      (power_for VoteDirection.Abstain cap powers) (Z.of_nat (length powers)) raw).

(** ** Protocol upgrades *)

Module UpgradeKind.
Inductive t := SoftFork | HardFork | Emergency.
Definition supermajority_threshold (k : t) : f64 :=
  match k with SoftFork => f64_lit 1 2 | HardFork => f64_lit 67 100 | Emergency => f64_lit 3 4 end.
Definition transition_days (k : t) : Z := match k with SoftFork => 0 | HardFork => 180 | Emergency => 30 end.
Definition as_str (k : t) : string :=
  match k with SoftFork => "soft_fork" | HardFork => "hard_fork" | Emergency => "emergency" end.
Definition parse (s : string) : outcome t :=
  if decide (s = "soft_fork") then Ok SoftFork
  else if decide (s = "hard_fork") then Ok HardFork
  else if decide (s = "emergency") then Ok Emergency
  else Err (EGovernance "unknown upgrade kind").
End UpgradeKind.

Module UpgradeOutcome.
Inductive t :=
  | VoteOpen
  | Passed (transition_deadline_secs : Z)
  | Failed (for_ratio : f64)
  | Active.
End UpgradeOutcome.

Record UpgradeProposal := mkUpgradeProposal {
  up_kind : UpgradeKind.t;
  up_votes_for : Z;
  up_votes_against : Z;
  up_votes_abstain : Z;
  up_window_close : Z;
  up_now : Z;
}.
Definition evaluate_upgrade_tally (p : UpgradeProposal) : UpgradeOutcome.t :=
  if up_now p <? up_window_close p then UpgradeOutcome.VoteOpen
  else
    let decisive := sat_add128 (up_votes_for p) (up_votes_against p) in
    if decisive =? 0 then UpgradeOutcome.Failed f64_0
    else
      let ratio := f64_div (f64_of_Z (up_votes_for p)) (f64_of_Z decisive) in
      if f64_ltb ratio (UpgradeKind.supermajority_threshold (up_kind p)) then UpgradeOutcome.Failed ratio
      else
        let deadline := U64.sat_add (up_window_close p) (UpgradeKind.transition_days (up_kind p) * 86400) in
        if deadline <=? up_now p then UpgradeOutcome.Active else UpgradeOutcome.Passed deadline.

Definition weight_for (d : VoteDirection.t) (votes : list Vote) : Z :=
  fold_left sat_add128 (vo_stake <$> filter (fun v => vo_direction v = d) votes) 0.
Definition evaluate_protocol_upgrade_proposal (p : Proposal) (kind : UpgradeKind.t) (now_secs : Z)
    : outcome UpgradeOutcome.t :=
  if bool_decide (pr_category p ≠ ProposalCategory.ProtocolUpgrade)
  then Err (EGovernance "not a protocol upgrade")
  else Ok (evaluate_upgrade_tally (mkUpgradeProposal kind
         (weight_for VoteDirection.For (pr_votes p)) (weight_for VoteDirection.Against (pr_votes p))
         (weight_for VoteDirection.Abstain (pr_votes p)) (f64_as_uint 64 (pr_voting_deadline p)) now_secs)).

Record UpgradeOutcomeRecord := mkUpgradeRecord {
  ur_proposal_id : string;
  ur_kind : string;
  ur_reference_impl_hash : string;
  ur_proposed_at_epoch : Z;
  ur_outcome : string;
  ur_for_ratio : option f64;
  ur_transition_deadline_secs : option Z;
  ur_recorded_at_ts : f64;
}.

(** ** The state *)

Record GovernanceState := mkGovernance {
  proposals : gmap string Proposal;
  delegations : gmap string DelegationEntry;
  params : GovernableParams;
  param_changes : list ParamChange;
  anchor_vetoes : AnchorVetoState;
  active_delegations_count : Z;
  proposal_status_counts : ProposalStatusCounts;
  upgrade_outcomes : gmap string UpgradeOutcomeRecord;
}.
Definition eta_governance (s : GovernanceState) :=
  mkGovernance (proposals s) (delegations s) (params s) (param_changes s) (anchor_vetoes s)
    (active_delegations_count s) (proposal_status_counts s) (upgrade_outcomes s).
#[export] Hint Extern 0 (@Setter GovernanceState _ _) => derive_setter eta_governance : typeclass_instances.
Definition governance_new : GovernanceState :=
  mkGovernance ∅ ∅ params_default [] vetoes_new 0 counts_default ∅.

Notation G := (M GovernanceState).

Definition recount_active_delegations (s : GovernanceState) : GovernanceState :=
  s <| active_delegations_count :=
    Z.of_nat (size (filter (fun kv : string * DelegationEntry => de_active kv.2 = true) (delegations s))) |>.
Definition recount_proposal_statuses (s : GovernanceState) : GovernanceState :=
  s <| proposal_status_counts :=
    fold_left (fun c p => inc (pr_status p) c) (map_to_list (proposals s)).*2 counts_default |>.
Definition record_status_transition (old new : ProposalStatus.t) (s : GovernanceState) : GovernanceState :=
  if bool_decide (old = new) then s
  else s <| proposal_status_counts ::= fun c => inc new (dec old c) |>.

Definition get_proposal (pid : string) : G Proposal :=
  p ← gets (fun s => proposals s !! pid); ok_or p (EGovernance "proposal not found").
Definition put_proposal (pid : string) (p : Proposal) : G unit :=
  modify (fun s => s <| proposals ::= insert pid p |>).
(** The write of a status and the counters that follow it. *)
Definition move_to (pid : string) (p : Proposal) (new : ProposalStatus.t) : G unit :=
  put_proposal pid (p <| pr_status := new |>);;
  modify (record_status_transition (pr_status p) new).

(** *** Proposals and votes *)

Definition create_proposal (pid proposer : string) (category : ProposalCategory.t) (title description : string)
    (governance_stake : Z) (timestamp : f64) (committee : option Committee) : G unit :=
  require (MIN_PROPOSAL_STAKE <=? governance_stake) (EGovernance "insufficient governance stake");;
  s ← get;
  require (bool_decide (proposals s !! pid = None)) (EGovernance "proposal already exists");;
  require (negb (bool_decide (category = ProposalCategory.Critical) && bool_decide (committee = None)))
    (EGovernance "critical proposals require a randomly selected committee");;
  let voting_period := match committee with Some _ => COMMITTEE_VOTING_PERIOD_SECS | None => VOTING_PERIOD_SECS end in
  put_proposal pid (mkProposal pid proposer category title description timestamp
    (f64_add timestamp voting_period) ProposalStatus.Active None [] committee);;
  modify (fun s => s <| proposal_status_counts ::= inc ProposalStatus.Active |>).

Definition cast_vote_with_own (pid voter : string) (direction : VoteDirection.t) (governance_stake own_stake : Z)
    (timestamp : f64) : G unit :=
  p ← get_proposal pid;
  require (is_voting_open p timestamp) (EGovernance "voting period has ended");;
  require (negb (has_voted p voter)) (EGovernance "identity has already voted");;
  require (negb (governance_stake =? 0)) (EGovernance "must have governance stake to vote");;
  require (is_committee_member p voter) (EGovernance "identity is not on the committee");;
  put_proposal pid
    (p <| pr_votes ::= fun l => l ++ [mkVote voter governance_stake direction timestamp (Some own_stake)] |>).
Definition cast_vote (pid voter : string) (direction : VoteDirection.t) (governance_stake : Z) (timestamp : f64)
    : G unit :=
  cast_vote_with_own pid voter direction governance_stake governance_stake timestamp.

Definition cancel_proposal (pid canceller : string) : G unit :=
  p ← get_proposal pid;
  require (bool_decide (pr_status p = ProposalStatus.Active)) (EGovernance "can only cancel active proposals");;
  require (bool_decide (pr_proposer p = canceller)) (EGovernance "only the proposer can cancel");;
  move_to pid p ProposalStatus.Cancelled.

(** *** Settling *)

(** The verdict of a tally. *)
Definition verdict (tally : VoteTally) (total_governance_staked : Z) : ProposalStatus.t :=
  if U64.sat_mul128 (raw_participating_stake tally) PARTICIPATION_DEN
       <? U64.sat_mul128 total_governance_staked PARTICIPATION_NUM
  then ProposalStatus.Expired
  else
    let decisive := sat_add128 (for_conviction_q tally) (against_conviction_q tally) in
    if decisive =? 0 then ProposalStatus.Expired
    else if U64.sat_mul128 decisive SUPERMAJORITY_NUM <=? U64.sat_mul128 (for_conviction_q tally) SUPERMAJORITY_DEN
    then ProposalStatus.Passed else ProposalStatus.Rejected.
(** What a passed proposal records. *)
Definition open_challenge (now : f64) (c : Committee) : Committee :=
  match challenge_deadline c with
  | Some _ => c
  | None => c <| challenge_deadline := Some (f64_add now COMMITTEE_CHALLENGE_PERIOD_SECS) |>
  end.
Definition note_passed (now : f64) (p : Proposal) : Proposal :=
  p <| pr_passed_at := Some now |> <| pr_committee ::= fmap (open_challenge now) |>.
Definition settle_proposal (pid : string) (total_governance_staked : Z) (now : f64) : G ProposalStatus.t :=
  p ← get_proposal pid;
  require (bool_decide (pr_status p = ProposalStatus.Active)) (EGovernance "proposal is not active");;
  require (negb (f64_ltb now (pr_voting_deadline p))) (EGovernance "voting period has not ended yet");;
  tally ← tally_votes p now None;
  let result := verdict tally total_governance_staked in
  move_to pid (if bool_decide (result = ProposalStatus.Passed) then note_passed now p else p) result;;
  mret result.

Definition execute_proposal (pid : string) (now : f64) : G unit :=
  p ← get_proposal pid;
  require (can_execute p now) (EGovernance "proposal cannot be executed yet");;
  match pr_committee p with
  | Some c =>
      require (match challenge_deadline c with Some d => negb (f64_ltb now d) | None => true end)
        (EGovernance "committee challenge period has not elapsed");;
      require (negb (bool_decide (is_Some (challenger c)) && negb (is_revote c)))
        (EGovernance "committee verdict is challenged; awaiting re-vote")
  | None => mret tt
  end;;
  move_to pid p ProposalStatus.Executed.

(** *** Challenges *)

Definition challenge_committee (pid who : string) (governance_stake : Z) (now : f64) : G unit :=
  require (MIN_PROPOSAL_STAKE <=? governance_stake) (EGovernance "insufficient stake to challenge");;
  p ← get_proposal pid;
  require (bool_decide (pr_status p = ProposalStatus.Passed)) (EGovernance "can only challenge passed proposals");;
  c ← ok_or (pr_committee p) (EGovernance "proposal has no committee");
  require (negb (is_revote c)) (EGovernance "re-vote verdicts cannot be challenged");;
  require (bool_decide (challenger c = None)) (EGovernance "proposal has already been challenged");;
  deadline ← ok_or (challenge_deadline c) (EGovernance "challenge period not set");
  require (negb (f64_geb now deadline)) (EGovernance "challenge period has expired");;
  move_to pid (p <| pr_committee := Some (c <| challenger := Some who |>) |> <| pr_passed_at := None |>
                 <| pr_votes := [] |>) ProposalStatus.Active.
Definition apply_revote_committee (pid : string) (revote : Committee) (now : f64) : G unit :=
  p ← get_proposal pid;
  require (bool_decide (pr_status p = ProposalStatus.Active)) (EGovernance "proposal must be active for re-vote");;
  c ← ok_or (pr_committee p) (EGovernance "no existing committee");
  require (negb (bool_decide (challenger c = None))) (EGovernance "proposal has not been challenged");;
  put_proposal pid (p <| pr_voting_deadline := f64_add now COMMITTEE_VOTING_PERIOD_SECS |>
                      <| pr_committee := Some revote |>).

Definition anchor_veto_signal (pid anchor zone : string) (total_anchor_nodes : Z) (timestamp : f64) : G bool :=
  p ← get_proposal pid;
  require (bool_decide (pr_status p = ProposalStatus.Active) || bool_decide (pr_status p = ProposalStatus.Passed))
    (EGovernance "can only veto active or passed proposals");;
  s ← get;
  require (negb (rate_limited zone timestamp (anchor_vetoes s))) (EGovernance "zone has exhausted veto quota");;
  is_new ← zoom anchor_vetoes (signal_veto pid anchor zone timestamp);
  require is_new (EGovernance "anchor has already signaled");;
  s ← get;
  if check_threshold pid total_anchor_nodes (anchor_vetoes s) then
    move_to pid p ProposalStatus.Vetoed;;
    zoom anchor_vetoes (record_veto zone timestamp);;
    mret true
  else mret false.

(** *** Delegation *)

Definition delegation_of (delegator : string) (s : GovernanceState) : option DelegationEntry :=
  d ← delegations s !! delegator; if de_active d then Some d else None.
Definition delegators_for (delegate : string) (s : GovernanceState) : list DelegationEntry :=
  filter (fun d => de_active d = true ∧ de_delegate d = delegate) (map_to_list (delegations s)).*2.
Definition delegate (delegator to : string) (timestamp : f64) : G unit :=
  require (bool_decide (delegator ≠ to)) (EGovernance "cannot delegate to self");;
  s ← get;
  require (bool_decide (delegation_of delegator s = None)) (EGovernance "already delegated; undelegate first");;
  require (negb (bool_decide (de_delegate <$> delegation_of to s = Some delegator)))
    (EGovernance "circular delegation");;
  modify (fun s => s <| delegations ::= insert delegator (mkDelegation delegator to timestamp true) |>
                     <| active_delegations_count ::= fun n => U64.sat_add n 1 |>).
Definition undelegate (delegator : string) : G unit :=
  s ← get;
  d ← ok_or (delegations s !! delegator) (EGovernance "no active delegation");
  require (de_active d) (EGovernance "delegation already inactive");;
  modify (fun s => s <| delegations ::= insert delegator (d <| de_active := false |>) |>
                     <| active_delegations_count ::= fun n => U64.sat_sub n 1 |>).

(** ** Stake that votes *)

Definition is_governance (e : StakeEntry) : bool :=
  se_active e && bool_decide (se_purpose e = StakePurpose.Governance).
Definition total_governance_staked {S} (stakes : gmap string StakeEntry) : M S Z :=
  sum_u64 (se_amount <$> filter (fun e => is_governance e = true) (map_to_list stakes).*2) 0.
Definition governance_stake_for {S} (stakes : gmap string StakeEntry) (who : string) : M S Z :=
  sum_u64 (se_amount <$> filter (fun e => is_governance e && bool_decide (se_staker e = who) = true)
             (map_to_list stakes).*2) 0.
Fixpoint stakes_of {S} (stakes : gmap string StakeEntry) (whos : list string) : M S (list Z) :=
  match whos with
  | [] => mret []
  | w :: whos => n ← governance_stake_for stakes w; rest ← stakes_of stakes whos; mret (n :: rest)
  end.
Definition effective_voting_stake {S} (stakes : gmap string StakeEntry) (gov : GovernanceState) (voter : string)
    (p : Proposal) : M S Z :=
  own ← governance_stake_for stakes voter;
  l ← stakes_of stakes
        (filter (fun d => has_voted p d = false) (de_delegator <$> delegators_for voter gov));
  delegated ← sum_u64 l 0;
  add_u64 own delegated.

(** The stake of the active delegators that did not vote, per delegate. *)
Fixpoint fold_delegations {S} (stakes : gmap string StakeEntry) (direct_voters : gset string)
    (l : list DelegationEntry) (folded : gmap string Z) : M S (gmap string Z) :=
  match l with
  | [] => mret folded
  | d :: l =>
      if negb (de_active d) || bool_decide (de_delegator d ∈ direct_voters)
      then fold_delegations stakes direct_voters l folded
      else
        s ← governance_stake_for stakes (de_delegator d);
        if s =? 0 then fold_delegations stakes direct_voters l folded
        else fold_delegations stakes direct_voters l
               (<[de_delegate d := U64.sat_add (default 0 (folded !! de_delegate d)) s]> folded)
  end.
Definition reconciled_vote (folded : gmap string Z) (v : Vote) : Vote :=
  v <| vo_stake := U64.sat_add (default (vo_stake v) (vo_own_stake v)) (default 0 (folded !! vo_voter v)) |>.
Definition reconcile_effective_stakes (stakes : gmap string StakeEntry) (pid : string) : G unit :=
  s ← get;
  match proposals s !! pid with
  | None => mret tt
  | Some p =>
      folded ← fold_delegations stakes (list_to_set (vo_voter <$> pr_votes p)) (map_to_list (delegations s)).*2 ∅;
      put_proposal pid (p <| pr_votes ::= fmap (reconciled_vote folded) |>)
  end.

(** ** Effects of an executed proposal *)

Section effects.
Context `{HF : FloatText}.

Definition apply_param_change (pid name value : string) (timestamp : f64) : G string :=
  lift (validate_param_change name value);;
  s ← get;
  old ← ok_or (params_get name (params s)) (EGovernance "unrecognized parameter");
  p ← lift (params_apply name value (params s));
  modify (fun s => s <| params := p |>
                     <| param_changes ::= fun l => l ++ [mkParamChange name old value pid timestamp] |>);;
  mret old.

Definition outcome_fields (o : UpgradeOutcome.t) : string * option f64 * option Z :=
  match o with
  | UpgradeOutcome.VoteOpen => ("vote_open", None, None)
  | UpgradeOutcome.Passed d => ("passed", None, Some d)
  | UpgradeOutcome.Failed r => ("failed", Some r, None)
  | UpgradeOutcome.Active => ("active", None, None)
  end.
Definition apply_protocol_upgrade_outcome (pid : string) (kind : UpgradeKind.t) (reference_impl_hash : string)
    (proposed_at_epoch now_secs : Z) (recorded_at_ts : f64) : G UpgradeOutcome.t :=
  p ← get_proposal pid;
  o ← lift (evaluate_protocol_upgrade_proposal p kind now_secs);
  let '(name, ratio, deadline) := outcome_fields o in
  modify (fun s => s <| upgrade_outcomes ::= insert pid (mkUpgradeRecord pid (UpgradeKind.as_str kind)
    reference_impl_hash proposed_at_epoch name ratio deadline recorded_at_ts) |>);;
  mret o.
End effects.

(** ** Operations in metadata *)

Inductive ParsedGovernanceOp :=
  | Propose (category : ProposalCategory.t) (title description : string)
  | CastVote (proposal_id : string) (direction : VoteDirection.t)
  | Execute (proposal_id : string)
  | Cancel (proposal_id : string)
  | Delegate (to : string)
  | Undelegate.

Definition GOVERNANCE_OP_KEY : string := "governance_op".
Definition get_gov_str (m : Metadata) (key : string) : outcome string :=
  match m !! key with
  | None => Err (EGovernance "missing field")
  | Some v => match as_str v with Some s => Ok s | None => Err (EGovernance "must be a string") end
  end.
Definition extract_governance_op (m : Metadata) : outcome (option ParsedGovernanceOp) :=
  match m !! GOVERNANCE_OP_KEY with
  | None => Ok None
  | Some v =>
      match as_str v with
      | None => Err (EGovernance "governance_op must be a string")
      | Some op =>
          if decide (op = "propose") then
            c ← get_gov_str m "governance_category"; category ← ProposalCategory.parse c;
            title ← get_gov_str m "governance_title";
            description ← get_gov_str m "governance_description";
            Ok (Some (Propose category title description))
          else if decide (op = "vote") then
            pid ← get_gov_str m "governance_proposal_id";
            d ← get_gov_str m "governance_direction"; direction ← VoteDirection.parse d;
            Ok (Some (CastVote pid direction))
          else if decide (op = "execute") then
            pid ← get_gov_str m "governance_proposal_id"; Ok (Some (Execute pid))
          else if decide (op = "cancel") then
            pid ← get_gov_str m "governance_proposal_id"; Ok (Some (Cancel pid))
          else if decide (op = "delegate") then
            to ← get_gov_str m "governance_delegate"; Ok (Some (Delegate to))
          else if decide (op = "undelegate") then Ok (Some Undelegate)
          else Err (EGovernance "unknown governance op")
      end
  end.

Definition propose_metadata (category : ProposalCategory.t) (title description : string) : Metadata :=
  {[ GOVERNANCE_OP_KEY := JString "propose"; "governance_category" := JString (ProposalCategory.as_str category);
     "governance_title" := JString title; "governance_description" := JString description ]}.
Definition vote_metadata (pid : string) (direction : VoteDirection.t) : Metadata :=
  {[ GOVERNANCE_OP_KEY := JString "vote"; "governance_proposal_id" := JString pid;
     "governance_direction" := JString (VoteDirection.as_str direction) ]}.
Definition execute_metadata (pid : string) : Metadata :=
  {[ GOVERNANCE_OP_KEY := JString "execute"; "governance_proposal_id" := JString pid ]}.
Definition execute_protocol_upgrade_metadata (pid kind hash : string) (epoch : Z) : Metadata :=
  <["governance_upgrade_kind" := JString kind]> (<["governance_reference_impl_hash" := JString hash]>
  (<["governance_proposed_at_epoch" := JInt epoch]> (execute_metadata pid))).
Definition cancel_metadata (pid : string) : Metadata :=
  {[ GOVERNANCE_OP_KEY := JString "cancel"; "governance_proposal_id" := JString pid ]}.
Definition delegate_metadata (to : string) : Metadata :=
  {[ GOVERNANCE_OP_KEY := JString "delegate"; "governance_delegate" := JString to ]}.
Definition undelegate_metadata : Metadata := {[ GOVERNANCE_OP_KEY := JString "undelegate" ]}.
Definition challenge_metadata (pid : string) : Metadata :=
  {[ GOVERNANCE_OP_KEY := JString "challenge"; "governance_proposal_id" := JString pid ]}.

Definition inject_committee_metadata (c : Committee) (m : Metadata) : Metadata :=
  <["committee_selected_at" := json_f64 (selected_at c)]> (<["committee_is_revote" := JBool (is_revote c)]>
  (<["committee_vrf_seed" := JString (vrf_seed c)]> (<["committee_members" := JArray (JString <$> members c)]> m))).
Definition extract_committee_from_metadata (m : Metadata) : option Committee :=
  v ← m !! "committee_members";
  match v with
  | JArray l =>
      let names := omap as_str l in
      if bool_decide (names = []) then None
      else Some (mkCommittee names
        (default "" (m !! "committee_vrf_seed" ≫= as_str))
        (default false (m !! "committee_is_revote" ≫= as_bool))
        (default f64_0 (m !! "committee_selected_at" ≫= as_f64)) None None)
  | _ => None
  end.
