(* ===== verification/GovernanceLedger.v ===== *)
(** * Governance records applied to the ledger

    [apply_governance_op] of src/accounting/ledger.rs, with the settlement of
    overdue proposals that every governance record triggers, and the admission
    check of src/accounting/validate.rs.  The governance
    sub-state of [LedgerState], which no ledger operation reads, stands beside
    the ledger here. *)

From S2P Require Import Prelude Sorting F64 Types Custodial Records LedgerOps Ledger Governance.
Open Scope Z_scope.

Record GovLedger := mkGovLedger { base : LedgerState; governance : GovernanceState }.
Definition eta_gov_ledger (s : GovLedger) := mkGovLedger (base s) (governance s).
#[export] Hint Extern 0 (@Setter GovLedger _ _) => derive_setter eta_gov_ledger : typeclass_instances.
Definition gov_ledger_new : GovLedger := mkGovLedger ledger_new governance_new.

Notation GL := (M GovLedger).

(** [let _ = ..] *)
Definition ignore_result {S A} (m : M S A) : M S unit := fun s =>
  match m s with (Panic, s') => (Panic, s') | (_, s') => (Ok tt, s') end.

Section apply.
Context `{HF : FloatText}.
Context (record : ValidationRecord).

Definition has_category (pid : string) (c : ProposalCategory.t) (s : GovernanceState) : bool :=
  match proposals s !! pid with Some p => bool_decide (pr_category p = c) | None => false end.
Definition meta_str (key : string) : option string := rec_metadata record !! key ≫= as_str.

(** The parameter named by the executing record. *)
Definition execute_param (pid : string) : G unit :=
  match meta_str "governance_param_name", meta_str "governance_param_value" with
  | Some name, Some value => ignore_result (apply_param_change pid name value (rec_timestamp record))
  | _, _ => mret tt
  end.
Definition execute_upgrade (pid : string) : G unit :=
  match meta_str "governance_upgrade_kind", meta_str "governance_reference_impl_hash",
        rec_metadata record !! "governance_proposed_at_epoch" ≫= Records.as_u64 with
  | Some kind, Some hash, Some epoch =>
      match UpgradeKind.parse kind with
      | Ok kind =>
          let ts := rec_timestamp record in
          let now := if f64_is_finite ts && f64_geb ts f64_0 then f64_as_uint 64 ts else 0 in
          ignore_result (apply_protocol_upgrade_outcome pid kind hash epoch now ts)
      | _ => mret tt
      end
  | _, _, _ => mret tt
  end.

Definition governance_body (creator : string) (stakes : gmap string StakeEntry) (op : ParsedGovernanceOp) : G unit :=
  match op with
  | Propose category title description =>
      stake ← governance_stake_for stakes creator;
      create_proposal (rec_id record) creator category title description stake (rec_timestamp record)
        (extract_committee_from_metadata (rec_metadata record))
  | CastVote pid direction =>
      p ← get_proposal pid;
      gov ← get;
      effective ← effective_voting_stake stakes gov creator p;
      own ← governance_stake_for stakes creator;
      cast_vote_with_own pid creator direction effective own (rec_timestamp record)
  | Execute pid =>
      is_param ← gets (has_category pid ProposalCategory.Parametric);
      is_upgrade ← gets (has_category pid ProposalCategory.ProtocolUpgrade);
      execute_proposal pid (rec_timestamp record);;
      when is_param (execute_param pid);;
      when is_upgrade (execute_upgrade pid)
  | Cancel pid => cancel_proposal pid creator
  | Delegate to => delegate creator to (rec_timestamp record)
  | Undelegate => undelegate creator
  end.

(** The active proposals past their deadline, in the order of their ids. *)
Definition overdue (s : GovernanceState) : list string :=
  stable_sort String.leb
    (filter (fun kv : string * Proposal =>
       bool_decide (pr_status kv.2 = ProposalStatus.Active) &&
       f64_geb (rec_timestamp record) (pr_voting_deadline kv.2) = true) (map_to_list (proposals s))).*1.
Definition settle_one (stakes : gmap string StakeEntry) (total : Z) (pid : string) : G unit :=
  reconcile_effective_stakes stakes pid;;
  ignore_result (settle_proposal pid total (rec_timestamp record)).
Definition settle_overdue (stakes : gmap string StakeEntry) : G unit :=
  total ← total_governance_staked stakes;
  ids ← gets overdue;
  for_each (settle_one stakes total) ids.

(** The bookkeeping at the end. *)
Definition governance_tail : GL unit :=
  s ← get;
  n ← add_u64 (records_processed (base s)) 1;
  modify (fun s => s <| base ::= fun b =>
    (if f64_gtb (rec_timestamp record) (last_applied_ts b) then b <| last_applied_ts := rec_timestamp record |> else b)
      <| records_processed := n |> <| applied_record_ids ::= union {[rec_id record]} |> |>).

Definition apply_governance_op (op : ParsedGovernanceOp) (creator : string) : GL unit :=
  s ← get;
  if bool_decide (rec_id record ∈ applied_record_ids (base s)) then mret tt
  else
    require (negb (is_classified (exchange_classifier (base s)) creator))
      (EGovernance "classified exchanges cannot participate in governance");;
    zoom governance (governance_body creator (stakes (base s)) op);;
    zoom governance (settle_overdue (stakes (base s)));;
    governance_tail.
End apply.

(** ** Admission *)

Section admission.
Definition active_proposals_by (who : string) (s : GovernanceState) : nat :=
  size (filter (fun kv : string * Proposal =>
    pr_status kv.2 = ProposalStatus.Active ∧ pr_proposer kv.2 = who) (proposals s)).

Definition admits (b : bool) (msg : string) : GL unit := require b (EGovernance msg).
(** The verdict is [Ok], or the reason of a refusal. *)
Definition validate_governance_op (actor : string) (op : ParsedGovernanceOp) (now : f64) : GL unit :=
  s ← get;
  let gov := governance s in
  let proposal pid := ok_or (proposals gov !! pid) (EGovernance "proposal not found") in
  match op with
  | Propose _ _ _ =>
      stake ← governance_stake_for (stakes (base s)) actor;
      admits (MIN_PROPOSAL_STAKE <=? stake) "insufficient governance stake to propose";;
      admits (bool_decide (active_proposals_by actor gov < MAX_ACTIVE_PROPOSALS_PER_IDENTITY)%nat)
        "too many active proposals"
  | CastVote pid _ =>
      p ← proposal pid;
      admits (is_voting_open p now) "voting period has ended or proposal is not active";;
      admits (negb (has_voted p actor)) "identity has already voted";;
      stake ← governance_stake_for (stakes (base s)) actor;
      admits (negb (stake =? 0)) "must have governance stake to vote"
  | Execute pid =>
      p ← proposal pid;
      admits (bool_decide (pr_status p = ProposalStatus.Passed)) "proposal has not passed";;
      admits (can_execute p now) "execution delay has not elapsed"
  | Cancel pid =>
      p ← proposal pid;
      admits (bool_decide (pr_status p = ProposalStatus.Active)) "can only cancel active proposals";;
      admits (bool_decide (pr_proposer p = actor)) "only the proposer can cancel"
  | Delegate to =>
      admits (negb (bool_decide (actor = to))) "cannot delegate to self";;
      stake ← governance_stake_for (stakes (base s)) actor;
      admits (negb (stake =? 0)) "must have governance stake to delegate";;
      admits (bool_decide (delegation_of actor gov = None)) "already delegated; undelegate first";;
      admits (negb (bool_decide (de_delegate <$> delegation_of to gov = Some actor))) "circular delegation"
  | Undelegate => admits (negb (bool_decide (delegation_of actor gov = None))) "no active delegation to remove"
  end.
End admission.
