(* ===== verification/Conviction.v ===== *)
(** * The time weighting of votes

    The fixed-point arithmetic of [Governance] stays within its bounds, so that
    the saturating operations of the code are exact, and it computes the
    documented curve: a vote held for [t] seconds has the fraction
    [1 - e^(-t / tau)] of its stake as conviction, here over the real numbers
    with their exponential function, up to [CONVICTION_ERROR] billionths. *)

From Stdlib Require Import Reals Lra.
From S2P Require Import Prelude F64 Types Governance.
Open Scope R_scope.

(** [x] approximates [y] up to [e]. *)
Definition near (e x y : R) : Prop := - e <= x - y <= e.

(** ** The series of the exponential function *)
(** The terms [x^n / n!]. *)
Fixpoint tm (x : R) (n : nat) : R := match n with O => 1 | S m => tm x m * x / INR n end.
Fixpoint partial (x : R) (n : nat) : R :=
  match n with O => 1 | S m => if Nat.even n then partial x m + tm x n else partial x m - tm x n end.

Lemma tm_fact x n : tm x n = x ^ n / INR (fact n).
Proof.
  induction n as [|n IH]; [cbn; lra|]. cbn [tm pow]. rewrite IH, fact_simpl, mult_INR.
  field. split; [apply INR_fact_neq_0|apply not_0_INR; lia].
Qed.
Lemma tm_nonneg x n : 0 <= x -> 0 <= tm x n.
Proof.
  intros Hx. rewrite tm_fact. apply Rmult_le_pos; [now apply pow_le|].
  left. apply Rinv_0_lt_compat, INR_fact_lt_0.
Qed.
Lemma tm_step x n : 0 <= x <= 1 -> 0 <= tm x (S n) <= tm x n / INR (S n).
Proof.
  intros Hx. split; [apply tm_nonneg; lra|]. cbn [tm]. pose proof (tm_nonneg x n ltac:(lra)).
  apply Rmult_le_compat_r; [left; apply Rinv_0_lt_compat, lt_0_INR; lia|nra].
Qed.
Lemma tm_decreasing x : 0 <= x <= 1 -> Un_decreasing (tm x).
Proof.
  intros Hx n. pose proof (tm_step x n Hx) as [_ H]. etransitivity; [exact H|].
  pose proof (tm_nonneg x n ltac:(lra)). rewrite S_INR in *. pose proof (pos_INR n).
  apply Rmult_le_reg_r with (INR n + 1); [lra|]. unfold Rdiv. rewrite Rmult_assoc, Rinv_l by lra. nra.
Qed.
Lemma tm_cv x : Un_cv (tm x) 0.
Proof.
  intros eps He. destruct (cv_speed_pow_fact x eps He) as [N HN]. exists N. intros n Hn. rewrite tm_fact. now apply HN.
Qed.
Lemma partial_sum x n : partial x n = sum_f_R0 (tg_alt (tm x)) n.
Proof.
  induction n as [|n IH]; [unfold tg_alt; cbn; lra|]. cbn [partial sum_f_R0]. rewrite IH. unfold tg_alt.
  destruct (Nat.even (S n)) eqn:E.
  - apply Nat.even_spec in E as [m ->]. rewrite pow_1_even. lra.
  - assert (Nat.odd (S n) = true) as [m ->]%Nat.odd_spec by (unfold Nat.odd; now rewrite E).
    replace (2 * m + 1)%nat with (S (2 * m)) by lia. rewrite pow_1_odd. lra.
Qed.
Lemma exp_partial_cv x : Un_cv (fun n => sum_f_R0 (tg_alt (tm x)) n) (exp (- x)).
Proof.
  unfold exp. destruct (exist_exp (- x)) as [l Hl]. cbn. intros eps He. destruct (Hl eps He) as [N HN].
  exists N. intros n Hn. specialize (HN n Hn).
  replace (sum_f_R0 (tg_alt (tm x)) n) with (sum_f_R0 (fun i => / INR (fact i) * (- x) ^ i) n); [exact HN|].
  apply sum_eq. intros i _. unfold tg_alt. rewrite tm_fact.
  replace (- x) with (-1 * x) by lra. rewrite Rpow_mult_distr. lra.
Qed.

(** The partial sums enclose [e^-x]: the error is at most the next term. *)
Lemma partial_error x n : 0 <= x <= 1 -> near (tm x (S n)) (partial x n) (exp (- x)).
Proof.
  intros Hx. pose proof (alternated_series_ineq (tm x) (exp (- x)) (Nat.div2 n) (tm_decreasing x Hx) (tm_cv x) (exp_partial_cv x)) as [H1 H2].
  pose proof (alternated_series_ineq (tm x) (exp (- x)) (S (Nat.div2 n)) (tm_decreasing x Hx) (tm_cv x) (exp_partial_cv x)) as [_ H3].
  rewrite <- !partial_sum in *. pose proof (Nat.div2_odd n) as Hn.
  destruct (Nat.odd n) eqn:Ho; cbn [Nat.b2n] in Hn.
  - replace (S (2 * Nat.div2 n)) with n in H1 by lia. replace (2 * S (Nat.div2 n))%nat with (S n) in H3 by lia.
    cbn [partial] in H3. rewrite Nat.even_succ, Ho in H3. unfold near. pose proof (tm_nonneg x (S n) ltac:(lra)). lra.
  - replace (S (2 * Nat.div2 n)) with (S n) in H1 by lia. replace (2 * Nat.div2 n)%nat with n in H2 by lia.
    cbn [partial] in H1. rewrite Nat.even_succ, Ho in H1. unfold near. pose proof (tm_nonneg x (S n) ltac:(lra)). lra.
Qed.

(** [1/e] to nine places. *)
Lemma inv_e_rounded : near (/ 2) 367879441 (1000000000 * exp (- 1)).
Proof.
  pose proof (partial_error 1 13 ltac:(lra)) as H.
  cbn [partial tm Nat.even] in H. rewrite !INR_IZR_INZ in H. cbv [Z.of_nat Pos.of_succ_nat Pos.succ] in H.
  replace (- (1)) with (-1) in H by lra. unfold near in *. lra.
Qed.

(** ** Bounds *)

Open Scope Z_scope.
Notation Q := CONVICTION_Q.

Lemma sat_mul_exact a b : a * b <= U64.U128_MAX → U64.sat_mul128 a b = a * b.
Proof. unfold U64.sat_mul128. lia. Qed.

(** The rounded quotient of a product with a fraction shrinks. *)
Lemma round_div_le a r n : 0 <= a → 0 <= r <= Q → 1 <= n → 0 <= (a * r + n * Q / 2) / (n * Q) <= a.
Proof.
  intros Ha Hr Hn. assert (Hq : Q = 1000000000) by done. rewrite Hq in *.
  assert (H0 : 0 <= a * r) by nia. assert (H1 : a * r <= a * (n * 1000000000)) by nia.
  pose proof (Z.div_mod (n * 1000000000) 2 ltac:(lia)). pose proof (Z.mod_pos_bound (n * 1000000000) 2 ltac:(lia)).
  split; [apply Z.div_pos; lia|]. apply Z.lt_succ_r, Z.div_lt_upper_bound; nia.
Qed.

(** Partial sums of the alternating series stay in the unit interval. *)
Lemma maclaurin_bounds fuel n term acc r (sub : bool) :
  0 <= r < Q → 1 <= n → n + Z.of_nat fuel <= 100 → 0 <= term <= Q → 0 <= acc <= Q →
  (if sub then term <= acc else acc + term <= Q) →
  0 <= maclaurin fuel n term acc r sub <= Q.
Proof.
  intros Hr. revert n term acc sub. induction fuel as [|fuel IH]; intros n term acc sub Hn Hf Ht Ha Hs; [done|].
  assert (Hq : Q = 1000000000) by done. cbn [maclaurin].
  rewrite (sat_mul_exact n Q), (sat_mul_exact term r) by (unfold U64.U128_MAX; nia).
  pose proof (round_div_le term r n ltac:(lia) ltac:(lia) ltac:(lia)) as Hd.
  set (t := (term * r + n * Q / 2) / (n * Q)) in *. destruct (t =? 0); [done|].
  apply IH; destruct sub; unfold U64.sat_sub, sat_add128, U64.U128_MAX; cbn [negb]; lia.
Qed.
Lemma exp_steps_bounds k acc : 0 <= acc <= Q → 0 <= exp_steps k acc <= Q.
Proof.
  revert acc. induction k as [|k IH]; intros acc Ha; [done|]. cbn [exp_steps].
  assert (Hq : Q = 1000000000) by done. assert (He : E_INV_Q = 367879441) by done.
  rewrite sat_mul_exact by (unfold U64.U128_MAX; nia). apply IH.
  pose proof (round_div_le acc E_INV_Q 1 ltac:(lia) ltac:(lia) ltac:(lia)) as Hd.
  rewrite Z.mul_1_l in Hd. lia.
Qed.
Lemma one_minus_bounds t tau : 0 <= t → 0 <= tau → 0 <= one_minus_exp_neg_q t tau <= Q.
Proof.
  intros Ht Htau. unfold one_minus_exp_neg_q. assert (Hq : Q = 1000000000) by done.
  destruct (_ || _); [lia|]. cbv zeta. destruct (42 <=? _); [lia|]. unfold U64.sat_sub.
  pose proof (maclaurin_bounds 16 1 Q Q (U64.sat_mul128 t Q / tau mod Q) true
    ltac:(apply Z.mod_pos_bound; lia) ltac:(lia) ltac:(lia) ltac:(lia) ltac:(lia) ltac:(apply Z.le_refl)) as H1.
  pose proof (exp_steps_bounds (Z.to_nat (U64.sat_mul128 t Q / tau / Q)) Q ltac:(lia)) as H2.
  set (R := maclaurin _ _ _ _ _ _) in *. set (E := exp_steps _ _) in *.
  rewrite sat_mul_exact by (unfold U64.U128_MAX; nia). assert (Hp : 0 <= E * R) by nia.
  assert (Hh : 0 <= Q / 2) by done. pose proof (Z.div_pos (E * R + Q / 2) Q ltac:(lia) ltac:(lia)). lia.
Qed.


(** ** Accuracy *)

Open Scope R_scope.
Notation QR := 1000000000.

Lemma IZR_Q : IZR Q = QR. Proof. reflexivity. Qed.

(** Rounding half up is off by at most a half. *)
Lemma round_near a c : (0 < c)%Z → near (/ 2) (IZR ((a + (2 * c) / 2) / (2 * c))) (IZR a / IZR (2 * c)).
Proof.
  intros Hc. replace (2 * c / 2)%Z with c by (rewrite Z.mul_comm, Z.div_mul; lia).
  pose proof (Z.div_mod (a + c) (2 * c) ltac:(lia)) as H. pose proof (Z.mod_pos_bound (a + c) (2 * c) ltac:(lia)) as Hm.
  set (d := ((a + c) / (2 * c))%Z) in *. set (m := ((a + c) mod (2 * c))%Z) in *.
  assert (HC : 0 < IZR c) by (apply IZR_lt; lia).
  assert (HA : IZR a = 2 * IZR c * IZR d + IZR m - IZR c).
  { replace a with (2 * c * d + m - c)%Z by lia. rewrite minus_IZR, plus_IZR, !mult_IZR. lra. }
  assert (HM : 0 <= IZR m < 2 * IZR c).
  { split; [apply IZR_le; lia|]. replace (2 * IZR c) with (IZR (2 * c)) by (rewrite mult_IZR; lra). apply IZR_lt; lia. }
  assert (HE : IZR a / IZR (2 * c) = IZR d + (IZR m - IZR c) / (2 * IZR c)) by (rewrite HA, mult_IZR; field; lra).
  rewrite HE. unfold near.
  assert (- / 2 <= (IZR m - IZR c) / (2 * IZR c) <= / 2); [|lra].
  split; (apply Rmult_le_reg_r with (2 * IZR c); [lra|]); unfold Rdiv; rewrite Rmult_assoc, Rinv_l; lra.
Qed.

Lemma near_trans e e' x y z : near e x y → near e' y z → near (e + e') x z.
Proof. unfold near. lra. Qed.
Lemma near_weaken e e' x y : near e x y → e <= e' → near e' x y.
Proof. unfold near. lra. Qed.
(** Scaling by a factor between zero and [f] scales the error. *)
Lemma near_scale e x y k f : near e x y → 0 <= k <= f → 0 <= e → near (e * f) (x * k) (y * k).
Proof. unfold near. intros H Hk He. split; nra. Qed.

(** One term of the series: the error is halved or better, and rounding adds a half. *)
Lemma term_near (j : nat) (term r : Z) :
  (0 <= r < Q)%Z → near (INR (S j) / 2) (IZR term) (QR * tm (IZR r / QR) j) →
  near 1 (IZR ((term * r + (Z.of_nat (S j) * Q) / 2) / (Z.of_nat (S j) * Q))) (QR * tm (IZR r / QR) (S j)).
Proof.
  intros Hr Ht. assert (HN : 0 < INR (S j)) by (apply lt_0_INR; lia).
  assert (HR : 0 <= IZR r < QR) by (rewrite <- IZR_Q; split; [apply IZR_le|apply IZR_lt]; lia).
  replace (Z.of_nat (S j) * Q)%Z with (2 * (Z.of_nat (S j) * 500000000))%Z by (unfold Q; lia).
  pose proof (round_near (term * r) (Z.of_nat (S j) * 500000000) ltac:(lia)) as H.
  assert (HD : IZR (2 * (Z.of_nat (S j) * 500000000)) = QR * INR (S j)).
  { rewrite !mult_IZR, <- INR_IZR_INZ. lra. }
  rewrite HD, mult_IZR in H.
  replace (IZR term * IZR r / (QR * INR (S j))) with (IZR term * (IZR r / QR / INR (S j))) in H by (field; lra).
  assert (HK : 0 <= IZR r / QR / INR (S j) <= / INR (S j)).
  { assert (HY : 0 <= IZR r / QR <= 1) by lra. revert HY. pose proof (Rinv_0_lt_compat _ HN) as Hi.
    generalize (IZR r / QR). intros y Hy. change (y / INR (S j)) with (y * / INR (S j)). split; nra. }
  pose proof (near_scale _ _ _ _ _ Ht HK ltac:(lra)) as H'.
  pose proof (near_trans _ _ _ _ _ H H') as HT. cbn [tm].
  replace (QR * (tm (IZR r / QR) j * (IZR r / QR) / INR (S j))) with (QR * tm (IZR r / QR) j * (IZR r / QR / INR (S j))) by (field; lra).
  eapply near_weaken; [exact HT|]. replace (INR (S j) / 2 * / INR (S j)) with (/ 2) by (field; lra). lra.
Qed.

(** The loop sums at most [fuel] terms, each off by at most one; what it leaves
    out is at most the next term. *)
Lemma maclaurin_near fuel (j : nat) (term acc r : Z) a :
  (0 <= r < Q)%Z → (Z.of_nat (S j) + Z.of_nat fuel <= 100)%Z → (0 <= term <= Q)%Z → (0 <= acc <= Q)%Z →
  (if Nat.even j then term <= acc else acc + term <= Q)%Z →
  near (INR (S j) / 2) (IZR term) (QR * tm (IZR r / QR) j) →
  near a (IZR acc) (QR * partial (IZR r / QR) j) →
  QR * tm (IZR r / QR) (S j + fuel) <= 1 →
  near (a + INR fuel + 1) (IZR (maclaurin fuel (Z.of_nat (S j)) term acc r (Nat.even j))) (QR * exp (- (IZR r / QR))).
Proof.
  intros Hr. assert (HR : 0 <= IZR r < QR) by (rewrite <- IZR_Q; split; [apply IZR_le|apply IZR_lt]; lia).
  assert (HX : 0 <= IZR r / QR <= 1) by lra.
  revert j term acc a. induction fuel as [|fuel IH]; intros j term acc a Hj Ht Hacc Hs Hn Ha Hlast.
  - cbn [maclaurin]. rewrite Nat.add_0_r in Hlast. pose proof (partial_error _ j HX) as He. change (INR 0) with 0. unfold near in *. nra.
  - assert (Hq : Q = 1000000000%Z) by done. cbn [maclaurin].
    rewrite (sat_mul_exact (Z.of_nat (S j)) Q), (sat_mul_exact term r) by (unfold U64.U128_MAX; nia).
    pose proof (round_div_le term r (Z.of_nat (S j)) ltac:(lia) ltac:(lia) ltac:(lia)) as Hd.
    pose proof (term_near j term r Hr Hn) as Hn'.
    set (t := ((term * r + Z.of_nat (S j) * Q / 2) / (Z.of_nat (S j) * Q))%Z) in *.
    pose proof (pos_INR fuel) as Hfuel. rewrite S_INR.
    destruct (Z.eqb_spec t 0) as [E|E].
    + pose proof (partial_error _ j HX) as He. rewrite E in Hn'. unfold near in *. nra.
    + pose proof (IH (S j) t (if Nat.even j then U64.sat_sub acc t else Governance.sat_add128 acc t) (a + 1)) as IH'.
      rewrite Nat.even_succ, <- Nat.negb_even in IH'.
      replace (Z.of_nat (S j) + 1)%Z with (Z.of_nat (S (S j))) by lia.
      replace (a + (INR fuel + 1) + 1) with (a + 1 + INR fuel + 1) by lra.
      apply IH'; clear IH'; try lia.
      * destruct (Nat.even j); cbn [negb]; unfold U64.sat_sub, Governance.sat_add128, U64.U128_MAX; lia.
      * destruct (Nat.even j); cbn [negb]; unfold U64.sat_sub, Governance.sat_add128, U64.U128_MAX; lia.
      * eapply near_weaken; [exact Hn'|]. rewrite !S_INR. pose proof (pos_INR j). lra.
      * cbn [partial]. rewrite Nat.even_succ, <- Nat.negb_even. destruct (Nat.even j); cbn [negb].
        -- replace (U64.sat_sub acc t) with (acc - t)%Z by (unfold U64.sat_sub; lia). rewrite minus_IZR. unfold near in *. lra.
        -- replace (Governance.sat_add128 acc t) with (acc + t)%Z by (unfold Governance.sat_add128, U64.U128_MAX; lia).
           rewrite plus_IZR. unfold near in *. lra.
      * replace (S (S j) + fuel)%nat with (S j + S fuel)%nat by lia. exact Hlast.
Qed.

Lemma exp_neg_bounds x : 0 <= x → 0 < exp (- x) <= 1.
Proof. intros Hx. split; [apply exp_pos|]. rewrite <- exp_0. destruct (Rle_lt_or_eq_dec 0 x Hx) as [H|<-];
    [left; apply exp_increasing; lra|right; f_equal; lra]. Qed.

(** The repeated multiplications by [1/e] do not accumulate their errors. *)
Lemma exp_steps_near k acc y :
  (0 <= acc <= Q)%Z → 0 <= y <= 1 → near 2 (IZR acc) (QR * y) →
  near 2 (IZR (exp_steps k acc)) (QR * (y * exp (- INR k))).
Proof.
  revert acc y. induction k as [|k IH]; intros acc y Hacc Hy Hn.
  - cbn [exp_steps]. change (INR 0) with 0. rewrite Ropp_0, exp_0, Rmult_1_r. exact Hn.
  - cbn [exp_steps]. assert (Hq : Q = 1000000000%Z) by done. assert (He : E_INV_Q = 367879441%Z) by done.
    rewrite sat_mul_exact by (unfold U64.U128_MAX; nia).
    pose proof (round_div_le acc E_INV_Q 1 ltac:(lia) ltac:(lia) ltac:(lia)) as Hd. rewrite Z.mul_1_l in Hd.
    pose proof (round_near (acc * E_INV_Q) 500000000 ltac:(lia)) as Hr. change (2 * 500000000)%Z with Q in Hr.
    set (acc' := ((acc * E_INV_Q + Q / 2) / Q)%Z) in *.
    rewrite mult_IZR, IZR_Q in Hr. change (IZR E_INV_Q) with 367879441 in Hr.
    pose proof (exp_neg_bounds 1 ltac:(lra)) as H1.
    pose proof inv_e_rounded as Hinv. replace (-1) with (- (1)) in Hinv by lra.
    replace (y * exp (- INR (S k))) with (y * exp (- (1)) * exp (- INR k)).
    2:{ rewrite Rmult_assoc, <- exp_plus, S_INR. do 2 f_equal. lra. }
    apply IH; [lia|nra|]. unfold near in *. split; nra.
Qed.

Definition CONVICTION_ERROR : R := 21.

(** Rounding the exponent down to a billionth costs at most one unit. *)
Lemma exponent_near x y : 0 <= y → y <= x <= y + / QR → near 1 (QR * exp (- y)) (QR * exp (- x)).
Proof.
  intros Hy Hx. replace (- x) with (- y + (y - x)) by lra. rewrite exp_plus.
  pose proof (exp_neg_bounds y Hy) as H. pose proof (exp_neg_bounds (x - y) ltac:(lra)) as H2.
  replace (- (x - y)) with (y - x) in H2 by lra. pose proof (exp_ineq1_le (y - x)) as H3.
  revert H H2 H3. generalize (exp (- y)) (exp (y - x)). intros a b Ha Hb H3.
  assert (0 <= a * (1 - b) <= 1 - b) by nra. unfold near. lra.
Qed.

(** After forty-two time constants less than a unit is missing. *)
Lemma exp_neg_late x : 42 <= x → QR * exp (- x) <= 1.
Proof.
  intros Hx. assert (H1 : 2 <= exp 1) by (pose proof (exp_ineq1_le 1); lra).
  assert (Hp : ∀ n, 2 ^ n <= exp (INR n)).
  { intros n. induction n as [|n IH]; [cbn; rewrite exp_0; lra|]. rewrite S_INR, exp_plus. cbn [pow].
    pose proof (pow_le 2 n ltac:(lra)). nra. }
  pose proof (Hp 42%nat) as H42. rewrite INR_IZR_INZ in H42. change (Z.of_nat 42) with 42%Z in H42.
  assert (HM : exp 42 <= exp x) by (destruct (Rle_lt_or_eq_dec _ _ Hx) as [H|<-]; [left; by apply exp_increasing|right; done]).
  rewrite exp_Ropp. apply Rmult_le_reg_r with (exp x); [apply exp_pos|].
  rewrite Rmult_assoc, Rinv_l by (pose proof (exp_pos x); lra).
  assert (H2 : 2 ^ 42 = 4398046511104) by (cbn; lra). lra.
Qed.

(** Seventeen terms reach below a billionth. *)
Lemma last_term x : 0 <= x <= 1 → QR * tm x 17 <= 1.
Proof.
  intros Hx. assert (H : ∀ n, tm x n <= tm 1 n).
  { intros n. rewrite !tm_fact, pow1. pose proof (pow_incr x 1 n Hx) as Hp. rewrite pow1 in Hp.
    apply Rmult_le_compat_r; [left; apply Rinv_0_lt_compat, INR_fact_lt_0|done]. }
  assert (HC : QR * tm 1 17 <= 1).
  { cbn [tm]. rewrite !INR_IZR_INZ. cbv [Z.of_nat Pos.of_succ_nat Pos.succ]. lra. }
  specialize (H 17%nat). lra.
Qed.

(** [e^-x] from its whole part and its fraction. *)
Lemma exp_neg_near (k r : Z) :
  (0 <= k)%Z → (0 <= r < Q)%Z →
  let E := exp_steps (Z.to_nat k) Q in let R := maclaurin 16 1 Q Q r true in
  near 20 (IZR ((U64.sat_mul128 E R + Q / 2) / Q)) (QR * exp (- (IZR (k * Q + r) / QR))) ∧
  (0 <= (U64.sat_mul128 E R + Q / 2) / Q <= Q)%Z.
Proof.
  intros Hk Hr E R. assert (Hq : Q = 1000000000%Z) by done.
  assert (HR : 0 <= IZR r < QR) by (rewrite <- IZR_Q; split; [apply IZR_le|apply IZR_lt]; lia).
  assert (Hx : exp (- (IZR (k * Q + r) / QR)) = exp (- INR (Z.to_nat k)) * exp (- (IZR r / QR))).
  { rewrite <- exp_plus. f_equal. rewrite plus_IZR, mult_IZR, IZR_Q, INR_IZR_INZ, Z2Nat.id by lia. lra. }
  pose proof (maclaurin_near 16 0 Q Q r 0 Hr ltac:(lia) ltac:(lia) ltac:(lia) ltac:(cbn; lia)) as HM.
  cbn [Nat.even] in HM. change (Z.of_nat 1) with 1%Z in HM.
  pose proof (maclaurin_bounds 16 1 Q Q r true Hr ltac:(lia) ltac:(lia) ltac:(lia) ltac:(lia) ltac:(apply Z.le_refl)) as HMb.
  pose proof (exp_steps_near (Z.to_nat k) Q 1 ltac:(lia) ltac:(lra)) as HE.
  pose proof (exp_steps_bounds (Z.to_nat k) Q ltac:(lia)) as HEb. fold R in HM, HMb. fold E in HE, HEb.
  specialize (HE ltac:(rewrite IZR_Q; unfold near; lra)).
  specialize (HM ltac:(rewrite IZR_Q; cbn [tm]; unfold near; cbn; lra) ltac:(rewrite IZR_Q; cbn [partial]; unfold near; lra)
                ltac:(apply last_term; lra)).
  rewrite sat_mul_exact by (unfold U64.U128_MAX; nia).
  pose proof (round_div_le E R 1 ltac:(lia) ltac:(lia) ltac:(lia)) as Hd. rewrite !Z.mul_1_l in Hd.
  split; [|lia]. pose proof (round_near (E * R) 500000000 ltac:(lia)) as Hn. change (2 * 500000000)%Z with Q in Hn.
  set (P := ((E * R + Q / 2) / Q)%Z) in *. rewrite mult_IZR, IZR_Q in Hn. rewrite Hx.
  pose proof (exp_neg_bounds (IZR r / QR) ltac:(lra)) as He.
  assert (HEr : 0 <= IZR E <= QR) by (rewrite <- IZR_Q; split; apply IZR_le; lia).
  rewrite INR_IZR_INZ in HM. change (Z.of_nat 16) with 16%Z in HM.
  revert Hn HE HM He HEr. generalize (IZR P) (IZR E) (IZR R) (exp (- INR (Z.to_nat k))) (exp (- (IZR r / QR))).
  clear. unfold near. intros p e r ek er Hn HE HM He Hb.
  assert (- 17 <= e / QR * (r - QR * er) <= 17) by (assert (0 <= e / QR <= 1) by lra; nra).
  assert (- 2 <= (e - QR * (1 * ek)) * er <= 2) by nra. lra.
Qed.

Lemma exponent_floor t tau :
  (0 <= t)%Z → (0 < tau)%Z →
  IZR (t * Q / tau) / QR <= IZR t / IZR tau <= IZR (t * Q / tau) / QR + / QR.
Proof.
  intros Ht Htau. assert (HT : 0 < IZR tau) by (apply IZR_lt; lia).
  pose proof (Z.div_mod (t * Q) tau ltac:(lia)) as H. pose proof (Z.mod_pos_bound (t * Q) tau ltac:(lia)) as Hm.
  set (x := (t * Q / tau)%Z) in *.
  assert (HE : IZR t * QR = IZR tau * IZR x + IZR ((t * Q) mod tau)) by (rewrite <- IZR_Q, <- !mult_IZR, <- plus_IZR; by f_equal).
  assert (HM : 0 <= IZR ((t * Q) mod tau) < IZR tau) by (split; [apply IZR_le|apply IZR_lt]; lia).
  set (m := IZR ((t * Q) mod tau)) in *.
  assert (Ex : IZR t / IZR tau = IZR x / QR + m / IZR tau / QR).
  { replace (IZR t) with ((IZR tau * IZR x + m) / QR) by lra. field. lra. }
  assert (0 <= m / IZR tau <= 1); [|lra].
  split; (apply Rmult_le_reg_r with (IZR tau); [lra|]); unfold Rdiv; rewrite Rmult_assoc, Rinv_l by lra; lra.
Qed.

Lemma one_minus_near t tau :
  (0 <= t <= U64.MAX)%Z → (0 < tau)%Z →
  near CONVICTION_ERROR (IZR (one_minus_exp_neg_q t tau)) (QR * (1 - exp (- (IZR t / IZR tau)))).
Proof.
  intros Ht Htau. pose proof (exponent_floor t tau ltac:(lia) Htau) as Hx. unfold one_minus_exp_neg_q, CONVICTION_ERROR.
  destruct (Z.eqb_spec t 0) as [->|Ht0]; cbn [orb].
  { unfold Rdiv. rewrite Rmult_0_l, Ropp_0, exp_0. unfold near. lra. }
  destruct (Z.eqb_spec tau 0) as [E|_]; [lia|]. cbv zeta. assert (Hq : Q = 1000000000%Z) by done.
  rewrite (sat_mul_exact t Q) by (unfold U64.MAX, U64.U128_MAX in *; nia).
  set (x := IZR t / IZR tau) in *. set (xq := (t * Q / tau)%Z) in *.
  assert (Hxq : (0 <= xq)%Z) by (apply Z.div_pos; lia).
  pose proof (Z.div_mod xq Q ltac:(lia)) as Hdm. pose proof (Z.mod_pos_bound xq Q ltac:(lia)) as Hr.
  assert (Hx0 : 0 <= IZR xq / QR) by (pose proof (IZR_le _ _ Hxq); lra).
  pose proof (exp_neg_bounds x ltac:(lra)) as Hex.
  destruct (Z.leb_spec 42 (xq / Q)) as [Hk|Hk].
  - assert (H42 : (42 * Q <= xq)%Z) by nia. apply IZR_le in H42. rewrite mult_IZR, IZR_Q in H42.
    pose proof (exp_neg_late x ltac:(lra)). rewrite IZR_Q. unfold near. lra.
  - destruct (exp_neg_near (xq / Q) (xq mod Q) (Z.div_pos xq Q Hxq ltac:(lia)) Hr) as [HN HB].
    replace (xq / Q * Q + xq mod Q)%Z with xq in HN by lia.
    set (P := ((U64.sat_mul128 _ _ + Q / 2) / Q)%Z) in *.
    replace (U64.sat_sub Q (P `min` Q)) with (Q - P)%Z by (unfold U64.sat_sub; lia).
    pose proof (exponent_near x (IZR xq / QR) Hx0 ltac:(lra)) as He. rewrite minus_IZR, IZR_Q. unfold near in *. lra.
Qed.

(** The documented curve, [stake * (1 - e^(-t / tau))] with a time constant of
    seven days, in billionths. *)
Definition matured (stake held : Z) : R := QR * IZR stake * (1 - exp (- (IZR held / (7 * 24 * 3600)))).

(** [c] is the conviction of a stake, met up to a few billionths of the stake. *)
Definition on_curve (stake held c : Z) : Prop := near (CONVICTION_ERROR * IZR stake) (IZR c) (matured stake held).

Theorem conviction_near stake d :
  (0 <= stake <= U64.MAX)%Z → (0 <= d <= U64.MAX)%Z →
  on_curve stake d (conviction_q stake d).
Proof.
  intros Hs Hd. unfold on_curve, conviction_q, matured.
  assert (Htau : f64_as_uint 64 CONVICTION_TAU_SECS = 604800%Z) by (by vm_compute). rewrite Htau.
  pose proof (one_minus_near d 604800 Hd ltac:(lia)) as H. pose proof (one_minus_bounds d 604800 ltac:(lia) ltac:(lia)) as Hb.
  assert (HS : 0 <= IZR stake) by (apply IZR_le; lia). replace (7 * 24 * 3600) with 604800 by lra.
  assert (HE : (if ((d =? 0) || (stake =? 0))%Z then 0%Z else U64.sat_mul128 stake (one_minus_exp_neg_q d 604800))
               = (stake * one_minus_exp_neg_q d 604800)%Z).
  { assert (Hq : Q = 1000000000%Z) by done. rewrite sat_mul_exact by (unfold U64.MAX, U64.U128_MAX in *; nia).
    destruct (Z.eqb_spec d 0) as [->|]; cbn [orb]; [cbn; lia|]. destruct (Z.eqb_spec stake 0) as [->|]; [lia|done]. }
  rewrite HE, mult_IZR. revert H. generalize (IZR (one_minus_exp_neg_q d 604800)) (exp (- (IZR d / 604800))).
  unfold near. intros a b H. split; nra.
Qed.
