(* ===== verification/GovernanceTally.v ===== *)
(** * The governance tally

    The fixed-point arithmetic of [Governance] stays within its bounds, so that
    the saturating operations of the code are exact, and the tally is a function
    of the set of votes. *)

From S2P Require Import Prelude Sorting F64 Types Wire Autoscaler Governance Conviction.
Open Scope Z_scope.

Notation Q := CONVICTION_Q.

(** ** Conviction *)

Lemma as_uint_bounds x : 0 <= f64_as_uint 64 x <= U64.MAX.
Proof. pose proof (f64_as_uint_bounds 64 x ltac:(lia)). unfold U64.MAX. lia. Qed.
Lemma secs_floor_bounds t : 0 <= secs_floor t <= U64.MAX.
Proof. unfold secs_floor. destruct (_ && _); [apply as_uint_bounds|unfold U64.MAX; lia]. Qed.

(** The largest power a vote can have: a full stake, fully matured. *)
Definition MAX_POWER : Z := 2 ^ 32 * Q.

Lemma conviction_bounds stake d : 0 <= stake <= U64.MAX → 0 <= d → 0 <= conviction_q stake d <= stake * Q.
Proof.
  intros Hs Hd. unfold conviction_q. destruct (_ || _); [split; [lia|]; apply Z.mul_nonneg_nonneg; [lia|done]|].
  pose proof (one_minus_bounds d (f64_as_uint 64 CONVICTION_TAU_SECS) Hd ltac:(apply as_uint_bounds)).
  assert (Hq : Q = 1000000000) by done. unfold U64.MAX in Hs.
  rewrite sat_mul_exact by (unfold U64.U128_MAX; nia). nia.
Qed.
Lemma power_bounds stake d : 0 <= stake <= U64.MAX → 0 <= d →
  0 <= dampened_power_q (conviction_q stake d) <= MAX_POWER ∧
  dampened_power_q (conviction_q stake d) = Z.sqrt (conviction_q stake d * Q).
Proof.
  intros Hs Hd. pose proof (conviction_bounds stake d Hs Hd) as Hc. assert (Hq : Q = 1000000000) by done.
  unfold dampened_power_q. unfold U64.MAX in Hs.
  rewrite sat_mul_exact by (unfold U64.U128_MAX; nia). split; [|done]. split; [apply Z.sqrt_nonneg|].
  rewrite <- (Z.sqrt_square MAX_POWER) by done. apply Z.sqrt_le_mono. unfold MAX_POWER. nia.
Qed.

(** ** The tally without saturation *)

(** The weighing of votes is a parameter: [w v] is the weight of the vote [v]. *)
Section weighing.
Context (w : Vote → Z) (votes : list Vote).

Definition weights : Z := zsum (w <$> votes).
(** One vote counts at most the [sqrt n]-th part of all weights before capping. *)
Definition capped (v : Vote) : Z :=
  if Z.of_nat (length votes) <=? 1 then w v
  else Z.min (w v) (weights * Q / Z.sqrt (Z.of_nat (length votes) * Q * Q)).
Definition side (d : VoteDirection.t) : Z :=
  zsum (capped <$> filter (fun v => vo_direction v = d) votes).
Definition raw_stake : Z := zsum (vo_stake <$> votes).

(** What a settlement decides: less than a quarter of the stake, or no weight for
    or against, lets the proposal expire; else 67% of the decided weight passes it. *)
Definition supported (total : Z) (st : ProposalStatus.t) : Prop :=
  let F := side VoteDirection.For in
  let A := side VoteDirection.Against in
  match st with
  | ProposalStatus.Passed => total <= 4 * raw_stake ∧ 0 < F + A ∧ 67 * (F + A) <= 100 * F
  | ProposalStatus.Rejected => total <= 4 * raw_stake ∧ 100 * F < 67 * (F + A)
  | ProposalStatus.Expired => 4 * raw_stake < total ∨ F + A = 0
  | _ => False
  end.
End weighing.

(** The seconds a vote was held, in whole seconds. *)
Definition held (now : f64) (v : Vote) : Z := U64.sat_sub (secs_floor now) (secs_floor (vo_voted_at v)).
(** The documented weight: the square root of the conviction, a point of the curve. *)
Definition time_weighted (now : f64) (w : Vote → Z) (v : Vote) : Prop :=
  ∃ c, on_curve (vo_stake v) (held now v) c ∧
    w v = Z.sqrt (c * Q).

(** The weight the code computes. *)
Definition weight (now : f64) (v : Vote) : Z := Z.sqrt (conviction_q (vo_stake v) (held now v) * Q).

(** Votes the code can receive: stakes are 64-bit and so is their sum. *)
Record in_range (votes : list Vote) : Prop := {
  range_count : Z.of_nat (length votes) <= 2 ^ 32;
  range_stakes : Forall (fun v => 0 <= vo_stake v <= U64.MAX) votes;
  range_sum : raw_stake votes <= U64.MAX;
}.

Lemma fold_sat_exact l acc :
  Forall (fun x => 0 <= x) l → 0 <= acc → acc + zsum l <= U64.U128_MAX → fold_left sat_add128 l acc = acc + zsum l.
Proof.
  intros Hl. revert acc. induction Hl as [|x l Hx Hl IH]; intros acc Ha Hm; cbn [fold_left]; [change (zsum []) with 0; lia|].
  pose proof (zsum_nonneg l Hl). change (zsum (x :: l)) with (x + zsum l) in *. rewrite IH; unfold sat_add128; lia.
Qed.
Lemma sum_exact {S} l acc (s : S) :
  Forall (fun x => 0 <= x) l → 0 <= acc → acc + zsum l <= U64.MAX → sum_u64 l acc s = (Ok (acc + zsum l), s).
Proof.
  intros Hl. revert acc. induction Hl as [|x l Hx Hl IH]; intros acc Ha Hm; cbn [sum_u64].
  - cbn. by rewrite Z.add_0_r.
  - pose proof (zsum_nonneg l Hl). change (zsum (x :: l)) with (x + zsum l) in *. unfold mbind, M_bind, add_u64.
    destruct (Z.leb_spec (acc + x) U64.MAX); [|lia]. cbn [mret M_ret]. rewrite IH by lia. by rewrite Z.add_assoc.
Qed.
Lemma zsum_le_length l b : Forall (fun x => 0 <= x <= b) l → 0 <= zsum l <= Z.of_nat (length l) * b.
Proof. induction 1 as [|x l Hx _ IH]; [done|]. cbn [length zsum foldr]. fold (zsum l). nia. Qed.

Section tally.
Context (now : f64) (votes : list Vote).
Context (Hr : in_range votes).

Lemma duration_nonneg v : 0 <= held now v.
Proof. unfold held, U64.sat_sub. lia. Qed.
Lemma held_bounds v : 0 <= held now v <= U64.MAX.
Proof.
  unfold held, U64.sat_sub. pose proof (secs_floor_bounds now). pose proof (secs_floor_bounds (vo_voted_at v)). lia.
Qed.
Lemma weight_on_curve : Forall (time_weighted now (weight now)) votes.
Proof.
  eapply Forall_impl; [apply Hr|]. intros v Hs. eexists. split; [|done].
  by apply conviction_near; [|apply held_bounds].
Qed.
Lemma weight_bounds v : v ∈ votes → 0 <= weight now v <= MAX_POWER.
Proof.
  intros Hv. pose proof (proj1 (Forall_forall _ _) (range_stakes _ Hr) v Hv) as Hs. cbv beta in Hs.
  destruct (power_bounds (vo_stake v) _ Hs (duration_nonneg v)) as [H E]. by rewrite E in H.
Qed.
Lemma vote_power_exact v : v ∈ votes → vote_power now None v = (vo_direction v, weight now v).
Proof.
  intros Hv. pose proof (proj1 (Forall_forall _ _) (range_stakes _ Hr) v Hv) as Hs. cbv beta in Hs.
  unfold vote_power, decayed. cbn [mbind option_bind]. fold (held now v).
  destruct (power_bounds (vo_stake v) _ Hs (duration_nonneg v)) as [_ ->]. done.
Qed.
Lemma weights_bounds : 0 <= weights (weight now) votes <= 2 ^ 32 * MAX_POWER.
Proof.
  pose proof (range_count _ Hr) as Hn. unfold weights.
  pose proof (zsum_le_length (weight now <$> votes) MAX_POWER) as H. rewrite length_fmap in H.
  destruct H as [H1 H2].
  - rewrite Forall_fmap. apply Forall_forall. intros v Hv. by apply weight_bounds.
  - split; [done|]. etrans; [done|]. apply Z.mul_le_mono_nonneg_r; [done|lia].
Qed.
Lemma cap_exact :
  identity_cap_q (weights (weight now) votes) (Z.of_nat (length votes)) =
  if Z.of_nat (length votes) <=? 1 then U64.U128_MAX
  else weights (weight now) votes * Q / Z.sqrt (Z.of_nat (length votes) * Q * Q).
Proof.
  pose proof weights_bounds as Hw. pose proof (range_count _ Hr) as Hn. unfold identity_cap_q.
  destruct (Z.leb_spec (Z.of_nat (length votes)) 1); [done|]. cbv zeta.
  assert (Hq : Q = 1000000000) by done. assert (HM : MAX_POWER = 2 ^ 32 * 1000000000) by done.
  rewrite (sat_mul_exact (Z.of_nat (length votes)) Q) by (unfold U64.U128_MAX; lia).
  rewrite (sat_mul_exact (_ * Q) Q), (sat_mul_exact (weights (weight now) votes) Q) by (unfold U64.U128_MAX; lia).
  assert (Hp : 0 < Z.sqrt (Z.of_nat (length votes) * Q * Q)) by (apply Z.sqrt_pos; lia).
  destruct (Z.eqb_spec (Z.sqrt (Z.of_nat (length votes) * Q * Q)) 0); [lia|done].
Qed.
Lemma capped_bounds v : v ∈ votes → 0 <= capped (weight now) votes v <= MAX_POWER.
Proof.
  intros Hv. pose proof (weight_bounds v Hv). pose proof weights_bounds. unfold capped.
  destruct (Z.leb_spec (Z.of_nat (length votes)) 1); [done|].
  assert (0 <= weights (weight now) votes * Q / Z.sqrt (Z.of_nat (length votes) * Q * Q)); [|lia].
  assert (Hq : Q = 1000000000) by done. apply Z.div_pos; [lia|apply Z.sqrt_pos; lia].
Qed.
Lemma side_bounds d : 0 <= side (weight now) votes d <= 2 ^ 32 * MAX_POWER.
Proof.
  unfold side. pose proof (zsum_le_length (capped (weight now) votes <$> filter (fun v => vo_direction v = d) votes) MAX_POWER) as H.
  destruct H as [H1 H2].
  - rewrite Forall_fmap. apply Forall_forall. intros v [_ Hv]%list_elem_of_filter. by apply capped_bounds.
  - split; [done|]. etrans; [done|]. apply Z.mul_le_mono_nonneg_r; [done|]. rewrite length_fmap.
    pose proof (length_filter (fun v => vo_direction v = d) votes). pose proof (range_count _ Hr). lia.
Qed.

(** The powers of the sorted votes, and one side of them. *)
Lemma powers_perm l : l ≡ₚ votes → vote_power now None <$> l = (fun v => (vo_direction v, weight now v)) <$> l.
Proof. intros Hp. apply list_fmap_ext. intros i v Hv. apply vote_power_exact. rewrite <- Hp. by eapply list_elem_of_lookup_2. Qed.
Lemma filter_side d c (l : list Vote) :
  (fun p : VoteDirection.t * Z => Z.min p.2 c) <$>
    filter (fun p : VoteDirection.t * Z => p.1 = d) ((fun v => (vo_direction v, weight now v)) <$> l) =
  (fun v => Z.min (weight now v) c) <$> filter (fun v => vo_direction v = d) l.
Proof.
  induction l as [|v l IH]; [done|]. csimpl. rewrite !filter_cons. cbn [fst].
  destruct (decide (vo_direction v = d)); csimpl; by rewrite IH.
Qed.
Lemma power_for_exact d l :
  l ≡ₚ votes →
  power_for d (identity_cap_q (weights (weight now) votes) (Z.of_nat (length votes)))
    ((fun v => (vo_direction v, weight now v)) <$> l) = side (weight now) votes d.
Proof.
  intros Hp. pose proof (side_bounds d) as Hs. unfold power_for. rewrite filter_side, cap_exact.
  assert (HE : (fun v => Z.min (weight now v) (if Z.of_nat (length votes) <=? 1 then U64.U128_MAX
                  else weights (weight now) votes * Q / Z.sqrt (Z.of_nat (length votes) * Q * Q))) <$>
                 filter (fun v => vo_direction v = d) l
               = capped (weight now) votes <$> filter (fun v => vo_direction v = d) l).
  { apply list_fmap_ext. intros i v Hv. apply list_elem_of_lookup_2, list_elem_of_filter in Hv as [_ Hv].
    rewrite Hp in Hv. pose proof (weight_bounds v Hv). unfold capped.
    destruct (_ <=? 1); [|done]. unfold U64.U128_MAX. assert (HM : MAX_POWER = 2 ^ 32 * 1000000000) by done. lia. }
  assert (HZ : zsum (capped (weight now) votes <$> filter (fun v => vo_direction v = d) l) = side (weight now) votes d).
  { unfold side. apply zsum_perm. by rewrite Hp. }
  rewrite HE, fold_sat_exact; [lia| |lia|].
  - rewrite Forall_fmap. apply Forall_forall. intros v [_ Hv]%list_elem_of_filter. rewrite Hp in Hv.
    by apply capped_bounds.
  - rewrite HZ. assert (HM : MAX_POWER = 2 ^ 32 * 1000000000) by done. unfold U64.U128_MAX. lia.
Qed.
End tally.

Lemma tally_exact {S} p now (s : S) :
  in_range (pr_votes p) →
  tally_votes p now None s =
    (Ok (mkTally (side (weight now) (pr_votes p) VoteDirection.For) (side (weight now) (pr_votes p) VoteDirection.Against)
           (side (weight now) (pr_votes p) VoteDirection.Abstain) (Z.of_nat (length (pr_votes p))) (raw_stake (pr_votes p))), s).
Proof.
  intros Hr. unfold tally_votes. case_bool_decide as E; [by rewrite E|].
  assert (Hn : Forall (fun x => 0 <= x) (vo_stake <$> pr_votes p)).
  { rewrite Forall_fmap. eapply Forall_impl; [apply Hr|]. by intros v [??]. }
  unfold mbind at 1, M_bind at 1. rewrite (sum_exact _ 0) by (done || apply Hr). cbv beta match zeta.
  rewrite (powers_perm now (pr_votes p) Hr) by apply stable_sort_perm. rewrite !length_fmap, stable_sort_length.
  assert (HT : fold_left sat_add128
      (((fun v => (vo_direction v, weight now v)) <$> stable_sort (by_key_leb vote_key vote_key_leb) (pr_votes p)).*2) 0
      = weights (weight now) (pr_votes p)).
  { assert (HW : zsum (weight now <$> stable_sort (by_key_leb vote_key vote_key_leb) (pr_votes p)) = weights (weight now) (pr_votes p)).
    { apply zsum_perm. by rewrite stable_sort_perm. }
    pose proof (weights_bounds now (pr_votes p) Hr). assert (HM : MAX_POWER = 2 ^ 32 * 1000000000) by done.
    rewrite <- list_fmap_compose.
    change (snd ∘ (fun v => (vo_direction v, weight now v))) with (weight now).
    rewrite fold_sat_exact; [lia| |lia|unfold U64.U128_MAX; lia].
    rewrite Forall_fmap. apply Forall_forall. intros v Hv. rewrite stable_sort_perm in Hv.
    by apply (weight_bounds now (pr_votes p)). }
  rewrite HT, !(power_for_exact now (pr_votes p) Hr) by apply stable_sort_perm. done.
Qed.

(** ** The verdict *)

Lemma verdict_supported votes total now :
  in_range votes → 0 <= total <= U64.MAX →
  let t := mkTally (side (weight now) votes VoteDirection.For) (side (weight now) votes VoteDirection.Against)
             (side (weight now) votes VoteDirection.Abstain) (Z.of_nat (length votes)) (raw_stake votes) in
  supported (weight now) votes total (verdict t total) ∧ ∀ st, supported (weight now) votes total st → st = verdict t total.
Proof.
  intros Hr Ht t. unfold verdict. cbn [raw_participating_stake for_conviction_q against_conviction_q t].
  pose proof (side_bounds now votes Hr VoteDirection.For) as HF.
  pose proof (side_bounds now votes Hr VoteDirection.Against) as HA.
  assert (HM : MAX_POWER = 2 ^ 32 * 1000000000) by done. rewrite HM in HF, HA.
  pose proof (range_sum _ Hr) as Hs. assert (H0 : 0 <= raw_stake votes).
  { apply zsum_nonneg. rewrite Forall_fmap. eapply Forall_impl; [apply Hr|]. by intros v [??]. }
  unfold U64.MAX, PARTICIPATION_DEN, PARTICIPATION_NUM, SUPERMAJORITY_DEN, SUPERMAJORITY_NUM in *.
  set (F := side (weight now) votes VoteDirection.For) in *. set (A := side (weight now) votes VoteDirection.Against) in *.
  rewrite !(sat_mul_exact (raw_stake votes)), (sat_mul_exact total) by (unfold U64.U128_MAX; lia).
  replace (sat_add128 F A) with (F + A) by (unfold sat_add128, U64.U128_MAX; lia).
  rewrite (sat_mul_exact (F + A)), (sat_mul_exact F) by (unfold U64.U128_MAX; lia).
  unfold supported. fold F A. cbv zeta.
  destruct (Z.ltb_spec (raw_stake votes * 4) (total * 1)); [split; [lia|by intros []; intros; done || lia]|].
  destruct (Z.eqb_spec (F + A) 0); [split; [lia|by intros []; intros; done || lia]|].
  destruct (Z.leb_spec ((F + A) * 67) (F * 100)); (split; [lia|by intros []; intros; done || lia]).
Qed.

Lemma side_perm d now votes votes' : votes ≡ₚ votes' → side (weight now) votes d = side (weight now) votes' d.
Proof.
  intros Hp. unfold side. assert (HW : weights (weight now) votes = weights (weight now) votes') by (apply zsum_perm; by rewrite Hp).
  etrans; [apply zsum_perm, fmap_Permutation; by rewrite Hp|]. f_equal. apply list_fmap_ext. intros i v _.
  unfold capped. by rewrite HW, (Permutation_length Hp).
Qed.
Lemma supported_perm votes votes' total now st :
  votes ≡ₚ votes' → supported (weight now) votes total st → supported (weight now) votes' total st.
Proof.
  intros Hp. assert (HR : raw_stake votes = raw_stake votes') by (apply zsum_perm; by rewrite Hp).
  unfold supported. by rewrite !(side_perm _ now votes votes' Hp), HR.
Qed.

(** C17: what a settlement decides.  When an active proposal past its deadline is
    settled, with at most [2^32] votes whose stakes and their sum fit 64 bits, the
    call succeeds and the proposal is expired, passed or rejected, and exactly one
    of the three fits the votes, whatever their order: expired when the stakes of
    the voters are less than a quarter of the governance stake or no weight is
    for or against; otherwise passed when at least 67% of the weight for and
    against is for, and rejected when less is.  A vote weighs the square root of
    its conviction, and its conviction is the point of the documented curve
    [stake * (1 - e^(-t / 7 days))], with the exponential function over the real
    numbers and [t] the whole seconds from the vote to the settlement, met up to
    twenty-one billionths of the stake; of the weight, at most the sum of all
    weights before capping over the root of the number of votes counts.  No
    128-bit operation saturates.  The rule is the code's and differs from its
    comments: the cap bounds a part of the uncapped sum only
    ([whale_outvotes_three]), a missed quorum gives expired although the comment
    of [Rejected] names it too, and the 67% apply to protocol upgrades as well,
    whose own thresholds another function evaluates. *)
Theorem settlement_exact pid p total now s :
  proposals s !! pid = Some p → pr_status p = ProposalStatus.Active → f64_ltb now (pr_voting_deadline p) = false →
  in_range (pr_votes p) → 0 <= total <= U64.MAX →
  ∃ w st s', Forall (time_weighted now w) (pr_votes p) ∧
    settle_proposal pid total now s = (Ok st, s') ∧ pr_status <$> proposals s' !! pid = Some st ∧
    supported w (pr_votes p) total st ∧
    (∀ votes' st', votes' ≡ₚ pr_votes p → supported w votes' total st' → st' = st).
Proof.
  intros Hp Ha Hd Hr Ht. destruct (verdict_supported (pr_votes p) total now Hr Ht) as [HV HU].
  unfold settle_proposal, get_proposal. unfold mbind at 1, M_bind at 1. unfold mbind at 1, M_bind at 1, gets.
  rewrite Hp. cbn [ok_or mret M_ret].
  rewrite Ha, bool_decide_true, Hd by done. cbn [negb require mret M_ret].
  unfold mbind at 1, M_bind at 1, mret at 1, M_ret at 1. unfold mbind at 1, M_bind at 1, mret at 1, M_ret at 1.
  unfold mbind at 1, M_bind at 1. rewrite (tally_exact p now s Hr). cbv beta match zeta.
  set (st := verdict _ total) in *. exists (weight now), st. eexists. split; [by apply weight_on_curve|]. split; [reflexivity|]. split_and!.
  - unfold move_to, put_proposal, modify, mbind, M_bind, record_status_transition. cbn.
    destruct (decide (pr_status (if bool_decide (st = ProposalStatus.Passed) then note_passed now p else p) = st));
      [rewrite bool_decide_true by done|rewrite bool_decide_false by done]; cbn; by rewrite lookup_insert_eq.
  - done.
  - intros votes' st' Hv Hs. apply HU. by apply (supported_perm votes' (pr_votes p) total now).
Qed.

(** ** Examples *)

Module TallyExamples.
Definition day (n : Z) : f64 := f64_of_Z (86400 * n).
Definition ballot (who : string) (stake : Z) (d : VoteDirection.t) : Vote := mkVote who stake d f64_0 (Some stake).
Definition proposal_with (votes : list Vote) : Proposal :=
  mkProposal "p" "alice" ProposalCategory.Parametric "t" "d" f64_0 (day 14) ProposalStatus.Active None votes None.
Definition with_proposal (p : Proposal) : GovernanceState :=
  governance_new <| proposals := {[ "p" := p ]} |> <| proposal_status_counts := mkCounts 1 0 0 0 0 0 0 |>.

(** Conviction after seven days is 63.2%, the documents' figure. *)
Example conviction_week : conviction_q 1000000000 604800 = 632120559 * 1000000000.
Proof. by vm_compute. Qed.

Definition contested : list Vote :=
  [ballot "alice" 900000000000 VoteDirection.For; ballot "bob" 100000000000 VoteDirection.Against;
   ballot "carol" 100000000000 VoteDirection.For].
Lemma settlement_exact_witness :
  ∃ w, Forall (time_weighted (day 14) w) contested ∧ supported w contested 1100000000000 ProposalStatus.Passed.
Proof.
  destruct (settlement_exact "p" (proposal_with contested) 1100000000000 (day 14) (with_proposal (proposal_with contested)))
    as (w & st & s' & Hw & H & _ & HV & _).
  - by vm_compute.
  - done.
  - by vm_compute.
  - split; [by vm_compute|repeat constructor; by vm_compute|by vm_compute].
  - by vm_compute.
  - exists w. split; [exact Hw|]. apply (f_equal fst) in H.
    assert (E : (settle_proposal "p" 1100000000000 (day 14) (with_proposal (proposal_with contested))).1
                = Ok ProposalStatus.Passed) by (by vm_compute).
    rewrite E in H. injection H as <-. exact HV.
Defined.

(** The cap is documented to keep every voter below the [sqrt n]-th part of the
    power.  It bounds a vote by a part of the weights before capping: of four
    voters, one large staker outvotes the other three and holds nearly all of
    the weight that counts. *)
Definition whale_votes : list Vote :=
  [ballot "whale" 1000000000000000000 VoteDirection.For; ballot "a" 1000000000 VoteDirection.Against;
   ballot "b" 1000000000 VoteDirection.Against; ballot "c" 1000000000 VoteDirection.Against].
Theorem whale_outvotes_three :
  (settle_proposal "p" 1000000003000000000 (day 14) (with_proposal (proposal_with whale_votes))).1
    = Ok ProposalStatus.Passed ∧
  999 * (side (weight (day 14)) whale_votes VoteDirection.For + side (weight (day 14)) whale_votes VoteDirection.Against)
    <= 1000 * side (weight (day 14)) whale_votes VoteDirection.For.
Proof. by vm_compute. Qed.
End TallyExamples.
