(* ===== verification/GovernanceStake.v ===== *)
(** * Stake counted by a vote

    A governance vote is weighed by stake, own and delegated.  Rebuilding the
    weights before a settlement counts no stake twice. *)

From S2P Require Import Prelude Sorting F64 Types Records LedgerOps Ledger Governance GovernanceTally.
Open Scope Z_scope.

(** ** Sums by class *)

Section classes.
Context {A : Type} (key : A → string) (val : A → Z).

Definition class_sum (l : list A) (w : string) : Z := zsum (val <$> filter (fun x => key x = w) l).

Lemma zsum_fmap_plus {B} (f g : B → Z) (l : list B) :
  zsum ((fun x => f x + g x) <$> l) = zsum (f <$> l) + zsum (g <$> l).
Proof.
  induction l as [|x l IH]; [done|]. cbn [fmap list_fmap]. unfold zsum in *. cbn [foldr]. lia.
Qed.
Lemma class_sum_cons x l w : class_sum (x :: l) w = (if decide (key x = w) then val x else 0) + class_sum l w.
Proof. unfold class_sum. rewrite filter_cons. by destruct (decide (key x = w)). Qed.
Lemma one_class x ws : NoDup ws → 0 <= val x →
  0 <= zsum ((fun w => if decide (key x = w) then val x else 0) <$> ws) <= val x.
Proof.
  intros HN Hx. induction HN as [|w ws Hw HN IH]; [done|]. cbn [fmap list_fmap]. unfold zsum in *. cbn [foldr].
  destruct (decide (key x = w)) as [<-|]; [|lia].
  assert (E : foldr Z.add 0 ((fun w => if decide (key x = w) then val x else 0) <$> ws) = 0); [|lia].
  clear IH HN. induction ws as [|w ws IH]; [done|]. apply not_elem_of_cons in Hw as [Hne Hw]. cbn [fmap list_fmap foldr].
  destruct (decide (key x = w)); [done|]. by rewrite IH.
Qed.
(** Distinct classes share no element. *)
Lemma class_sums_le l ws :
  NoDup ws → Forall (fun x => 0 <= val x) l → 0 <= zsum (class_sum l <$> ws) <= zsum (val <$> l).
Proof.
  intros HN. induction 1 as [|x l Hx Hl IH].
  - split; [apply zsum_nonneg; rewrite Forall_fmap; by apply Forall_true|].
    induction ws as [|w ws IH]; [done|]. apply NoDup_cons in HN as [_ HN]. by apply IH.
  - rewrite (list_fmap_ext _ (fun w => (if decide (key x = w) then val x else 0) + class_sum l w) ws)
      by (intros; apply class_sum_cons).
    rewrite zsum_fmap_plus. pose proof (one_class x ws HN Hx).
    cbn [fmap list_fmap]. change (zsum (val x :: (val <$> l))) with (val x + zsum (val <$> l)). lia.
Qed.
Lemma class_sum_le l w : Forall (fun x => 0 <= val x) l → 0 <= class_sum l w <= zsum (val <$> l).
Proof.
  intros Hl. pose proof (class_sums_le l [w] ltac:(apply NoDup_singleton) Hl) as H. cbn in H. lia.
Qed.
End classes.

(** ** Governance stake *)

Section stake.
Context (stakes : gmap string StakeEntry).

Definition gov_entries : list StakeEntry := filter (fun e => is_governance e = true) (map_to_list stakes).*2.
Definition gov_total : Z := zsum (se_amount <$> gov_entries).
Definition gov_stake (who : string) : Z := class_sum se_staker se_amount gov_entries who.

(** Amounts are positive and their sum is a 64-bit number. *)
Record sane : Prop := {
  sane_amounts : map_Forall (fun _ e => 0 <= se_amount e) stakes;
  sane_total : gov_total <= U64.MAX;
}.
Context (Hs : sane).

Lemma entries_nonneg : Forall (fun e => 0 <= se_amount e) gov_entries.
Proof.
  apply Forall_forall. intros e [_ He]%list_elem_of_filter. apply list_elem_of_fmap in He as ([k e'] & -> & He).
  apply elem_of_map_to_list in He. by apply (sane_amounts Hs k).
Qed.
Lemma gov_stake_bounds who : 0 <= gov_stake who <= gov_total.
Proof. apply class_sum_le, entries_nonneg. Qed.
Lemma total_exact {S} (s : S) : total_governance_staked stakes s = (Ok gov_total, s).
Proof.
  unfold total_governance_staked. fold gov_entries. rewrite sum_exact; [done| |done|apply Hs].
  rewrite Forall_fmap. apply entries_nonneg.
Qed.
Lemma filter_both (l : list StakeEntry) who :
  filter (fun e => is_governance e && bool_decide (se_staker e = who) = true) l =
  filter (fun e => se_staker e = who) (filter (fun e => is_governance e = true) l).
Proof.
  induction l as [|e l IH]; [done|]. rewrite !filter_cons.
  destruct (is_governance e) eqn:E; cbn [andb].
  - destruct (decide (true = true)) as [_|H]; [|done]. rewrite filter_cons.
    destruct (decide (se_staker e = who)) as [H|H].
    + rewrite bool_decide_true by done. destruct (decide (true = true)) as [_|H']; [|done]. by rewrite IH.
    + rewrite bool_decide_false by done. destruct (decide (false = true)) as [H'|_]; [done|]. exact IH.
  - destruct (decide (false = true)) as [H|_]; [done|]. exact IH.
Qed.
Lemma stake_exact {S} who (s : S) : governance_stake_for stakes who s = (Ok (gov_stake who), s).
Proof.
  unfold governance_stake_for. rewrite filter_both. fold gov_entries.
  pose proof (gov_stake_bounds who). pose proof (sane_total Hs).
  rewrite sum_exact; [done| |done|unfold gov_stake, class_sum in *; lia].
  rewrite Forall_fmap. apply list.Forall_forall. intros e [_ He]%list_elem_of_filter.
  by eapply (proj1 (list.Forall_forall _ _) entries_nonneg).
Qed.
End stake.

(** ** Delegated stake *)

(** The delegations a settlement folds into the delegates' votes. *)
Definition silent (voters : gset string) (l : list DelegationEntry) : list DelegationEntry :=
  filter (fun d => de_active d = true ∧ de_delegator d ∉ voters) l.
Definition delegated (stakes : gmap string StakeEntry) (voters : gset string) (l : list DelegationEntry)
    : string → Z :=
  class_sum de_delegate (fun d => gov_stake stakes (de_delegator d)) (silent voters l).

Section fold.
Context (stakes : gmap string StakeEntry) (Hs : sane stakes).
Context (voters : gset string).

Lemma silent_cons d l : silent voters (d :: l) =
  if negb (de_active d) || bool_decide (de_delegator d ∈ voters) then silent voters l else d :: silent voters l.
Proof.
  unfold silent. rewrite filter_cons. destruct (de_active d); cbn [negb orb].
  - case_bool_decide; [rewrite decide_False by tauto|rewrite decide_True by tauto]; done.
  - by rewrite decide_False by (by intros [? _]).
Qed.
Lemma delegated_nonneg l w : 0 <= delegated stakes voters l w.
Proof. apply class_sum_le, Forall_true. intros d. apply (gov_stake_bounds stakes Hs). Qed.

Lemma fold_exact {S} l (folded : gmap string Z) (s : S) :
  (∀ w, 0 <= default 0 (folded !! w)) → (∀ w, default 0 (folded !! w) + delegated stakes voters l w <= U64.MAX) →
  ∃ m, fold_delegations stakes voters l folded s = (Ok m, s) ∧
    ∀ w, default 0 (m !! w) = default 0 (folded !! w) + delegated stakes voters l w.
Proof.
  revert folded. induction l as [|d l IH]; intros folded H0 Hm.
  { exists folded. split; [done|]. intros w. unfold delegated, class_sum. cbn. lia. }
  cbn [fold_delegations]. unfold delegated in *. rewrite silent_cons in *.
  destruct (negb (de_active d) || bool_decide (de_delegator d ∈ voters)); [by apply IH|].
  unfold mbind, M_bind. rewrite (stake_exact stakes Hs). pose proof (gov_stake_bounds stakes Hs (de_delegator d)) as Hg.
  assert (Hc : ∀ w, class_sum de_delegate (fun d => gov_stake stakes (de_delegator d)) (d :: silent voters l) w =
    (if decide (de_delegate d = w) then gov_stake stakes (de_delegator d) else 0) +
    class_sum de_delegate (fun d => gov_stake stakes (de_delegator d)) (silent voters l) w)
    by (intros w; apply (class_sum_cons de_delegate (fun d => gov_stake stakes (de_delegator d)))).
  pose proof (delegated_nonneg l) as Hd. unfold delegated in Hd.
  destruct (Z.eqb_spec (gov_stake stakes (de_delegator d)) 0) as [E|E].
  - destruct (IH folded H0) as (m & Hm1 & Hm2).
    { intros w. specialize (Hm w). rewrite Hc in Hm. case_decide; lia. }
    exists m. split; [done|]. intros w. rewrite Hm2, Hc. case_decide; lia.
  - set (x := gov_stake stakes (de_delegator d)) in *.
    set (old := default 0 (folded !! de_delegate d)).
    assert (Hx : U64.sat_add old x = old + x).
    { pose proof (Hm (de_delegate d)) as H. rewrite Hc, decide_True in H by done.
      specialize (Hd (de_delegate d)). unfold U64.sat_add. fold old in H. lia. }
    rewrite Hx. destruct (IH (<[de_delegate d := old + x]> folded)) as (m & Hm1 & Hm2).
    + intros w. destruct (decide (de_delegate d = w)) as [<-|Hw]; [rewrite lookup_insert_eq|by rewrite lookup_insert_ne].
      cbn. specialize (H0 (de_delegate d)). fold old in H0. lia.
    + intros w. specialize (Hm w). rewrite Hc in Hm. destruct (decide (de_delegate d = w)) as [<-|Hw].
      * rewrite lookup_insert_eq. cbn. fold old in Hm. lia.
      * rewrite lookup_insert_ne by done. lia.
    + exists m. split; [done|]. intros w. rewrite Hm2, Hc. destruct (decide (de_delegate d = w)) as [<-|Hw].
      * rewrite lookup_insert_eq. cbn. fold old. lia.
      * rewrite lookup_insert_ne by done. lia.
Qed.
End fold.

(** ** Reconciliation *)

Section reconcile.
Context (stakes : gmap string StakeEntry) (Hs : sane stakes).
Context (s : GovernanceState) (pid : string) (p : Proposal).
Context (Hp : proposals s !! pid = Some p).

Definition voters : list string := vo_voter <$> pr_votes p.
Definition entries : list DelegationEntry := (map_to_list (delegations s)).*2.
Definition folded_in (w : string) : Z := delegated stakes (list_to_set voters) entries w.

Context (Hv : NoDup voters).
Context (Hd : map_Forall (fun k d => de_delegator d = k) (delegations s)).

Lemma delegators_NoDup : NoDup (de_delegator <$> entries).
Proof.
  unfold entries. rewrite <- list_fmap_compose.
  rewrite (list_fmap_ext _ fst (map_to_list (delegations s))); [apply NoDup_fst_map_to_list|].
  intros i [k d] Hi. apply list_elem_of_lookup_2, elem_of_map_to_list in Hi. by apply (Hd k d).
Qed.
Lemma silent_NoDup : NoDup (voters ++ (de_delegator <$> silent (list_to_set voters) entries)).
Proof.
  apply NoDup_app. split; [done|]. split.
  - intros w Hw (d & -> & [[_ Hn] _]%list_elem_of_filter)%list_elem_of_fmap. apply Hn. by apply elem_of_list_to_set.
  - eapply sublist_NoDup; [apply delegators_NoDup|]. apply fmap_sublist, sublist_filter.
Qed.
Lemma zsum_gov ws : NoDup ws → 0 <= zsum (gov_stake stakes <$> ws) <= gov_total stakes.
Proof. intros HN. apply class_sums_le; [done|by apply entries_nonneg]. Qed.
(** Own and delegated stakes of all voters together are stakes of distinct holders. *)
Lemma all_counted_once :
  zsum (gov_stake stakes <$> voters) + zsum (folded_in <$> voters) <= gov_total stakes ∧
  ∀ w, 0 <= folded_in w <= gov_total stakes.
Proof.
  set (D := silent (list_to_set voters) entries).
  set (val := fun d => gov_stake stakes (de_delegator d)).
  pose proof (zsum_gov _ silent_NoDup) as H. rewrite fmap_app, zsum_app in H. fold D in H.
  rewrite <- list_fmap_compose in H. change (gov_stake stakes ∘ de_delegator) with val in H.
  assert (Hn : Forall (fun d => 0 <= val d) D).
  { apply Forall_true. intros d. apply (gov_stake_bounds stakes Hs). }
  pose proof (class_sums_le de_delegate val D voters Hv Hn) as HC.
  pose proof (zsum_gov voters Hv).
  change (zsum (folded_in <$> voters)) with (zsum (class_sum de_delegate val D <$> voters)). split; [lia|].
  intros w. pose proof (class_sum_le de_delegate val D w Hn).
  change (folded_in w) with (class_sum de_delegate val D w). lia.
Qed.

(** The weight of a vote after the rebuild. *)
Definition reconciled (v : Vote) : Vote :=
  v <| vo_stake := default (vo_stake v) (vo_own_stake v) + folded_in (vo_voter v) |>.

Lemma reconcile_exact :
  Forall (fun v => 0 <= default (vo_stake v) (vo_own_stake v) ∧
                   default (vo_stake v) (vo_own_stake v) + folded_in (vo_voter v) <= U64.MAX) (pr_votes p) →
  reconcile_effective_stakes stakes pid s =
    (Ok tt, s <| proposals ::= insert pid (p <| pr_votes ::= fmap reconciled |>) |>).
Proof.
  intros Hf. unfold reconcile_effective_stakes, mbind, M_bind, get. rewrite Hp. fold voters entries.
  destruct all_counted_once as [_ Hb]. pose proof (sane_total _ Hs).
  destruct (fold_exact stakes Hs (list_to_set voters) entries ∅ s) as (m & -> & Hm).
  { intros w. by rewrite lookup_empty. }
  { intros w. rewrite lookup_empty. cbn [default]. specialize (Hb w). unfold folded_in in Hb. cbn. lia. }
  assert (E : reconciled_vote m <$> pr_votes p = reconciled <$> pr_votes p).
  { apply list_fmap_ext. intros i v Hi. apply list_elem_of_lookup_2 in Hi.
    pose proof (proj1 (list.Forall_forall _ _) Hf v Hi) as [H1 H2].
    unfold reconciled_vote, reconciled. rewrite Hm, lookup_empty. cbn [default].
    change (delegated stakes (list_to_set voters) entries (vo_voter v)) with (folded_in (vo_voter v)).
    specialize (Hb (vo_voter v)). unfold U64.sat_add. cbn. f_equal. lia. }
  unfold put_proposal, modify. cbn. by rewrite E.
Qed.
End reconcile.

Lemma zsum_elem x l : Forall (fun y => 0 <= y) l → x ∈ l → x <= zsum l.
Proof.
  induction 1 as [|y l Hy Hl IH]; intros Hx; [by apply elem_of_nil in Hx|].
  pose proof (zsum_nonneg l Hl). change (zsum (y :: l)) with (y + zsum l).
  apply elem_of_cons in Hx as [->|Hx]; [lia|]. apply IH in Hx. lia.
Qed.

(** No voter has less stake now than when voting. *)
Definition still_staked (stakes : gmap string StakeEntry) (p : Proposal) : Prop :=
  Forall (fun v => ∃ own, vo_own_stake v = Some own ∧ 0 <= own <= gov_stake stakes (vo_voter v)) (pr_votes p).

Lemma weights_fit stakes s p :
  sane stakes → NoDup (voters p) → map_Forall (fun k d => de_delegator d = k) (delegations s) →
  still_staked stakes p →
  Forall (fun v => 0 <= default (vo_stake v) (vo_own_stake v) ∧
    default (vo_stake v) (vo_own_stake v) + folded_in stakes s p (vo_voter v) <= U64.MAX) (pr_votes p).
Proof.
  intros Hs Hv Hd Hst. destruct (all_counted_once stakes Hs s p Hv Hd) as [Ht Hb]. pose proof (sane_total _ Hs).
  apply list.Forall_forall. intros v Hin. pose proof (proj1 (list.Forall_forall _ _) Hst v Hin) as (own & -> & Ho).
  cbn [default]. split; [by apply Ho|].
  assert (H1 : gov_stake stakes (vo_voter v) <= zsum (gov_stake stakes <$> voters p)).
  { apply zsum_elem; [rewrite Forall_fmap; apply Forall_true; intros w; apply (gov_stake_bounds stakes Hs)|].
    apply list_elem_of_fmap. exists (vo_voter v). split; [done|]. apply list_elem_of_fmap. by exists v. }
  assert (H2 : folded_in stakes s p (vo_voter v) <= zsum (folded_in stakes s p <$> voters p)).
  { apply zsum_elem; [rewrite Forall_fmap; apply Forall_true; intros w; apply Hb|].
    apply list_elem_of_fmap. exists (vo_voter v). split; [done|]. apply list_elem_of_fmap. by exists v. }
  cbn. lia.
Qed.
Lemma reconciled_sum stakes s p :
  still_staked stakes p →
  raw_stake (reconciled stakes s p <$> pr_votes p) <=
    zsum (gov_stake stakes <$> voters p) + zsum (folded_in stakes s p <$> voters p).
Proof.
  unfold raw_stake, voters, still_staked, reconciled. generalize (folded_in stakes s p) as f. intros f.
  induction 1 as [|v l (own & Ho & Hb) _ IH]; [done|]. unfold zsum in *. cbn [fmap list_fmap foldr] in *.
  cbn [set vo_stake]. rewrite Ho. cbn [default]. cbn in IH |- *. lia.
Qed.
(** C16: no stake votes twice.  When the weights of a proposal's votes are rebuilt
    before it is settled, and no voter has taken stake away since voting, every
    vote weighs its voter's own stake and the stake of exactly the delegators
    who delegate to the voter and did not vote themselves; all weights together
    do not exceed the governance stake of the network, and rebuilding again
    changes nothing. *)
Theorem no_stake_votes_twice stakes s pid p :
  sane stakes → proposals s !! pid = Some p → NoDup (voters p) →
  map_Forall (fun k d => de_delegator d = k) (delegations s) →
  still_staked stakes p →
  ∃ s' p', reconcile_effective_stakes stakes pid s = (Ok tt, s') ∧ proposals s' !! pid = Some p' ∧
    Forall2 (fun v v' => vo_voter v' = vo_voter v ∧
      vo_stake v' = default 0 (vo_own_stake v) + folded_in stakes s p (vo_voter v)) (pr_votes p) (pr_votes p') ∧
    raw_stake (pr_votes p') <= gov_total stakes ∧
    reconcile_effective_stakes stakes pid s' = (Ok tt, s').
Proof.
  intros Hs Hp Hv Hd Hst. pose proof (weights_fit stakes s p Hs Hv Hd Hst) as Hf.
  set (p' := p <| pr_votes ::= fmap (reconciled stakes s p) |>). set (s' := s <| proposals ::= insert pid p' |>).
  assert (Hp' : proposals s' !! pid = Some p') by apply lookup_insert_eq.
  exists s', p'. split_and!.
  - exact (reconcile_exact stakes Hs s pid p Hp Hv Hd Hf).
  - done.
  - apply Forall2_fmap_r, Forall_Forall2_diag. eapply Forall_impl; [exact Hst|].
    intros v (own & Ho & _). split; [done|]. cbn. by rewrite Ho.
  - destruct (all_counted_once stakes Hs s p Hv Hd) as [Ht _]. etrans; [apply reconciled_sum; exact Hst|exact Ht].
  - assert (Hvs : voters p' = voters p).
    { unfold voters. cbn. rewrite <- list_fmap_compose. by apply list_fmap_ext. }
    assert (Hst' : still_staked stakes p').
    { unfold still_staked. cbn. rewrite Forall_fmap. exact Hst. }
    assert (HF : ∀ w, folded_in stakes s' p' w = folded_in stakes s p w) by (intros w; unfold folded_in; by rewrite Hvs).
    assert (HE : reconciled stakes s' p' <$> pr_votes p' = pr_votes p').
    { unfold p' at 2 3. cbn [set pr_votes]. rewrite <- list_fmap_compose. apply list_fmap_ext. intros i v Hi.
      pose proof (proj1 (list.Forall_forall _ _) Hst v ltac:(by eapply list_elem_of_lookup_2)) as (own & Ho & _).
      unfold compose, reconciled. cbn. by rewrite Ho, HF; cbn. }
    rewrite (reconcile_exact stakes Hs s' pid p' Hp').
    + assert (E : p' <| pr_votes ::= fmap (reconciled stakes s' p') |> = p').
      { transitivity (p' <| pr_votes := reconciled stakes s' p' <$> pr_votes p' |>); [done|by rewrite HE]. }
      rewrite E. unfold s' at 2. f_equal. unfold s'. cbn. by rewrite insert_insert_eq.
    + by rewrite Hvs.
    + exact Hd.
    + apply weights_fit; [done|by rewrite Hvs|exact Hd|exact Hst'].
Qed.

Module StakeVoteExamples.
Definition governance_stakes : gmap string StakeEntry :=
  {[ "s1" := mkStake "s1" 100 StakePurpose.Governance "alice" f64_0 true;
     "s2" := mkStake "s2" 50 StakePurpose.Governance "bob" f64_0 true;
     "s3" := mkStake "s3" 30 StakePurpose.Governance "carol" f64_0 true ]}.
(** Bob and Carol delegate to Alice; Carol votes as well, so only Bob's stake
    moves to Alice. *)
Definition voted : Proposal :=
  TallyExamples.proposal_with
    [mkVote "alice" 180 VoteDirection.For f64_0 (Some 100); mkVote "carol" 30 VoteDirection.Against f64_0 (Some 30)].
Definition delegated : GovernanceState :=
  TallyExamples.with_proposal voted
    <| delegations := {[ "bob" := mkDelegation "bob" "alice" f64_0 true;
                         "carol" := mkDelegation "carol" "alice" f64_0 true ]} |>
    <| active_delegations_count := 2 |>.
Lemma no_stake_votes_twice_witness :
  ∃ s' p', reconcile_effective_stakes governance_stakes "p" delegated = (Ok tt, s') ∧ proposals s' !! "p" = Some p' ∧
    vo_stake <$> pr_votes p' = [150; 30].
Proof.
  destruct (no_stake_votes_twice governance_stakes delegated "p" voted) as (s' & p' & H & Hp' & HF & _).
  - split; [|by vm_compute]. apply map_Forall_to_list. by vm_compute; repeat constructor.
  - by vm_compute.
  - refine (bool_decide_unpack _ _). by vm_compute.
  - apply map_Forall_to_list. by vm_compute; repeat constructor.
  - repeat constructor; eexists; (split; [reflexivity|by vm_compute]).
  - exists s', p'. split_and!; [done|done|]. 
    inversion HF as [|v1 v1' ? ? [_ E1] HF1]; subst. inversion HF1 as [|v2 v2' ? ? [_ E2] HF2]; subst. inversion HF2; subst.
    cbn [fmap list_fmap]. rewrite E1, E2. by vm_compute.
Defined.
End StakeVoteExamples.
