(* ===== verification/GovernanceInv.v ===== *)
(** * Invariants of governance

    Every method of [GovernanceState] keeps the counters exact, the votes of a
    proposal from distinct voters, the delegations free of self-delegation and
    two-cycles, and the parameters within the hard limits. *)

From S2P Require Import Prelude Records F64 Types Ledger Governance.
Open Scope Z_scope.

(** ** Counting *)

Definition flag (b : bool) : Z := if b then 1 else 0.
Definition with_status (st : ProposalStatus.t) (p : Proposal) : Z := flag (bool_decide (pr_status p = st)).
Definition count_status (st : ProposalStatus.t) (m : gmap string Proposal) : Z := msum (with_status st) m.
Definition count_active (m : gmap string DelegationEntry) : Z := msum (fun d => flag (de_active d)) m.

Lemma flag_bounds b : 0 <= flag b <= 1.
Proof. destruct b; cbn; lia. Qed.
Lemma msum_le_size {V} (f : V → Z) (m : gmap string V) :
  (∀ v, 0 <= f v <= 1) → 0 <= msum f m <= Z.of_nat (size m).
Proof.
  intros Hf. induction m as [|k v m Hk IH] using map_ind; [done|].
  rewrite msum_insert_new, map_size_insert_None by done. specialize (Hf v). lia.
Qed.
Lemma count_two st st' m : st ≠ st' → 0 <= count_status st m + count_status st' m <= Z.of_nat (size m).
Proof.
  intros Hne. unfold count_status. rewrite <- msum_plus. apply msum_le_size. intros p.
  unfold with_status. repeat case_bool_decide; cbn; (lia || congruence).
Qed.
Lemma count_of_on f st st' c :
  count_of st (on_count f st' c) = if decide (st = st') then f (count_of st c) else count_of st c.
Proof. by destruct st, st'. Qed.

Lemma count_insert st pid p m :
  count_status st (<[pid := p]> m) =
    count_status st m + with_status st p - from_option (with_status st) 0 (m !! pid).
Proof. apply msum_insert. Qed.

(** ** The invariant *)

(** Within the hard limits, or not a number: an interval of [NaN] seconds passes
    the checks of [validate_param_change] ([limits_admit_nan]). *)
Record within_limits (p : GovernableParams) : Prop := {
  wl_rate : propagation_rate_limit_per_hour p <= MAX_PROPAGATION_RATE_PER_HOUR;
  wl_epoch : f64_is_nan (epoch_seal_interval_secs p) = true ∨
             f64_gtb (epoch_seal_interval_secs p) f64_0 = true ∧
             f64_leb (epoch_seal_interval_secs p) MAX_EPOCH_SEAL_INTERVAL_SECS = true;
  wl_reward : witness_reward_micros p <= MAX_WITNESS_REWARD_MICROS;
  wl_retention : f64_is_nan (record_retention_secs p) = true ∨
                 f64_leb (record_retention_secs p) f64_0 = true ∨
                 f64_leb MIN_RECORD_RETENTION_SECS (record_retention_secs p) = true;
  wl_ratio : stake_throughput_ratio p ≠ 0;
}.

Record proposal_ok (pid : string) (p : Proposal) : Prop := {
  po_id : pr_id p = pid;
  po_voters : NoDup (vo_voter <$> pr_votes p);
  po_owns : Forall (fun v => is_Some (vo_own_stake v)) (pr_votes p);
  po_passed : pr_status p = ProposalStatus.Passed ∨ pr_status p = ProposalStatus.Executed → is_Some (pr_passed_at p);
  po_committee : pr_category p = ProposalCategory.Critical → is_Some (pr_committee p);
}.

Record delegations_ok (m : gmap string DelegationEntry) : Prop := {
  do_keys : map_Forall (fun k d => de_delegator d = k ∧ de_delegate d ≠ k) m;
  do_cycles : ∀ a b da db, m !! a = Some da → m !! b = Some db → de_active da = true → de_active db = true →
    de_delegate da = b → de_delegate db ≠ a;
}.

Record GInv (s : GovernanceState) : Prop := {
  gi_counts : Z.of_nat (size (proposals s)) <= U64.MAX →
    ∀ st, count_of st (proposal_status_counts s) = count_status st (proposals s);
  gi_delegs : Z.of_nat (size (delegations s)) <= U64.MAX → active_delegations_count s = count_active (delegations s);
  gi_proposals : map_Forall proposal_ok (proposals s);
  gi_delegations : delegations_ok (delegations s);
  gi_params : within_limits (params s);
  gi_signals : map_Forall (fun _ l => NoDup (sg_anchor <$> l)) (signals (anchor_vetoes s));
}.

Lemma GInv_new : GInv governance_new.
Proof.
  split; try done; [intros _ st; by destruct st|].
  split; [done|right; by vm_compute|done|right; left; by vm_compute|done].
Qed.

(** ** Writing a proposal *)

Section put.
Context (s : GovernanceState) (pid : string) (p0 p : Proposal).
Context (HG : GInv s) (H0 : proposals s !! pid = Some p0) (Hok : proposal_ok pid p).

Lemma GInv_put : pr_status p = pr_status p0 → GInv (s <| proposals ::= insert pid p |>).
Proof.
  intros Hst. destruct HG. split; try done; cbn [set proposals proposal_status_counts].
  - rewrite map_size_insert_Some by done. intros Hm st. rewrite count_insert, H0. cbn [from_option].
    unfold with_status. rewrite Hst, gi_counts0 by done. lia.
  - by apply map_Forall_insert_2.
Qed.
Lemma GInv_move new :
  pr_status p = new →
  GInv (record_status_transition (pr_status p0) new (s <| proposals ::= insert pid p |>)).
Proof.
  intros Hst. unfold record_status_transition. case_bool_decide as E; [apply GInv_put; congruence|].
  pose proof HG as HG'. destruct HG. split; try done; cbn [set proposals proposal_status_counts].
  - rewrite map_size_insert_Some by done. intros Hm st. pose proof (gi_counts0 Hm) as HC.
    pose proof (count_two (pr_status p0) new (proposals s) E) as H2.
    assert (H1 : 1 <= count_status (pr_status p0) (proposals s)).
    { unfold count_status. erewrite msum_delete by exact H0. unfold with_status at 1. rewrite bool_decide_true by done.
      pose proof (msum_le_size (with_status (pr_status p0)) (delete pid (proposals s)) (fun v => flag_bounds _)). cbn. lia. }
    unfold inc, dec. rewrite !count_of_on, !HC, count_insert, H0. cbn [from_option]. unfold with_status. rewrite Hst.
    unfold U64.sat_add, U64.sat_sub. pose proof (msum_le_size (with_status new) (proposals s) (fun v => flag_bounds _)) as H3.
    fold (count_status new (proposals s)) in H3.
    destruct (decide (st = new)) as [->|Hn]; [|destruct (decide (st = pr_status p0)) as [->|Hn']].
    + rewrite decide_False by congruence.
      rewrite (bool_decide_true (new = new)), (bool_decide_false (pr_status p0 = new)) by done. cbn [flag]. lia.
    + rewrite (bool_decide_true (pr_status p0 = pr_status p0)), (bool_decide_false (new = pr_status p0)) by done.
      cbn [flag]. lia.
    + rewrite !bool_decide_false by congruence. cbn [flag]. lia.
  - by apply map_Forall_insert_2.
Qed.
End put.

(** ** Every method keeps it *)

Notation keeps m := (∀ s, GInv s → wp m (fun _ s' => GInv s') s).

Lemma keeps_get_proposal {A} pid (f : Proposal → G A) :
  (∀ s p, GInv s → proposals s !! pid = Some p → wp (f p) (fun _ s' => GInv s') s) →
  keeps (get_proposal pid ≫= f).
Proof.
  intros Hf s HG. apply wp_bind. unfold get_proposal. repeat wp_step; [|done]. by apply Hf.
Qed.
Lemma keeps_move pid p0 p new s :
  GInv s → proposals s !! pid = Some p0 → pr_status p = pr_status p0 → proposal_ok pid (p <| pr_status := new |>) →
  wp (move_to pid p new) (fun _ s' => GInv s') s.
Proof.
  intros HG H0 Hst Hok. unfold move_to, put_proposal. repeat wp_step. rewrite Hst. by apply GInv_move.
Qed.
(** Changing the status, the passing time and the committee of a proposal. *)
Lemma proposal_ok_status pid p st (t : option f64) (c : option Committee) :
  proposal_ok pid p → (st = ProposalStatus.Passed ∨ st = ProposalStatus.Executed → is_Some t) →
  (is_Some (pr_committee p) → is_Some c) →
  proposal_ok pid (p <| pr_status := st |> <| pr_passed_at := t |> <| pr_committee := c |>).
Proof. intros [] Ht Hc. split; cbn; auto. Qed.

Lemma keeps_create pid proposer category title description stake ts committee :
  keeps (create_proposal pid proposer category title description stake ts committee).
Proof.
  intros s HG. unfold create_proposal, put_proposal. repeat wp_step; try done. bools.
  destruct HG. split; try done; cbn [set proposals proposal_status_counts] in *.
  - rewrite map_size_insert_None by done. intros Hm st. unfold inc. rewrite count_of_on, count_insert.
    rewrite gi_counts0 by lia. rewrite H0. cbn [from_option]. unfold with_status. cbn [pr_status].
    pose proof (msum_le_size (with_status st) (proposals s) (fun v => flag_bounds _)) as Hs.
    fold (count_status st (proposals s)) in Hs. unfold U64.sat_add.
    destruct (decide (st = ProposalStatus.Active)) as [->|Hn].
    + rewrite bool_decide_true by done. cbn [flag]. lia.
    + rewrite bool_decide_false by done. cbn [flag]. lia.
  - apply map_Forall_insert_2; [|done]. split; cbn; try done; [constructor|by intros [|]|].
    intros ->. destruct committee; [done|]. rewrite !bool_decide_true in H1 by done. done.
Qed.
Lemma keeps_vote pid voter d stake own ts : keeps (cast_vote_with_own pid voter d stake own ts).
Proof.
  apply keeps_get_proposal. intros s p HG Hp. unfold put_proposal. repeat wp_step; try done. bools.
  pose proof (gi_proposals _ HG pid p Hp) as Hok. apply (GInv_put s pid p); [done|done| |done].
  destruct Hok. split; cbn; try done.
  - rewrite fmap_app. apply NoDup_app. split; [done|]. split; [|apply NoDup_singleton].
    cbn. intros w Hw ->%list_elem_of_singleton. unfold has_voted in H0. bools. done.
  - apply Forall_app. split; [done|]. by repeat constructor.
Qed.
Lemma keeps_cancel pid who : keeps (cancel_proposal pid who).
Proof.
  apply keeps_get_proposal. intros s p HG Hp. repeat wp_step; try done.
  eapply keeps_move; [done|done|done|]. destruct (gi_proposals _ HG pid p Hp). split; cbn; try done. by intros [|].
Qed.
Lemma wp_sum {S} l acc (Q : outcome Z → S → Prop) s :
  (∀ n, Q (Ok n) s) → Q Panic s → wp (sum_u64 l acc) Q s.
Proof.
  intros H1 H2. revert acc. induction l as [|x l IH]; intros acc; cbn [sum_u64]; repeat wp_step; auto.
Qed.
Lemma wp_tally {S} p now df (Q : outcome VoteTally → S → Prop) s :
  (∀ t, Q (Ok t) s) → Q Panic s → wp (tally_votes p now df) Q s.
Proof.
  intros H1 H2. unfold tally_votes. apply wp_if; intros _; [by apply wp_ret|]. apply wp_bind, wp_sum; [|done].
  intros n. cbv beta match zeta. apply wp_ret, H1.
Qed.
Lemma settled_ok pid p now st :
  proposal_ok pid p → st ≠ ProposalStatus.Executed →
  proposal_ok pid ((if bool_decide (st = ProposalStatus.Passed) then note_passed now p else p) <| pr_status := st |>).
Proof.
  intros [] Hst. case_bool_decide as E; split; cbn; try done.
  - intros Hc. by apply fmap_is_Some, po_committee0.
  - by intros [|].
Qed.
Lemma verdict_cases t total :
  verdict t total = ProposalStatus.Passed ∨ verdict t total = ProposalStatus.Rejected ∨
  verdict t total = ProposalStatus.Expired.
Proof. unfold verdict. cbv zeta. repeat case_match; auto. Qed.
Lemma keeps_settle pid total now : keeps (settle_proposal pid total now).
Proof.
  apply keeps_get_proposal. intros s p HG Hp. repeat wp_step; try done.
  apply wp_tally; [|done]. intros t. cbv beta match zeta. wp_step.
  eapply wp_mono; [eapply (keeps_move pid p); [done|done| |]|].
  - by destruct (bool_decide (verdict t total = ProposalStatus.Passed)).
  - apply settled_ok; [by apply (gi_proposals _ HG)|]. destruct (verdict_cases t total) as [->|[->| ->]]; done.
  - intros [] s' Hs'; [by apply wp_ret|done..].
Qed.
Lemma keeps_execute pid now : keeps (execute_proposal pid now).
Proof.
  apply keeps_get_proposal. intros s p HG Hp. wp_step. wp_step; [|done]. wp_step.
  assert (HE : wp (move_to pid p ProposalStatus.Executed) (fun _ s' => GInv s') s).
  { eapply keeps_move; [done|done|done|]. unfold can_execute in H. case_bool_decide as Hst; [|done].
    destruct (gi_proposals _ HG pid p Hp). split; cbn; try done. intros _. by apply po_passed0; left. }
  destruct (pr_committee p); repeat wp_step; (exact HE || done).
Qed.
Lemma keeps_challenge pid who stake now : keeps (challenge_committee pid who stake now).
Proof.
  intros s HG. unfold challenge_committee. wp_step. wp_step; [|done].
  eapply keeps_get_proposal; [|done]. clear s HG. intros s p HG Hp. repeat wp_step; try done.
  eapply keeps_move; [done|done|done|]. destruct (gi_proposals _ HG pid p Hp). split; cbn; try done; [constructor|].
  by intros [|].
Qed.
Lemma keeps_revote pid c now : keeps (apply_revote_committee pid c now).
Proof.
  apply keeps_get_proposal. intros s p HG Hp. unfold put_proposal. repeat wp_step; try done.
  apply (GInv_put s pid p); [done|done| |done]. destruct (gi_proposals _ HG pid p Hp). split; cbn; done.
Qed.
Lemma GInv_vetoes s v :
  GInv s → map_Forall (fun _ l => NoDup (sg_anchor <$> l)) (signals v) → GInv (s <| anchor_vetoes := v |>).
Proof. intros [] Hv. by split. Qed.
Lemma keeps_signal pid anchor zone ts v :
  map_Forall (fun _ l => NoDup (sg_anchor <$> l)) (signals v) →
  wp (signal_veto pid anchor zone ts) (fun _ v => map_Forall (fun _ l => NoDup (sg_anchor <$> l)) (signals v)) v.
Proof.
  intros Hv. assert (Hl : NoDup (sg_anchor <$> signals_for pid v)).
  { unfold signals_for. destruct (signals v !! pid) as [l|] eqn:E; [by apply (Hv pid)|constructor]. }
  unfold signal_veto. repeat wp_step; cbn; (apply map_Forall_insert_2; [|done]); [done|].
  rewrite fmap_app. apply NoDup_app. split; [done|]. split; [|apply NoDup_singleton].
  cbn. intros w Hw ->%list_elem_of_singleton. unfold has_signaled in H. bools. done.
Qed.
Lemma keeps_veto pid anchor zone total ts : keeps (anchor_veto_signal pid anchor zone total ts).
Proof.
  apply keeps_get_proposal. intros s p HG Hp. wp_step. wp_step; [|done]. wp_step. wp_step. wp_step. wp_step; [|done]. wp_step.
  apply wp_zoom. eapply wp_mono; [apply keeps_signal, HG|]. cbv beta. intros o v Hv.
  pose proof (GInv_vetoes s v HG Hv) as HG'. destruct o as [b| |]; [|done..].
  wp_step. wp_step; [|done]. wp_step. wp_step. wp_step; [|by wp_step]. wp_step.
  eapply wp_mono; [eapply (keeps_move pid p); [done|done|done|]|].
  - destruct (gi_proposals _ HG pid p Hp). split; cbn; try done. by intros [|].
  - intros [] s' HS; [|done..]. wp_step. apply wp_zoom. unfold record_veto.
    cbv zeta. repeat wp_step; by apply GInv_vetoes; [|apply HS].
Qed.

Lemma GInv_delegations s m n :
  GInv s → delegations_ok m → (Z.of_nat (size m) <= U64.MAX → n = count_active m) →
  GInv (s <| delegations := m |> <| active_delegations_count := n |>).
Proof. intros [] Hm Hn. by split. Qed.
Lemma count_active_bounds m : 0 <= count_active m <= Z.of_nat (size m).
Proof. apply msum_le_size. intros d. apply flag_bounds. Qed.
Lemma keeps_delegate who to ts : keeps (delegate who to ts).
Proof.
  intros s HG. unfold delegate. repeat wp_step; try done. bools.
  change (GInv (s <| delegations := <[who := mkDelegation who to ts true]> (delegations s) |>
    <| active_delegations_count := U64.sat_add (active_delegations_count s) 1 |>)).
  assert (Hin : ∀ d, delegations s !! who = Some d → de_active d = false).
  { intros d Hd. unfold delegation_of in H0. rewrite Hd in H0. cbn in H0. by destruct (de_active d). }
  apply GInv_delegations; [done| |].
  - destruct (gi_delegations _ HG) as [Hk Hc]. split; [by apply map_Forall_insert_2|].
    intros a b da db Ha Hb Aa Ab E. destruct (decide (a = who)) as [->|Na], (decide (b = who)) as [->|Nb].
    + rewrite lookup_insert_eq in Ha. injection Ha as <-. cbn in E. congruence.
    + rewrite lookup_insert_eq in Ha. injection Ha as <-. rewrite lookup_insert_ne in Hb by done. cbn in E. subst to.
      intros E. apply H1. unfold delegation_of. rewrite Hb. cbn. rewrite Ab. cbn. by rewrite E.
    + rewrite lookup_insert_eq in Hb. injection Hb as <-. rewrite lookup_insert_ne in Ha by done. cbn. intros <-.
      apply H1. unfold delegation_of. rewrite Ha. cbn. rewrite Aa. cbn. by rewrite E.
    + rewrite lookup_insert_ne in Ha, Hb by done. by eapply Hc.
  - intros Hm. unfold count_active. rewrite msum_insert. fold (count_active (delegations s)).
    pose proof (count_active_bounds (delegations s)). unfold U64.sat_add.
    destruct (delegations s !! who) as [d|] eqn:Ed; cbn [from_option flag de_active].
    + rewrite map_size_insert_Some in Hm by done. rewrite (gi_delegs _ HG Hm), (Hin d) by done. cbn [flag].
      pose proof (count_active_bounds (delete who (delegations s))) as Hd.
      assert (E : count_active (delegations s) = 0 + count_active (delete who (delegations s))).
      { unfold count_active at 1. erewrite msum_delete by exact Ed. cbv beta. rewrite (Hin d eq_refl). reflexivity. }
      assert (Hz : size (delegations s) = S (size (delete who (delegations s)))).
      { rewrite map_size_delete_Some by done. assert (size (delegations s) ≠ 0%nat); [|lia].
        intros Hz. apply map_size_empty_inv in Hz. by rewrite Hz in Ed. }
      lia.
    + rewrite map_size_insert_None in Hm by done. rewrite (gi_delegs _ HG) by lia. lia.
Qed.
Lemma keeps_undelegate who : keeps (undelegate who).
Proof.
  intros s HG. unfold undelegate. repeat wp_step; try done. bools.
  change (GInv (s <| delegations := <[who := a <| de_active := false |>]> (delegations s) |>
    <| active_delegations_count := U64.sat_sub (active_delegations_count s) 1 |>)).
  apply GInv_delegations; [done| |].
  - destruct (gi_delegations _ HG) as [Hk Hc]. split; [apply map_Forall_insert_2; [exact (Hk who a H)|done]|].
    intros x b da db Ha Hb Aa Ab E. destruct (decide (x = who)) as [->|Na], (decide (b = who)) as [->|Nb].
    + rewrite lookup_insert_eq in Ha. by injection Ha as <-.
    + rewrite lookup_insert_eq in Ha. by injection Ha as <-.
    + rewrite lookup_insert_eq in Hb. by injection Hb as <-.
    + rewrite lookup_insert_ne in Ha, Hb by done. by eapply Hc.
  - intros Hm. rewrite map_size_insert_Some in Hm by done. unfold count_active. rewrite msum_insert, H.
    fold (count_active (delegations s)). rewrite (gi_delegs _ HG Hm). cbn [from_option set de_active flag].
    rewrite H0. cbn [flag]. pose proof (count_active_bounds (delete who (delegations s))).
    assert (E : count_active (delegations s) = 1 + count_active (delete who (delegations s))).
    { unfold count_active at 1. erewrite msum_delete by exact H. by rewrite H0. }
    unfold U64.sat_sub. lia.
Qed.

(** ** Weights, parameters, upgrades *)

Lemma wp_stake_for {S} stakes who (Q : outcome Z → S → Prop) s :
  (∀ n, Q (Ok n) s) → Q Panic s → wp (governance_stake_for stakes who) Q s.
Proof. apply wp_sum. Qed.
Lemma wp_fold_delegations {S} stakes vs l m (Q : outcome (gmap string Z) → S → Prop) s :
  (∀ n, Q (Ok n) s) → Q Panic s → wp (fold_delegations stakes vs l m) Q s.
Proof.
  intros H1 H2. revert m. induction l as [|d l IH]; intros m; cbn [fold_delegations]; [by wp_step|].
  wp_step; [apply IH|]. wp_step. apply wp_stake_for; [|done]. intros n. wp_step; apply IH.
Qed.
Lemma keeps_reconcile stakes pid : keeps (reconcile_effective_stakes stakes pid).
Proof.
  intros s HG. unfold reconcile_effective_stakes, put_proposal. wp_step. wp_step.
  destruct (proposals s !! pid) as [p|] eqn:Hp; [|by wp_step]. wp_step. apply wp_fold_delegations; [|done].
  intros m. wp_step. pose proof (gi_proposals _ HG pid p Hp) as [].
  apply (GInv_put s pid p); [done|done| |done]. split; cbn; try done.
  - rewrite <- list_fmap_compose. by erewrite list_fmap_ext.
  - by rewrite Forall_fmap.
Qed.

Section effects.
Context `{HF : FloatText}.

Lemma epoch_limit v :
  negb (f64_gtb v MAX_EPOCH_SEAL_INTERVAL_SECS) && negb (f64_leb v f64_0) = true →
  f64_is_nan v = true ∨ f64_gtb v f64_0 = true ∧ f64_leb v MAX_EPOCH_SEAL_INTERVAL_SECS = true.
Proof.
  intros [H1%negb_true_iff H2%negb_true_iff]%andb_true_iff. destruct (f64_is_nan v) eqn:En; [by left|right].
  split; [by apply f64_leb_false in H2|]. apply f64_ltb_false; [by vm_compute|done|exact H1].
Qed.
Lemma retention_limit v :
  negb (f64_gtb v f64_0 && f64_ltb v MIN_RECORD_RETENTION_SECS) = true →
  f64_is_nan v = true ∨ f64_leb v f64_0 = true ∨ f64_leb MIN_RECORD_RETENTION_SECS v = true.
Proof.
  intros H%negb_true_iff. destruct (f64_is_nan v) eqn:En; [by left|right].
  apply andb_false_iff in H as [H|H]; [left|right]; apply f64_ltb_false; done || by vm_compute.
Qed.
Lemma limits_checked name value p p' :
  within_limits p → validate_param_change name value = Ok tt → params_apply name value p = Ok p' → within_limits p'.
Proof.
  intros []. unfold validate_param_change, params_apply, limit.
  repeat case_decide; try done.
  - destruct (parse_u64 value); cbn; [|done]. case_match; [|done]. bools. intros _ [= <-]. by split.
  - destruct (parse_f64 value); cbn; [|done]. case_match eqn:E; [|done]. intros _ [= <-]. split; try done. by apply epoch_limit.
  - destruct (parse_u64 value); cbn; [|done]. case_match; [|done]. bools. intros _ [= <-]. by split.
  - destruct (parse_f64 value); cbn; [|done]. case_match eqn:E; [|done]. intros _ [= <-]. split; try done. by apply retention_limit.
  - destruct (parse_u64 value); cbn; [|done]. case_match; [|done]. bools. intros _ [= <-]. by split.
Qed.
(** The checks are comparisons, which are all false of a value that is not a
    number: it passes as interval of the epochs and as retention, and is installed. *)
Theorem limits_admit_nan value v p :
  parse_f64 value = Some v → f64_is_nan v = true →
  (validate_param_change "epoch_seal_interval_secs" value = Ok tt ∧
   params_apply "epoch_seal_interval_secs" value p = Ok (p <| epoch_seal_interval_secs := v |>)) ∧
  (validate_param_change "record_retention_secs" value = Ok tt ∧
   params_apply "record_retention_secs" value p = Ok (p <| record_retention_secs := v |>)).
Proof. intros H Hv. destruct v; try done. unfold validate_param_change, params_apply. cbn. rewrite H. by vm_compute. Qed.
Lemma keeps_param pid name value ts : keeps (apply_param_change pid name value ts).
Proof.
  intros s HG. unfold apply_param_change. wp_step. apply wp_lift.
  destruct (validate_param_change name value) as [[]| |] eqn:Ev; [|done..].
  wp_step. wp_step. wp_step. wp_step; [|done]. wp_step. apply wp_lift.
  destruct (params_apply name value (params s)) as [p| |] eqn:Ea; [|done..]. repeat wp_step.
  pose proof (limits_checked _ _ _ _ (gi_params _ HG) Ev Ea). by destruct HG; split.
Qed.
Lemma keeps_upgrade pid kind hash epoch now ts : keeps (apply_protocol_upgrade_outcome pid kind hash epoch now ts).
Proof.
  apply keeps_get_proposal. intros s p HG Hp. wp_step. apply wp_lift.
  destruct (evaluate_protocol_upgrade_proposal p kind now) as [o| |]; [|done..].
  destruct (outcome_fields o) as [[n r] d]. repeat wp_step. by destruct HG; split.
Qed.
End effects.
