(* ===== verification/GovernanceProps.v ===== *)
(** * Governance: results

    The invariant over every history of calls and records, and why a proposal
    changes its status. *)

From S2P Require Import Prelude Sorting F64 Types Custodial Records LedgerOps Ledger Governance GovernanceTally GovernanceStake GovernanceInv GovernanceLedger.
Open Scope Z_scope.

(** ** Histories *)

(** A call of a method of [GovernanceState]. *)
Inductive GovCall :=
  | CPropose (pid proposer : string) (category : ProposalCategory.t) (title description : string) (stake : Z)
      (ts : f64) (committee : option Committee)
  | CVote (pid voter : string) (d : VoteDirection.t) (stake own : Z) (ts : f64)
  | CCancel (pid who : string)
  | CReconcile (stakes : gmap string StakeEntry) (pid : string)
  | CSettle (pid : string) (total : Z) (now : f64)
  | CExecute (pid : string) (now : f64)
  | CChallenge (pid who : string) (stake : Z) (now : f64)
  | CRevote (pid : string) (c : Committee) (now : f64)
  | CVeto (pid anchor zone : string) (total : Z) (ts : f64)
  | CDelegate (who to : string) (ts : f64)
  | CUndelegate (who : string)
  | CParam (pid name value : string) (ts : f64)
  | CUpgrade (pid : string) (kind : UpgradeKind.t) (hash : string) (epoch now : Z) (ts : f64).

Section history.
Context `{HF : FloatText}.

Definition call (c : GovCall) : G unit :=
  match c with
  | CPropose pid proposer category title description stake ts committee =>
      create_proposal pid proposer category title description stake ts committee
  | CVote pid voter d stake own ts => cast_vote_with_own pid voter d stake own ts
  | CCancel pid who => cancel_proposal pid who
  | CReconcile stakes pid => reconcile_effective_stakes stakes pid
  | CSettle pid total now => settle_proposal pid total now;; mret tt
  | CExecute pid now => execute_proposal pid now
  | CChallenge pid who stake now => challenge_committee pid who stake now
  | CRevote pid c now => apply_revote_committee pid c now
  | CVeto pid anchor zone total ts => anchor_veto_signal pid anchor zone total ts;; mret tt
  | CDelegate who to ts => delegate who to ts
  | CUndelegate who => undelegate who
  | CParam pid name value ts => apply_param_change pid name value ts;; mret tt
  | CUpgrade pid kind hash epoch now ts => apply_protocol_upgrade_outcome pid kind hash epoch now ts;; mret tt
  end.

(** A governance record, a call, or a change of the ledger, which leaves
    governance alone. *)
Inductive GovEvent :=
  | ERecord (r : ValidationRecord) (op : ParsedGovernanceOp) (creator : string)
  | ECall (c : GovCall)
  | ELedgerChange (b : LedgerState).
(** The state after an event, whether it succeeded, failed or panicked. *)
Definition gov_step (s : GovLedger) (e : GovEvent) : GovLedger :=
  match e with
  | ERecord r op creator => (apply_governance_op r op creator s).2
  | ECall c => (zoom governance (call c) s).2
  | ELedgerChange b => s <| base := b |>
  end.

Lemma keeps_drop {A} (m : G A) : keeps m → keeps (m;; mret tt).
Proof.
  intros Hm s HG. wp_step. eapply wp_mono; [by apply Hm|]. intros [] s' H; [by wp_step|done..].
Qed.
Lemma keeps_ignore {A} (m : G A) : keeps m → keeps (ignore_result m).
Proof.
  intros Hm s HG. specialize (Hm s HG). unfold wp, ignore_result in *. destruct (m s) as [[] s']; exact Hm.
Qed.
Lemma keeps_bind {A B} (m : G A) (f : A → G B) : keeps m → (∀ a, keeps (f a)) → keeps (m ≫= f).
Proof.
  intros Hm Hf s HG. apply wp_bind. eapply wp_mono; [by apply Hm|]. intros [] s' H; [by apply Hf|done..].
Qed.
Lemma keeps_pure {A} (o : outcome A) : keeps (fun s => (o, s)).
Proof. by intros s HG. Qed.
Lemma keeps_for_each {A} (f : A → G unit) l : (∀ x, keeps (f x)) → keeps (for_each f l).
Proof.
  intros Hf. induction l as [|x l IH]; [by intros s HG|]. cbn [for_each].
  apply keeps_bind; [apply Hf|]. intros _. apply IH.
Qed.
Lemma keeps_call c : keeps (call c).
Proof.
  destruct c; cbn [call].
  - apply keeps_create.
  - apply keeps_vote.
  - apply keeps_cancel.
  - apply keeps_reconcile.
  - apply keeps_drop, keeps_settle.
  - apply keeps_execute.
  - apply keeps_challenge.
  - apply keeps_revote.
  - apply keeps_drop, keeps_veto.
  - apply keeps_delegate.
  - apply keeps_undelegate.
  - apply keeps_drop, keeps_param.
  - apply keeps_drop, keeps_upgrade.
Qed.

Lemma keeps_sum l acc : keeps (sum_u64 l acc).
Proof. intros s HG. by apply wp_sum. Qed.
Lemma keeps_stakes_of stakes l : keeps (stakes_of stakes l).
Proof.
  induction l as [|w l IH]; [by intros s HG|]. cbn [stakes_of]. apply keeps_bind; [apply keeps_sum|]. intros n.
  apply keeps_bind; [apply IH|]. by intros m s HG.
Qed.
Lemma keeps_body r creator stakes op : keeps (governance_body r creator stakes op).
Proof.
  destruct op; cbn [governance_body].
  - apply keeps_bind; [apply keeps_sum|]. intros n. apply keeps_create.
  - apply keeps_get_proposal. intros s p HG Hp. unfold effective_voting_stake. wp_step. wp_step.
    apply keeps_bind; [| |done].
    + apply keeps_bind; [apply keeps_sum|]. intros n. apply keeps_bind; [apply keeps_stakes_of|]. intros l.
      apply keeps_bind; [apply keeps_sum|]. intros m s' HG'. by wp_step.
    + intros n. apply keeps_bind; [apply keeps_sum|]. intros m. apply keeps_vote.
  - intros s HG. wp_step. wp_step. wp_step. wp_step. revert s HG.
    enough (H : ∀ b b', keeps (execute_proposal proposal_id (rec_timestamp r);; when b (execute_param r proposal_id);;
      when b' (execute_upgrade r proposal_id))) by (intros s HG; by apply H).
    intros b b'. apply keeps_bind; [apply keeps_execute|]. intros _. apply keeps_bind.
    + destruct b; [|by intros s HG]. cbn [when]. unfold execute_param.
      destruct (meta_str r "governance_param_name"), (meta_str r "governance_param_value"); try (by intros ? HG). apply keeps_ignore, keeps_param.
    + intros _. destruct b'; [|by intros s HG]. cbn [when]. unfold execute_upgrade.
      destruct (meta_str r "governance_upgrade_kind") as [k|], (meta_str r "governance_reference_impl_hash"),
        (rec_metadata r !! "governance_proposed_at_epoch" ≫= Records.as_u64); try (by intros ? HG).
      destruct (UpgradeKind.parse k); try (by intros ? HG). apply keeps_ignore, keeps_upgrade.
  - apply keeps_cancel.
  - apply keeps_delegate.
  - apply keeps_undelegate.
Qed.
Lemma keeps_settle_overdue r stakes : keeps (settle_overdue r stakes).
Proof.
  apply keeps_bind; [apply keeps_sum|]. intros total. apply keeps_bind; [by intros s HG|]. intros ids.
  apply keeps_for_each. intros pid. apply keeps_bind; [apply keeps_reconcile|]. intros _.
  apply keeps_ignore, keeps_settle.
Qed.
Lemma zoom_governance {A} (m : G A) s :
  GInv (governance s) → keeps m → wp (zoom governance m) (fun _ s' => GInv (governance s')) s.
Proof. intros HG Hm. apply wp_zoom. eapply wp_mono; [by apply Hm|]. done. Qed.
Lemma keeps_record r op creator s :
  GInv (governance s) → wp (apply_governance_op r op creator) (fun _ s' => GInv (governance s')) s.
Proof.
  intros HG. unfold apply_governance_op. wp_step. wp_step. wp_step; [by wp_step|]. wp_step. wp_step; [|done]. wp_step.
  eapply wp_mono; [apply zoom_governance; [done|apply keeps_body]|]. intros [] s1 H1; [|done..]. wp_step.
  eapply wp_mono; [apply zoom_governance; [done|apply keeps_settle_overdue]|]. intros [] s2 H2; [|done..].
  unfold governance_tail. by repeat wp_step.
Qed.
End history.

(** C18: governance keeps its books.  After any sequence of governance records,
    direct calls and changes of the ledger, successful or not, the counters per
    status and of active delegations are exact while the numbers of proposals and
    delegations fit 64 bits, every proposal is stored under
    its id with votes of distinct voters, passed and executed proposals carry
    their passing time, critical ones a committee, nobody delegates to itself or
    back to an own delegator, no anchor signals a veto twice, and the parameters
    respect the hard limits: the integers are in their ranges, the interval of the
    epochs is positive and at most an hour, and the retention is at least seven
    days or not positive (the code's "infinite" for zero includes the negative
    numbers).  The two intervals may also be [NaN], which is no number: its text
    passes the checks, against the limits they state ([limits_admit_nan],
    [nan_installed]). *)
Theorem governance_books_exact `{HF : FloatText} events :
  GInv (governance (fold_left gov_step events gov_ledger_new)).
Proof.
  assert (H0 : GInv (governance gov_ledger_new)) by apply GInv_new. revert H0. generalize gov_ledger_new.
  induction events as [|e events IH]; intros s HG; [done|]. cbn [fold_left]. apply IH. destruct e; cbn [gov_step].
  - by apply keeps_record.
  - apply zoom_governance; [done|apply keeps_call].
  - done.
Qed.

(** ** Why a status changes *)

Section reasons.
Context `{HF : FloatText}.
Context (record : ValidationRecord) (op : ParsedGovernanceOp) (creator : string).
Notation now := (rec_timestamp record).

Definition proposed (s : GovernanceState) (pid : string) : Prop :=
  pid = rec_id record ∧ proposals s !! pid = None ∧ ∃ c t d, op = Propose c t d.
(** No open challenge against the committee's verdict. *)
Definition unchallenged (p : Proposal) : Prop :=
  match pr_committee p with
  | Some c => (∀ d, challenge_deadline c = Some d → f64_ltb now d = false) ∧ (challenger c = None ∨ is_revote c = true)
  | None => True
  end.
(** The verdict of the votes the proposal holds. *)
Definition decided (total : Z) (p : Proposal) : Prop :=
  ∃ t, (tally_votes p now None tt).1 = Ok t ∧ pr_status p = verdict t total.

(** The record itself explains the status. *)
Inductive explained (s : GovernanceState) (pid : string) (p' : Proposal) : Prop :=
  | unchanged p : proposals s !! pid = Some p → pr_status p' = pr_status p → explained s pid p'
  | opened : proposed s pid → pr_status p' = ProposalStatus.Active → explained s pid p'
  | cancelled p : op = Cancel pid → proposals s !! pid = Some p → pr_status p = ProposalStatus.Active →
      pr_proposer p = creator → pr_status p' = ProposalStatus.Cancelled → explained s pid p'
  | executed p t : op = Execute pid → proposals s !! pid = Some p → pr_status p = ProposalStatus.Passed →
      pr_passed_at p = Some t → f64_geb now (f64_add t EXECUTION_DELAY_SECS) = true → unchallenged p →
      pr_status p' = ProposalStatus.Executed → explained s pid p'.
Inductive justified (stakes : gmap string StakeEntry) (s : GovernanceState) (pid : string) (p' : Proposal) : Prop :=
  | by_record : explained s pid p' → justified stakes s pid p'
  | by_votes total : pr_status <$> proposals s !! pid = Some ProposalStatus.Active ∨ proposed s pid →
      f64_geb now (pr_voting_deadline p') = true → (total_governance_staked stakes tt).1 = Ok total →
      decided total p' → justified stakes s pid p'.

(** *** The settlement of overdue proposals *)

(** What one settlement makes of a proposal. *)
Definition settles_to (total : Z) (p p' : Proposal) : Prop :=
  pr_status p' = pr_status p ∨
  (pr_status p = ProposalStatus.Active ∧ f64_geb now (pr_voting_deadline p') = true ∧ decided total p').
Lemma settles_refl total p : settles_to total p p.
Proof. by left. Qed.

Lemma sum_pure l acc : ∃ o : outcome Z, ∀ (S : Type) (s : S), sum_u64 l acc s = (o, s).
Proof.
  revert acc. induction l as [|x l IH]; intros acc; cbn [sum_u64]; [by eexists|]. unfold mbind, M_bind, add_u64.
  destruct (acc + x <=? U64.MAX); [|by eexists]. destruct (IH (acc + x)) as [o Ho]. exists o. intros S s. apply Ho.
Qed.
Lemma tally_pure p df : ∃ o : outcome VoteTally, ∀ (S : Type) (s : S), tally_votes p now df s = (o, s).
Proof.
  unfold tally_votes. case_bool_decide; [by eexists|]. destruct (sum_pure (vo_stake <$> pr_votes p) 0) as [o Ho].
  unfold mbind, M_bind. destruct o as [n|e|].
  - eexists. intros S s. by rewrite Ho.
  - exists (Err e). intros S s. by rewrite Ho.
  - exists Panic. intros S s. by rewrite Ho.
Qed.
Lemma tally_votes_only {S} p p' df (s : S) :
  pr_votes p = pr_votes p' → tally_votes p now df s = tally_votes p' now df s.
Proof. intros E. unfold tally_votes. by rewrite E. Qed.

(** Only [pid] is touched, and only to be settled. *)
Lemma settle_one_effect total stakes pid s p :
  proposals s !! pid = Some p → f64_geb now (pr_voting_deadline p) = true →
  wp (settle_one record stakes total pid) (fun o s' => o = Ok tt →
    (∀ x, x ≠ pid → proposals s' !! x = proposals s !! x) ∧
    ∃ p', proposals s' !! pid = Some p' ∧ settles_to total p p') s.
Proof.
  intros Hp Hd. unfold settle_one, reconcile_effective_stakes, put_proposal. wp_step. wp_step. wp_step. rewrite Hp. wp_step.
  apply wp_fold_delegations; [|done]. intros m. wp_step.
  set (p1 := p <| pr_votes ::= fmap (reconciled_vote m) |>).
  set (s1 := s <| proposals ::= insert pid p1 |>).
  assert (H1 : proposals s1 !! pid = Some p1) by apply lookup_insert_eq.
  assert (Hx : ∀ x, x ≠ pid → proposals s1 !! x = proposals s !! x) by (intros x Hne; by apply lookup_insert_ne).
  assert (Hsame : (∀ x, x ≠ pid → proposals s1 !! x = proposals s !! x) ∧
    ∃ p', proposals s1 !! pid = Some p' ∧ settles_to total p p') by (split; [done|]; exists p1; split; [done|by left]).
  unfold wp, ignore_result. destruct (settle_proposal pid total now s1) as [o s'] eqn:E. revert E.
  unfold settle_proposal, get_proposal, gets, mbind, M_bind. rewrite H1. cbn [ok_or mret M_ret require].
  case_bool_decide as Ha; cbn [require mret M_ret throw]; [|by intros [= <- <-]].
  destruct (negb _); cbn [require mret M_ret throw]; [|by intros [= <- <-]].
  destruct (tally_pure p1 None) as [ot Ht]. rewrite Ht. destruct ot as [tl|e|]; [|by intros [= <- <-]..].
  cbv zeta. unfold move_to, put_proposal, modify, mbind, M_bind, mret, M_ret. intros [= <- <-] _. cbn [fst snd].
  set (p2 := set pr_status (fun _ => verdict tl total)
    (if bool_decide (verdict tl total = ProposalStatus.Passed) then note_passed now p1 else p1)).
  assert (HP : ∀ x st st' s0, proposals (record_status_transition st st' s0) !! x = proposals s0 !! x).
  { intros x st st' s0. unfold record_status_transition. by case_bool_decide. }
  split; [intros x Hne; rewrite HP; etrans; [by apply lookup_insert_ne|by apply Hx]|].
  exists p2. split; [rewrite HP; apply lookup_insert_eq|]. right. split; [exact Ha|].
  assert (HV : pr_votes p2 = pr_votes p1) by (unfold p2; by case_bool_decide).
  split; [unfold p2; by case_bool_decide|]. exists tl. rewrite (tally_votes_only p2 p1) by done. by rewrite Ht.
Qed.

(** The proposals not yet reached are as before, the others were settled. *)
Lemma settle_overdue_effect stakes total s :
  (∀ S (x : S), total_governance_staked stakes x = (Ok total, x)) →
  wp (settle_overdue record stakes) (fun o s' => o = Ok tt → ∀ pid,
    match proposals s !! pid with
    | Some p => ∃ p', proposals s' !! pid = Some p' ∧ settles_to total p p'
    | None => proposals s' !! pid = None
    end) s.
Proof.
  intros Ht. unfold settle_overdue. wp_step. unfold wp at 1. rewrite Ht. cbn [fst snd]. wp_step. wp_step.
  assert (Hin : ∀ pid, pid ∈ overdue record s → ∃ p, proposals s !! pid = Some p ∧ f64_geb now (pr_voting_deadline p) = true).
  { intros pid. unfold overdue. rewrite stable_sort_perm. intros ([k p] & -> & [Hf Hl]%list_elem_of_filter)%list_elem_of_fmap.
    apply elem_of_map_to_list in Hl. exists p. bools. done. }
  assert (HN : NoDup (overdue record s)).
  { unfold overdue. rewrite stable_sort_perm. eapply sublist_NoDup; [apply (NoDup_fst_map_to_list (proposals s))|].
    apply fmap_sublist, sublist_filter. }
  apply (wp_for_each _ _ (fun l s' => NoDup l ∧
    (∀ pid, pid ∈ l → proposals s' !! pid = proposals s !! pid ∧
       ∃ p, proposals s !! pid = Some p ∧ f64_geb now (pr_voting_deadline p) = true) ∧
    ∀ pid, match proposals s !! pid with
           | Some p => ∃ p', proposals s' !! pid = Some p' ∧ settles_to total p p'
           | None => proposals s' !! pid = None
           end)).
  - split; [done|]. split; [intros pid Hpid; split; [done|by apply Hin]|].
    intros pid. destruct (proposals s !! pid) as [p|]; [|done]. exists p. split; [done|apply settles_refl].
  - by intros s' (_ & _ & H) _.
  - intros pid l s' ([Hn HN']%NoDup_cons & Hl & Ha).
    destruct (Hl pid) as [Es (p & Hp & Hg)]; [by left|]. rewrite Hp in Es.
    eapply wp_mono; [by apply (settle_one_effect total stakes pid s' p)|]. intros [[]| |] s'' H; [|done..].
    destruct (H eq_refl) as [Ho (p' & Hp' & Hs)]. split; [done|]. split.
    + intros x Hx. destruct (Hl x) as [Ex Hr]; [by right|]. split; [|done]. rewrite Ho; [done|]. by intros ->.
    + intros x. destruct (decide (x = pid)) as [->|Hne]; [rewrite Hp; eauto|]. rewrite Ho by done. apply Ha.
Qed.

(** *** The record *)

Lemma explained_same s s' :
  proposals s' = proposals s → ∀ pid p', proposals s' !! pid = Some p' → explained s pid p'.
Proof. intros -> pid p' H. by apply (unchanged _ _ _ p'). Qed.
Lemma explained_put s pid q :
  explained s pid q → ∀ x p', <[pid := q]> (proposals s) !! x = Some p' → explained s x p'.
Proof.
  intros Hq x p' [[<- <-]|[_ H]]%lookup_insert_Some; [done|]. by apply (unchanged _ _ _ p').
Qed.
Definition explains (m : G unit) : Prop := ∀ s,
  wp m (fun o s' => o = Ok tt → ∀ pid p', proposals s' !! pid = Some p' → explained s pid p') s.

Lemma explains_propose c t d stake :
  op = Propose c t d →
  explains (create_proposal (rec_id record) creator c t d stake now (extract_committee_from_metadata (rec_metadata record))).
Proof.
  intros Hop s. unfold create_proposal, put_proposal. repeat wp_step; try done. bools. intros _.
  apply explained_put, opened; [|done]. split; [done|]. eauto.
Qed.
Lemma explains_vote pid d e own : explains (cast_vote_with_own pid creator d e own now).
Proof.
  intros s. unfold cast_vote_with_own, get_proposal, put_proposal. repeat wp_step; try done. intros _.
  apply explained_put. by eapply unchanged.
Qed.
Lemma transition_proposals a b s : proposals (record_status_transition a b s) = proposals s.
Proof. unfold record_status_transition. by case_bool_decide. Qed.
Lemma explains_cancel pid : op = Cancel pid → explains (cancel_proposal pid creator).
Proof.
  intros Hop s. unfold cancel_proposal, get_proposal, move_to, put_proposal. repeat wp_step; try done. bools. intros _.
  rewrite transition_proposals. apply explained_put. by eapply cancelled.
Qed.
Lemma explains_delegate to : explains (delegate creator to now).
Proof. intros s. unfold delegate. repeat wp_step; try done. intros _. by apply explained_same. Qed.
Lemma explains_undelegate : explains (undelegate creator).
Proof. intros s. unfold undelegate. repeat wp_step; try done. intros _. by apply explained_same. Qed.

(** The effects of an executed proposal leave the proposals alone. *)
Lemma wp_ignore {S A} (m : M S A) (I : S → Prop) s :
  wp m (fun _ => I) s → wp (ignore_result m) (fun _ => I) s.
Proof. unfold wp, ignore_result. by destruct (m s) as [[]]. Qed.
Lemma param_proposals pid s P : proposals s = P → wp (execute_param record pid) (fun _ s' => proposals s' = P) s.
Proof.
  intros HP. unfold execute_param. do 2 (case_match; [|by wp_step]). apply wp_ignore. unfold apply_param_change.
  wp_step. apply wp_lift. destruct (validate_param_change _ _); [|done..]. repeat wp_step; [|done].
  apply wp_lift. destruct (params_apply _ _ _); [|done..]. by repeat wp_step.
Qed.
Lemma upgrade_proposals pid s P : proposals s = P → wp (execute_upgrade record pid) (fun _ s' => proposals s' = P) s.
Proof.
  intros HP. unfold execute_upgrade. do 4 (case_match; try by wp_step). cbv zeta. apply wp_ignore.
  unfold apply_protocol_upgrade_outcome, get_proposal. repeat wp_step; [|done]. apply wp_lift.
  destruct (evaluate_protocol_upgrade_proposal _ _ _) as [o| |]; [|done..].
  destruct (outcome_fields o) as [[? ?] ?]. by repeat wp_step.
Qed.
Lemma execute_changes pid s :
  wp (execute_proposal pid now) (fun o s' => o = Ok tt → ∃ p t,
    proposals s !! pid = Some p ∧ pr_status p = ProposalStatus.Passed ∧ pr_passed_at p = Some t ∧
    f64_geb now (f64_add t EXECUTION_DELAY_SECS) = true ∧ unchallenged p ∧
    proposals s' = <[pid := p <| pr_status := ProposalStatus.Executed |>]> (proposals s)) s.
Proof.
  unfold execute_proposal, get_proposal. wp_step. wp_step. wp_step. wp_step; [|done]. rename a into p. wp_step. wp_step; [|done].
  unfold can_execute in H0. case_bool_decide as Hst; [|done]. destruct (pr_passed_at p) as [t|] eqn:Et; [|done]. wp_step.
  assert (HE : unchallenged p → wp (move_to pid p ProposalStatus.Executed) (fun o s' => o = Ok tt → ∃ p t,
    proposals s !! pid = Some p ∧ pr_status p = ProposalStatus.Passed ∧ pr_passed_at p = Some t ∧
    f64_geb now (f64_add t EXECUTION_DELAY_SECS) = true ∧ unchallenged p ∧
    proposals s' = <[pid := p <| pr_status := ProposalStatus.Executed |>]> (proposals s)) s).
  { intros HU. unfold move_to, put_proposal. repeat wp_step. intros _. exists p, t. by rewrite transition_proposals. }
  unfold unchallenged in HE at 1. destruct (pr_committee p) as [c|]; repeat wp_step; try done; apply HE; [|done].
  split; [intros d Hd; rewrite Hd in *; by bools|]. destruct (challenger c); [right|by left].
  bools. by destruct (is_revote c).
Qed.
Lemma explains_execute pid stakes : op = Execute pid → explains (governance_body record creator stakes (Execute pid)).
Proof.
  intros Hop s. cbn [governance_body]. do 4 wp_step. wp_step. eapply wp_mono; [apply execute_changes|].
  intros [[]| |] s1 H1; [|done..]. destruct (H1 eq_refl) as (p & t & Hp & Hst & Ht & Hd & Hu & E).
  assert (HX : ∀ x p', proposals s1 !! x = Some p' → explained s x p').
  { rewrite E. apply explained_put. by eapply executed. }
  assert (HW : ∀ s2, proposals s2 = proposals s1 → wp (when (has_category pid ProposalCategory.ProtocolUpgrade s)
    (execute_upgrade record pid)) (fun o s' => o = Ok tt → ∀ pid p', proposals s' !! pid = Some p' → explained s pid p') s2).
  { intros s2 E2. apply wp_when; intros _; [|by rewrite E2].
    eapply wp_mono; [by apply upgrade_proposals|]. intros o s3 E3 _. by rewrite E3. }
  wp_step. apply wp_when; intros _; [|by apply (HW s1)]. eapply wp_mono; [apply (param_proposals pid s1 (proposals s1)); done|].
  intros [[]| |] s2 E2; [by apply (HW s2)|done..].
Qed.
Lemma wp_stakes_of {S} stakes l (Q : outcome (list Z) → S → Prop) s :
  (∀ n, Q (Ok n) s) → Q Panic s → wp (stakes_of stakes l) Q s.
Proof.
  revert Q. induction l as [|w l IH]; intros Q H1 H2; cbn [stakes_of]; wp_step; [done|].
  apply wp_stake_for; [|done]. intros n. wp_step. apply IH; [|done]. intros ns. by wp_step.
Qed.
Lemma body_explained stakes : explains (governance_body record creator stakes op).
Proof.
  destruct op as [c t d|pid d|pid|pid|to|] eqn:Hop; intros s.
  - cbn [governance_body]. wp_step. apply wp_stake_for; [|done]. intros n. by apply explains_propose.
  - cbn [governance_body]. unfold get_proposal. repeat wp_step; [|done]. unfold effective_voting_stake.
    repeat wp_step. apply wp_stake_for; [|done]. intros own. wp_step. apply wp_stakes_of; [|done]. intros l. wp_step.
    apply wp_sum; [|done]. intros n. wp_step; [|done]. wp_step. apply wp_stake_for; [|done]. intros own'. apply explains_vote.
  - by apply explains_execute.
  - by apply explains_cancel.
  - apply explains_delegate.
  - apply explains_undelegate.
Qed.

Lemma justified_trans stakes total s pid p1 p' :
  (total_governance_staked stakes tt).1 = Ok total →
  explained s pid p1 → settles_to total p1 p' → justified stakes s pid p'.
Proof.
  intros Ht H [E|(Ha & Hd & Hv)].
  - apply by_record. destruct H; [eapply unchanged|eapply opened|eapply cancelled|eapply executed]; try done; congruence.
  - apply (by_votes _ _ _ _ total); [|done..].
    destruct H as [p Hp E| | |]; [left; rewrite Hp; cbn; congruence|by right|congruence..].
Qed.
Lemma settle_overdue_justified stakes s s1 :
  (∀ pid p', proposals s1 !! pid = Some p' → explained s pid p') →
  wp (settle_overdue record stakes) (fun o s' => o = Ok tt → ∀ pid p', proposals s' !! pid = Some p' →
    justified stakes s pid p') s1.
Proof.
  intros H1. destruct (sum_pure (se_amount <$> filter (fun e => is_governance e = true) (map_to_list stakes).*2) 0)
    as [[total|e|] Ht].
  - eapply wp_mono; [by apply (settle_overdue_effect stakes total)|]. intros o s' Hs Ho pid p' Hp'.
    specialize (Hs Ho pid). destruct (proposals s1 !! pid) as [p1|] eqn:E1; [|congruence].
    destruct Hs as (p2 & Hp2 & Hset). assert (p2 = p') as -> by congruence.
    apply (justified_trans stakes total s pid p1); [|by apply H1|done]. unfold total_governance_staked. by rewrite Ht.
  - unfold settle_overdue, total_governance_staked. wp_step. unfold wp at 1. by rewrite Ht.
  - unfold settle_overdue, total_governance_staked. wp_step. unfold wp at 1. by rewrite Ht.
Qed.
End reasons.

(** C15: after a governance record is applied, the status of every proposal has
    a reason: it is the one before; or this record proposed it, cancelled it as
    its proposer while it was active, or executed it when it had passed, its
    delay was over and its committee's verdict stood unchallenged; or it was
    open, its deadline is reached, and the status is the verdict of the votes
    it holds against the governance stake of the ledger. *)
Theorem status_changes_justified `{HF : FloatText} record op creator s s' pid p' :
  apply_governance_op record op creator s = (Ok tt, s') →
  proposals (governance s') !! pid = Some p' →
  justified record op creator (stakes (base s)) (governance s) pid p'.
Proof.
  intros HA. assert (W : wp (apply_governance_op record op creator) (fun o s' => o = Ok tt →
    ∀ pid p', proposals (governance s') !! pid = Some p' → justified record op creator (stakes (base s)) (governance s) pid p') s);
    [|unfold wp in W; rewrite HA in W; by apply W].
  clear. unfold apply_governance_op. wp_step. wp_step. apply wp_if; intros _.
  { wp_step. intros _ pid p' H. apply by_record. by eapply explained_same. }
  wp_step. wp_step; [|done]. wp_step. apply wp_zoom. eapply wp_mono; [apply body_explained|].
  intros [[]| |] s1 H1; [|done..]. wp_step. apply wp_zoom. eapply wp_mono; [by apply settle_overdue_justified, H1|].
  intros [[]| |] s2 H2; [|done..]. unfold governance_tail. repeat wp_step; [|done]. by apply H2.
Qed.

Module GovernanceExamples.
#[local] Instance no_floats : FloatText := {| parse_f64 := fun _ => None; display_f64 := fun _ => "" |}.
Definition governance_stakes : gmap string StakeEntry :=
  {[ "s1" := mkStake "s1" 900000000000 StakePurpose.Governance "alice" f64_0 true;
     "s2" := mkStake "s2" 100000000000 StakePurpose.Governance "bob" f64_0 true;
     "s3" := mkStake "s3" 100000000000 StakePurpose.Governance "carol" f64_0 true ]}.
Definition before : GovLedger :=
  mkGovLedger (ledger_new <| stakes := governance_stakes |>)
    (TallyExamples.with_proposal (TallyExamples.proposal_with TallyExamples.contested)).
(** Bob's delegation, a fortnight after the proposal, settles it. *)
Definition delegation : ValidationRecord :=
  mkRecord "r" (TallyExamples.day 14) [] None None ∅ (repeat x00 32).
Definition after : GovLedger := (apply_governance_op delegation (Delegate "alice") "bob" before).2.

Lemma status_changes_justified_witness :
  ∃ p', proposals (governance after) !! "p" = Some p' ∧ pr_status p' = ProposalStatus.Passed ∧
    justified delegation (Delegate "alice") "bob" governance_stakes (governance before) "p" p'.
Proof.
  destruct (proposals (governance after) !! "p") as [p'|] eqn:E; [|exfalso; revert E; clear; by vm_compute].
  exists p'. split; [done|]. split.
  - assert (H : pr_status <$> proposals (governance after) !! "p" = Some ProposalStatus.Passed) by (clear; by vm_compute).
    rewrite E in H. by injection H.
  - apply (status_changes_justified delegation (Delegate "alice") "bob" before after); [clear; by vm_compute|exact E].
Defined.

(** Nothing ties a passed proposal to the parameter it was voted on: the record
    that executes it names the parameter and the value, and any identity that
    is not a classified exchange may send it. *)
Definition passed : GovLedger :=
  before <| governance := TallyExamples.with_proposal
    (TallyExamples.proposal_with TallyExamples.contested
      <| pr_title := "lower the witness reward" |> <| pr_status := ProposalStatus.Passed |>
      <| pr_passed_at := Some f64_0 |>) |>.
Definition hijack : ValidationRecord :=
  mkRecord "x" (TallyExamples.day 60) [] None None
    {[ "governance_param_name" := JString "stake_throughput_ratio"; "governance_param_value" := JString "1" ]}
    (repeat x00 32).
Example executor_chooses_the_parameter :
  let '(o, s) := apply_governance_op hijack (Execute "p") "mallory" passed in
  o = Ok tt ∧ stake_throughput_ratio (params (governance s)) = 1 ∧
  stake_throughput_ratio (params (governance passed)) ≠ 1.
Proof. by vm_compute. Qed.

(** A proposal's execution installs [NaN] as the interval of the epochs, whose hard
    limits are to be positive and at most an hour. *)
Definition unlimited : ValidationRecord :=
  mkRecord "x" (TallyExamples.day 60) [] None None
    {[ "governance_param_name" := JString "epoch_seal_interval_secs"; "governance_param_value" := JString "NaN" ]}
    (repeat x00 32).
Theorem nan_installed nan :
  f64_is_nan nan = true →
  let text : FloatText := {| parse_f64 := fun s => if decide (s = "NaN") then Some nan else None; display_f64 := fun _ => "" |} in
  let '(o, s) := apply_governance_op (HF := text) unlimited (Execute "p") "mallory" passed in
  o = Ok tt ∧ epoch_seal_interval_secs (params (governance s)) = nan.
Proof. intros Hn. destruct nan; try discriminate Hn. clear. by vm_compute. Qed.

(** A challenge leaves the deadline where it was: the next governance record
    settles the proposal without a vote. *)
Definition challenged : GovLedger :=
  let p := TallyExamples.proposal_with []
    <| pr_status := ProposalStatus.Passed |> <| pr_passed_at := Some (TallyExamples.day 14) |>
    <| pr_committee := Some (mkCommittee ["carol"] "seed" false f64_0 (Some (TallyExamples.day 21)) None) |> in
  let g := TallyExamples.with_proposal p in
  before <| governance := (challenge_committee "p" "mallory" MIN_PROPOSAL_STAKE (TallyExamples.day 15) g).2 |>.
Definition later : ValidationRecord := mkRecord "l" (TallyExamples.day 15) [] None None ∅ (repeat x00 32).
Example challenge_expires_at_once :
  pr_status <$> proposals (governance challenged) !! "p" = Some ProposalStatus.Active ∧
  pr_status <$> proposals (governance (apply_governance_op later (Delegate "alice") "bob" challenged).2) !! "p"
    = Some ProposalStatus.Expired.
Proof. by vm_compute. Qed.
End GovernanceExamples.
